(** * RailJS: the event bus of [rail.js], embedded and verified

    The development follows the class [Rail] of the repository: the deep
    clone engine ([_deepClone]), the listener registry ([on], [off]), the
    module lifecycle ([attach], [detach]), the emission engine ([emit],
    [emitAsync]) and the diagnostics ([getHistory], [waitFor]).

    JavaScript objects live in an explicit heap, so that sharing between a
    payload and its clone, and between the listener array an emission
    iterates and the array [on] pushes to, is visible in the model. *)

From Stdlib Require Import ZArith Lia.
From stdpp Require Import base option list gmap strings.

Open Scope string_scope.
Open Scope list_scope.
Open Scope nat_scope.

Set Warnings "-register-all".

(** ** JavaScript values and the heap *)

Abbreviation loc := nat.

(** A value is a primitive or a reference to a heap cell. *)
Inductive val :=
| VUndef
| VNull
| VBool (b : bool)
| VNum (n : Z)
| VStr (s : string)
| VRef (l : loc).

(** The kinds of objects [_deepClone] tells apart.  A [CObj] is an object
    whose prototype is [Object.prototype]; [props] are its own enumerable
    properties in enumeration order. *)
Inductive cell :=
| CDate (time : Z)
| CArr (items : list val)
| CRegExp (source flags : string) (lastIndex : Z)
| CObj (props : list (string * val)).

Abbreviation heap := (list cell).

#[global] Instance val_eq_dec : EqDecision val.
Proof. solve_decision. Defined.

#[global] Instance cell_eq_dec : EqDecision cell.
Proof. solve_decision. Defined.

(** What a [throw] carries, seen through the only use the bus makes of
    it, the expression [error.message]:
    - [TError msg]: an [Error] (or any object) whose [message] is [msg];
    - [TOther]: a value whose [message] is [undefined] ([throw 42]);
    - [TNullish]: [throw null], on which reading [.message] itself
      raises a [TypeError]; [throw undefined] does the same, with its
      own word in the text of that error, and is not told apart.
    A thrown object whose [message] is an accessor that runs code of
    its own is outside the model. *)
Inductive thrown :=
| TError (msg : string)
| TOther
| TNullish.

#[global] Instance thrown_eq_dec : EqDecision thrown.
Proof. solve_decision. Defined.

(** Results of running JavaScript code over a state of type [S]: normal
    completion, an exception, or [Fuel]: the calls nested deeper than
    the bound given.  A JavaScript engine has such a bound too, its call
    stack, and throws a [RangeError] when it is reached; what a run
    does from there on depends on the engine and is not followed here.
    So a result [Ok] or [Throw] describes a run that stays within the
    call stack, a statement about every result says nothing of a run
    that overflows it, and [Fuel] for every bound means that the
    nesting never ends. *)
Inductive result (S A : Type) :=
| Ok (a : A) (s : S)
| Throw (t : thrown) (s : S)
| Fuel.
Arguments Ok {S A} a s.
Arguments Throw {S A} t s.
Arguments Fuel {S A}.

(** [new ...] and the literals [{}] and [[]]: the next free address. *)
Definition alloc (h : heap) (c : cell) : loc * heap := (length h, h ++ [c]).

(** ** Deep Clone Engine *)

Definition has_key (k : string) (props : list (string * val)) : bool :=
  bool_decide (k ∈ props.*1).

(** [cloned[key] = v] on an object with prototype [Object.prototype].
    The key ["__proto__"] reaches the accessor of the prototype, so no own
    property is created (the prototype slot is not part of the model). *)
Fixpoint assign (k : string) (v : val) (props : list (string * val))
  : list (string * val) :=
  match props with
  | [] => [(k, v)]
  | (k', v') :: rest =>
      if decide (k' = k) then (k, v) :: rest else (k', v') :: assign k v rest
  end.

Definition set_prop (h : heap) (l : loc) (k : string) (v : val) : heap :=
  match h !! l with
  | Some (CObj props) =>
      if decide (k = "__proto__") then h else <[l := CObj (assign k v props)]> h
  | _ => h
  end.

Definition not_a_function : thrown :=
  TError "obj.hasOwnProperty is not a function".

Section clone_loops.
  (** The recursive call [this._deepClone(...)]. *)
Variable rec : heap -> val -> result heap val.

  (** [obj.map((item) => this._deepClone(item))] *)
Fixpoint clone_items (h : heap) (items : list val) : result heap (list val) :=
    match items with
    | [] => Ok [] h
    | x :: rest =>
        match rec h x with
        | Ok x' h1 =>
            match clone_items h1 rest with
            | Ok rest' h2 => Ok (x' :: rest') h2
            | Throw t h2 => Throw t h2
            | Fuel => Fuel
            end
        | Throw t h1 => Throw t h1
        | Fuel => Fuel
        end
    end.

  (** [for (const key in obj) if (obj.hasOwnProperty(key))
        cloned[key] = this._deepClone(obj[key])].
      [shadowed] tells that [obj] has an own property named
      [hasOwnProperty]: the method call then reaches that property, which
      is no function. *)
Fixpoint clone_props (shadowed : bool) (cloned : loc) (h : heap)
      (todo : list (string * val)) : result heap unit :=
    match todo with
    | [] => Ok () h
    | (k, v) :: rest =>
        if shadowed then Throw not_a_function h
        else
          match rec h v with
          | Ok v' h1 => clone_props shadowed cloned (set_prop h1 cloned k v') rest
          | Throw t h1 => Throw t h1
          | Fuel => Fuel
          end
    end.
End clone_loops.

(** [_deepClone(obj)].  The source object is only read: every write goes
    to a cell allocated by the call.  On a payload that contains itself
    the recursion never ends: [Fuel] for every bound (in an engine, the
    [RangeError] of the call stack).  A reference outside the heap does
    not occur in a run and gives no result. *)
Fixpoint _deepClone (fuel : nat) (h : heap) (obj : val) : result heap val :=
  match fuel with
  | 0 => Fuel
  | S n =>
      match obj with
      | VRef l =>
          match h !! l with
          | None => Fuel
          | Some (CDate time) =>
              let '(l', h') := alloc h (CDate time) in Ok (VRef l') h'
          | Some (CArr items) =>
              match clone_items (_deepClone n) h items with
              | Ok items' h1 =>
                  let '(l', h') := alloc h1 (CArr items') in Ok (VRef l') h'
              | Throw t h1 => Throw t h1
              | Fuel => Fuel
              end
          | Some (CRegExp source flags _) =>
              let '(l', h') := alloc h (CRegExp source flags 0) in Ok (VRef l') h'
          | Some (CObj props) =>
              let '(cloned, h0) := alloc h (CObj []) in
              match clone_props (_deepClone n)
                      (has_key "hasOwnProperty" props) cloned h0 props with
              | Ok _ h1 => Ok (VRef cloned) h1
              | Throw t h1 => Throw t h1
              | Fuel => Fuel
              end
          end
      | _ => Ok obj h
      end
  end.

(** *** Deep value equality

    The structure a value stands for, read off the heap: what a deep
    comparison of two payloads compares.  A regular expression counts by
    its pattern and flags. *)
Inductive tree :=
| TPrim (v : val)
| TDate (time : Z)
| TArr (items : list tree)
| TRegExp (source flags : string)
| TObj (props : list (string * tree)).

Section reify_loops.
Variable rec : val -> option tree.

Fixpoint reify_items (items : list val) : option (list tree) :=
    match items with
    | [] => Some []
    | x :: rest =>
        match rec x, reify_items rest with
        | Some t, Some ts => Some (t :: ts)
        | _, _ => None
        end
    end.

Fixpoint reify_props (props : list (string * val))
    : option (list (string * tree)) :=
    match props with
    | [] => Some []
    | (k, v) :: rest =>
        match rec v, reify_props rest with
        | Some t, Some ts => Some ((k, t) :: ts)
        | _, _ => None
        end
    end.
End reify_loops.

(** [reify depth h v]: the tree below [v], when it is at most [depth]
    deep (so: acyclic) and every reference is inside the heap. *)
Fixpoint reify (depth : nat) (h : heap) (v : val) : option tree :=
  match depth with
  | 0 => None
  | S n =>
      match v with
      | VRef l =>
          match h !! l with
          | None => None
          | Some (CDate time) => Some (TDate time)
          | Some (CArr items) => TArr <$> reify_items (reify n h) items
          | Some (CRegExp source flags _) => Some (TRegExp source flags)
          | Some (CObj props) => TObj <$> reify_props (reify n h) props
          end
      | _ => Some (TPrim v)
      end
  end.

(** Two payloads, each in its heap, are deeply value-equal. *)
Definition deep_equal (h1 : heap) (v1 : val) (h2 : heap) (v2 : val) : Prop :=
  exists depth t, reify depth h1 v1 = Some t /\ reify depth h2 v2 = Some t.

(** The keys of one object are pairwise distinct and none of them is
    [hasOwnProperty] or [__proto__]. *)
Definition plain_keys (props : list (string * val)) : bool :=
  bool_decide (NoDup props.*1)
  && negb (has_key "hasOwnProperty" props)
  && negb (has_key "__proto__" props).

(** [plain depth h v]: the payload below [v] is a finite tree of dates,
    arrays, regular expressions, primitives and objects with [plain_keys]. *)
Fixpoint plain (depth : nat) (h : heap) (v : val) : bool :=
  match depth with
  | 0 => false
  | S n =>
      match v with
      | VRef l =>
          match h !! l with
          | None => false
          | Some (CArr items) => forallb (plain n h) items
          | Some (CObj props) => plain_keys props && forallb (plain n h) props.*2
          | Some _ => true
          end
      | _ => true
      end
  end.

(** The addresses reachable from a value, down to [depth]. *)
Fixpoint reach (depth : nat) (h : heap) (v : val) : list loc :=
  match depth with
  | 0 => []
  | S n =>
      match v with
      | VRef l =>
          l :: match h !! l with
               | Some (CArr items) => concat (map (reach n h) items)
               | Some (CObj props) => concat (map (reach n h) props.*2)
               | _ => []
               end
      | _ => []
      end
  end.

(** ** Diagnostics: the history buffer *)

(** [Array.prototype.slice(start)] with the end left out. *)
Definition slice {A} (start : Z) (l : list A) : list A :=
  let len := Z.of_nat (length l) in
  let k := if (start <? 0)%Z then Z.max (len + start) 0 else Z.min start len in
  drop (Z.to_nat k) l.

(** [this.eventHistory.slice(-limit)], [limit] defaulting to 10. *)
Definition getHistory_of {A} (eventHistory : list A) (limit : option Z) : list A :=
  slice (- default 10%Z limit) eventHistory.

(** ** Handlers, modules and the bus

    A callback is JavaScript code of the caller.  The model gives it a
    small language of what such code does to the bus and to its argument:
    [body] is the part of the function that runs in the call itself (up to
    its first [await]), in which [data] is the argument and [rail] the bus.
    The callbacks of the model use the bus through [on], [off], [emit],
    [attach], [detach] and [setClone], write to their argument, throw
    and catch.  A callback that calls [clearHistory], [emitAsync],
    [waitFor] or [setDebug], or that writes to the fields of the bus
    itself, is outside the model: what is proved of every callback is
    proved of the callbacks of this language. *)

(** What the promise of an asynchronous handler does later. *)
Inductive settle :=
| Resolves (v : val)
| Rejects (t : thrown)
| Pending.

(** What a call gives back: a value, or a promise. *)
Inductive retval :=
| RVal (v : val)
| RPromise (o : settle).

(** The payload of a nested [rail.emit(event, payload)]. *)
Inductive payload :=
| PArg                                  (* the handler's own argument *)
| PVal (v : val)                        (* a value; [VUndef]: no payload *)
| PNew (props : list (string * val)).   (* an object literal *)

Inductive cmd :=
| CSkip
| CSeq (c1 c2 : cmd)
| CThrow (t : thrown)
| CTry (c handler : cmd)                (* try { c } catch { handler } *)
| CSetProp (k : string) (v : val)       (* if (data is an object) data[k] = v *)
| COn (event : string) (cb : option handler) (moduleName : option string)
| COff (event : string) (listenerId : nat)
| CEmit (event : string) (p : payload)
| CAttach (m : modarg)
| CDetach (moduleName : string)
| CSetClone (enabled : bool)
with handler :=
| Fn (async : bool) (body : cmd) (ret : retval)
    (* [async? (data) => { body; return ret }] *)
| WaitForCb (timer promise : nat) (event : string) (listenerId : nat)
    (* the callback [waitFor] registers *)
with modarg :=
| NotAnObject
| ModuleObj (name : option string) (connect disconnect : option handler).
    (* [name]: [None] when missing or not a string *)

(** [{ callback, module, id }] *)
Record listener := Listener {
  callback : handler;
  module : string;
  lid : nat;
}.

(** [{ event, data, timestamp }].  [h_seen] is ghost: the cell [data]
    referred to when the entry was pushed. *)
Record history_entry := HistoryEntry {
  h_event : string;
  h_data : val;
  h_timestamp : Z;
  h_seen : option cell;
}.

Inductive pstate :=
| PPending
| PFulfilled (v : val)
| PRejected (t : thrown).

(** A timer set by [waitFor]: on expiry it rejects [t_promise]. *)
Record timer := Timer {
  t_promise : nat;
  t_event : string;
  t_delay : Z;
}.

(** Ghost record of the turn of one listener in the emission numbered
    [t_emission]: the argument its callback was called with ([None] when
    preparing the argument threw), and what the [catch] block caught. *)
Record turn := Turn {
  t_emission : nat;
  t_listener : nat;
  t_arg : option val;
  t_threw : option thrown;
}.

(** The bus and the part of the JavaScript world it touches.
    [listeners] maps an event to the address of its listener array in
    [arrays]: [on] pushes to the array in place, [off] and [detach] store a
    new, filtered array.  The order of the keys of the two [Map]s is not
    kept. *)
Record Rail := MkRail {
  name : string;
  debug : bool;
  clone : bool;
  listeners : gmap string nat;
  modules : gmap string modarg;
  eventHistory : list history_entry;
  listenerIdCounter : nat;
  arrays : list (list listener);
  objects : list cell;
  now : Z;                          (* what [Date.now()] returns *)
  timers : list (option timer);
  promises : list pstate;
  unhandled : list thrown;          (* rejections of promises nobody holds *)
  emissions : nat;                  (* ghost: emissions started so far *)
  turns : list turn;                (* ghost: the turns taken so far *)
}.

Definition with_clone (b : bool) (s : Rail) : Rail :=
  MkRail (name s) (debug s) b (listeners s) (modules s) (eventHistory s)
    (listenerIdCounter s) (arrays s) (objects s) (now s) (timers s)
    (promises s) (unhandled s) (emissions s) (turns s).

Definition with_debug (b : bool) (s : Rail) : Rail :=
  MkRail (name s) b (clone s) (listeners s) (modules s) (eventHistory s)
    (listenerIdCounter s) (arrays s) (objects s) (now s) (timers s)
    (promises s) (unhandled s) (emissions s) (turns s).

Definition with_listeners (m : gmap string nat) (s : Rail) : Rail :=
  MkRail (name s) (debug s) (clone s) m (modules s) (eventHistory s)
    (listenerIdCounter s) (arrays s) (objects s) (now s) (timers s)
    (promises s) (unhandled s) (emissions s) (turns s).

Definition with_modules (m : gmap string modarg) (s : Rail) : Rail :=
  MkRail (name s) (debug s) (clone s) (listeners s) m (eventHistory s)
    (listenerIdCounter s) (arrays s) (objects s) (now s) (timers s)
    (promises s) (unhandled s) (emissions s) (turns s).

Definition with_eventHistory (hs : list history_entry) (s : Rail) : Rail :=
  MkRail (name s) (debug s) (clone s) (listeners s) (modules s) hs
    (listenerIdCounter s) (arrays s) (objects s) (now s) (timers s)
    (promises s) (unhandled s) (emissions s) (turns s).

Definition with_listenerIdCounter (n : nat) (s : Rail) : Rail :=
  MkRail (name s) (debug s) (clone s) (listeners s) (modules s) (eventHistory s)
    n (arrays s) (objects s) (now s) (timers s)
    (promises s) (unhandled s) (emissions s) (turns s).

Definition with_arrays (a : list (list listener)) (s : Rail) : Rail :=
  MkRail (name s) (debug s) (clone s) (listeners s) (modules s) (eventHistory s)
    (listenerIdCounter s) a (objects s) (now s) (timers s)
    (promises s) (unhandled s) (emissions s) (turns s).

Definition with_objects (h : list cell) (s : Rail) : Rail :=
  MkRail (name s) (debug s) (clone s) (listeners s) (modules s) (eventHistory s)
    (listenerIdCounter s) (arrays s) h (now s) (timers s)
    (promises s) (unhandled s) (emissions s) (turns s).

Definition with_timers (ts : list (option timer)) (s : Rail) : Rail :=
  MkRail (name s) (debug s) (clone s) (listeners s) (modules s) (eventHistory s)
    (listenerIdCounter s) (arrays s) (objects s) (now s) ts
    (promises s) (unhandled s) (emissions s) (turns s).

Definition with_promises (ps : list pstate) (s : Rail) : Rail :=
  MkRail (name s) (debug s) (clone s) (listeners s) (modules s) (eventHistory s)
    (listenerIdCounter s) (arrays s) (objects s) (now s) (timers s)
    ps (unhandled s) (emissions s) (turns s).

Definition with_unhandled (ts : list thrown) (s : Rail) : Rail :=
  MkRail (name s) (debug s) (clone s) (listeners s) (modules s) (eventHistory s)
    (listenerIdCounter s) (arrays s) (objects s) (now s) (timers s)
    (promises s) ts (emissions s) (turns s).

Definition with_emissions (n : nat) (s : Rail) : Rail :=
  MkRail (name s) (debug s) (clone s) (listeners s) (modules s) (eventHistory s)
    (listenerIdCounter s) (arrays s) (objects s) (now s) (timers s)
    (promises s) (unhandled s) n (turns s).

Definition with_turns (cs : list turn) (s : Rail) : Rail :=
  MkRail (name s) (debug s) (clone s) (listeners s) (modules s) (eventHistory s)
    (listenerIdCounter s) (arrays s) (objects s) (now s) (timers s)
    (promises s) (unhandled s) (emissions s) cs.

(** [options.name || 'rail-app']: a missing name and the empty string
    both give the default. *)
Definition name_or_default (o_name : option string) : string :=
  match o_name with
  | Some n => if decide (n = "") then "rail-app" else n
  | None => "rail-app"
  end.

(** [new Rail(options)]: [clone] is on unless [options.clone] says
    otherwise. *)
Definition new_Rail (o_name : option string) (o_debug o_clone : option bool)
    (time : Z) : Rail :=
  MkRail (name_or_default o_name) (default false o_debug)
    (default true o_clone) ∅ ∅ [] 0 [] [] time [] [] [] 0 [].

(** The listener array of an event, as the registry holds it now. *)
Definition listeners_of (s : Rail) (event : string) : list listener :=
  match listeners s !! event with
  | Some a => default [] (arrays s !! a)
  | None => []
  end.

(** ** Listener Registry *)

(** [on(event, callback, moduleName = 'anonymous')]; the result is the
    listener's id, which the unsubscribe function returned by the source
    closes over. *)
Definition on (event : string) (cb : option handler)
    (moduleName : option string) (s : Rail) : result Rail nat :=
  match cb with
  | None => Throw (TError "Callback must be a function") s
  | Some callback =>
      let '(a, s1) :=
        match listeners s !! event with
        | Some a => (a, s)
        | None =>
            let a := length (arrays s) in
            (a, with_listeners (<[event := a]> (listeners s))
                  (with_arrays (arrays s ++ [[]]) s))
        end in
      let listenerId := S (listenerIdCounter s1) in
      let record := Listener callback (default "anonymous" moduleName) listenerId in
      let pushed :=
        match arrays s1 !! a with
        | Some ls => <[a := ls ++ [record]]> (arrays s1)
        | None => arrays s1
        end in
      Ok listenerId (with_arrays pushed (with_listenerIdCounter listenerId s1))
  end.

(** What [off] and [detach] do with a filtered array: drop the event, or
    store the new array. *)
Definition store_filtered (event : string) (filtered : list listener)
    (s : Rail) : Rail :=
  if decide (length filtered = 0) then
    with_listeners (delete event (listeners s)) s
  else
    with_listeners (<[event := length (arrays s)]> (listeners s))
      (with_arrays (arrays s ++ [filtered]) s).

(** [off(event, listenerId)] *)
Definition off (event : string) (listenerId : nat) (s : Rail) : bool * Rail :=
  match listeners s !! event with
  | None => (false, s)
  | Some a =>
      let filtered :=
        filter (fun l => lid l <> listenerId) (default [] (arrays s !! a)) in
      (true, store_filtered event filtered s)
  end.

(** The loop of [detach] over [this.listeners]: every event's array is
    filtered by module name. *)
Definition remove_module_listeners (moduleName : string) (s : Rail) : Rail :=
  foldl (fun s '(event, a) =>
           store_filtered event
             (filter (fun l => module l <> moduleName)
                (default [] (arrays s !! a))) s)
    s (map_to_list (listeners s)).

(** ** Emission Engine *)

(** [error.message]: [None] when reading it raises a [TypeError]. *)
Definition message_of (t : thrown) : option val :=
  match t with
  | TError msg => Some (VStr msg)
  | TOther => Some VUndef
  | TNullish => None
  end.

(** The [TypeError] of that read, with the text V8 gives it for a
    thrown [null].  For a thrown [undefined] the text names [undefined]
    instead; the two are not told apart here. *)
Definition message_type_error : thrown :=
  TError "Cannot read properties of null (reading 'message')".

(** A message inside a template string. *)
Definition message_text (msg : val) : string :=
  match msg with
  | VStr m => m
  | _ => "undefined"
  end.

(** [{ module, event, error: error.message, timestamp }] *)
Definition error_data (module event : string) (msg : val) (timestamp : Z)
    : cell :=
  CObj [("module", VStr module); ("event", VStr event);
        ("error", msg); ("timestamp", VNum timestamp)].

(** The default parameter [data = {}]. *)
Definition default_data (data : val) (s : Rail) : val * Rail :=
  match data with
  | VUndef =>
      let '(l, h) := alloc (objects s) (CObj []) in (VRef l, with_objects h s)
  | _ => (data, s)
  end.

(** [this.clone ? this._deepClone(data) : data] *)
Definition clone_or_pass (fuel : nat) (data : val) (s : Rail) : result Rail val :=
  if clone s then
    match _deepClone fuel (objects s) data with
    | Ok v h => Ok v (with_objects h s)
    | Throw t h => Throw t (with_objects h s)
    | Fuel => Fuel
    end
  else Ok data s.

(** A promise the caller drops: if it rejects, nobody is told. *)
Definition note_discarded (r : retval) (s : Rail) : Rail :=
  match r with
  | RPromise (Rejects t) => with_unhandled (unhandled s ++ [t]) s
  | _ => s
  end.

Definition push_history (event : string) (data : val) (timestamp : Z)
    (s : Rail) : Rail :=
  let seen := match data with VRef l => objects s !! l | _ => None end in
  with_eventHistory (eventHistory s ++ [HistoryEntry event data timestamp seen]) s.

Definition log_turn (em : nat) (l : listener) (arg : option val)
    (threw : option thrown) (s : Rail) : Rail :=
  with_turns (turns s ++ [Turn em (lid l) arg threw]) s.

(** One element of the result of [emitAsync]. *)
Record entry := Entry {
  e_module : string;
  e_result : val;
  e_error : val;
}.

(** One of the asynchronous functions [emitAsync] maps the listeners to:
    returned its entry, suspended at [await callback(eventData)], or
    failed because its [catch] block threw. *)
Inductive unit_state :=
| Settled (e : entry)
| Awaiting (m : string) (o : settle)
| Broken (t : thrown).

Section array_loops.
Context {A : Type}.

  (** [listeners.forEach(f)] on the array at address [a]: the length is
      read once, before the loop; the elements are read from the array as
      it is when their turn comes.  [count] is [handledCount]. *)
Fixpoint forEach (f : listener -> A -> Rail -> result Rail A)
      (a : nat) (k todo : nat) (acc : A) (s : Rail) : result Rail A :=
    match todo with
    | 0 => Ok acc s
    | S todo' =>
        match arrays s !! a ≫= (.!! k) with
        | Some l =>
            match f l acc s with
            | Ok acc' s' => forEach f a (S k) todo' acc' s'
            | r => r
            end
        | None => forEach f a (S k) todo' acc s
        end
    end.
End array_loops.

Section engine.
  (** The re-entrant calls: [this.emit(...)] and the call of a callback. *)
Variable emit_ : string -> val -> Rail -> result Rail nat.
Variable call_ : handler -> val -> Rail -> result Rail retval.
  (** Fuel for [_deepClone]. *)
Variable fuel : nat.

  (** The body of both [catch] blocks: build [errorData], force cloning,
      emit [rail.error], restore the flag.  Gives [error.message]. *)
Definition report (module : string) (event : string) (timestamp : Z)
      (t : thrown) (s : Rail) : result Rail val :=
    match message_of t with
    | None => Throw message_type_error s
    | Some msg =>
        let '(errorData, h) :=
          alloc (objects s) (error_data module event msg timestamp) in
        let originalClone := clone s in
        match emit_ "rail.error" (VRef errorData)
                (with_clone true (with_objects h s)) with
        | Ok _ s' => Ok msg (with_clone originalClone s')
        | Throw t' s' => Throw t' s'
        | Fuel => Fuel
        end
    end.

  (** The arrow function [emit] passes to [forEach]. *)
Definition dispatch (em : nat) (event : string) (data : val) (timestamp : Z)
      (l : listener) (handledCount : nat) (s : Rail) : result Rail nat :=
    match clone_or_pass fuel data s with
    | Ok eventData s1 =>
        match call_ (callback l) eventData s1 with
        | Ok r s2 =>
            Ok (S handledCount)
              (log_turn em l (Some eventData) None (note_discarded r s2))
        | Throw t s2 =>
            match report (module l) event timestamp t
                    (log_turn em l (Some eventData) (Some t) s2) with
            | Ok _ s3 => Ok handledCount s3
            | Throw t' s3 => Throw t' s3
            | Fuel => Fuel
            end
        | Fuel => Fuel
        end
    | Throw t s1 =>
        match report (module l) event timestamp t
                (log_turn em l None (Some t) s1) with
        | Ok _ s3 => Ok handledCount s3
        | Throw t' s3 => Throw t' s3
        | Fuel => Fuel
        end
    | Fuel => Fuel
    end.

  (** [emit(event, data = {})] *)
Definition emit_body (event : string) (data : val) (s : Rail)
      : result Rail nat :=
    let timestamp := now s in
    let '(data, s) := default_data data s in
    let em := emissions s in
    let s := with_emissions (S em) (push_history event data timestamp s) in
    match listeners s !! event with
    | None => Ok 0 s
    | Some a =>
        forEach (dispatch em event data timestamp) a 0
          (length (default [] (arrays s !! a))) 0 s
    end.

  (** The [catch] block of [emitAsync]; a throw inside it rejects the
      promise of the asynchronous function. *)
Definition report_async (module : string) (event : string) (timestamp : Z)
      (t : thrown) (s : Rail) : result Rail unit_state :=
    match report module event timestamp t s with
    | Ok msg s' => Ok (Settled (Entry module VNull msg)) s'
    | Throw t' s' => Ok (Broken t') s'
    | Fuel => Fuel
    end.

  (** The asynchronous arrow function of [emitAsync], run up to its
      [await]. *)
Definition start_unit (em : nat) (event : string) (data : val) (timestamp : Z)
      (l : listener) (units : list unit_state) (s : Rail)
      : result Rail (list unit_state) :=
    let finish (r : result Rail unit_state) :=
      match r with
      | Ok u s' => Ok (units ++ [u]) s'
      | Throw t s' => Throw t s'
      | Fuel => Fuel
      end in
    match clone_or_pass fuel data s with
    | Ok eventData s1 =>
        match call_ (callback l) eventData s1 with
        | Ok r s2 =>
            Ok (units ++ [Awaiting (module l)
                            match r with
                            | RVal v => Resolves v
                            | RPromise o => o
                            end])
              (log_turn em l (Some eventData) None s2)
        | Throw t s2 =>
            finish (report_async (module l) event timestamp t
                      (log_turn em l (Some eventData) (Some t) s2))
        | Fuel => Fuel
        end
    | Throw t s1 =>
        finish (report_async (module l) event timestamp t
                  (log_turn em l None (Some t) s1))
    | Fuel => Fuel
    end.

  (** [attach(module)] *)
Definition attach_ (m : modarg) (s : Rail) : result Rail unit :=
    match m with
    | NotAnObject => Throw (TError "Module must be an object") s
    | ModuleObj None _ _ => Throw (TError "Module must have a name property") s
    | ModuleObj (Some nm) connect _ =>
        if decide (nm = "") then
          Throw (TError "Module must have a name property") s
        else if decide (is_Some (modules s !! nm)) then
          Throw (TError ("Module '" +:+ nm +:+ "' is already attached")) s
        else
          let s1 := with_modules (<[nm := m]> (modules s)) s in
          let announce (s : Rail) :=
            let '(l, h) := alloc (objects s) (CObj [("moduleName", VStr nm)]) in
            match emit_ "rail.module.attached" (VRef l) (with_objects h s) with
            | Ok _ s' => Ok () s'
            | Throw t s' => Throw t s'
            | Fuel => Fuel
            end in
          match connect with
          | Some h =>
              match call_ h VUndef s1 with
              | Ok r s2 => announce (note_discarded r s2)
              | Throw t s2 =>
                  let s3 := with_modules (delete nm (modules s2)) s2 in
                  match message_of t with
                  | None => Throw message_type_error s3
                  | Some msg =>
                      Throw (TError ("Failed to connect module '" +:+ nm
                                       +:+ "': " +:+ message_text msg)) s3
                  end
              | Fuel => Fuel
              end
          | None => announce s1
          end
    end.

  (** [detach(moduleName)] *)
Definition detach_ (moduleName : string) (s : Rail) : result Rail bool :=
    match modules s !! moduleName with
    | None => Ok false s
    | Some m =>
        let s1 := remove_module_listeners moduleName s in
        let finish (s : Rail) :=
          let s := with_modules (delete moduleName (modules s)) s in
          let '(l, h) :=
            alloc (objects s) (CObj [("moduleName", VStr moduleName)]) in
          match emit_ "rail.module.detached" (VRef l) (with_objects h s) with
          | Ok _ s' => Ok true s'
          | Throw t s' => Throw t s'
          | Fuel => Fuel
          end in
        match m with
        | ModuleObj _ _ (Some h) =>
            match call_ h VUndef s1 with
            | Ok r s2 => finish (note_discarded r s2)
            | Throw _ s2 => finish s2
            | Fuel => Fuel
            end
        | _ => finish s1
        end
    end.

Definition eval_payload (p : payload) (data : val) (s : Rail) : val * Rail :=
    match p with
    | PArg => (data, s)
    | PVal v => (v, s)
    | PNew props =>
        let '(l, h) := alloc (objects s) (CObj props) in (VRef l, with_objects h s)
    end.

  (** Running the body of a callback whose argument is [data]. *)
Fixpoint exec (c : cmd) (data : val) (s : Rail) : result Rail unit :=
    match c with
    | CSkip => Ok () s
    | CSeq c1 c2 =>
        match exec c1 data s with
        | Ok _ s' => exec c2 data s'
        | r => r
        end
    | CThrow t => Throw t s
    | CTry c handler =>
        match exec c data s with
        | Throw _ s' => exec handler data s'
        | r => r
        end
    | CSetProp k v =>
        match data with
        | VRef l => Ok () (with_objects (set_prop (objects s) l k v) s)
        | _ => Ok () s
        end
    | COn event cb moduleName =>
        match on event cb moduleName s with
        | Ok _ s' => Ok () s'
        | Throw t s' => Throw t s'
        | Fuel => Fuel
        end
    | COff event listenerId => Ok () (off event listenerId s).2
    | CEmit event p =>
        let '(d, s1) := eval_payload p data s in
        match emit_ event d s1 with
        | Ok _ s' => Ok () s'
        | Throw t s' => Throw t s'
        | Fuel => Fuel
        end
    | CAttach m => attach_ m s
    | CDetach moduleName =>
        match detach_ moduleName s with
        | Ok _ s' => Ok () s'
        | Throw t s' => Throw t s'
        | Fuel => Fuel
        end
    | CSetClone enabled => Ok () (with_clone enabled s)
    end.

Definition clearTimeout (tid : nat) (s : Rail) : Rail :=
    with_timers (<[tid := None]> (timers s)) s.

  (** [resolve(v)] and [reject(t)] of a promise: only a pending promise
      changes. *)
Definition settle_promise (p : nat) (o : pstate) (s : Rail) : Rail :=
    match promises s !! p with
    | Some PPending => with_promises (<[p := o]> (promises s)) s
    | _ => s
    end.

  (** Calling a callback. An asynchronous function never throws: what its
      body throws rejects the promise it returns. *)
Definition call_body (h : handler) (arg : val) (s : Rail)
      : result Rail retval :=
    match h with
    | Fn async body ret =>
        match exec body arg s with
        | Ok _ s' =>
            Ok (if async then
                  match ret with
                  | RVal v => RPromise (Resolves v)
                  | RPromise o => RPromise o
                  end
                else ret) s'
        | Throw t s' => if async then Ok (RPromise (Rejects t)) s' else Throw t s'
        | Fuel => Fuel
        end
    | WaitForCb tid p event listenerId =>
        let s1 := clearTimeout tid s in
        let s2 := (off event listenerId s1).2 in
        Ok (RVal VUndef) (settle_promise p (PFulfilled arg) s2)
    end.
End engine.

(** The knot: a call of [emit] or of a callback made with [S n] units of
    fuel makes its own re-entrant calls with [n]. *)
Fixpoint emit (fuel : nat) (event : string) (data : val) (s : Rail)
    {struct fuel} : result Rail nat :=
  match fuel with
  | 0 => Fuel
  | S n => emit_body (emit n) (call n) n event data s
  end
with call (fuel : nat) (h : handler) (arg : val) (s : Rail)
    {struct fuel} : result Rail retval :=
  match fuel with
  | 0 => Fuel
  | S n => call_body (emit n) (call n) h arg s
  end.

Definition attach (fuel : nat) : modarg -> Rail -> result Rail unit :=
  attach_ (emit fuel) (call fuel).

Definition detach (fuel : nat) : string -> Rail -> result Rail bool :=
  detach_ (emit fuel) (call fuel).

(** *** [emitAsync] *)

(** The promise [emitAsync] returns, that is [Promise.all(promises)]. *)
Inductive all_state :=
| AllPending
| AllFulfilled (results : list entry)
| AllRejected (t : thrown).

(** An [emitAsync] in flight. *)
Record async_emission := AsyncEmission {
  ae_event : string;
  ae_timestamp : Z;
  ae_units : list unit_state;
  ae_promise : all_state;
}.

Fixpoint all_settled (units : list unit_state) : option (list entry) :=
  match units with
  | [] => Some []
  | Settled e :: rest => (e ::.) <$> all_settled rest
  | _ :: _ => None
  end.

Fixpoint first_broken (units : list unit_state) : option thrown :=
  match units with
  | [] => None
  | Broken t :: _ => Some t
  | _ :: rest => first_broken rest
  end.

(** [Promise.all]: rejected as soon as one promise is, fulfilled with
    the results in the order of the array once all are. *)
Definition promise_all (units : list unit_state) : all_state :=
  match first_broken units with
  | Some t => AllRejected t
  | None =>
      match all_settled units with
      | Some results => AllFulfilled results
      | None => AllPending
      end
  end.

(** [emitAsync(event, data = {})] up to [await Promise.all(promises)]:
    every callback has been called, none of the awaited results has been
    delivered yet. *)
Definition emitAsync (fuel : nat) (event : string) (data : val) (s : Rail)
    : result Rail async_emission :=
  match fuel with
  | 0 => Fuel
  | S n =>
      let timestamp := now s in
      let '(data, s) := default_data data s in
      let em := emissions s in
      let s := with_emissions (S em) (push_history event data timestamp s) in
      let units :=
        match listeners s !! event with
        | None => Ok [] s
        | Some a =>
            forEach (start_unit (emit n) (call n) n em event data timestamp)
              a 0 (length (default [] (arrays s !! a))) [] s
        end in
      match units with
      | Ok us s' => Ok (AsyncEmission event timestamp us (promise_all us)) s'
      | Throw t s' => Throw t s'
      | Fuel => Fuel
      end
  end.

(** The awaited result of unit [k] arrives: the asynchronous function
    resumes, returns its entry or runs its [catch] block.  Nothing happens
    for a unit that is not waiting or whose promise never settles. *)
Definition settle_unit (fuel : nat) (k : nat) (ae : async_emission) (s : Rail)
    : result Rail async_emission :=
  let resumed (u : unit_state) (s' : Rail) :=
    let units := <[k := u]> (ae_units ae) in
    let p :=
      match ae_promise ae with
      | AllPending =>
          match u with
          | Broken t => AllRejected t
          | _ =>
              match all_settled units with
              | Some results => AllFulfilled results
              | None => AllPending
              end
          end
      | p => p
      end in
    Ok (AsyncEmission (ae_event ae) (ae_timestamp ae) units p) s' in
  match ae_units ae !! k with
  | Some (Awaiting m (Resolves v)) => resumed (Settled (Entry m v VNull)) s
  | Some (Awaiting m (Rejects t)) =>
      match report_async (emit fuel) m (ae_event ae) (ae_timestamp ae) t s with
      | Ok u s' => resumed u s'
      | Throw t' s' => Throw t' s'
      | Fuel => Fuel
      end
  | _ => Ok ae s
  end.

(** The awaited results arrive in the order [schedule]. *)
Fixpoint settle_all (fuel : nat) (schedule : list nat) (ae : async_emission)
    (s : Rail) : result Rail async_emission :=
  match schedule with
  | [] => Ok ae s
  | k :: rest =>
      match settle_unit fuel k ae s with
      | Ok ae' s' => settle_all fuel rest ae' s'
      | r => r
      end
  end.

(** ** Diagnostics *)

(** [Array.from(this.modules.keys())]: the names of the attached
    modules.  The code lists them in the order of attachment; the state
    does not keep that order (see [Rail]), so only the members and the
    length of this list mean something. *)
Definition getModules (s : Rail) : list string := (map_to_list (modules s)).*1.

(** The plain object [getEvents] builds: its own properties, and the
    array that has become its prototype, if any. *)
Record events_object := EventsObject {
  ev_props : gmap string (list string);
  ev_proto : option (list string);
}.

(** [listeners.map((l) => l.module)], for every event of the registry. *)
Definition event_names (s : Rail) : gmap string (list string) :=
  (fun a => map module (default [] (arrays s !! a))) <$> listeners s.

(** [getEvents()].  [events[event] = names] creates an own property,
    except for the event named [__proto__]: that assignment runs the
    setter of [Object.prototype], which makes the array the prototype
    of [events] and creates no property. *)
Definition getEvents (s : Rail) : events_object :=
  EventsObject (delete "__proto__" (event_names s))
    (event_names s !! "__proto__").

Definition getHistory (limit : option Z) (s : Rail) : list history_entry :=
  getHistory_of (eventHistory s) limit.

Definition clearHistory (s : Rail) : Rail := with_eventHistory [] s.

Definition setDebug (enabled : bool) (s : Rail) : Rail := with_debug enabled s.

Definition setClone (enabled : bool) (s : Rail) : Rail := with_clone enabled s.

Record stats := Stats {
  st_name : string;
  st_modules : nat;
  st_events : nat;
  st_totalListeners : nat;
  st_eventsEmitted : nat;
}.

Definition getStats (s : Rail) : stats :=
  Stats (name s) (size (modules s)) (size (listeners s))
    (foldr (fun '(_, a) sum => sum + length (default [] (arrays s !! a))) 0
       (map_to_list (listeners s)))
    (length (eventHistory s)).

(** [waitFor(event, timeout = 5000)]: the executor of the promise sets the
    timer, then registers the callback.  Gives the promise. *)
Definition waitFor (event : string) (timeout : option Z) (s : Rail)
    : result Rail nat :=
  let p := length (promises s) in
  let s := with_promises (promises s ++ [PPending]) s in
  let tid := length (timers s) in
  let s := with_timers (timers s ++ [Some (Timer p event (default 5000%Z timeout))]) s in
  match on event (Some (WaitForCb tid p event (S (listenerIdCounter s))))
          (Some "wait-for") s with
  | Ok _ s' => Ok p s'
  | Throw t s' => Throw t s'
  | Fuel => Fuel
  end.

(** The timer [tid] expires: its callback runs, unless it was cleared. *)
Definition fire_timer (tid : nat) (s : Rail) : Rail :=
  match timers s !! tid with
  | Some (Some tm) =>
      settle_promise (t_promise tm)
        (PRejected (TError ("Timeout waiting for event '" +:+ t_event tm +:+ "'")))
        (with_timers (<[tid := None]> (timers s)) s)
  | _ => s
  end.

(** ** Notions used in the statements *)

(** [grows h h']: [h'] has every cell of [h], unchanged, and maybe more. *)
Definition grows (h h' : heap) : Prop :=
  length h <= length h' /\ forall l, l < length h -> h' !! l = h !! l.

(** The statement proved of [_deepClone] at one depth; the lemmas on
    its loops take it as their hypothesis on the recursive call. *)
Definition clone_ok (n : nat) : Prop :=
  forall h v, plain n h v = true ->
    exists v' h', _deepClone n h v = Ok v' h'
      /\ grows h h'
      /\ reify n h' v' = reify n h v
      /\ (forall l, l ∈ reach n h' v' -> length h <= l < length h').

(** Every event of the registry has its array in the store. *)
Definition wf_registry (s : Rail) : Prop :=
  forall event a, listeners s !! event = Some a -> a < length (arrays s).

(** What holds of the state a call leaves behind, whether it returns or
    throws. *)
Definition post {A} (R : Rail -> Rail -> Prop) (s : Rail)
    (r : result Rail A) : Prop :=
  match r with
  | Ok _ s' | Throw _ s' => R s s'
  | Fuel => True
  end.

(** The state [emit] dispatches from: default payload set, history
    pushed, emission counted. *)
Definition emit_started (event : string) (data : val) (s : Rail) : val * Rail :=
  let '(data', s1) := default_data data s in
  (data', with_emissions (S (emissions s1)) (push_history event data' (now s) s1)).

(** [evolves s s']: how the engine changes the parts of the state that
    only grow.  A listener array, once stored, is only ever pushed to;
    the history, the unhandled rejections and the turn log are only
    appended to. *)
Definition evolves (s s' : Rail) : Prop :=
  (forall a ls, arrays s !! a = Some ls ->
     exists more, arrays s' !! a = Some (ls ++ more))
  /\ eventHistory s `prefix_of` eventHistory s'
  /\ unhandled s `prefix_of` unhandled s'
  /\ turns s `prefix_of` turns s'
  /\ emissions s <= emissions s'.

(** [turns_from e s s']: the turns logged between [s] and [s'] belong to
    emissions numbered from [e] on, all of them started by then. *)
Definition turns_from (e : nat) (s s' : Rail) : Prop :=
  emissions s <= emissions s'
  /\ exists new, turns s' = turns s ++ new
       /\ Forall (fun c => e <= t_emission c < emissions s') new.

(** The turns of the emission numbered [em] in a piece of the log. *)
Definition turns_of (em : nat) (log : list turn) : list turn :=
  filter (fun c => t_emission c = em) log.

(** A [rail.error] event was emitted whose payload, at that moment, was
    [{ module, event, error: msg, timestamp }]. *)
Definition reported (module event : string) (msg : val) (timestamp : Z)
    (s : Rail) : Prop :=
  exists entry, entry ∈ eventHistory s
    /\ h_event entry = "rail.error"
    /\ h_seen entry = Some (error_data module event msg timestamp).

(** The callback of a turn was called, or it was not because cloning
    the payload threw. *)
Definition called_or_clone_failed (c : turn) : Prop :=
  t_arg c = None -> t_threw c = Some not_a_function.

(** What the turn [c] of listener [l] looks like after an emission of
    [event] that returned: the callback was called and returned, or
    something was thrown (by the callback, or by the cloning of the
    payload before the callback was called), it had a message, and it
    was reported. *)
Definition turn_settled (event : string) (timestamp : Z) (s' : Rail)
    (l : listener) (c : turn) : Prop :=
  t_listener c = lid l
  /\ called_or_clone_failed c
  /\ match t_threw c with
     | None => is_Some (t_arg c)
     | Some t =>
         exists msg, message_of t = Some msg
           /\ reported (module l) event msg timestamp s'
     end.

(** The argument a callback is called with, given what preparing it
    gave. *)
Definition passed_arg (r : result Rail val) : option val :=
  match r with
  | Ok arg _ => Some arg
  | _ => None
  end.

(** The turn [c] was logged between [s] and [s']. *)
Definition added (s s' : Rail) (c : turn) : Prop :=
  exists new, turns s' = turns s ++ new /\ c ∈ new.

(** *** Callbacks that only return or throw

    [leaf c]: the body does nothing to the bus; it returns, or throws
    something that has a message.  [silent c]: it returns. *)
Fixpoint leaf (c : cmd) : bool :=
  match c with
  | CSkip => true
  | CSeq c1 c2 => leaf c1 && leaf c2
  | CThrow t => negb (bool_decide (t = TNullish))
  | _ => false
  end.

Fixpoint silent (c : cmd) : bool :=
  match c with
  | CSkip => true
  | CSeq c1 c2 => silent c1 && silent c2
  | _ => false
  end.

Definition leaf_listener (l : listener) : Prop :=
  exists async body ret, callback l = Fn async body ret /\ leaf body = true.

Definition silent_listener (l : listener) : Prop :=
  exists async body ret, callback l = Fn async body ret /\ silent body = true.

(** The payload is [undefined] (so [emit] makes it [{}]) or a finite
    structure at most [depth] deep. *)
Definition finite_payload (depth : nat) (s : Rail) (data : val) : Prop :=
  data = VUndef \/ is_Some (reify depth (objects s) data).

(** Between [s0] and [s] the registry was left alone and the heap only
    grew. *)
Definition quiet_run (s0 s : Rail) : Prop :=
  listeners s = listeners s0 /\ arrays s = arrays s0
  /\ grows (objects s0) (objects s).

(** The promise a call leaves in the hands of its caller: an
    asynchronous function wraps what it returns. *)
Definition promised (ret : retval) : settle :=
  match ret with
  | RVal v => Resolves v
  | RPromise o => o
  end.

(** The rejection, if any, of such a promise. *)
Definition rejection (o : settle) : list thrown :=
  match o with
  | Rejects t => [t]
  | _ => []
  end.

(** *** Asynchronous emissions in flight *)

(** The entry of a listener: its module, and a result or an error. *)
Definition entry_of (l : listener) (e : entry) : Prop :=
  e_module e = module l /\ (e_error e = VNull \/ e_result e = VNull).

(** What the unit of listener [l] can be. *)
Definition unit_of (l : listener) (u : unit_state) : Prop :=
  match u with
  | Settled e => entry_of l e
  | Awaiting m _ => m = module l
  | Broken t => t = message_type_error
  end.

(** The promise of [emitAsync] follows its units: pending while none has
    failed and some is not settled, fulfilled with the entries in the
    order of the units once all are settled, rejected only by a unit
    that failed. *)
Definition promise_follows (ae : async_emission) : Prop :=
  match ae_promise ae with
  | AllPending =>
      all_settled (ae_units ae) = None /\ first_broken (ae_units ae) = None
  | AllFulfilled results => all_settled (ae_units ae) = Some results
  | AllRejected t => Broken t ∈ ae_units ae
  end.

(** [tracks snapshot ae]: unit [i] belongs to listener [i] of the
    snapshot, and the promise follows the units. *)
Definition tracks (snapshot : list listener) (ae : async_emission) : Prop :=
  Forall2 unit_of snapshot (ae_units ae) /\ promise_follows ae.

(** A listener that returns or throws something with a message, and
    whose promise, if it returns one, settles, a rejection having a
    message too. *)
Definition settling_listener (l : listener) : Prop :=
  exists async body ret,
    callback l = Fn async body ret /\ leaf body = true
    /\ promised ret <> Pending /\ promised ret <> Rejects TNullish.

(** A unit that is settled or will settle. *)
Definition unit_settles (u : unit_state) : Prop :=
  match u with
  | Settled _ => True
  | Awaiting _ (Resolves _) => True
  | Awaiting _ (Rejects t) => t <> TNullish
  | _ => False
  end.

(** *** Dispatch over a copy

    The emission engine as the specification words it: the listener list
    of the event is copied when the emission starts, and the copy is
    what the loop goes through. *)
Fixpoint dispatch_all {A} (f : listener -> A -> Rail -> result Rail A)
    (snapshot : list listener) (acc : A) (s : Rail) : result Rail A :=
  match snapshot with
  | [] => Ok acc s
  | l :: rest =>
      match f l acc s with
      | Ok acc' s' => dispatch_all f rest acc' s'
      | r => r
      end
  end.

Definition emit_over_copy (fuel : nat) (event : string) (data : val)
    (s : Rail) : result Rail nat :=
  match fuel with
  | 0 => Fuel
  | S n =>
      let snapshot := listeners_of s event in
      let '(data', s1) := emit_started event data s in
      dispatch_all (dispatch (emit n) (call n) n (emissions s) event data' (now s))
        snapshot 0 s1
  end.

(** The turn's argument is a reference to a cell allocated after the
    first [bound] cells. *)
Definition fresh_arg (bound : nat) (c : turn) : Prop :=
  exists l, t_arg c = Some (VRef l) /\ bound < l.

(** [respects R I Good]: the primitive steps of the engine respect the
    relation [R] between the state before and the state after, given
    what [I] says of the state before and what [Good em] says of an
    emission numbered [em] that is in flight. *)
Record respects (R : Rail -> Rail -> Prop) (I : Rail -> Prop)
    (Good : nat -> Rail -> Prop) : Prop := Respects {
  r_refl : forall s, R s s;
  r_trans : forall s1 s2 s3, R s1 s2 -> R s2 s3 -> R s1 s3;
  r_inv : forall s s', I s -> R s s' -> I s';
  r_good : forall em s s', Good em s -> R s s' -> Good em s';
  r_frame : forall s s',
    arrays s' = arrays s -> eventHistory s' = eventHistory s ->
    emissions s' = emissions s -> turns s' = turns s ->
    unhandled s' = unhandled s -> R s s';
  r_start : forall event data s, I s ->
    R s (emit_started event data s).2
    /\ Good (emissions s) (emit_started event data s).2;
  r_turn : forall em l arg threw s, I s -> Good em s ->
    R s (log_turn em l arg threw s);
  r_unhandled : forall ts s, I s ->
    R s (with_unhandled (unhandled s ++ ts) s);
  r_push : forall a ls x s, I s ->
    arrays s !! a = Some ls ->
    forall s', arrays s' = <[a := ls ++ [x]]> (arrays s) ->
      eventHistory s' = eventHistory s -> emissions s' = emissions s ->
      turns s' = turns s -> unhandled s' = unhandled s -> R s s';
  r_new_array : forall ls s, I s ->
    forall s', arrays s' = arrays s ++ [ls] ->
      eventHistory s' = eventHistory s -> emissions s' = emissions s ->
      turns s' = turns s -> unhandled s' = unhandled s -> R s s';
}.

(** One step of the loop of [detach]. *)
Definition filter_step (moduleName : string) (s : Rail) (ea : string * nat)
    : Rail :=
  let '(event, a) := ea in
  store_filtered event
    (filter (fun l => module l <> moduleName) (default [] (arrays s !! a))) s.

(** ** Buses and payloads used in the examples *)

(** The payload [{ hasOwnProperty: 1 }]: a plain object that
    [_deepClone] cannot clone, because [obj.hasOwnProperty(key)] calls the
    number [1]. *)
Definition shadowing_heap : heap := [CObj [("hasOwnProperty", VNum 1)]].

(** A payload for the witness: [{ user: { tags: ["a"] }, at: new Date(7),
    re: /x/g }]. *)
Definition sample_heap : heap :=
  [CObj [("user", VRef 1); ("at", VRef 3); ("re", VRef 4)];
   CObj [("tags", VRef 2)];
   CArr [VStr "a"];
   CDate 7;
   CRegExp "x" "g" 2].

(** Listeners used in the examples. *)
Definition returns : handler := Fn false CSkip (RVal VUndef).
Definition throws (t : thrown) : handler := Fn false (CThrow t) (RVal VUndef).

Definition registered (regs : list (string * handler * option string)) : Rail :=
  foldl (fun s '(event, cb, m) =>
           match on event (Some cb) m s with
           | Ok _ s' => s'
           | _ => s
           end)
    (new_Rail None None None 1000) regs.

(** A bus on which a module named [anonymous] is attached and a listener
    was registered without a module name. *)
Definition anonymous_bus : Rail :=
  let s := new_Rail None None None 0 in
  let s := with_modules (<["anonymous" := ModuleObj (Some "anonymous") None None]>
                           (modules s)) s in
  match on "tick" (Some (Fn false CSkip (RVal VUndef))) None s with
  | Ok _ s' => s'
  | _ => s
  end.

(** [{ name: 'bad', connect(rail) { rail.on('x', () => {}, 'bad');
       throw new Error('Connection failed') } }] *)
Definition bad_module : modarg :=
  ModuleObj (Some "bad")
    (Some (Fn false
             (CSeq (COn "x" (Some (Fn false CSkip (RVal VUndef))) (Some "bad"))
                   (CThrow (TError "Connection failed")))
             (RVal VUndef)))
    None.

Definition after_waitFor (event : string) (timeout : option Z) : Rail :=
  match waitFor event timeout (new_Rail None None None 0) with
  | Ok _ s => s
  | _ => new_Rail None None None 0
  end.

(** Two listeners on [job]; the first throws [null]. *)
Definition null_thrower_bus : Rail :=
  registered [("job", throws TNullish, Some "first");
              ("job", returns, Some "second")].

(** A bus for the witness: on [job], [first] throws an error and [second]
    returns; [monitor] listens to [rail.error]. *)
Definition one_failure_bus : Rail :=
  registered [("job", throws (TError "boom"), Some "first");
              ("job", returns, Some "second");
              ("rail.error", returns, Some "monitor")].

(** A bus for the witness.  On [tick], listener 1 unregisters listener 2,
    registers a new listener on [tick], attaches a module whose [connect]
    registers yet another one, and detaches it again; listener 2 just
    returns. *)
Definition meddling : handler :=
  Fn false
    (CSeq (COff "tick" 2)
       (CSeq (COn "tick" (Some returns) (Some "late"))
          (CSeq (CAttach (ModuleObj (Some "plug")
                            (Some (Fn false (COn "tick" (Some returns) (Some "plug"))
                                     (RVal VUndef)))
                            None))
             (CDetach "plug"))))
    (RVal VUndef).

Definition meddling_bus : Rail :=
  registered [("tick", meddling, Some "meddler"); ("tick", returns, Some "victim")].

(** On [job] a listener throws; the first listener of [rail.error]
    switches cloning off, the second one returns. *)
Definition flag_switching_bus : Rail :=
  registered [("job", throws (TError "boom"), Some "worker");
              ("rail.error", Fn false (CSetClone false) (RVal VUndef), Some "switch");
              ("rail.error", returns, Some "monitor")].

(** On [job] an asynchronous listener whose promise rejects later;
    [monitor] listens to [rail.error]. *)
Definition late_rejection_bus : Rail :=
  registered [("job", Fn true CSkip (RPromise (Rejects (TError "late"))), Some "lazy");
              ("rail.error", returns, Some "monitor")].

(** Two listeners on [job] that return, on a bus whose heap holds the
    payload [{ hasOwnProperty: 1 }]. *)
Definition shadowed_payload_bus : Rail :=
  with_objects shadowing_heap
    (registered [("job", returns, Some "first");
                 ("job", returns, Some "second")]).

(** On [job], the first listener throws [null]; the second returns 7. *)
Definition null_then_seven_bus : Rail :=
  registered [("job", throws TNullish, Some "first");
              ("job", Fn false CSkip (RVal (VNum 7)), Some "second")].

(** A bus for the witness: on [job], [slow] returns a promise that
    resolves with 1, [bad] one that rejects, [sync] returns 3. *)
Definition three_units_bus : Rail :=
  registered [("job", Fn true CSkip (RVal (VNum 1)), Some "slow");
              ("job", Fn false CSkip (RPromise (Rejects (TError "no"))), Some "bad");
              ("job", Fn false CSkip (RVal (VNum 3)), Some "sync")].

(** ** The registry as its users see it *)

(** What the registry of a bus built with [new Rail] and used through
    its methods always looks like: every event has its own array, no
    event is kept with an empty array, the ids of the listeners are
    pairwise distinct over the whole registry and none of them is
    greater than [listenerIdCounter]. *)
Record registry_ok (s : Rail) : Prop := RegistryOk {
  ok_wf : wf_registry s;
  ok_distinct : forall e1 e2 a,
    listeners s !! e1 = Some a -> listeners s !! e2 = Some a -> e1 = e2;
  ok_nonempty : forall event a,
    listeners s !! event = Some a -> listeners_of s event <> [];
  ok_nodup : forall event, NoDup (lid <$> listeners_of s event);
  ok_apart : forall e1 e2 l1 l2,
    l1 ∈ listeners_of s e1 -> l2 ∈ listeners_of s e2 ->
    lid l1 = lid l2 -> e1 = e2;
  ok_issued : forall event l,
    l ∈ listeners_of s event -> lid l <= listenerIdCounter s;
}.

(** The record [on] pushes. *)
Definition new_listener (cb : handler) (moduleName : option string) (s : Rail)
    : listener :=
  Listener cb (default "anonymous" moduleName) (S (listenerIdCounter s)).

(** What holds of the state a call leaves behind, whether it returns or
    throws. *)
Definition leaves {A} (P : Rail -> Prop) (r : result Rail A) : Prop :=
  match r with
  | Ok _ s' | Throw _ s' => P s'
  | Fuel => True
  end.

(** The payload [emit(event, data = {})] works with: [data], or a new
    empty object when [data] is [undefined]. *)
Definition payload_of (data : val) (s : Rail) : val :=
  match data with
  | VUndef => VRef (length (objects s))
  | _ => data
  end.

(** [recorded event data s s']: since [s] the history got an entry for
    [event], holding the payload itself and the time of [s], and after
    it maybe more entries. *)
Definition recorded (event : string) (data : val) (s s' : Rail) : Prop :=
  exists entry later,
    eventHistory s' = eventHistory s ++ entry :: later
    /\ h_event entry = event
    /\ h_data entry = payload_of data s
    /\ h_timestamp entry = now s.

(** [shadowing depth h v]: some object below [v] has an own property
    named [hasOwnProperty]. *)
Fixpoint shadowing (depth : nat) (h : heap) (v : val) : bool :=
  match depth with
  | 0 => false
  | S n =>
      match v with
      | VRef l =>
          match h !! l with
          | Some (CArr items) => existsb (shadowing n h) items
          | Some (CObj props) =>
              has_key "hasOwnProperty" props
              || existsb (shadowing n h) props.*2
          | _ => false
          end
      | _ => false
      end
  end.

(** *** Callbacks that write to their argument

    [mutator c]: the body sets properties of the object it was given,
    and returns, or throws something that has a message; it does
    nothing to the bus. *)
Fixpoint mutator (c : cmd) : bool :=
  match c with
  | CSkip => true
  | CSeq c1 c2 => mutator c1 && mutator c2
  | CThrow t => negb (bool_decide (t = TNullish))
  | CSetProp _ _ => true
  | _ => false
  end.

Definition mutator_listener (l : listener) : Prop :=
  exists async body ret, callback l = Fn async body ret /\ mutator body = true.

(** A bus for the examples: [auth] listens to [login] and [logout], an
    unnamed listener to [login]. *)
Definition sample_bus : Rail :=
  registered [("login", returns, Some "auth");
              ("login", returns, None);
              ("logout", returns, Some "auth")].

(** The number of objects, arrays, dates and regular expressions in a
    tree; an object that the payload refers to twice is in the tree
    twice. *)
Fixpoint tree_cells (t : tree) : nat :=
  match t with
  | TPrim _ => 0
  | TDate _ | TRegExp _ _ => 1
  | TArr items => S (sum_list (map tree_cells items))
  | TObj props => S (sum_list (map (fun kt => tree_cells kt.2) props))
  end.

(** The number of module names an answer of [getEvents] lists, over all
    its events. *)
Definition names_listed (events : gmap string (list string)) : nat :=
  sum_list_with (fun em : string * list string => length em.2)
    (map_to_list events).

(** A listener whose callback, an ordinary function, throws something
    that has a message every time it is called. *)
Definition thrower (l : listener) : Prop :=
  exists body ret,
    callback l = Fn false body ret /\ leaf body = true /\ silent body = false.

(** *** Modules that only register listeners

    [registering nm c]: the body of a [connect] that registers listeners
    under the module's own name [nm], on events other than the two the
    bus emits when a module comes and goes. *)
Fixpoint registering (nm : string) (c : cmd) : bool :=
  match c with
  | CSkip => true
  | CSeq c1 c2 => registering nm c1 && registering nm c2
  | COn event (Some _) (Some m) =>
      bool_decide (m = nm)
      && negb (bool_decide (event = "rail.module.attached"))
      && negb (bool_decide (event = "rail.module.detached"))
  | _ => false
  end.

(** [{ name: 'cache', connect(rail) { rail.on('get', ..., 'cache');
       rail.on('put', ..., 'cache') } }] *)
Definition cache_module : modarg :=
  ModuleObj (Some "cache")
    (Some (Fn false (CSeq (COn "get" (Some returns) (Some "cache"))
                          (COn "login" (Some returns) (Some "cache")))
             (RVal VUndef)))
    None.

(** Listeners that write to what they are given: the first sets
    [seen] and [done], the second sets [seen] and throws. *)
Definition sets_and_returns : handler :=
  Fn false (CSeq (CSetProp "seen" (VNum 1)) (CSetProp "done" (VBool true)))
    (RVal VUndef).

Definition sets_and_throws : handler :=
  Fn false (CSeq (CSetProp "seen" (VNum 2)) (CThrow (TError "no")))
    (RVal VUndef).

Definition writing_bus (cloning : bool) : Rail :=
  with_clone cloning
    (registered [("job", sets_and_returns, Some "first");
                 ("job", sets_and_throws, Some "second");
                 ("rail.error", returns, Some "monitor")]).

(** The payload [{ seen: 0 }] on the heap of a bus. *)
Definition with_payload (s : Rail) : Rail :=
  with_objects (objects s ++ [CObj [("seen", VNum 0)]]) s.

(** The payload [{ a: r, b: r }] with [r = {}]: two references to one
    object. *)
Definition shared_heap : heap := [CObj [("a", VRef 1); ("b", VRef 1)]; CObj []].

(** [{ name: 'db', async connect(rail) { throw new Error('no database') } }] *)
Definition async_failing_module : modarg :=
  ModuleObj (Some "db")
    (Some (Fn true (CThrow (TError "no database")) (RVal VUndef)))
    None.

(** A bus whose error monitor throws: [worker] fails on [job], and
    [monitor], listening to [rail.error], fails too. *)
Definition failing_monitor_bus : Rail :=
  registered [("job", throws (TError "boom"), Some "worker");
              ("rail.error", throws (TError "monitor down"), Some "monitor")].

(** ** The engine of [src/rail.js]

    The earlier version of the class: no [clone] option, no [setClone],
    no [emitAsync]; [emit] always clones, and its [catch] block emits
    [rail.error] without touching any flag.  The other methods are the
    same text.  The field [clone] of the state is not read. *)

(** [this._deepClone(data)] *)
Definition clone_always (fuel : nat) (data : val) (s : Rail) : result Rail val :=
  match _deepClone fuel (objects s) data with
  | Ok v h => Ok v (with_objects h s)
  | Throw t h => Throw t (with_objects h s)
  | Fuel => Fuel
  end.

Section engine_v1.
Variable emit_ : string -> val -> Rail -> result Rail nat.
Variable call_ : handler -> val -> Rail -> result Rail retval.
Variable fuel : nat.

  (** The [catch] block: [this.emit('rail.error', { module, event,
      error: error.message, timestamp })]. *)
Definition report_v1 (module : string) (event : string) (timestamp : Z)
      (t : thrown) (s : Rail) : result Rail val :=
    match message_of t with
    | None => Throw message_type_error s
    | Some msg =>
        let '(errorData, h) :=
          alloc (objects s) (error_data module event msg timestamp) in
        match emit_ "rail.error" (VRef errorData) (with_objects h s) with
        | Ok _ s' => Ok msg s'
        | Throw t' s' => Throw t' s'
        | Fuel => Fuel
        end
    end.

  (** The arrow function [emit] passes to [forEach]. *)
Definition dispatch_v1 (em : nat) (event : string) (data : val)
      (timestamp : Z) (l : listener) (handledCount : nat) (s : Rail)
      : result Rail nat :=
    match clone_always fuel data s with
    | Ok clonedData s1 =>
        match call_ (callback l) clonedData s1 with
        | Ok r s2 =>
            Ok (S handledCount)
              (log_turn em l (Some clonedData) None (note_discarded r s2))
        | Throw t s2 =>
            match report_v1 (module l) event timestamp t
                    (log_turn em l (Some clonedData) (Some t) s2) with
            | Ok _ s3 => Ok handledCount s3
            | Throw t' s3 => Throw t' s3
            | Fuel => Fuel
            end
        | Fuel => Fuel
        end
    | Throw t s1 =>
        match report_v1 (module l) event timestamp t
                (log_turn em l None (Some t) s1) with
        | Ok _ s3 => Ok handledCount s3
        | Throw t' s3 => Throw t' s3
        | Fuel => Fuel
        end
    | Fuel => Fuel
    end.

  (** [emit(event, data = {})] of [src/rail.js] *)
Definition emit_body_v1 (event : string) (data : val) (s : Rail)
      : result Rail nat :=
    let timestamp := now s in
    let '(data, s) := default_data data s in
    let em := emissions s in
    let s := with_emissions (S em) (push_history event data timestamp s) in
    match listeners s !! event with
    | None => Ok 0 s
    | Some a =>
        forEach (dispatch_v1 em event data timestamp) a 0
          (length (default [] (arrays s !! a))) 0 s
    end.
End engine_v1.

(** The callbacks, [attach] and [detach] are those of the later
    version, over this [emit]. *)
Fixpoint emit_v1 (fuel : nat) (event : string) (data : val) (s : Rail)
    {struct fuel} : result Rail nat :=
  match fuel with
  | 0 => Fuel
  | S n => emit_body_v1 (emit_v1 n) (call_v1 n) n event data s
  end
with call_v1 (fuel : nat) (h : handler) (arg : val) (s : Rail)
    {struct fuel} : result Rail retval :=
  match fuel with
  | 0 => Fuel
  | S n => call_body (emit_v1 n) (call_v1 n) h arg s
  end.

Definition attach_v1 (fuel : nat) : modarg -> Rail -> result Rail unit :=
  attach_ (emit_v1 fuel) (call_v1 fuel).

Definition detach_v1 (fuel : nat) : string -> Rail -> result Rail bool :=
  detach_ (emit_v1 fuel) (call_v1 fuel).

(** [new Rail(options)] of [src/rail.js]. *)
Definition new_Rail_v1 (o_name : option string) (o_debug : option bool)
    (time : Z) : Rail :=
  MkRail (name_or_default o_name) (default false o_debug)
    true ∅ ∅ [] 0 [] [] time [] [] [] 0 [].

(** Code written for the earlier version: it never calls [setClone],
    nor do the callbacks it registers and the modules it attaches. *)
Fixpoint v1_cmd (c : cmd) : bool :=
  match c with
  | CSkip | CThrow _ | CSetProp _ _ | COff _ _ | CEmit _ _ | CDetach _ => true
  | CSeq c1 c2 | CTry c1 c2 => v1_cmd c1 && v1_cmd c2
  | COn _ cb _ => from_option v1_handler true cb
  | CAttach m => v1_modarg m
  | CSetClone _ => false
  end
with v1_handler (h : handler) : bool :=
  match h with
  | Fn _ body _ => v1_cmd body
  | WaitForCb _ _ _ _ => true
  end
with v1_modarg (m : modarg) : bool :=
  match m with
  | NotAnObject => true
  | ModuleObj _ connect disconnect =>
      from_option v1_handler true connect
      && from_option v1_handler true disconnect
  end.

(** A bus as the earlier version has it: cloning is on, and every
    callback and module it holds is code written for that version. *)
Record v1_bus (s : Rail) : Prop := V1Bus {
  v1_clone : clone s = true;
  v1_callbacks : forall a ls l,
    arrays s !! a = Some ls -> l ∈ ls -> v1_handler (callback l) = true;
  v1_modules : forall nm m, modules s !! nm = Some m -> v1_modarg m = true;
}.

(** Two runs end the same way, and the state they end in is again a bus
    of the earlier version. *)
Definition agrees {A} (r1 r2 : result Rail A) : Prop :=
  r1 = r2 /\ leaves v1_bus r2.

(** ** Callbacks that remove no listener *)

(** The callback of every listener in the registry satisfies [P]. *)
Definition listeners_all (P : handler -> bool) (s : Rail) : Prop :=
  forall ev l, l ∈ listeners_of s ev -> P (callback l) = true.

(** [adding c]: the body calls neither [off] nor [detach], and neither do
    the callbacks it registers and the modules it attaches: whatever it
    does to the registry, it only adds to it.  The callback of [waitFor]
    unsubscribes itself, so it is not of this kind. *)
Fixpoint adding (c : cmd) : bool :=
  match c with
  | CSkip | CThrow _ | CSetProp _ _ | CEmit _ _ | CSetClone _ => true
  | CSeq c1 c2 | CTry c1 c2 => adding c1 && adding c2
  | COn _ cb _ => from_option adding_handler true cb
  | CAttach m => adding_modarg m
  | COff _ _ | CDetach _ => false
  end
with adding_handler (h : handler) : bool :=
  match h with
  | Fn _ body _ => adding body
  | WaitForCb _ _ _ _ => false
  end
with adding_modarg (m : modarg) : bool :=
  match m with
  | NotAnObject => true
  | ModuleObj _ connect disconnect =>
      from_option adding_handler true connect
      && from_option adding_handler true disconnect
  end.

(** [module.disconnect], when it is a function. *)
Definition disconnect_of (m : modarg) : option handler :=
  match m with
  | ModuleObj _ _ disconnect => disconnect
  | NotAnObject => None
  end.

(** The records of a listener list that were issued up to id [N]. *)
Definition issued_by (N : nat) (ls : list listener) : list listener :=
  filter (fun l => lid l <= N) ls.

(** [old_kept N L B s]: the registry is in order, no callback in it
    removes a listener, the counter of ids is at least [N], the events
    of [B] still have the arrays they had, and the records issued up to
    [N] are, event by event, those of [L]. *)
Definition old_kept (N : nat) (L : string -> list listener)
    (B : gmap string nat) (s : Rail) : Prop :=
  registry_ok s
  /\ N <= listenerIdCounter s
  /\ listeners_all adding_handler s
  /\ B ⊆ listeners s
  /\ forall ev, issued_by N (listeners_of s ev) = L ev.

(** A module whose [disconnect] registers a listener under the
    module's own name:
    [{ name: 'auth', disconnect(rail) { rail.on('login', ..., 'auth') } }] *)
Definition reconnecting_module : modarg :=
  ModuleObj (Some "auth") None
    (Some (Fn false (COn "login" (Some returns) (Some "auth")) (RVal VUndef))).

(** A bus on which that module is attached; [auth], [log] and an
    unnamed listener listen to [login]. *)
Definition reconnecting_bus : Rail :=
  let s := registered [("login", returns, Some "auth");
                       ("login", returns, Some "log");
                       ("login", returns, None)] in
  with_modules (<["auth" := reconnecting_module]> (modules s)) s.

(** The same bus, with a module whose [disconnect] unsubscribes the
    listener of [log]:
    [{ name: 'auth', disconnect(rail) { rail.off('login', 2) } }] *)
Definition unsubscribing_bus : Rail :=
  let s := registered [("login", returns, Some "auth");
                       ("login", returns, Some "log");
                       ("login", returns, None)] in
  with_modules
    (<["auth" := ModuleObj (Some "auth") None
                   (Some (Fn false (COff "login" 2) (RVal VUndef)))]>
       (modules s)) s.

(** * Deep Clone Engine: lemmas *)

Section heap_facts.
Implicit Types (h : heap) (v : val) (l : loc).

Lemma reify_items_ext (r1 r2 : val -> option tree) items :
    (forall x, x ∈ items -> r1 x = r2 x) ->
    reify_items r1 items = reify_items r2 items.
  Proof.
    induction items as [|x rest IH]; intros Hext; simpl; [done|].
    rewrite (Hext x) by apply list_elem_of_here.
    rewrite IH; [done|]. intros y Hy. apply Hext. by apply list_elem_of_further.
  Qed.

Lemma reify_props_ext (r1 r2 : val -> option tree) props :
    (forall x, x ∈ props.*2 -> r1 x = r2 x) ->
    reify_props r1 props = reify_props r2 props.
  Proof.
    induction props as [|[k x] rest IH]; intros Hext; simpl; [done|].
    rewrite (Hext x) by apply list_elem_of_here.
    rewrite IH; [done|]. intros y Hy. apply Hext. by apply list_elem_of_further.
  Qed.

Lemma forallb_ext_in {A} (f g : A -> bool) (xs : list A) :
    (forall x, x ∈ xs -> f x = g x) -> forallb f xs = forallb g xs.
  Proof.
    induction xs as [|x rest IH]; intros Hext; simpl; [done|].
    rewrite (Hext x) by apply list_elem_of_here.
    rewrite IH; [done|]. intros y Hy. apply Hext. by apply list_elem_of_further.
  Qed.

Lemma map_ext_elem {A B} (f g : A -> B) (xs : list A) :
    (forall x, x ∈ xs -> f x = g x) -> map f xs = map g xs.
  Proof.
    induction xs as [|x rest IH]; intros Hext; simpl; [done|].
    rewrite (Hext x) by apply list_elem_of_here.
    rewrite IH; [done|]. intros y Hy. apply Hext. by apply list_elem_of_further.
  Qed.

Lemma elem_of_concat_map {A} (f : A -> list loc) (xs : list A) x l :
    x ∈ xs -> l ∈ f x -> l ∈ concat (map f xs).
  Proof.
    induction 1 as [x xs|x y xs _ IH]; simpl; intros Hl;
      apply elem_of_app; [by left | right; by apply IH].
  Qed.

  (** What [reify], [plain] and [reach] compute depends on the reachable
      cells only. *)
Lemma agree_on_reach depth : forall h1 h2 v,
    (forall l, l ∈ reach depth h1 v -> h1 !! l = h2 !! l) ->
    reify depth h1 v = reify depth h2 v
    /\ plain depth h1 v = plain depth h2 v
    /\ reach depth h1 v = reach depth h2 v.
  Proof.
    induction depth as [|n IH]; intros h1 h2 v Hag; [done|].
    destruct v as [| | | | |l]; simpl in *; try done.
    assert (Hl : h1 !! l = h2 !! l) by (apply Hag; apply list_elem_of_here).
    rewrite <- Hl. destruct (h1 !! l) as [[t|items|s f li|props]|] eqn:Hc; try done.
    - assert (Hsub : forall x, x ∈ items ->
                reify n h1 x = reify n h2 x /\ plain n h1 x = plain n h2 x
                /\ reach n h1 x = reach n h2 x).
      { intros x Hx. apply IH. intros l' Hl'. apply Hag.
        apply list_elem_of_further. by eapply elem_of_concat_map. }
      rewrite (reify_items_ext (reify n h1) (reify n h2)) by (intros; by apply Hsub).
      rewrite (forallb_ext_in (plain n h1) (plain n h2)) by (intros; by apply Hsub).
      rewrite (map_ext_elem (reach n h1) (reach n h2)) by (intros; by apply Hsub).
      done.
    - assert (Hsub : forall x, x ∈ props.*2 ->
                reify n h1 x = reify n h2 x /\ plain n h1 x = plain n h2 x
                /\ reach n h1 x = reach n h2 x).
      { intros x Hx. apply IH. intros l' Hl'. apply Hag.
        apply list_elem_of_further. by eapply elem_of_concat_map. }
      rewrite (reify_props_ext (reify n h1) (reify n h2)) by (intros; by apply Hsub).
      rewrite (forallb_ext_in (plain n h1) (plain n h2)) by (intros; by apply Hsub).
      rewrite (map_ext_elem (reach n h1) (reach n h2)) by (intros; by apply Hsub).
      done.
  Qed.

  (** A plain payload only reaches cells of its heap. *)
Lemma plain_reach_lt depth : forall h v l,
    plain depth h v = true -> l ∈ reach depth h v -> l < length h.
  Proof.
    induction depth as [|n IH]; intros h v l Hp Hl; [done|].
    destruct v as [| | | | |l0]; simpl in *; try by inversion Hl.
    destruct (h !! l0) as [c|] eqn:Hc; [|done].
    apply elem_of_cons in Hl as [->|Hl]; [by eapply lookup_lt_Some|].
    destruct c as [t|items|s f li|props]; try by inversion Hl.
    - apply list_elem_of_In, in_concat in Hl as (ls & Hls & Hin).
      apply in_map_iff in Hls as (x & <- & Hx).
      rewrite forallb_forall in Hp.
      apply (IH h x); [by apply Hp | by apply list_elem_of_In].
    - apply andb_prop in Hp as [_ Hp].
      apply list_elem_of_In, in_concat in Hl as (ls & Hls & Hin).
      apply in_map_iff in Hls as (x & <- & Hx).
      rewrite forallb_forall in Hp.
      apply (IH h x); [by apply Hp | by apply list_elem_of_In].
  Qed.

  (** A plain payload has a tree. *)
Lemma plain_reify depth : forall h v,
    plain depth h v = true -> is_Some (reify depth h v).
  Proof.
    induction depth as [|n IH]; intros h v Hp; [done|].
    destruct v as [| | | | |l]; simpl in *; try by eexists.
    destruct (h !! l) as [[t|items|s f li|props]|]; try done; try by eexists.
    - assert (is_Some (reify_items (reify n h) items)) as [ts ->]; [|by eexists].
      induction items as [|x rest IHr]; simpl in *; [by eexists|].
      apply andb_prop in Hp as [Hx Hr].
      destruct (IH h x Hx) as [t ->]. destruct (IHr Hr) as [ts ->]. by eexists.
    - apply andb_prop in Hp as [_ Hp].
      assert (is_Some (reify_props (reify n h) props)) as [ts ->]; [|by eexists].
      induction props as [|[k x] rest IHr]; simpl in *; [by eexists|].
      apply andb_prop in Hp as [Hx Hr].
      destruct (IH h x Hx) as [t ->]. destruct (IHr Hr) as [ts ->]. by eexists.
  Qed.

  (** Cells outside the payload's heap do not matter to it: the heap may
      grow, and cells beyond [length h] may be overwritten. *)
Lemma plain_frame depth h h2 v :
    plain depth h v = true ->
    (forall l, l < length h -> h !! l = h2 !! l) ->
    reify depth h2 v = reify depth h v /\ plain depth h2 v = true.
  Proof.
    intros Hp Hag.
    destruct (agree_on_reach depth h h2 v) as (Hr & Hpl & _).
    { intros l Hl. apply Hag. by eapply plain_reach_lt. }
    split; [done | congruence].
  Qed.
End heap_facts.


Lemma grows_refl h : grows h h.
Proof. by split. Qed.

Lemma grows_trans h1 h2 h3 : grows h1 h2 -> grows h2 h3 -> grows h1 h3.
Proof.
  intros [Hl1 H1] [Hl2 H2]. split; [lia|].
  intros l Hl. rewrite H2 by lia. by apply H1.
Qed.

Lemma grows_alloc h c : grows h (alloc h c).2.
Proof.
  split; simpl; [rewrite length_app; lia|].
  intros l Hl. by apply lookup_app_l.
Qed.

Lemma grows_insert h l c : length h <= l -> forall h', grows h h' -> grows h (<[l := c]> h').
Proof.
  intros Hl h' [Hlen Hag]. split; [by rewrite length_insert|].
  intros l' Hl'. rewrite list_lookup_insert_ne by lia. by apply Hag.
Qed.

Lemma assign_fresh k v props :
  k ∉ props.*1 -> assign k v props = props ++ [(k, v)].
Proof.
  induction props as [|[k' v'] rest IH]; simpl; intros Hk; [done|].
  apply not_elem_of_cons in Hk as [Hne Hk].
  destruct (decide (k' = k)) as [->|_]; [done|]. by rewrite IH.
Qed.

Lemma reify_props_app r acc ta rest tr :
  reify_props r acc = Some ta -> reify_props r rest = Some tr ->
  reify_props r (acc ++ rest) = Some (ta ++ tr).
Proof.
  revert ta. induction acc as [|[k v] acc IH]; simpl; intros ta Ha Hr.
  - by inversion Ha.
  - destruct (r v) as [t|]; [|done].
    destruct (reify_props r acc) as [ts|]; [|done].
    inversion Ha; subst. by rewrite (IH ts).
Qed.

Lemma plain_reify_props n h props :
  forallb (plain n h) props.*2 = true ->
  is_Some (reify_props (reify n h) props).
Proof.
  induction props as [|[k x] rest IH]; simpl; intros Hp; [by eexists|].
  apply andb_prop in Hp as [Hx Hr].
  destruct (plain_reify n h x Hx) as [t ->]. destruct (IH Hr) as [ts ->].
  by eexists.
Qed.


Section loops.
Variable n : nat.
Hypothesis IH : clone_ok n.

  (** A value cloned earlier keeps its tree while the heap grows and the
      cell [cloned], allocated before it, is written. *)
Lemma keeps_tree (h1 h2 : heap) (b : nat) v :
    (forall l, l ∈ reach n h1 v -> b <= l < length h1) ->
    (forall l, b <= l < length h1 -> h2 !! l = h1 !! l) ->
    reify n h2 v = reify n h1 v /\ reach n h2 v = reach n h1 v.
  Proof.
    intros Hb Hag. destruct (agree_on_reach n h1 h2 v) as (Hr & _ & Hre).
    - intros l Hl. symmetry. apply Hag. by apply Hb.
    - by split.
  Qed.

Lemma clone_items_plain h : forall items h1,
    grows h h1 ->
    forallb (plain n h) items = true ->
    exists items' h2, clone_items (_deepClone n) h1 items = Ok items' h2
      /\ grows h1 h2
      /\ reify_items (reify n h2) items' = reify_items (reify n h) items
      /\ (forall x l, x ∈ items' -> l ∈ reach n h2 x -> length h1 <= l < length h2).
  Proof.
    induction items as [|x rest IHr]; intros h1 Hg Hp; simpl in *.
    - exists [], h1. split_and!; [done|apply grows_refl|done|].
      intros x l Hx. by inversion Hx.
    - apply andb_prop in Hp as [Hx Hrest].
      destruct (plain_frame n h h1 x Hx) as [Hr1 Hp1].
      { intros l Hl. symmetry. by apply Hg. }
      destruct (IH h1 x Hp1) as (x' & h1' & -> & Hg1 & Hrx & Hbx).
      destruct (IHr h1' (grows_trans _ _ _ Hg Hg1) Hrest)
        as (rest' & h2 & -> & Hg2 & Hrr & Hbr).
      exists (x' :: rest'), h2.
      destruct (keeps_tree h1' h2 (length h1) x' Hbx) as [Hk1 Hk2].
      { intros l Hl. apply Hg2. lia. }
      split_and!; [done|by eapply grows_trans| |].
      + simpl. rewrite Hk1, Hrx, Hr1, Hrr. done.
      + intros y l Hy Hl. apply elem_of_cons in Hy as [->|Hy].
        * rewrite Hk2 in Hl. apply Hbx in Hl. destruct Hg2. lia.
        * specialize (Hbr y l Hy Hl). destruct Hg1. lia.
  Qed.

Lemma clone_props_plain h cloned : forall todo acc h1 ta tt,
    grows h h1 -> length h <= cloned ->
    h1 !! cloned = Some (CObj acc) ->
    forallb (plain n h) todo.*2 = true ->
    NoDup (acc.*1 ++ todo.*1) -> "__proto__" ∉ todo.*1 ->
    reify_props (reify n h1) acc = Some ta ->
    reify_props (reify n h) todo = Some tt ->
    (forall x l, x ∈ acc.*2 -> l ∈ reach n h1 x -> cloned < l < length h1) ->
    exists h2 acc', clone_props (_deepClone n) false cloned h1 todo = Ok () h2
      /\ grows h h2 /\ length h1 <= length h2
      /\ (forall l, l < length h1 -> l <> cloned -> h2 !! l = h1 !! l)
      /\ h2 !! cloned = Some (CObj acc')
      /\ reify_props (reify n h2) acc' = Some (ta ++ tt)
      /\ (forall x l, x ∈ acc'.*2 -> l ∈ reach n h2 x -> cloned < l < length h2).
  Proof.
    induction todo as [|[k v] rest IHr];
      intros acc h1 ta tt Hg Hcl Hcell Hp Hnd Hproto Hta Htt Hb; simpl in *.
    - exists h1, acc. inversion Htt; subst. rewrite app_nil_r.
      split_and!; try done.
    - apply andb_prop in Hp as [Hv Hrest].
      destruct (plain_frame n h h1 v Hv) as [Hr1 Hp1].
      { intros l Hl. symmetry. by apply Hg. }
      destruct (IH h1 v Hp1) as (v' & h1' & -> & Hg1 & Hrv & Hbv).
      destruct (reify n h v) as [t|] eqn:Ht; [|done].
      destruct (reify_props (reify n h) rest) as [tr|] eqn:Htr; [|done].
      inversion Htt; subst tt; clear Htt.
      assert (Hlt : cloned < length h1) by (by eapply lookup_lt_Some).
      assert (Hcell' : h1' !! cloned = Some (CObj acc)).
      { destruct Hg1 as [_ Hag]. by rewrite Hag. }
      assert (Hk : k ∉ acc.*1).
      { apply NoDup_app in Hnd as (_ & Hdis & _). intros Hin.
        apply (Hdis k Hin). apply list_elem_of_here. }
      unfold set_prop. rewrite Hcell'.
      destruct (decide (k = "__proto__")) as [->|_].
      { exfalso. apply Hproto, list_elem_of_here. }
      rewrite (assign_fresh k v' acc Hk).
      set (h1'' := <[cloned := CObj (acc ++ [(k, v')])]> h1').
      assert (Hlen' : length h1'' = length h1') by apply length_insert.
      assert (Hg' : grows h h1'').
      { apply grows_insert; [done|]. by eapply grows_trans. }
      assert (Hother : forall l, l <> cloned -> h1'' !! l = h1' !! l).
      { intros l Hl. unfold h1''. by rewrite list_lookup_insert_ne. }
      assert (Hcell'' : h1'' !! cloned = Some (CObj (acc ++ [(k, v')]))).
      { unfold h1''. apply list_lookup_insert_eq. destruct Hg1. lia. }
      assert (Hkeepv : reify n h1'' v' = reify n h1' v'
                       /\ reach n h1'' v' = reach n h1' v').
      { apply (keeps_tree h1' h1'' (length h1) v' Hbv).
        intros l Hl. apply Hother. lia. }
      assert (Hkeepacc : forall x, x ∈ acc.*2 ->
                reify n h1'' x = reify n h1 x /\ reach n h1'' x = reach n h1 x).
      { intros x Hx. apply (keeps_tree h1 h1'' (S cloned) x).
        - intros l Hl. specialize (Hb x l Hx Hl). lia.
        - intros l Hl. rewrite Hother by lia. apply Hg1. lia. }
      destruct (IHr (acc ++ [(k, v')]) h1'' (ta ++ [(k, t)]) tr)
        as (h2 & acc' & -> & Hg2 & Hlen2 & Hoth2 & Hcell2 & Hr2 & Hb2);
        try done.
      + rewrite fmap_app. simpl. rewrite <- app_assoc. done.
      + intros Hin. apply Hproto. by apply list_elem_of_further.
      + apply reify_props_app.
        * rewrite <- Hta. apply reify_props_ext. intros x Hx. by apply Hkeepacc.
        * simpl. destruct Hkeepv as [-> _]. rewrite Hrv, Hr1. done.
      + intros x l Hx Hl. rewrite fmap_app in Hx. apply elem_of_app in Hx as [Hx|Hx].
        * destruct (Hkeepacc x Hx) as [_ Hre]. rewrite Hre in Hl.
          specialize (Hb x l Hx Hl). destruct Hg1. lia.
        * apply list_elem_of_singleton in Hx as ->. simpl in Hl.
          destruct Hkeepv as [_ Hre]. rewrite Hre in Hl.
          apply Hbv in Hl. lia.
      + exists h2, acc'. rewrite <- app_assoc in Hr2. simpl in Hr2.
        split_and!; try done.
        * destruct Hg1. lia.
        * intros l Hl Hne. rewrite Hoth2 by (destruct Hg1; lia).
          rewrite Hother by done. by apply Hg1.
  Qed.
End loops.

Lemma clone_plain : forall n, clone_ok n.
Proof.
  induction n as [|n IH]; intros h v Hp; [done|].
  destruct v as [| | | | |l]; simpl in *;
    try (eexists _, h; split_and!; [done|apply grows_refl|done|];
         intros l Hl; by inversion Hl).
  destruct (h !! l) as [[t|items|s f li|props]|] eqn:Hc; [| | | |done].
  - exists (VRef (length h)), (h ++ [CDate t]).
    split_and!; [done|apply (grows_alloc h (CDate t))| |].
    + by rewrite lookup_app_r, Nat.sub_diag by lia.
    + intros l'. rewrite lookup_app_r, Nat.sub_diag by lia. simpl.
      rewrite list_elem_of_singleton. intros ->. rewrite length_app. simpl. lia.
  - destruct (clone_items_plain n IH h items h (grows_refl h) Hp)
      as (items' & h2 & -> & Hg & Hr & Hb).
    exists (VRef (length h2)), (h2 ++ [CArr items']).
    assert (Hkeep : forall x, x ∈ items' ->
              reify n (h2 ++ [CArr items']) x = reify n h2 x
              /\ reach n (h2 ++ [CArr items']) x = reach n h2 x).
    { intros x Hx. apply (keeps_tree n h2 _ (length h) x).
      - intros l' Hl'. by apply (Hb x).
      - intros l' Hl'. apply lookup_app_l. lia. }
    split_and!; [done| | |].
    + eapply grows_trans; [done|]. apply (grows_alloc h2 (CArr items')).
    + rewrite lookup_app_r, Nat.sub_diag by lia. simpl.
      rewrite <- Hr. f_equal. apply reify_items_ext. intros x Hx. by apply Hkeep.
    + intros l'. rewrite lookup_app_r, Nat.sub_diag by lia. simpl.
      rewrite length_app. simpl. intros Hl'.
      apply elem_of_cons in Hl' as [->|Hl']; [destruct Hg; lia|].
      apply list_elem_of_In, in_concat in Hl' as (ls & Hls & Hin).
      apply in_map_iff in Hls as (x & <- & Hx).
      apply list_elem_of_In in Hx, Hin.
      destruct (Hkeep x Hx) as [_ Hre]. rewrite Hre in Hin.
      specialize (Hb x l' Hx Hin). lia.
  - exists (VRef (length h)), (h ++ [CRegExp s f 0]).
    split_and!; [done|apply (grows_alloc h (CRegExp s f 0))| |].
    + by rewrite lookup_app_r, Nat.sub_diag by lia.
    + intros l'. rewrite lookup_app_r, Nat.sub_diag by lia. simpl.
      rewrite list_elem_of_singleton. intros ->. rewrite length_app. simpl. lia.
  - apply andb_prop in Hp as [Hkeys Hp]. unfold plain_keys in Hkeys.
    apply andb_prop in Hkeys as [Hkeys Hproto].
    apply andb_prop in Hkeys as [Hnd Hhas].
    apply negb_true_iff in Hhas, Hproto. rewrite Hhas.
    apply bool_decide_eq_true in Hnd.
    unfold has_key in Hproto. apply bool_decide_eq_false in Hproto.
    destruct (plain_reify_props n h props Hp) as [tt Htt].
    destruct (clone_props_plain n IH h (length h) props [] (h ++ [CObj []]) [] tt)
      as (h2 & acc' & -> & Hg & Hlen & _ & Hcell & Hr & Hb); try done.
    { apply (grows_alloc h (CObj [])). }
    { by rewrite lookup_app_r, Nat.sub_diag by lia. }
    { intros x l' Hx. by inversion Hx. }
    exists (VRef (length h)), h2. rewrite length_app in Hlen. simpl in Hlen.
    split_and!; [done|done| |].
    + rewrite Hcell, Hr, Htt. done.
    + intros l'. rewrite Hcell. intros Hl'.
      apply elem_of_cons in Hl' as [->|Hl']; [lia|].
      apply list_elem_of_In, in_concat in Hl' as (ls & Hls & Hin).
      apply in_map_iff in Hls as (x & <- & Hx).
      apply list_elem_of_In in Hx, Hin. specialize (Hb x l' Hx Hin). lia.
Qed.

Lemma forallb_impl_elem {A} (f g : A -> bool) (xs : list A) :
  (forall x, f x = true -> g x = true) ->
  forallb f xs = true -> forallb g xs = true.
Proof.
  intros Himp. induction xs as [|x rest IH]; simpl; [done|].
  intros [Hx Hr]%andb_prop. by rewrite (Himp x Hx), IH.
Qed.

Lemma plain_S n : forall h v, plain n h v = true -> plain (S n) h v = true.
Proof.
  induction n as [|n IH]; intros h v Hp; [done|].
  destruct v as [| | | | |l]; try done.
  change (plain (S (S n)) h (VRef l)) with
    (match h !! l with
     | None => false
     | Some (CArr items) => forallb (plain (S n) h) items
     | Some (CObj props) => plain_keys props && forallb (plain (S n) h) props.*2
     | Some _ => true
     end).
  simpl in Hp. destruct (h !! l) as [[t|items|s f li|props]|]; try done.
  - by apply (forallb_impl_elem (plain n h)); [apply IH|].
  - apply andb_prop in Hp as [-> Hp]. simpl.
    by apply (forallb_impl_elem (plain n h)); [apply IH|].
Qed.

Lemma plain_le n m h v : n <= m -> plain n h v = true -> plain m h v = true.
Proof. induction 1; [done|]. intros Hp. by apply plain_S, IHle. Qed.

Lemma slice_neg {A} (k : nat) (l : list A) :
  0 < k -> slice (- Z.of_nat k) l = drop (length l - k) l.
Proof.
  intros Hk. unfold slice.
  destruct (Z.ltb_spec (- Z.of_nat k) 0); [|lia]. f_equal. lia.
Qed.

(** What [_deepClone] throws is the [TypeError] of the shadowed
    [hasOwnProperty]. *)
Lemma deepClone_throw fuel : forall h v t h',
  _deepClone fuel h v = Throw t h' -> t = not_a_function.
Proof.
  induction fuel as [|n IH]; intros h v t h' H; [done|].
  assert (Hitems : forall items h t h',
            clone_items (_deepClone n) h items = Throw t h' -> t = not_a_function).
  { induction items as [|x rest IHr]; intros h1 t1 h1' Hi; [done|]. simpl in Hi.
    destruct (_deepClone n h1 x) as [x' hx|tx hx|] eqn:Hx; try done.
    - destruct (clone_items (_deepClone n) hx rest) eqn:Hr; try done.
      inversion Hi; subst. by eapply IHr.
    - inversion Hi; subst. by eapply IH. }
  assert (Hprops : forall sh cloned todo h t h',
            clone_props (_deepClone n) sh cloned h todo = Throw t h' ->
            t = not_a_function).
  { intros sh cloned. induction todo as [|[k x] rest IHr]; intros h1 t1 h1' Hp;
      [done|]. simpl in Hp. destruct sh; [by inversion Hp|].
    destruct (_deepClone n h1 x) as [x' hx|tx hx|] eqn:Hx; try done.
    - by eapply IHr.
    - inversion Hp; subst. by eapply IH. }
  destruct v as [| | | | |l]; simpl in H; try done.
  destruct (h !! l) as [[tm|items|sr f li|props]|]; try done.
  - destruct (clone_items (_deepClone n) h items) as [|t1 h1|] eqn:Hi; try done.
    inversion H; subst. by eapply Hitems.
  - destruct (clone_props _ _ _ _ props) as [|t1 h1|] eqn:Hp; try done.
    inversion H; subst. by eapply Hprops.
Qed.

(** * The engine preserves what its primitive steps preserve

    [R] relates the state before a piece of the engine to the state
    after it; [I] is what is known of the state before; [Good em s] is
    what is known, in state [s], of an emission numbered [em] that is in
    flight.  If the primitive steps respect [R], so do [emit], the
    callbacks, [attach] and [detach], at every fuel. *)
Section preservation.
Variable R : Rail -> Rail -> Prop.
Variable I : Rail -> Prop.
Variable Good : nat -> Rail -> Prop.

Hypothesis R_refl : forall s, R s s.
Hypothesis R_trans : forall s1 s2 s3, R s1 s2 -> R s2 s3 -> R s1 s3.
Hypothesis I_R : forall s s', I s -> R s s' -> I s'.
Hypothesis Good_R : forall em s s', Good em s -> R s s' -> Good em s'.
  (** Steps that touch none of the fields [R] looks at. *)
Hypothesis R_frame : forall s s',
    arrays s' = arrays s -> eventHistory s' = eventHistory s ->
    emissions s' = emissions s -> turns s' = turns s ->
    unhandled s' = unhandled s -> R s s'.
Hypothesis R_start : forall event data s, I s ->
    R s (emit_started event data s).2
    /\ Good (emissions s) (emit_started event data s).2.
Hypothesis R_turn : forall em l arg threw s, I s -> Good em s ->
    R s (log_turn em l arg threw s).
Hypothesis R_unhandled : forall ts s, I s ->
    R s (with_unhandled (unhandled s ++ ts) s).
Hypothesis R_push : forall a ls x s, I s ->
    arrays s !! a = Some ls ->
    forall s', arrays s' = <[a := ls ++ [x]]> (arrays s) ->
      eventHistory s' = eventHistory s -> emissions s' = emissions s ->
      turns s' = turns s -> unhandled s' = unhandled s -> R s s'.
Hypothesis R_new_array : forall ls s, I s ->
    forall s', arrays s' = arrays s ++ [ls] ->
      eventHistory s' = eventHistory s -> emissions s' = emissions s ->
      turns s' = turns s -> unhandled s' = unhandled s -> R s s'.

  Local Hint Resolve R_refl : core.

Lemma store_filtered_R event filtered s : I s -> R s (store_filtered event filtered s).
  Proof.
    intros HI. unfold store_filtered. case_decide; [(by apply R_frame)|].
    by apply (R_new_array filtered s HI).
  Qed.

Lemma off_R event listenerId s : I s -> R s (off event listenerId s).2.
  Proof.
    intros HI. unfold off. destruct (listeners s !! event); simpl; [|done].
    by apply store_filtered_R.
  Qed.

Lemma on_R event cb moduleName s : I s -> post R s (on event cb moduleName s).
  Proof.
    intros HI. unfold on. destruct cb as [cb|]; simpl; [|done].
    destruct (listeners s !! event) as [a|] eqn:Ha; simpl.
    - destruct (arrays s !! a) as [ls|] eqn:Hls; [|(by apply R_frame)].
      by eapply (R_push a ls _ s HI Hls).
    - rewrite lookup_app_r, Nat.sub_diag by lia. simpl.
      eapply R_trans.
      + by apply (R_new_array [] s HI
                    (with_listeners (<[event := length (arrays s)]> (listeners s))
                       (with_arrays (arrays s ++ [[]]) s))).
      + eapply (R_push (length (arrays s)) []).
        * eapply I_R; [done|]. by apply (R_new_array [] s HI
                    (with_listeners (<[event := length (arrays s)]> (listeners s))
                       (with_arrays (arrays s ++ [[]]) s))).
        * simpl. by rewrite lookup_app_r, Nat.sub_diag by lia.
        * done.
        * done.
        * done.
        * done.
        * done.
  Qed.

Lemma remove_module_listeners_R m s : I s -> R s (remove_module_listeners m s).
  Proof.
    unfold remove_module_listeners.
    generalize (map_to_list (listeners s)). intros todo.
    assert (Hgen : forall s0, I s0 -> R s s0 ->
              R s (foldl (fun s '(event, a) =>
                     store_filtered event
                       (filter (fun l => module l <> m)
                          (default [] (arrays s !! a))) s) s0 todo)).
    { induction todo as [|[ev a] rest IH]; intros s0 HI0 HR; simpl; [done|].
      apply IH.
      - eapply I_R; [done|]. by apply store_filtered_R.
      - eapply R_trans; [done|]. by apply store_filtered_R. }
    intros HI. by apply Hgen.
  Qed.

Lemma clone_or_pass_R fuel data s : I s -> post R s (clone_or_pass fuel data s).
  Proof.
    intros HI. unfold clone_or_pass. destruct (clone s); [|by simpl].
    destruct (_deepClone fuel (objects s) data); simpl; try done; by apply R_frame.
  Qed.

Lemma note_discarded_R r s : I s -> R s (note_discarded r s).
  Proof.
    intros HI. destruct r as [v|[v|t|]]; simpl; try done. by apply R_unhandled.
  Qed.

Lemma forEach_R {A} (P : Rail -> Prop)
      (f : listener -> A -> Rail -> result Rail A) a :
    (forall s s', P s -> R s s' -> P s') ->
    (forall l acc s, P s -> post R s (f l acc s)) ->
    forall todo k acc s, P s -> post R s (forEach f a k todo acc s).
  Proof.
    intros HP Hf. induction todo as [|todo IH]; intros k acc s Hs; simpl; [done|].
    destruct (arrays s !! a ≫= (.!! k)) as [l|]; [|by apply IH].
    specialize (Hf l acc s Hs). destruct (f l acc s) as [acc' s'| |]; try done.
    simpl in Hf. specialize (IH (S k) acc' s' (HP _ _ Hs Hf)).
    destruct (forEach f a (S k) todo acc' s'); simpl in *; try done;
      by eapply R_trans.
  Qed.

  Section bodies.
Variable emit_ : string -> val -> Rail -> result Rail nat.
Variable call_ : handler -> val -> Rail -> result Rail retval.
Variable fuel : nat.
Hypothesis emit_R : forall event data s, I s -> post R s (emit_ event data s).
Hypothesis call_R : forall h arg s, I s -> post R s (call_ h arg s).

Lemma report_R m event ts t s :
      I s -> post R s (report emit_ m event ts t s).
    Proof.
      intros HI. unfold report. destruct (message_of t) as [msg|]; simpl; [|done].
      set (s1 := with_clone true _).
      assert (H1 : R s s1) by (by apply R_frame).
      specialize (emit_R "rail.error" (VRef (length (objects s))) s1 (I_R _ _ HI H1)).
      destruct (emit_ "rail.error" _ s1) as [k s'|t' s'|]; simpl in *; try done.
      - eapply R_trans; [done|]. eapply R_trans; [done|]. (by apply R_frame).
      - by eapply R_trans.
    Qed.

Lemma dispatch_R em event data ts l count s :
      I s -> Good em s ->
      post R s (dispatch emit_ call_ fuel em event data ts l count s).
    Proof.
      intros HI HG. unfold dispatch.
      pose proof (clone_or_pass_R fuel data s HI) as Hc.
      destruct (clone_or_pass fuel data s) as [arg s1|t s1|]; simpl in *; [| |done].
      - pose proof (call_R (callback l) arg s1 (I_R _ _ HI Hc)) as Hcall.
        destruct (call_ (callback l) arg s1) as [r s2|t s2|]; simpl in *; [| |done].
        + assert (HI2 : I s2) by (eapply I_R; [|done]; by eapply I_R).
          eapply R_trans; [done|]. eapply R_trans; [done|].
          eapply R_trans; [by apply note_discarded_R|].
          apply R_turn; [eapply I_R; [done|]; by apply note_discarded_R|].
          eapply Good_R; [done|]. eapply R_trans; [done|].
          eapply R_trans; [done|]. by apply note_discarded_R.
        + assert (HI2 : I s2) by (eapply I_R; [|done]; by eapply I_R).
          assert (HG2 : Good em s2).
          { eapply Good_R; [done|]. by eapply R_trans. }
          pose proof (R_turn em l (Some arg) (Some t) s2 HI2 HG2) as Ht.
          pose proof (report_R (module l) event ts t _ (I_R _ _ HI2 Ht)) as Hr.
          destruct (report emit_ (module l) event ts t _) as [? s3|? s3|];
            simpl in *; try done;
            (eapply R_trans; [done|]; eapply R_trans; [done|]; by eapply R_trans).
      - assert (HI1 : I s1) by (by eapply I_R).
        assert (HG1 : Good em s1) by (by eapply Good_R).
        pose proof (R_turn em l None (Some t) s1 HI1 HG1) as Ht.
        pose proof (report_R (module l) event ts t _ (I_R _ _ HI1 Ht)) as Hr.
        destruct (report emit_ (module l) event ts t _) as [? s3|? s3|];
          simpl in *; try done;
          (eapply R_trans; [done|]; by eapply R_trans).
    Qed.

Lemma emit_body_R event data s :
      I s -> post R s (emit_body emit_ call_ fuel event data s).
    Proof.
      intros HI. unfold emit_body.
      destruct (R_start event data s HI) as [Hs HG]. unfold emit_started in *.
      assert (Hem : emissions (default_data data s).2 = emissions s)
        by (by destruct data).
      destruct (default_data data s) as [data' s1]. cbn [fst snd] in *.
      cbv zeta. rewrite <- Hem in HG.
      set (s2 := with_emissions _ _) in *.
      destruct (listeners s2 !! event) as [a|]; [|by simpl].
      pose proof (forEach_R (fun s => I s /\ Good (emissions s1) s)
                    (dispatch emit_ call_ fuel (emissions s1) event data' (now s)) a)
        as Hloop.
      specialize (Hloop (fun s s' '(conj Hi Hg) Hr =>
                           conj (I_R _ _ Hi Hr) (Good_R _ _ _ Hg Hr))).
      specialize (Hloop (fun l acc s '(conj Hi Hg) =>
                           dispatch_R _ _ _ _ l acc s Hi Hg)).
      specialize (Hloop (length (default [] (arrays s2 !! a))) 0 0 s2
                    (conj (I_R _ _ HI Hs) HG)).
      destruct (forEach _ a 0 _ 0 s2); simpl in *; try done; by eapply R_trans.
    Qed.

Lemma report_async_R m event ts t s :
      I s -> post R s (report_async emit_ m event ts t s).
    Proof.
      intros HI. unfold report_async.
      pose proof (report_R m event ts t s HI) as Hr.
      by destruct (report emit_ m event ts t s).
    Qed.

Lemma start_unit_R em event data ts l units s :
      I s -> Good em s ->
      post R s (start_unit emit_ call_ fuel em event data ts l units s).
    Proof.
      intros HI HG. unfold start_unit.
      pose proof (clone_or_pass_R fuel data s HI) as Hc.
      destruct (clone_or_pass fuel data s) as [arg s1|t s1|]; simpl in *; [| |done].
      - pose proof (call_R (callback l) arg s1 (I_R _ _ HI Hc)) as Hcall.
        destruct (call_ (callback l) arg s1) as [r s2|t s2|]; simpl in *; [| |done].
        + assert (HI2 : I s2) by (eapply I_R; [|done]; by eapply I_R).
          eapply R_trans; [done|]. eapply R_trans; [done|].
          apply R_turn; [done|]. eapply Good_R; [done|]. by eapply R_trans.
        + assert (HI2 : I s2) by (eapply I_R; [|done]; by eapply I_R).
          assert (HG2 : Good em s2).
          { eapply Good_R; [done|]. by eapply R_trans. }
          pose proof (R_turn em l (Some arg) (Some t) s2 HI2 HG2) as Ht.
          pose proof (report_async_R (module l) event ts t _ (I_R _ _ HI2 Ht)) as Hr.
          destruct (report_async emit_ (module l) event ts t _) as [? s3|? s3|];
            simpl in *; try done;
            (eapply R_trans; [done|]; eapply R_trans; [done|]; by eapply R_trans).
      - assert (HI1 : I s1) by (by eapply I_R).
        assert (HG1 : Good em s1) by (by eapply Good_R).
        pose proof (R_turn em l None (Some t) s1 HI1 HG1) as Ht.
        pose proof (report_async_R (module l) event ts t _ (I_R _ _ HI1 Ht)) as Hr.
        destruct (report_async emit_ (module l) event ts t _) as [? s3|? s3|];
          simpl in *; try done;
          (eapply R_trans; [done|]; by eapply R_trans).
    Qed.

Lemma announce_R event (cellv : cell) s :
      I s ->
      post R s (emit_ event (VRef (length (objects s)))
                  (with_objects (objects s ++ [cellv]) s)).
    Proof.
      intros HI. set (s1 := with_objects _ s).
      assert (H1 : R s s1) by (by apply R_frame).
      pose proof (emit_R event (VRef (length (objects s))) s1 (I_R _ _ HI H1)) as He.
      destruct (emit_ event _ s1); simpl in *; try done; by eapply R_trans.
    Qed.

Lemma attach_R m s : I s -> post R s (attach_ emit_ call_ m s).
    Proof.
      intros HI. unfold attach_.
      destruct m as [|[nm|] connect disconnect]; simpl; try done.
      destruct (decide (nm = "")); simpl; [done|].
      destruct (decide (is_Some (modules s !! nm))); simpl; [done|].
      set (s1 := with_modules _ s).
      assert (H1 : R s s1) by (by apply R_frame).
      assert (HI1 : I s1) by (by eapply I_R).
      destruct connect as [h|].
      - pose proof (call_R h VUndef s1 HI1) as Hc.
        destruct (call_ h VUndef s1) as [r s2|t s2|]; simpl in *; [| |done].
        + assert (HI2 : I s2) by (by eapply I_R).
          pose proof (note_discarded_R r s2 HI2) as Hn.
          pose proof (announce_R "rail.module.attached"
                        (CObj [("moduleName", VStr nm)]) _ (I_R _ _ HI2 Hn)) as Ha.
          unfold alloc. cbv beta iota zeta.
          destruct (emit_ "rail.module.attached" _ _); simpl in *; try done;
            (eapply R_trans; [done|]; eapply R_trans; [done|]; by eapply R_trans).
        + assert (H3 : R s2 (with_modules (delete nm (modules s2)) s2)) by (by apply R_frame).
          destruct (message_of t); simpl;
            (eapply R_trans; [done|]; by eapply R_trans).
      - pose proof (announce_R "rail.module.attached"
                      (CObj [("moduleName", VStr nm)]) _ HI1) as Ha.
        unfold alloc. cbv beta iota zeta.
        destruct (emit_ "rail.module.attached" _ _); simpl in *; try done;
          by eapply R_trans.
    Qed.

Lemma detach_R m s : I s -> post R s (detach_ emit_ call_ m s).
    Proof.
      intros HI. unfold detach_. destruct (modules s !! m) as [mo|]; [|by simpl].
      set (s1 := remove_module_listeners m s).
      assert (H1 : R s s1) by (by apply remove_module_listeners_R).
      assert (HI1 : I s1) by (by eapply I_R).
      assert (Hfin : forall s2, I s2 -> R s s2 ->
                post R s
                  (let s3 := with_modules (delete m (modules s2)) s2 in
                   let '(l, h) := alloc (objects s3) (CObj [("moduleName", VStr m)]) in
                   match emit_ "rail.module.detached" (VRef l) (with_objects h s3) with
                   | Ok _ s' => Ok true s'
                   | Throw t s' => Throw t s'
                   | Fuel => Fuel
                   end)).
      { intros s2 HI2 H2. cbv zeta. unfold alloc. cbv beta iota zeta.
        set (s3 := with_modules _ s2).
        assert (H3 : R s2 s3) by (by apply R_frame).
        pose proof (announce_R "rail.module.detached"
                      (CObj [("moduleName", VStr m)]) s3 (I_R _ _ HI2 H3)) as Ha.
        destruct (emit_ "rail.module.detached" _ _); simpl in *; try done;
          (eapply R_trans; [done|]; by eapply R_trans). }
      destruct mo as [|nm connect [h|]]; try (by apply Hfin).
      pose proof (call_R h VUndef s1 HI1) as Hc.
      destruct (call_ h VUndef s1) as [r s2|t s2|]; simpl in Hc; [| |done].
      - apply Hfin.
        + eapply I_R; [|by apply note_discarded_R; eapply I_R].
          by eapply I_R.
        + eapply R_trans; [done|]. eapply R_trans; [done|].
          apply note_discarded_R. by eapply I_R.
      - apply Hfin; [by eapply I_R | by eapply R_trans].
    Qed.

Lemma exec_R c : forall data s,
      I s -> post R s (exec emit_ call_ c data s).
    Proof.
      induction c as [|c1 IH1 c2 IH2|t|c1 IH1 c2 IH2|k v|event cb moduleName
                      |event listenerId|event p|m|m|enabled];
        intros data s HI; simpl.
      - done.
      - specialize (IH1 data s HI).
        destruct (exec emit_ call_ c1 data s) as [? s1|? s1|]; simpl in *; try done.
        specialize (IH2 data s1 (I_R _ _ HI IH1)).
        destruct (exec emit_ call_ c2 data s1); simpl in *; try done;
          by eapply R_trans.
      - done.
      - specialize (IH1 data s HI).
        destruct (exec emit_ call_ c1 data s) as [? s1|? s1|]; simpl in *; try done.
        specialize (IH2 data s1 (I_R _ _ HI IH1)).
        destruct (exec emit_ call_ c2 data s1); simpl in *; try done;
          by eapply R_trans.
      - destruct data; simpl; try done. (by apply R_frame).
      - pose proof (on_R event cb moduleName s HI) as Ho.
        by destruct (on event cb moduleName s).
      - by apply off_R.
      - assert (Hp : R s (eval_payload p data s).2 ).
        { destruct p; simpl; try done. (by apply R_frame). }
        destruct (eval_payload p data s) as [d s1]. simpl in Hp.
        pose proof (emit_R event d s1 (I_R _ _ HI Hp)) as He.
        destruct (emit_ event d s1); simpl in *; try done; by eapply R_trans.
      - by apply attach_R.
      - pose proof (detach_R m s HI) as Hd.
        by destruct (detach_ emit_ call_ m s).
      - (by apply R_frame).
    Qed.

Lemma call_body_R h arg s : I s -> post R s (call_body emit_ call_ h arg s).
    Proof.
      intros HI. destruct h as [async body ret|tid p event listenerId]; simpl.
      - pose proof (exec_R body arg s HI) as He.
        destruct (exec emit_ call_ body arg s); simpl in *; try done.
        by destruct async.
      - set (s1 := clearTimeout tid s).
        assert (H1 : R s s1) by (by apply R_frame).
        eapply R_trans; [done|].
        eapply R_trans; [apply off_R; by eapply I_R|].
        unfold settle_promise.
        destruct (promises _ !! p) as [[| |]|]; try done. (by apply R_frame).
    Qed.
  End bodies.

Lemma engine_R fuel :
    (forall event data s, I s -> post R s (emit fuel event data s))
    /\ (forall h arg s, I s -> post R s (call fuel h arg s)).
  Proof.
    induction fuel as [|n [IHe IHc]]; [done|].
    split.
    - intros event data s HI. by apply emit_body_R.
    - intros h arg s HI. by apply call_body_R.
  Qed.
End preservation.

Section respected.
Context {R : Rail -> Rail -> Prop} {I : Rail -> Prop}
    {Good : nat -> Rail -> Prop}.
Hypothesis H : respects R I Good.

Lemma emit_respects fuel event data s :
    I s -> post R s (emit fuel event data s).
  Proof. destruct H. by eapply engine_R. Qed.

Lemma call_respects fuel h arg s : I s -> post R s (call fuel h arg s).
  Proof. destruct H. by eapply engine_R. Qed.

Lemma report_respects n m event ts t s :
    I s -> post R s (report (emit n) m event ts t s).
  Proof.
    destruct H. eapply report_R; try done. intros. by eapply engine_R.
  Qed.

Lemma dispatch_respects n em event data ts l acc s :
    I s -> Good em s ->
    post R s (dispatch (emit n) (call n) n em event data ts l acc s).
  Proof.
    destruct H. eapply dispatch_R; try done; intros; by eapply engine_R.
  Qed.

Lemma start_unit_respects n em event data ts l units s :
    I s -> Good em s ->
    post R s (start_unit (emit n) (call n) n em event data ts l units s).
  Proof.
    destruct H. eapply start_unit_R; try done; intros; by eapply engine_R.
  Qed.

Lemma report_async_respects n m event ts t s :
    I s -> post R s (report_async (emit n) m event ts t s).
  Proof.
    destruct H. eapply report_async_R; try done. intros. by eapply engine_R.
  Qed.

Lemma attach_respects fuel m s : I s -> post R s (attach fuel m s).
  Proof.
    destruct H. eapply attach_R; try done; intros; by eapply engine_R.
  Qed.

Lemma detach_respects fuel m s : I s -> post R s (detach fuel m s).
  Proof.
    destruct H. eapply detach_R; try done; intros; by eapply engine_R.
  Qed.

Lemma dispatch_all_respects {A} (P : Rail -> Prop)
      (f : listener -> A -> Rail -> result Rail A) :
    (forall s s', P s -> R s s' -> P s') ->
    (forall l acc s, P s -> post R s (f l acc s)) ->
    forall snapshot acc s, P s -> post R s (dispatch_all f snapshot acc s).
  Proof.
    intros HP Hf. induction snapshot as [|l rest IH]; intros acc s Hs; simpl.
    - apply (r_refl _ _ _ H).
    - specialize (Hf l acc s Hs). destruct (f l acc s) as [acc' s'| |]; try done.
      simpl in Hf. specialize (IH acc' s' (HP _ _ Hs Hf)).
      destruct (dispatch_all f rest acc' s'); simpl in *; try done;
        by eapply (r_trans _ _ _ H).
  Qed.
End respected.

(** ** Two instances: what only grows, and where new turns come from *)

Lemma evolves_refl s : evolves s s.
Proof.
  split_and!; try done. intros a ls H. exists []. by rewrite app_nil_r.
Qed.

Lemma evolves_trans s1 s2 s3 : evolves s1 s2 -> evolves s2 s3 -> evolves s1 s3.
Proof.
  intros (Ha & Hh & Hu & Ht & He) (Ha' & Hh' & Hu' & Ht' & He').
  split_and!; try (by etrans).
  intros a ls H. destruct (Ha a ls H) as [m1 H1].
  destruct (Ha' a _ H1) as [m2 H2]. exists (m1 ++ m2). by rewrite app_assoc.
Qed.

Lemma emit_started_fields event data s :
  listeners (emit_started event data s).2 = listeners s
  /\ arrays (emit_started event data s).2 = arrays s
  /\ modules (emit_started event data s).2 = modules s
  /\ clone (emit_started event data s).2 = clone s
  /\ turns (emit_started event data s).2 = turns s
  /\ unhandled (emit_started event data s).2 = unhandled s
  /\ emissions (emit_started event data s).2 = S (emissions s)
  /\ exists entry, eventHistory (emit_started event data s).2
                     = eventHistory s ++ [entry]
       /\ h_event entry = event
       /\ h_data entry = (emit_started event data s).1
       /\ h_seen entry = match (emit_started event data s).1 with
                         | VRef l => objects (emit_started event data s).2 !! l
                         | _ => None
                         end.
Proof.
  unfold emit_started, default_data.
  destruct data; simpl; split_and!; try done; eexists; split_and!; done.
Qed.

Lemma evolves_respects : respects evolves (fun _ => True) (fun _ _ => True).
Proof.
  split; try done.
  - apply evolves_refl.
  - apply evolves_trans.
  - intros s s' Ha Hh He Ht Hu. unfold evolves. rewrite Ha, Hh, He, Ht, Hu.
    apply evolves_refl.
  - intros event data s _.
    destruct (emit_started_fields event data s)
      as (_ & Ha & _ & _ & Ht & Hu & He & entry & Hh & _).
    split; [|done]. unfold evolves. rewrite Ha, Ht, Hu, He, Hh.
    split_and!; try done; [|by apply prefix_app_r|lia].
    intros a ls H. exists []. by rewrite app_nil_r.
  - intros em l arg threw s _ _. unfold evolves. simpl.
    split_and!; try done; [|by apply prefix_app_r].
    intros a ls H. exists []. by rewrite app_nil_r.
  - intros ts s _. unfold evolves. simpl.
    split_and!; try done; [|by apply prefix_app_r].
    intros a ls H. exists []. by rewrite app_nil_r.
  - intros a ls x s _ Hls s' Ha Hh He Ht Hu. unfold evolves.
    rewrite Ha, Hh, He, Ht, Hu. split_and!; try done.
    intros a' ls' H'. destruct (decide (a' = a)) as [->|Hne].
    + exists [x]. rewrite list_lookup_insert_eq by (by eapply lookup_lt_Some).
      congruence.
    + exists []. by rewrite list_lookup_insert_ne, app_nil_r.
  - intros ls s _ s' Ha Hh He Ht Hu. unfold evolves.
    rewrite Ha, Hh, He, Ht, Hu. split_and!; try done.
    intros a' ls' H'. exists []. rewrite app_nil_r.
    by apply lookup_app_l_Some.
Qed.

Lemma turns_from_refl e s : turns_from e s s.
Proof. split; [done|]. exists []. by rewrite app_nil_r. Qed.

Lemma turns_from_trans e s1 s2 s3 :
  turns_from e s1 s2 -> turns_from e s2 s3 -> turns_from e s1 s3.
Proof.
  intros (He & n1 & H1 & F1) (He' & n2 & H2 & F2). split; [lia|].
  exists (n1 ++ n2). split; [by rewrite H2, H1, app_assoc|].
  apply Forall_app. split; [|done].
  eapply Forall_impl; [done|]. simpl. intros c. lia.
Qed.

Lemma turns_from_weaken e e' s s' : e' <= e -> turns_from e s s' -> turns_from e' s s'.
Proof.
  intros Hle (He & new & H & F). split; [done|]. exists new. split; [done|].
  eapply Forall_impl; [done|]. simpl. intros c. lia.
Qed.

Lemma turns_from_respects e :
  respects (turns_from e) (fun s => e <= emissions s)
    (fun em s => e <= em < emissions s).
Proof.
  split.
  - apply turns_from_refl.
  - apply turns_from_trans.
  - intros s s' Hs [He _]. lia.
  - intros em s s' Hs [He _]. lia.
  - intros s s' _ _ He Ht _. unfold turns_from. rewrite He, Ht.
    apply turns_from_refl.
  - intros event data s Hs.
    destruct (emit_started_fields event data s)
      as (_ & _ & _ & _ & Ht & _ & He & _).
    split; [|lia]. unfold turns_from. rewrite Ht, He. split; [lia|].
    exists []. by rewrite app_nil_r.
  - intros em l arg threw s Hs Hg. split; [done|].
    eexists. split; [done|]. by apply Forall_singleton.
  - intros ts s Hs. split; [done|]. exists []. by rewrite app_nil_r.
  - intros a ls x s Hs Hls s' _ _ He Ht _. unfold turns_from. rewrite He, Ht.
    apply turns_from_refl.
  - intros ls s Hs s' _ _ He Ht _. unfold turns_from. rewrite He, Ht.
    apply turns_from_refl.
Qed.

Lemma emit_unfold n event data s :
  emit (S n) event data s =
    let '(data', s1) := emit_started event data s in
    match listeners s1 !! event with
    | None => Ok 0 s1
    | Some a =>
        forEach (dispatch (emit n) (call n) n (emissions s) event data' (now s))
          a 0 (length (default [] (arrays s1 !! a))) 0 s1
    end.
Proof.
  simpl. unfold emit_body, emit_started.
  assert (Hem : emissions (default_data data s).2 = emissions s)
    by (by destruct data).
  destruct (default_data data s) as [data' s1]. simpl in *. by rewrite Hem.
Qed.

(** No listeners: [emit] returns 0. *)
Lemma emit_no_listeners n event data s :
  listeners_of s event = [] ->
  emit (S n) event data s = Ok 0 (emit_started event data s).2.
Proof.
  intros Hnone. rewrite emit_unfold.
  destruct (emit_started_fields event data s) as (Hl & Ha & _).
  destruct (emit_started event data s) as [data' s1]. simpl in *.
  unfold listeners_of in Hnone. rewrite Hl, Ha.
  destruct (listeners s !! event) as [a|]; [|done].
  by rewrite Hnone.
Qed.

(** * The emission loop goes through a snapshot *)

Lemma forEach_over_copy {A} (f : listener -> A -> Rail -> result Rail A)
    (a : nat) (snapshot : list listener) :
  (forall l acc s, post evolves s (f l acc s)) ->
  forall rest k acc s,
    (exists more, arrays s !! a = Some (snapshot ++ more)) ->
    drop k snapshot = rest ->
    forEach f a k (length rest) acc s = dispatch_all f rest acc s.
Proof.
  intros Hf. induction rest as [|l rest IH]; intros k acc s [more Hs] Hdrop; [done|].
  assert (Hk : snapshot !! k = Some l).
  { rewrite <- (Nat.add_0_r k), <- lookup_drop, Hdrop. done. }
  simpl. rewrite Hs. simpl. rewrite (lookup_app_l_Some _ _ _ _ Hk).
  specialize (Hf l acc s). destruct (f l acc s) as [acc' s'| |]; try done.
  apply IH.
  - destruct Hf as (Ha & _). destruct (Ha a _ Hs) as [more' Hs'].
    exists (more ++ more'). by rewrite app_assoc.
  - rewrite (drop_S _ _ _ Hk) in Hdrop. by inversion Hdrop.
Qed.

Lemma dispatch_evolves n em event data ts l acc s :
  post evolves s (dispatch (emit n) (call n) n em event data ts l acc s).
Proof. by apply (dispatch_respects evolves_respects). Qed.

Lemma emit_is_over_copy fuel event data s :
  emit fuel event data s = emit_over_copy fuel event data s.
Proof.
  destruct fuel as [|n]; [done|].
  rewrite emit_unfold. unfold emit_over_copy, listeners_of.
  destruct (emit_started_fields event data s) as (Hl & Ha & _).
  destruct (emit_started event data s) as [data' s1]. simpl in *.
  rewrite Hl, Ha. destruct (listeners s !! event) as [a|]; [|done].
  destruct (arrays s !! a) as [ls|] eqn:Hls; [|done]. simpl.
  apply (forEach_over_copy _ a ls).
  - intros l acc s0. apply dispatch_evolves.
  - exists []. by rewrite app_nil_r, Ha.
  - done.
Qed.

(** * What one turn leaves in the log *)

Lemma added_before s0 s s' c : evolves s0 s -> added s s' c -> added s0 s' c.
Proof.
  intros (_ & _ & _ & [k Hk] & _) (new & Hn & Hc).
  exists (k ++ new). split; [by rewrite Hn, Hk, app_assoc|].
  apply elem_of_app. by right.
Qed.

Lemma added_after s s' s'' c : added s s' c -> evolves s' s'' -> added s s'' c.
Proof.
  intros (new & Hn & Hc) (_ & _ & _ & [k Hk] & _).
  exists (new ++ k). split; [by rewrite Hk, Hn, app_assoc|].
  apply elem_of_app. by left.
Qed.

Lemma reported_later m event msg ts s s' :
  reported m event msg ts s -> evolves s s' -> reported m event msg ts s'.
Proof.
  intros (entry & Hin & He & Hs) (_ & [k Hk] & _).
  exists entry. split; [|done]. rewrite Hk. apply elem_of_app. by left.
Qed.

Lemma turns_of_app em l1 l2 :
  turns_of em (l1 ++ l2) = turns_of em l1 ++ turns_of em l2.
Proof. apply filter_app. Qed.

Lemma turns_of_later em bound log :
  Forall (fun c => S em <= t_emission c < bound) log -> turns_of em log = [].
Proof.
  induction 1 as [|c log Hc _ IH]; [done|].
  unfold turns_of in *. rewrite filter_cons_False; [done|lia].
Qed.

Lemma clone_or_pass_fields fuel data s :
  match clone_or_pass fuel data s with
  | Ok _ s1 | Throw _ s1 =>
      turns s1 = turns s /\ emissions s1 = emissions s
      /\ eventHistory s1 = eventHistory s /\ clone s1 = clone s
      /\ evolves s s1
  | Fuel => True
  end.
Proof.
  pose proof (clone_or_pass_R evolves (fun _ => True) evolves_refl
                (r_frame _ _ _ evolves_respects) fuel data s I) as He.
  unfold clone_or_pass in *. destruct (clone s) eqn:Hc; [|done].
  by destruct (_deepClone fuel (objects s) data).
Qed.

(** An emission that returns or throws has pushed its entry. *)
Lemma clone_or_pass_throw fuel data s t s1 :
  clone_or_pass fuel data s = Throw t s1 -> t = not_a_function.
Proof.
  unfold clone_or_pass. destruct (clone s); [|done].
  destruct (_deepClone fuel (objects s) data) as [v h|t0 h|] eqn:Hc; try done.
  intros [= <- _]. by eapply deepClone_throw.
Qed.

Lemma emit_pushes_history fuel event l s :
  match emit fuel event (VRef l) s with
  | Ok _ s' | Throw _ s' =>
      exists entry, entry ∈ eventHistory s'
        /\ h_event entry = event /\ h_seen entry = objects s !! l
  | Fuel => True
  end.
Proof.
  destruct fuel as [|n]; [done|]. rewrite emit_is_over_copy. simpl.
  set (s1 := with_emissions _ _).
  pose proof (dispatch_all_respects evolves_respects (fun _ => True)
                (dispatch (emit n) (call n) n (emissions s) event (VRef l) (now s))
                (fun _ _ _ _ => I)
                (fun l acc s _ => dispatch_evolves n _ _ _ _ l acc s)
                (listeners_of s event) 0 s1 I) as He.
  destruct (dispatch_all _ _ 0 s1) as [k s'|t s'|]; simpl in He; try done;
    destruct He as (_ & [more Hh] & _);
    exists (HistoryEntry event (VRef l) (now s) (objects s !! l));
    (split; [|done]);
    rewrite Hh; apply elem_of_app; left; apply elem_of_app; right;
    apply list_elem_of_here.
Qed.

(** The [catch] block: what it logs belongs to later emissions; when it
    returns, the error was reported and the flag is what it was. *)
Lemma report_turn n em m event ts t s :
  S em <= emissions s ->
  match report (emit n) m event ts t s with
  | Ok msg s' =>
      message_of t = Some msg /\ evolves s s' /\ turns_from (S em) s s'
      /\ reported m event msg ts s' /\ clone s' = clone s
  | Throw _ s' => evolves s s' /\ turns_from (S em) s s'
  | Fuel => True
  end.
Proof.
  intros Hem.
  pose proof (report_respects evolves_respects n m event ts t s I) as He.
  pose proof (report_respects (turns_from_respects (S em)) n m event ts t s Hem) as Ht.
  unfold report in *. destruct (message_of t) as [msg|]; [|done].
  simpl in *.
  pose proof (emit_pushes_history n "rail.error" (length (objects s))
                (with_clone true
                   (with_objects (objects s ++ [error_data m event msg ts]) s)))
    as Hh.
  destruct (emit n "rail.error" _ _) as [k s'|t' s'|]; simpl in *; try done.
  split_and!; try done.
  destruct Hh as (entry & Hin & Hev & Hseen). exists entry.
  rewrite lookup_app_r, Nat.sub_diag in Hseen by lia. done.
Qed.

Lemma call_evolves n h arg s : post evolves s (call n h arg s).
Proof. by apply (call_respects evolves_respects). Qed.

Lemma added_log_turn s0 s em l arg threw :
  evolves s0 s -> added s0 (log_turn em l arg threw s) (Turn em (lid l) arg threw).
Proof.
  intros (_ & _ & _ & [k Hk] & _). exists (k ++ [Turn em (lid l) arg threw]).
  split; [simpl; by rewrite Hk, app_assoc|].
  apply elem_of_app. right. apply list_elem_of_here.
Qed.

Lemma log_turn_evolves em l arg threw s : evolves s (log_turn em l arg threw s).
Proof. by apply (r_turn _ _ _ evolves_respects). Qed.

Lemma note_discarded_evolves r s : evolves s (note_discarded r s).
Proof.
  destruct r as [v|[v|t|]]; simpl; try apply evolves_refl.
  by apply (r_unhandled _ _ _ evolves_respects).
Qed.

(** ** What [emit] can throw *)

Section throws.
Variable n : nat.
Hypothesis IH : forall event data s t s',
    emit n event data s = Throw t s' ->
    t = message_type_error
    /\ exists c, added s s' c /\ t_threw c = Some TNullish.

Lemma report_throw em l arg m event ts t0 s0 s t s' :
    evolves s0 s ->
    report (emit n) m event ts t0 (log_turn em l arg (Some t0) s) = Throw t s' ->
    t = message_type_error
    /\ exists c, added s0 s' c /\ t_threw c = Some TNullish.
  Proof.
    intros He Hr. unfold report in Hr.
    destruct t0 as [msg| |]; simpl in Hr.
    - set (sf := with_clone true _) in Hr.
      destruct (emit n "rail.error" _ sf) as [|t' s3|] eqn:Hem; inversion Hr; subst.
      destruct (IH _ _ _ _ _ Hem) as (-> & c & Hc & Hn). split; [done|].
      exists c. split; [|done]. eapply added_before; [|done].
      eapply evolves_trans; [done|].
      eapply (evolves_trans _ (log_turn em l arg _ s)); [apply log_turn_evolves|].
      apply (r_frame _ _ _ evolves_respects); reflexivity.
    - set (sf := with_clone true _) in Hr.
      destruct (emit n "rail.error" _ sf) as [|t' s3|] eqn:Hem; inversion Hr; subst.
      destruct (IH _ _ _ _ _ Hem) as (-> & c & Hc & Hn). split; [done|].
      exists c. split; [|done]. eapply added_before; [|done].
      eapply evolves_trans; [done|].
      eapply (evolves_trans _ (log_turn em l arg _ s)); [apply log_turn_evolves|].
      apply (r_frame _ _ _ evolves_respects); reflexivity.
    - inversion Hr; subst. split; [done|].
      exists (Turn em (lid l) arg (Some TNullish)).
      split; [by apply added_log_turn|done].
  Qed.

Lemma dispatch_throw em event data ts l acc s t s' :
    dispatch (emit n) (call n) n em event data ts l acc s = Throw t s' ->
    t = message_type_error
    /\ exists c, added s s' c /\ t_threw c = Some TNullish.
  Proof.
    unfold dispatch. intros Hd.
    pose proof (clone_or_pass_fields n data s) as Hc.
    destruct (clone_or_pass n data s) as [arg s1|t0 s1|]; [| |done].
    - destruct Hc as (_ & _ & _ & _ & He1).
      pose proof (call_evolves n (callback l) arg s1) as Hcall.
      destruct (call n (callback l) arg s1) as [r s2|t0 s2|]; simpl in Hcall; try done.
      destruct (report _ _ _ _ t0 _) as [|t' s3|] eqn:Hr; inversion Hd; subst.
      eapply report_throw; [|done]. by eapply evolves_trans.
    - destruct Hc as (_ & _ & _ & _ & He1).
      destruct (report _ _ _ _ t0 _) as [|t' s3|] eqn:Hr; inversion Hd; subst.
      by eapply report_throw.
  Qed.

Lemma dispatch_all_throw em event data ts : forall snapshot acc s t s',
    dispatch_all (dispatch (emit n) (call n) n em event data ts) snapshot acc s
      = Throw t s' ->
    t = message_type_error
    /\ exists c, added s s' c /\ t_threw c = Some TNullish.
  Proof.
    induction snapshot as [|l rest IHr]; intros acc s t s' Hd; [done|].
    simpl in Hd.
    pose proof (dispatch_evolves n em event data ts l acc s) as He.
    destruct (dispatch _ _ n em event data ts l acc s) as [acc1 s1|t1 s1|] eqn:H1;
      [| |done].
    - destruct (IHr _ _ _ _ Hd) as (-> & c & Hc & Hn). split; [done|].
      exists c. split; [|done]. by eapply added_before.
    - inversion Hd; subst. by eapply dispatch_throw.
  Qed.
End throws.

(** [emit] hands none of the listeners' exceptions to its caller.  The one
    thing it can throw is the [TypeError] of its own [catch] block, raised
    by [error.message] when what was thrown is [null] or [undefined]. *)
Lemma emit_throw fuel : forall event data s t s',
  emit fuel event data s = Throw t s' ->
  t = message_type_error
  /\ exists c, added s s' c /\ t_threw c = Some TNullish.
Proof.
  induction fuel as [|n IH]; intros event data s t s' He; [done|].
  rewrite emit_is_over_copy in He. unfold emit_over_copy in He.
  pose proof (proj1 (r_start _ _ _ evolves_respects event data s I)) as Hs.
  destruct (emit_started event data s) as [data' s1]. simpl in Hs.
  destruct (dispatch_all_throw n IH _ _ _ _ _ _ _ _ _ He) as (-> & c & Hc & Hn).
  split; [done|]. exists c. split; [|done]. by eapply added_before.
Qed.

(** ** The turn of one listener *)

Lemma dispatch_turn n em event data ts l acc s :
  S em <= emissions s ->
  match dispatch (emit n) (call n) n em event data ts l acc s with
  | Ok acc' s' =>
      evolves s s' /\ S em <= emissions s'
      /\ exists new own,
           turns s' = turns s ++ new /\ turns_of em new = [own]
           /\ t_listener own = lid l
           /\ t_arg own = passed_arg (clone_or_pass n data s)
           /\ called_or_clone_failed own
           /\ ((t_threw own = None /\ is_Some (t_arg own) /\ acc' = S acc)
               \/ (exists t msg, t_threw own = Some t /\ message_of t = Some msg
                                 /\ reported (module l) event msg ts s'
                                 /\ acc' = acc))
  | Throw _ s' =>
      evolves s s'
      /\ exists new own,
           turns s' = turns s ++ new /\ turns_of em new = [own]
           /\ t_listener own = lid l
           /\ t_arg own = passed_arg (clone_or_pass n data s)
           /\ called_or_clone_failed own
           /\ is_Some (t_threw own)
  | Fuel => True
  end.
Proof.
  intros Hem.
  pose proof (dispatch_evolves n em event data ts l acc s) as Hev.
  unfold dispatch in *.
  pose proof (clone_or_pass_fields n data s) as Hc.
  pose proof (clone_or_pass_throw n data s) as Hct.
  destruct (clone_or_pass n data s) as [arg s1|t0 s1|]; [| |done].
  - destruct Hc as (Ht1 & He1 & _ & _ & Hev1).
    pose proof (call_respects (turns_from_respects (S em)) n (callback l) arg s1)
      as Hcall.
    specialize (Hcall ltac:(simpl; lia)).
    destruct (call n (callback l) arg s1) as [r s2|t0 s2|]; simpl in Hcall; [| |done].
    + destruct Hcall as (He2 & new1 & Hn1 & F1).
      simpl in Hev. split_and!; [done|simpl; destruct r as [|[| |]]; simpl; lia|].
      exists (new1 ++ [Turn em (lid l) (Some arg) None]), (Turn em (lid l) (Some arg) None).
      split_and!.
      * simpl. rewrite app_assoc. f_equal.
        destruct r as [|[| |]]; simpl; congruence.
      * rewrite turns_of_app, (turns_of_later em _ _ F1). simpl.
        unfold turns_of. by rewrite filter_cons_True, filter_nil.
      * done.
      * done.
      * done.
      * left. by split_and!.
    + destruct Hcall as (He2 & new1 & Hn1 & F1).
      set (own := Turn em (lid l) (Some arg) (Some t0)).
      pose proof (report_turn n em (module l) event ts t0
                    (log_turn em l (Some arg) (Some t0) s2)) as Hr.
      lapply Hr; [clear Hr; intros Hr | unfold log_turn, with_turns; simpl; lia].
      destruct (report _ _ _ _ t0 _) as [msg s3|t' s3|]; [| |done].
      * destruct Hr as (Hmsg & Hev3 & (He3 & new3 & Hn3 & F3) & Hrep & _).
        simpl in Hev, He3. split_and!; [done|lia|].
        exists (new1 ++ own :: new3), own. split_and!.
        -- rewrite Hn3. simpl. rewrite Hn1, Ht1, <- !app_assoc. done.
        -- rewrite turns_of_app, (turns_of_later em _ _ F1). simpl.
           unfold turns_of. rewrite filter_cons_True by done.
           fold (turns_of em new3). by rewrite (turns_of_later em _ _ F3).
        -- done.
        -- done.
        -- done.
        -- right. by exists t0, msg.
      * destruct Hr as (Hev3 & (He3 & new3 & Hn3 & F3)).
        simpl in Hev. split; [done|].
        exists (new1 ++ own :: new3), own. split_and!.
        -- rewrite Hn3. simpl. rewrite Hn1, Ht1, <- !app_assoc. done.
        -- rewrite turns_of_app, (turns_of_later em _ _ F1). simpl.
           unfold turns_of. rewrite filter_cons_True by done.
           fold (turns_of em new3). by rewrite (turns_of_later em _ _ F3).
        -- done.
        -- done.
        -- done.
        -- by eexists.
  - destruct Hc as (Ht1 & He1 & _ & _ & Hev1).
    set (own := Turn em (lid l) None (Some t0)).
    pose proof (report_turn n em (module l) event ts t0
                  (log_turn em l None (Some t0) s1)) as Hr.
    lapply Hr; [clear Hr; intros Hr | unfold log_turn, with_turns; simpl; lia].
    destruct (report _ _ _ _ t0 _) as [msg s3|t' s3|]; [| |done].
    + destruct Hr as (Hmsg & Hev3 & (He3 & new3 & Hn3 & F3) & Hrep & _).
      simpl in Hev, He3. split_and!; [done|lia|].
      exists (own :: new3), own. split_and!.
      * rewrite Hn3. simpl. by rewrite Ht1, <- !app_assoc.
      * unfold turns_of. rewrite filter_cons_True by done.
        fold (turns_of em new3). by rewrite (turns_of_later em _ _ F3).
      * done.
      * done.
      * intros _. simpl. f_equal. by eapply Hct.
      * right. by exists t0, msg.
    + destruct Hr as (Hev3 & (He3 & new3 & Hn3 & F3)).
      simpl in Hev. split; [done|].
      exists (own :: new3), own. split_and!.
      * rewrite Hn3. simpl. by rewrite Ht1, <- !app_assoc.
      * unfold turns_of. rewrite filter_cons_True by done.
        fold (turns_of em new3). by rewrite (turns_of_later em _ _ F3).
      * done.
      * done.
      * intros _. simpl. f_equal. by eapply Hct.
      * by eexists.
Qed.

(** ** The turns of a whole emission *)

Lemma turn_settled_later event ts s s' l c :
  evolves s s' -> turn_settled event ts s l c -> turn_settled event ts s' l c.
Proof.
  intros He (Hl & Hcf & Hc). split; [done|]. split; [done|].
  destruct (t_threw c); [|done].
  destruct Hc as (msg & Hm & Hr). exists msg. split; [done|].
  by eapply reported_later.
Qed.

Lemma dispatch_all_turns n em event data ts : forall snapshot acc s,
  S em <= emissions s ->
  match dispatch_all (dispatch (emit n) (call n) n em event data ts) snapshot acc s with
  | Ok acc' s' =>
      evolves s s'
      /\ exists new,
           turns s' = turns s ++ new
           /\ Forall2 (turn_settled event ts s') snapshot (turns_of em new)
           /\ acc' = acc + length (filter (fun c => t_threw c = None)
                                     (turns_of em new))
  | Throw _ s' =>
      evolves s s'
      /\ exists new k,
           turns s' = turns s ++ new
           /\ t_listener <$> turns_of em new = lid <$> take k snapshot
           /\ Forall called_or_clone_failed (turns_of em new)
  | Fuel => True
  end.
Proof.
  induction snapshot as [|l rest IH]; intros acc s Hem; simpl.
  - split; [apply evolves_refl|]. exists []. rewrite app_nil_r.
    split_and!; [done|constructor|simpl; lia].
  - pose proof (dispatch_turn n em event data ts l acc s Hem) as Hd.
    destruct (dispatch _ _ n em event data ts l acc s) as [acc1 s1|t1 s1|]; [| |done].
    + destruct Hd as (Hev1 & Hem1 & new1 & own & Hn1 & Ho1 & Hl1 & _ & Hcf & Hcase).
      specialize (IH acc1 s1 Hem1).
      destruct (dispatch_all _ rest acc1 s1) as [acc' s'|t' s'|]; [| |done].
      * destruct IH as (Hev2 & new2 & Hn2 & F2 & Hacc).
        split; [by eapply evolves_trans|].
        exists (new1 ++ new2). rewrite turns_of_app, Ho1.
        split_and!; [by rewrite Hn2, Hn1, app_assoc| |].
        -- simpl. constructor; [|done]. split; [done|]. split; [done|].
           destruct Hcase as [(-> & Harg & _)|(t & msg & -> & Hm & Hr & _)]; [done|].
           exists msg. split; [done|]. by eapply reported_later.
        -- simpl. destruct Hcase as [(Hnone & _ & ->)|(t & msg & Hsome & _ & _ & ->)].
           ++ rewrite filter_cons_True by done. simpl. lia.
           ++ rewrite filter_cons_False by (rewrite Hsome; done). lia.
      * destruct IH as (Hev2 & new2 & k & Hn2 & Hk & Hcfs).
        split; [by eapply evolves_trans|].
        exists (new1 ++ new2), (S k). rewrite turns_of_app, Ho1.
        split; [by rewrite Hn2, Hn1, app_assoc|]. split.
        -- rewrite fmap_app, Hk. simpl. by rewrite Hl1.
        -- by constructor.
    + destruct Hd as (Hev1 & new1 & own & Hn1 & Ho1 & Hl1 & _ & Hcf & _).
      split; [done|]. exists new1, 1. split; [done|].
      rewrite Ho1. simpl. rewrite Hl1. split; [done|]. by repeat constructor.
Qed.

Lemma emit_started_evolves event data s : evolves s (emit_started event data s).2.
Proof. by apply (r_start _ _ _ evolves_respects). Qed.

Lemma emit_turns fuel event data s :
  match emit fuel event data s with
  | Ok n s' =>
      evolves s s'
      /\ exists new,
           turns s' = turns s ++ new
           /\ Forall2 (turn_settled event (now s) s') (listeners_of s event)
                (turns_of (emissions s) new)
           /\ n = length (filter (fun c => t_threw c = None)
                            (turns_of (emissions s) new))
  | Throw _ s' =>
      evolves s s'
      /\ exists new k,
           turns s' = turns s ++ new
           /\ t_listener <$> turns_of (emissions s) new
              = lid <$> take k (listeners_of s event)
           /\ Forall called_or_clone_failed (turns_of (emissions s) new)
  | Fuel => True
  end.
Proof.
  rewrite emit_is_over_copy. destruct fuel as [|n]; [done|]. simpl.
  pose proof (emit_started_evolves event data s) as Hs.
  destruct (emit_started_fields event data s)
    as (_ & _ & _ & _ & Ht & _ & He & _).
  destruct (emit_started event data s) as [data' s1]. simpl in *.
  pose proof (dispatch_all_turns n (emissions s) event data' (now s)
                (listeners_of s event) 0 s1 ltac:(lia)) as Hd.
  rewrite Ht in Hd.
  destruct (dispatch_all _ _ 0 s1) as [k s'|t s'|]; [| |done].
  - destruct Hd as (Hev & new & Hn & F & Hk). split; [by eapply evolves_trans|].
    by exists new.
  - destruct Hd as (Hev & new & k & Hn & Hk). split; [by eapply evolves_trans|].
    by exists new, k.
Qed.

(** * When an emission is sure to return *)

(** ** [_deepClone] ends on finite payloads *)

Lemma reify_items_Some r items ts x :
  reify_items r items = Some ts -> x ∈ items -> is_Some (r x).
Proof.
  revert ts. induction items as [|y rest IH]; intros ts H Hx; [by inversion Hx|].
  simpl in H. destruct (r y) eqn:Hy; [|done].
  destruct (reify_items r rest) eqn:Hr; [|done].
  apply elem_of_cons in Hx as [->|Hx]; [by rewrite Hy|]. by eapply IH.
Qed.

Lemma reify_props_Some r props ts x :
  reify_props r props = Some ts -> x ∈ props.*2 -> is_Some (r x).
Proof.
  revert ts. induction props as [|[k y] rest IH]; intros ts H Hx; [by inversion Hx|].
  simpl in H. destruct (r y) eqn:Hy; [|done].
  destruct (reify_props r rest) eqn:Hr; [|done].
  simpl in Hx. apply elem_of_cons in Hx as [->|Hx]; [by rewrite Hy|]. by eapply IH.
Qed.

Lemma reify_reach_lt depth : forall h v l,
  is_Some (reify depth h v) -> l ∈ reach depth h v -> l < length h.
Proof.
  induction depth as [|n IH]; intros h v l [t Ht] Hl; [done|].
  destruct v as [| | | | |l0]; simpl in *; try by inversion Hl.
  destruct (h !! l0) as [c|] eqn:Hc; [|done].
  apply elem_of_cons in Hl as [->|Hl]; [by eapply lookup_lt_Some|].
  destruct c as [tm|items|sr f li|props]; try by inversion Hl.
  - apply list_elem_of_In, in_concat in Hl as (ls & Hls & Hin).
    apply in_map_iff in Hls as (x & <- & Hx).
    destruct (reify_items (reify n h) items) as [ts|] eqn:Hr; [|done].
    apply (IH h x); [|by apply list_elem_of_In].
    eapply reify_items_Some; [done|]. by apply list_elem_of_In.
  - apply list_elem_of_In, in_concat in Hl as (ls & Hls & Hin).
    apply in_map_iff in Hls as (x & <- & Hx).
    destruct (reify_props (reify n h) props) as [ts|] eqn:Hr; [|done].
    apply (IH h x); [|by apply list_elem_of_In].
    eapply reify_props_Some; [done|]. by apply list_elem_of_In.
Qed.

Lemma reify_grows depth h h' v :
  is_Some (reify depth h v) -> grows h h' -> reify depth h' v = reify depth h v.
Proof.
  intros Hs [_ Hg]. symmetry.
  apply (agree_on_reach depth h h' v). intros l Hl. symmetry. apply Hg.
  by eapply reify_reach_lt.
Qed.

Lemma set_prop_grows h0 h l k v :
  length h0 <= l -> grows h0 h -> grows h0 (set_prop h l k v).
Proof.
  intros Hl Hg. unfold set_prop. destruct (h !! l) as [[| | |props]|]; try done.
  case_decide; [done|]. by apply grows_insert.
Qed.

Section clone_ends.
Variable n : nat.
Hypothesis IH : forall h v, is_Some (reify n h v) ->
    match _deepClone n h v with
    | Ok _ h' | Throw _ h' => grows h h'
    | Fuel => False
    end.

Lemma clone_items_ends h0 : forall items h,
    grows h0 h ->
    (forall x, x ∈ items -> is_Some (reify n h0 x)) ->
    match clone_items (_deepClone n) h items with
    | Ok _ h' | Throw _ h' => grows h h'
    | Fuel => False
    end.
  Proof.
    induction items as [|x rest IHr]; intros h Hg Hall; simpl; [apply grows_refl|].
    assert (Hx : is_Some (reify n h x)).
    { rewrite (reify_grows n h0 h x); [|apply Hall, list_elem_of_here|done].
      apply Hall, list_elem_of_here. }
    specialize (IH h x Hx). destruct (_deepClone n h x) as [x' h1|t h1|]; try done.
    specialize (IHr h1 (grows_trans _ _ _ Hg IH)
                  (fun y Hy => Hall y (list_elem_of_further _ _ _ Hy))).
    destruct (clone_items (_deepClone n) h1 rest); try done; by eapply grows_trans.
  Qed.

Lemma clone_props_ends h0 shadowed cloned : forall todo h,
    length h0 <= cloned -> grows h0 h ->
    (forall x, x ∈ todo.*2 -> is_Some (reify n h0 x)) ->
    match clone_props (_deepClone n) shadowed cloned h todo with
    | Ok _ h' | Throw _ h' => grows h0 h'
    | Fuel => False
    end.
  Proof.
    induction todo as [|[k x] rest IHr]; intros h Hc Hg Hall; simpl; [done|].
    destruct shadowed; [done|].
    assert (Hx : is_Some (reify n h x)).
    { rewrite (reify_grows n h0 h x); [|apply Hall, list_elem_of_here|done].
      apply Hall, list_elem_of_here. }
    specialize (IH h x Hx). destruct (_deepClone n h x) as [x' h1|t h1|]; try done.
    - apply IHr; [done| |].
      + apply set_prop_grows; [done|]. by eapply grows_trans.
      + intros y Hy. apply Hall. by apply list_elem_of_further.
    - by eapply grows_trans.
  Qed.
End clone_ends.

(** On a finite payload [_deepClone] returns or throws; it never runs
    out of fuel. *)
Lemma deepClone_ends depth : forall h v,
  is_Some (reify depth h v) ->
  match _deepClone depth h v with
  | Ok _ h' | Throw _ h' => grows h h'
  | Fuel => False
  end.
Proof.
  induction depth as [|n IH]; intros h v [t Ht]; [done|].
  destruct v as [| | | | |l]; simpl in *; try apply grows_refl.
  destruct (h !! l) as [[tm|items|sr f li|props]|] eqn:Hc; [| | | |done].
  - apply (grows_alloc h (CDate tm)).
  - destruct (reify_items (reify n h) items) as [ts|] eqn:Hr; [|done].
    pose proof (clone_items_ends n IH h items h (grows_refl h)
                  (fun x Hx => reify_items_Some _ _ _ x Hr Hx)) as Hi.
    destruct (clone_items (_deepClone n) h items) as [items' h1|t' h1|]; try done.
    eapply grows_trans; [done|]. apply (grows_alloc h1 (CArr items')).
  - apply (grows_alloc h (CRegExp sr f 0)).
  - destruct (reify_props (reify n h) props) as [ts|] eqn:Hr; [|done].
    pose proof (clone_props_ends n IH h (has_key "hasOwnProperty" props)
                  (length h) props (h ++ [CObj []]) ltac:(lia)
                  (grows_alloc h (CObj []))
                  (fun x Hx => reify_props_Some _ _ _ x Hr Hx)) as Hi.
    by destruct (clone_props _ _ _ _ props).
Qed.

Lemma reify_S n : forall h v t, reify n h v = Some t -> reify (S n) h v = Some t.
Proof.
  induction n as [|n IH]; intros h v t H; [done|].
  destruct v as [| | | | |l]; try done.
  change (reify (S (S n)) h (VRef l)) with
    (match h !! l with
     | None => None
     | Some (CDate time) => Some (TDate time)
     | Some (CArr items) => TArr <$> reify_items (reify (S n) h) items
     | Some (CRegExp source flags _) => Some (TRegExp source flags)
     | Some (CObj props) => TObj <$> reify_props (reify (S n) h) props
     end).
  simpl in H. destruct (h !! l) as [[tm|items|sr f li|props]|]; try done.
  - destruct (reify_items (reify n h) items) as [ts|] eqn:Hr; [|done].
    assert (reify_items (reify (S n) h) items = Some ts) as ->; [|done].
    clear H. revert ts Hr. induction items as [|x rest IHr]; intros ts Hr; [done|].
    simpl in *. destruct (reify n h x) eqn:Hx; [|done].
    destruct (reify_items (reify n h) rest) eqn:Hrest; [|done].
    rewrite (IH _ _ _ Hx), (IHr _ eq_refl). done.
  - destruct (reify_props (reify n h) props) as [ts|] eqn:Hr; [|done].
    assert (reify_props (reify (S n) h) props = Some ts) as ->; [|done].
    clear H. revert ts Hr. induction props as [|[k x] rest IHr]; intros ts Hr; [done|].
    simpl in *. destruct (reify n h x) eqn:Hx; [|done].
    destruct (reify_props (reify n h) rest) eqn:Hrest; [|done].
    rewrite (IH _ _ _ Hx), (IHr _ eq_refl). done.
Qed.

Lemma reify_le n m h v : n <= m -> is_Some (reify n h v) -> is_Some (reify m h v).
Proof.
  induction 1; [done|]. intros Hs. destruct (IHle Hs) as [t Ht].
  exists t. by apply reify_S.
Qed.

(** ** Callbacks that only return or throw *)

Lemma exec_leaf emit_ call_ c data s :
  leaf c = true ->
  exec emit_ call_ c data s = Ok () s
  \/ exists t, t <> TNullish /\ exec emit_ call_ c data s = Throw t s.
Proof.
  induction c; simpl; intros Hl; try done.
  - by left.
  - apply andb_prop in Hl as [H1 H2].
    destruct (IHc1 H1) as [->|(t & Ht & ->)]; [by apply IHc2|].
    right. by exists t.
  - right. exists t. split; [|done].
    apply negb_true_iff, bool_decide_eq_false in Hl. done.
Qed.

Lemma exec_silent emit_ call_ c data s :
  silent c = true -> exec emit_ call_ c data s = Ok () s.
Proof.
  induction c; simpl; intros Hl; try done.
  apply andb_prop in Hl as [H1 H2]. by rewrite IHc1, IHc2.
Qed.

Lemma call_silent n l arg s :
  silent_listener l -> exists r, call (S n) (callback l) arg s = Ok r s.
Proof.
  intros (async & body & ret & -> & Hs). simpl.
  rewrite exec_silent by done. by eexists.
Qed.

Lemma call_leaf n l arg s :
  leaf_listener l ->
  (exists r, call (S n) (callback l) arg s = Ok r s)
  \/ (exists t, t <> TNullish /\ call (S n) (callback l) arg s = Throw t s).
Proof.
  intros (async & body & ret & -> & Hs). simpl.
  destruct (exec_leaf (emit n) (call n) body arg s Hs) as [->|(t & Ht & ->)].
  - left. by eexists.
  - destruct async; [left; by eexists | right; by exists t].
Qed.

Lemma quiet_run_refl s : quiet_run s s.
Proof. by split_and!. Qed.

Lemma quiet_run_trans s1 s2 s3 :
  quiet_run s1 s2 -> quiet_run s2 s3 -> quiet_run s1 s3.
Proof.
  intros (Hl & Ha & Hg) (Hl' & Ha' & Hg'). split_and!; try congruence.
  by eapply grows_trans.
Qed.

Lemma quiet_run_listeners_of s0 s event :
  quiet_run s0 s -> listeners_of s event = listeners_of s0 event.
Proof. intros (Hl & Ha & _). unfold listeners_of. by rewrite Hl, Ha. Qed.

(** The payload of [rail.error] is always cloned without trouble, into a
    new object. *)
Lemma deepClone_error_data n h e m event msg ts :
  h !! e = Some (error_data m event msg ts) ->
  (forall l, msg <> VRef l) ->
  exists h', _deepClone (S (S n)) h (VRef e) = Ok (VRef (length h)) h'
             /\ grows h h'.
Proof.
  intros He Hprim.
  assert (Hp : plain 2 h (VRef e) = true).
  { simpl. rewrite He. simpl. destruct msg; try done. by destruct (Hprim l). }
  destruct (clone_plain (S (S n)) h (VRef e)) as (v & h' & Hc & Hg & _).
  { eapply plain_le; [|done]. lia. }
  exists h'. split; [|done]. rewrite Hc. f_equal.
  cbn [_deepClone] in Hc. rewrite He in Hc. unfold error_data, alloc in Hc.
  destruct (clone_props _ _ _ _ _); by inversion Hc.
Qed.

(** ** The error emission returns when the [rail.error] listeners do *)

Lemma message_of_prim t msg : message_of t = Some msg -> forall l, msg <> VRef l.
Proof. destruct t; simpl; intros [= <-]; done. Qed.

Lemma grows_lookup h h' l c : grows h h' -> h !! l = Some c -> h' !! l = Some c.
Proof.
  intros [_ Hg] Hl. rewrite Hg; [done|]. by eapply lookup_lt_Some.
Qed.

Section error_emission.
Variable n : nat.
Variables (m event : string) (msg : val) (ts : Z) (e : nat).
Hypothesis Hprim : forall l, msg <> VRef l.

Lemma dispatch_silent em ts' l acc s :
    silent_listener l ->
    objects s !! e = Some (error_data m event msg ts) ->
    exists s',
      dispatch (emit (S (S n))) (call (S (S n))) (S (S n)) em "rail.error"
        (VRef e) ts' l acc s = Ok (S acc) s'
      /\ quiet_run s s' /\ clone s' = clone s.
  Proof.
    intros Hl He. unfold dispatch, clone_or_pass.
    destruct (clone s) eqn:Hc.
    - destruct (deepClone_error_data n (objects s) e m event msg ts He Hprim)
        as (h' & -> & Hg).
      destruct (call_silent (S n) l (VRef (length (objects s)))
                  (with_objects h' s) Hl) as [r ->].
      eexists. split; [done|]. split; [|by destruct r as [|[| |]]].
      split_and!; by destruct r as [|[| |]].
    - destruct (call_silent (S n) l (VRef e) s Hl) as [r ->].
      eexists. split; [done|]. split; [|by destruct r as [|[| |]]].
      split_and!; by destruct r as [|[| |]].
  Qed.

Lemma dispatch_all_silent em ts' : forall snapshot acc s,
    Forall silent_listener snapshot ->
    objects s !! e = Some (error_data m event msg ts) ->
    exists k s',
      dispatch_all
        (dispatch (emit (S (S n))) (call (S (S n))) (S (S n)) em "rail.error"
           (VRef e) ts') snapshot acc s = Ok k s'
      /\ quiet_run s s' /\ clone s' = clone s.
  Proof.
    induction snapshot as [|l rest IH]; intros acc s Hall He; cbn [dispatch_all].
    - exists acc, s. by split_and!.
    - apply Forall_cons in Hall as [Hl Hrest].
      destruct (dispatch_silent em ts' l acc s Hl He) as (s1 & -> & Hq1 & Hc1).
      destruct (IH (S acc) s1 Hrest) as (k & s' & -> & Hq & Hc).
      { destruct Hq1 as (_ & _ & Hg). by eapply grows_lookup. }
      exists k, s'. split_and!; [done|by eapply quiet_run_trans|congruence].
  Qed.

Lemma emit_error_returns s :
    Forall silent_listener (listeners_of s "rail.error") ->
    objects s !! e = Some (error_data m event msg ts) ->
    exists k s',
      emit (S (S (S n))) "rail.error" (VRef e) s = Ok k s'
      /\ quiet_run s s' /\ clone s' = clone s.
  Proof.
    intros Hall He. rewrite emit_is_over_copy.
    unfold emit_over_copy, emit_started, default_data.
    set (s1 := with_emissions _ _).
    destruct (dispatch_all_silent (emissions s) (now s)
                (listeners_of s "rail.error") 0 s1 Hall He)
      as (k & s' & -> & Hq & Hc).
    exists k, s'. split_and!; [done| |done].
    eapply quiet_run_trans; [|done]. by split_and!.
  Qed.
End error_emission.

(** The [catch] block returns when what was thrown has a message and the
    [rail.error] listeners return. *)
Lemma report_returns n m event ts t s :
  t <> TNullish ->
  Forall silent_listener (listeners_of s "rail.error") ->
  exists msg s',
    report (emit (S (S (S n)))) m event ts t s = Ok msg s'
    /\ quiet_run s s' /\ clone s' = clone s.
Proof.
  intros Ht Hall. unfold report.
  destruct (message_of t) as [msg|] eqn:Hm; [|by destruct t].
  unfold alloc. cbv beta iota zeta.
  set (sf := with_clone true _).
  assert (Hq : quiet_run s sf).
  { split_and!; try done. apply (grows_alloc (objects s) (error_data m event msg ts)). }
  destruct (emit_error_returns n m event msg ts (length (objects s))
              (message_of_prim t msg Hm) sf) as (k & s' & -> & Hq' & Hc).
  - by rewrite (quiet_run_listeners_of s sf).
  - simpl. by rewrite lookup_app_r, Nat.sub_diag by lia.
  - exists msg. eexists. split; [done|]. split; [|done].
    eapply quiet_run_trans; [done|]. eapply quiet_run_trans; [done|].
    by split_and!.
Qed.

(** ** An emission to listeners that only return or throw *)

Section leaf_emission.
Variable n : nat.
Variables (event : string) (data : val) (ts : Z) (em : nat).

Lemma dispatch_leaf l acc s :
    leaf_listener l ->
    is_Some (reify (S (S (S n))) (objects s) data) ->
    Forall silent_listener (listeners_of s "rail.error") ->
    exists acc' s',
      dispatch (emit (S (S (S n)))) (call (S (S (S n)))) (S (S (S n))) em event
        data ts l acc s = Ok acc' s'
      /\ quiet_run s s' /\ clone s' = clone s.
  Proof.
    intros Hl Hfin Herr. unfold dispatch.
    assert (Hclone : match clone_or_pass (S (S (S n))) data s with
                     | Ok _ s1 => quiet_run s s1 /\ clone s1 = clone s
                     | Throw t s1 =>
                         t <> TNullish /\ quiet_run s s1 /\ clone s1 = clone s
                     | Fuel => False
                     end).
    { unfold clone_or_pass. destruct (clone s) eqn:Hc.
      - pose proof (deepClone_ends _ _ _ Hfin) as He.
        pose proof (deepClone_throw (S (S (S n))) (objects s) data) as Ht.
        destruct (_deepClone (S (S (S n))) (objects s) data) as [v h'|t h'|];
          [| |done].
        + by split_and!.
        + rewrite (Ht t h' eq_refl). by split_and!.
      - split; [apply quiet_run_refl|done]. }
    destruct (clone_or_pass (S (S (S n))) data s) as [arg s1|t s1|]; [| |done].
    - destruct Hclone as [Hq1 Hc1].
      destruct (call_leaf (S (S n)) l arg s1 Hl) as [[r ->]|(t & Ht & ->)].
      + eexists _, _. split; [done|].
        split; [|by destruct r as [|[| |]]].
        eapply quiet_run_trans; [done|].
        destruct r as [|[| |]]; by split_and!.
      + destruct (report_returns n (module l) event ts t
                    (log_turn em l (Some arg) (Some t) s1) Ht)
          as (msg & s3 & -> & Hq3 & Hc3).
        { rewrite (quiet_run_listeners_of s); [done|].
          eapply quiet_run_trans; [done|]. by split_and!. }
        eexists _, _. split; [done|]. split; [|simpl in Hc3; congruence].
        eapply quiet_run_trans; [done|]. eapply quiet_run_trans; [|done].
        by split_and!.
    - destruct Hclone as (Ht & Hq1 & Hc1).
      destruct (report_returns n (module l) event ts t
                  (log_turn em l None (Some t) s1) Ht)
        as (msg & s3 & -> & Hq3 & Hc3).
      { rewrite (quiet_run_listeners_of s); [done|].
        eapply quiet_run_trans; [done|]. by split_and!. }
      eexists _, _. split; [done|]. split; [|simpl in Hc3; congruence].
      eapply quiet_run_trans; [done|]. eapply quiet_run_trans; [|done].
      by split_and!.
  Qed.

Lemma dispatch_all_leaf : forall snapshot acc s,
    Forall leaf_listener snapshot ->
    is_Some (reify (S (S (S n))) (objects s) data) ->
    Forall silent_listener (listeners_of s "rail.error") ->
    exists k s',
      dispatch_all
        (dispatch (emit (S (S (S n)))) (call (S (S (S n)))) (S (S (S n))) em
           event data ts) snapshot acc s = Ok k s'
      /\ quiet_run s s'.
  Proof.
    induction snapshot as [|l rest IH]; intros acc s Hall Hfin Herr; cbn [dispatch_all].
    - exists acc, s. split; [done|apply quiet_run_refl].
    - apply Forall_cons in Hall as [Hl Hrest].
      destruct (dispatch_leaf l acc s Hl Hfin Herr) as (acc1 & s1 & -> & Hq1 & _).
      destruct (IH acc1 s1 Hrest) as (k & s' & -> & Hq).
      + rewrite (reify_grows _ (objects s)); [done|done|]. by destruct Hq1 as (_ & _ & ?).
      + by rewrite (quiet_run_listeners_of s s1).
      + exists k, s'. split; [done|]. by eapply quiet_run_trans.
  Qed.
End leaf_emission.

(** With enough fuel, [emit] returns when the listeners of the event
    only return or throw something with a message, the listeners of
    [rail.error] return, and the payload is finite. *)
Lemma emit_leaf_returns depth fuel event data s :
  finite_payload depth s data -> depth <= fuel ->
  Forall leaf_listener (listeners_of s event) ->
  Forall silent_listener (listeners_of s "rail.error") ->
  exists k s', emit (S (S (S (S fuel)))) event data s = Ok k s'.
Proof.
  intros Hfin Hle Hall Herr. rewrite emit_is_over_copy. unfold emit_over_copy.
  destruct (emit_started_fields event data s) as (Hl & Ha & _).
  assert (Hfin' : is_Some (reify (S (S (S fuel))) (objects (emit_started event data s).2)
                             (emit_started event data s).1)).
  { destruct (decide (data = VUndef)) as [->|Hne].
    - simpl. by rewrite lookup_app_r, Nat.sub_diag by lia.
    - destruct Hfin as [->|Hfin]; [done|].
      eapply (reify_le depth); [lia|].
      unfold emit_started, default_data. by destruct data. }
  destruct (emit_started event data s) as [data' s1]. cbn [fst snd] in *.
  destruct (dispatch_all_leaf fuel event data' (now s) (emissions s)
              (listeners_of s event) 0 s1 Hall Hfin') as (k & s' & -> & _).
  - unfold listeners_of in *. by rewrite Hl, Ha.
  - by exists k, s'.
Qed.

(** * [emitAsync]: units and promise *)

Lemma report_throws n m event ts t s t' s' :
  report (emit n) m event ts t s = Throw t' s' -> t' = message_type_error.
Proof.
  unfold report. destruct (message_of t) as [msg|]; [|by intros [= <- _]].
  unfold alloc. cbv beta iota zeta.
  destruct (emit n "rail.error" _ _) as [| |] eqn:He; try done.
  intros [= <- <-]. by destruct (emit_throw _ _ _ _ _ _ He).
Qed.

Lemma report_async_unit n l event ts t s :
  match report_async (emit n) (module l) event ts t s with
  | Ok u s' =>
      unit_of l u
      /\ match u with
         | Settled e =>
             exists msg, message_of t = Some msg
                         /\ e = Entry (module l) VNull msg
         | Awaiting _ _ => False
         | Broken _ => True
         end
  | Throw _ _ => False
  | Fuel => True
  end.
Proof.
  unfold report_async.
  pose proof (report_throws n (module l) event ts t s) as Ht.
  destruct (report (emit n) (module l) event ts t s) as [msg s'|t' s'|] eqn:Hr;
    [| |done].
  - split; [split; [done|by right]|]. exists msg. split; [|done].
    unfold report in Hr. destruct (message_of t); [|done].
    unfold alloc in Hr. cbv beta iota zeta in Hr.
    destruct (emit n "rail.error" _ _); by inversion Hr.
  - split; [|done]. by apply (Ht t' s').
Qed.

Lemma start_unit_unit n em event data ts l units s :
  match start_unit (emit n) (call n) n em event data ts l units s with
  | Ok units' s' => exists u, units' = units ++ [u] /\ unit_of l u
  | Throw _ _ => False
  | Fuel => True
  end.
Proof.
  unfold start_unit.
  destruct (clone_or_pass n data s) as [arg s1|t s1|]; [| |done].
  - destruct (call n (callback l) arg s1) as [r s2|t s2|]; [| |done].
    + by eexists.
    + pose proof (report_async_unit n l event ts t
                    (log_turn em l (Some arg) (Some t) s2)) as Hr.
      destruct (report_async _ _ _ _ t _) as [u s3|? ?|]; [| |done];
        [|done]. destruct Hr as [Hu _]. by exists u.
  - pose proof (report_async_unit n l event ts t
                  (log_turn em l None (Some t) s1)) as Hr.
    destruct (report_async _ _ _ _ t _) as [u s3|? ?|]; [| |done];
      [|done]. destruct Hr as [Hu _]. by exists u.
Qed.

Lemma start_units n em event data ts : forall snapshot units s,
  match dispatch_all (start_unit (emit n) (call n) n em event data ts)
          snapshot units s with
  | Ok units' s' =>
      exists us, units' = units ++ us /\ Forall2 unit_of snapshot us
  | Throw _ _ => False
  | Fuel => True
  end.
Proof.
  induction snapshot as [|l rest IH]; intros units s; cbn [dispatch_all].
  - exists []. by rewrite app_nil_r.
  - pose proof (start_unit_unit n em event data ts l units s) as Hu.
    destruct (start_unit _ _ n em event data ts l units s) as [units1 s1|? ?|];
      [| |done]; [|done].
    destruct Hu as (u & -> & Hu). specialize (IH (units ++ [u]) s1).
    destruct (dispatch_all _ rest (units ++ [u]) s1) as [units' s'|? ?|];
      [| |done]; [|done].
    destruct IH as (us & -> & Hus). exists (u :: us).
    split; [by rewrite <- app_assoc|]. by constructor.
Qed.

Lemma first_broken_elem units t : first_broken units = Some t -> Broken t ∈ units.
Proof.
  induction units as [|[e|m o|t'] rest IH]; simpl; intros H; try done.
  - apply list_elem_of_further. by apply IH.
  - apply list_elem_of_further. by apply IH.
  - inversion H; subst. apply list_elem_of_here.
Qed.

Lemma promise_all_follows event ts units :
  promise_follows (AsyncEmission event ts units (promise_all units)).
Proof.
  unfold promise_follows, promise_all. simpl.
  destruct (first_broken units) as [t|] eqn:Hb; [by apply first_broken_elem|].
  by destruct (all_settled units).
Qed.

Lemma all_settled_lookup units results k u :
  all_settled units = Some results -> units !! k = Some u ->
  exists e, u = Settled e.
Proof.
  revert results k. induction units as [|[e|m o|t] rest IH]; intros rs k Ha Hk;
    simpl in *; try done.
  destruct (all_settled rest) as [rs'|] eqn:Hr; [|done].
  destruct k as [|k]; simpl in Hk.
  - inversion Hk. by eexists.
  - by eapply IH.
Qed.

Lemma first_broken_insert units k u :
  first_broken units = None -> (forall t, u <> Broken t) ->
  first_broken (<[k := u]> units) = None.
Proof.
  revert k. induction units as [|[e|m o|t] rest IH]; intros k Hb Hu; simpl in *;
    try done; destruct k as [|k]; simpl; try (by apply IH);
    destruct u; try done; by destruct (Hu t).
Qed.

Lemma broken_insert (units : list unit_state) (k : nat) u m o t :
  units !! k = Some (Awaiting m o) -> Broken t ∈ units ->
  Broken t ∈ <[k := u]> units.
Proof.
  intros Hk [j Hj]%list_elem_of_lookup. apply list_elem_of_lookup. exists j.
  rewrite list_lookup_insert_ne; [done|]. intros ->. congruence.
Qed.

(** One result arrives: the unit keeps its place, and the promise still
    follows the units. *)
Lemma settle_unit_tracks fuel k snapshot ae s :
  tracks snapshot ae ->
  match settle_unit fuel k ae s with
  | Ok ae' s' =>
      tracks snapshot ae'
      /\ ae_event ae' = ae_event ae /\ ae_timestamp ae' = ae_timestamp ae
      /\ length (ae_units ae') = length (ae_units ae)
  | Throw _ _ => False
  | Fuel => True
  end.
Proof.
  intros [Hunits Hp]. unfold settle_unit.
  destruct (ae_units ae !! k) as [u|] eqn:Hk; [|by split_and!].
  destruct u as [e|m o|t]; try (by split_and!).
  destruct (Forall2_lookup_r _ _ _ _ _ Hunits Hk) as (l & Hl & Hu).
  simpl in Hu. subst m.
  assert (Hstep : forall u', unit_of l u' -> (forall e, u' <> Awaiting (module l) e) ->
            let units := <[k := u']> (ae_units ae) in
            tracks snapshot
              (AsyncEmission (ae_event ae) (ae_timestamp ae) units
                 match ae_promise ae with
                 | AllPending =>
                     match u' with
                     | Broken t => AllRejected t
                     | _ => match all_settled units with
                            | Some results => AllFulfilled results
                            | None => AllPending
                            end
                     end
                 | p => p
                 end)).
  { intros u' Hu' _ units. split.
    - simpl. rewrite <- (list_insert_id snapshot k l Hl).
      by apply Forall2_insert.
    - unfold promise_follows in *. simpl.
      destruct (ae_promise ae) as [|rs|t] eqn:Hpr.
      + destruct Hp as [_ Hb]. destruct u' as [e|m' o'|t]; simpl.
        * destruct (all_settled units) eqn:Ha; simpl; [done|].
          split; [done|]. by apply first_broken_insert.
        * destruct (all_settled units) eqn:Ha; simpl; [done|].
          split; [done|]. by apply first_broken_insert.
        * apply list_elem_of_lookup. exists k. apply list_lookup_insert_eq.
          by eapply lookup_lt_Some.
      + simpl. by destruct (all_settled_lookup _ _ _ _ Hp Hk).
      + simpl. by eapply broken_insert. }
  destruct o as [v|t|]; [| |by split_and!].
  - split_and!; [|done|done|simpl; by rewrite length_insert].
    apply (Hstep (Settled (Entry (module l) v VNull))); [|done].
    split; [done|by left].
  - pose proof (report_async_unit fuel l (ae_event ae) (ae_timestamp ae) t s) as Hr.
    destruct (report_async _ _ _ _ t s) as [u' s'|? ?|]; [| |done]; [|done].
    destruct Hr as [Hu' Hkind].
    split_and!; [|done|done|simpl; by rewrite length_insert].
    apply (Hstep u' Hu'). intros e ->. done.
Qed.

Lemma settle_all_tracks fuel snapshot : forall schedule ae s,
  tracks snapshot ae ->
  match settle_all fuel schedule ae s with
  | Ok ae' s' => tracks snapshot ae'
  | Throw _ _ => False
  | Fuel => True
  end.
Proof.
  induction schedule as [|k rest IH]; intros ae s Ht; simpl; [done|].
  pose proof (settle_unit_tracks fuel k snapshot ae s Ht) as Hs.
  destruct (settle_unit fuel k ae s) as [ae1 s1|? ?|]; [| |done]; [|done].
  destruct Hs as (Ht1 & _). specialize (IH ae1 s1 Ht1).
  by destruct (settle_all fuel rest ae1 s1).
Qed.

Lemma start_unit_evolves n em event data ts l units s :
  post evolves s (start_unit (emit n) (call n) n em event data ts l units s).
Proof. by apply (start_unit_respects evolves_respects). Qed.

(** [emitAsync], too, goes through a snapshot; when it returns the
    emission it started tracks that snapshot. *)
Lemma emitAsync_tracks fuel event data s :
  match emitAsync fuel event data s with
  | Ok ae s' =>
      tracks (listeners_of s event) ae
      /\ ae_promise ae = promise_all (ae_units ae)
  | Throw _ _ => False
  | Fuel => True
  end.
Proof.
  destruct fuel as [|n]; [done|]. unfold emitAsync.
  destruct (emit_started_fields event data s) as (Hl & Ha & _).
  unfold emit_started in *.
  assert (Hem : emissions (default_data data s).2 = emissions s)
    by (by destruct data).
  destruct (default_data data s) as [data' s0]. cbn [fst snd] in *.
  cbv zeta. set (s1 := with_emissions _ _) in *.
  unfold listeners_of. rewrite <- Hl, <- Ha.
  assert (Hloop : match dispatch_all
                          (start_unit (emit n) (call n) n (emissions s0) event
                             data' (now s))
                          (listeners_of s1 event) [] s1 with
                  | Ok us s' => Forall2 unit_of (listeners_of s1 event) us
                  | Throw _ _ => False
                  | Fuel => True
                  end).
  { pose proof (start_units n (emissions s0) event data' (now s)
                  (listeners_of s1 event) [] s1) as Hs.
    destruct (dispatch_all _ _ [] s1); try done. by destruct Hs as (us & -> & ?). }
  unfold listeners_of in Hloop.
  destruct (listeners s1 !! event) as [a|].
  - destruct (arrays s1 !! a) as [ls|] eqn:Hls; simpl in *.
    + rewrite (forEach_over_copy _ a ls) with (rest := ls);
        [|intros; apply start_unit_evolves|exists []; by rewrite app_nil_r|done].
      destruct (dispatch_all _ ls [] s1) as [us s'|? ?|]; [| |done]; [|done].
      split; [|done]. split; [done|]. apply promise_all_follows.
    + split; [|done]. split; [constructor|]. apply promise_all_follows.
  - split; [|done]. split; [constructor|]. apply promise_all_follows.
Qed.

(** ** When [emitAsync] is sure to resolve *)

Lemma call_settling n l arg s :
  settling_listener l ->
  (exists r, call (S n) (callback l) arg s = Ok r s
             /\ promised r <> Pending /\ promised r <> Rejects TNullish)
  \/ (exists t, t <> TNullish /\ call (S n) (callback l) arg s = Throw t s).
Proof.
  intros (async & body & ret & -> & Hs & Hp & Hr). simpl.
  destruct (exec_leaf (emit n) (call n) body arg s Hs) as [->|(t & Ht & ->)].
  - left. eexists. split; [done|]. destruct async; [|done].
    by destruct ret.
  - destruct async; [left|right; by exists t].
    eexists. split; [done|]. simpl. split; [done|]. congruence.
Qed.

Lemma report_async_returns n m event ts t s :
  t <> TNullish ->
  Forall silent_listener (listeners_of s "rail.error") ->
  exists msg s',
    report_async (emit (S (S (S n)))) m event ts t s
      = Ok (Settled (Entry m VNull msg)) s'
    /\ quiet_run s s'.
Proof.
  intros Ht Herr. unfold report_async.
  destruct (report_returns n m event ts t s Ht Herr) as (msg & s' & -> & Hq & _).
  by exists msg, s'.
Qed.

Section settling_emission.
Variable n : nat.
Variables (event : string) (data : val) (ts : Z) (em : nat).

Lemma start_unit_settling l units s :
    settling_listener l ->
    is_Some (reify (S (S (S n))) (objects s) data) ->
    Forall silent_listener (listeners_of s "rail.error") ->
    exists u s',
      start_unit (emit (S (S (S n)))) (call (S (S (S n)))) (S (S (S n))) em event
        data ts l units s = Ok (units ++ [u]) s'
      /\ unit_settles u /\ quiet_run s s'.
  Proof.
    intros Hl Hfin Herr. unfold start_unit.
    assert (Hclone : match clone_or_pass (S (S (S n))) data s with
                     | Ok _ s1 => quiet_run s s1
                     | Throw t s1 => t <> TNullish /\ quiet_run s s1
                     | Fuel => False
                     end).
    { unfold clone_or_pass. destruct (clone s) eqn:Hc.
      - pose proof (deepClone_ends _ _ _ Hfin) as He.
        pose proof (deepClone_throw (S (S (S n))) (objects s) data) as Ht.
        destruct (_deepClone (S (S (S n))) (objects s) data) as [v h'|t h'|];
          [| |done].
        + by split_and!.
        + rewrite (Ht t h' eq_refl). by split_and!.
      - apply quiet_run_refl. }
    destruct (clone_or_pass (S (S (S n))) data s) as [arg s1|t s1|]; [| |done].
    - destruct (call_settling (S (S n)) l arg s1 Hl)
        as [(r & -> & Hp & Hr)|(t & Ht & ->)].
      + eexists _, _. split; [done|]. split.
        * destruct r as [v|[v|t|]]; simpl in *; try done. congruence.
        * eapply quiet_run_trans; [done|]. by split_and!.
      + destruct (report_async_returns n (module l) event ts t
                    (log_turn em l (Some arg) (Some t) s1) Ht)
          as (msg & s3 & -> & Hq3).
        { rewrite (quiet_run_listeners_of s); [done|].
          eapply quiet_run_trans; [done|]. by split_and!. }
        eexists _, _. split; [done|]. split; [done|].
        eapply quiet_run_trans; [done|]. eapply quiet_run_trans; [|done].
        by split_and!.
    - destruct Hclone as [Ht Hq1].
      destruct (report_async_returns n (module l) event ts t
                  (log_turn em l None (Some t) s1) Ht)
        as (msg & s3 & -> & Hq3).
      { rewrite (quiet_run_listeners_of s); [done|].
        eapply quiet_run_trans; [done|]. by split_and!. }
      eexists _, _. split; [done|]. split; [done|].
      eapply quiet_run_trans; [done|]. eapply quiet_run_trans; [|done].
      by split_and!.
  Qed.

Lemma start_units_settling : forall snapshot units s,
    Forall settling_listener snapshot ->
    is_Some (reify (S (S (S n))) (objects s) data) ->
    Forall silent_listener (listeners_of s "rail.error") ->
    exists us s',
      dispatch_all
        (start_unit (emit (S (S (S n)))) (call (S (S (S n)))) (S (S (S n))) em
           event data ts) snapshot units s = Ok (units ++ us) s'
      /\ Forall unit_settles us /\ quiet_run s s'.
  Proof.
    induction snapshot as [|l rest IH]; intros units s Hall Hfin Herr;
      cbn [dispatch_all].
    - exists [], s. rewrite app_nil_r. by split_and!.
    - apply Forall_cons in Hall as [Hl Hrest].
      destruct (start_unit_settling l units s Hl Hfin Herr)
        as (u & s1 & -> & Hu & Hq1).
      destruct (IH (units ++ [u]) s1 Hrest) as (us & s' & -> & Hus & Hq).
      + rewrite (reify_grows _ (objects s)); [done|done|].
        by destruct Hq1 as (_ & _ & ?).
      + by rewrite (quiet_run_listeners_of s s1).
      + exists (u :: us), s'. rewrite <- app_assoc.
        split_and!; [done|by constructor|by eapply quiet_run_trans].
  Qed.
End settling_emission.

(** [emitAsync] returns the emission in flight, every unit of which is
    settled or will settle. *)
Lemma emitAsync_settling depth fuel event data s :
  finite_payload depth s data -> depth <= fuel ->
  Forall settling_listener (listeners_of s event) ->
  Forall silent_listener (listeners_of s "rail.error") ->
  exists ae s',
    emitAsync (S (S (S (S fuel)))) event data s = Ok ae s'
    /\ Forall unit_settles (ae_units ae)
    /\ Forall silent_listener (listeners_of s' "rail.error").
Proof.
  intros Hfin Hle Hall Herr.
  pose proof (emitAsync_tracks (S (S (S (S fuel)))) event data s) as Htr.
  unfold emitAsync in *.
  destruct (emit_started_fields event data s) as (Hl & Ha & _).
  assert (Hfin' : is_Some (reify (S (S (S fuel))) (objects (emit_started event data s).2)
                             (emit_started event data s).1)).
  { destruct (decide (data = VUndef)) as [->|Hne].
    - simpl. by rewrite lookup_app_r, Nat.sub_diag by lia.
    - destruct Hfin as [->|Hfin]; [done|].
      eapply (reify_le depth); [lia|].
      unfold emit_started, default_data. by destruct data. }
  unfold emit_started in *.
  assert (Hem : emissions (default_data data s).2 = emissions s)
    by (by destruct data).
  destruct (default_data data s) as [data' s0]. cbn [fst snd] in *.
  cbv zeta in *. set (s1 := with_emissions _ _) in *.
  assert (Hsame : forall ev, listeners_of s1 ev = listeners_of s ev).
  { intros ev. unfold listeners_of. by rewrite Hl, Ha. }
  destruct (start_units_settling fuel event data' (now s) (emissions s0)
              (listeners_of s1 event) [] s1) as (us & s' & Hrun & Hus & Hq).
  { by rewrite Hsame. }
  { done. }
  { by rewrite Hsame. }
  assert (Hforeach :
            match listeners s1 !! event with
            | Some a =>
                forEach (start_unit (emit (S (S (S fuel)))) (call (S (S (S fuel))))
                           (S (S (S fuel))) (emissions s0) event data' (now s))
                  a 0 (length (default [] (arrays s1 !! a))) [] s1
            | None => Ok [] s1
            end = Ok us s').
  { unfold listeners_of in Hrun. destruct (listeners s1 !! event) as [a|].
    - destruct (arrays s1 !! a) as [ls|] eqn:Hls; [|done]. simpl in *.
      rewrite (forEach_over_copy _ a ls) with (rest := ls);
        [done|intros; apply start_unit_evolves|exists []; by rewrite app_nil_r|done].
    - done. }
  rewrite Hforeach. eexists _, s'. split; [done|]. split; [done|].
  rewrite (quiet_run_listeners_of s1 s' _ Hq). by rewrite Hsame.
Qed.

Lemma all_settled_Forall units :
  Forall (fun u => exists e, u = Settled e) units -> is_Some (all_settled units).
Proof.
  induction 1 as [|u rest [e ->] _ [rs IH]]; simpl; [by eexists|].
  rewrite IH. by eexists.
Qed.

(** One result arrives at a unit that settles: it is settled. *)
Lemma settle_unit_settling n k ae s :
  Forall unit_settles (ae_units ae) ->
  Forall silent_listener (listeners_of s "rail.error") ->
  exists ae' s',
    settle_unit (S (S (S n))) k ae s = Ok ae' s'
    /\ Forall unit_settles (ae_units ae')
    /\ length (ae_units ae') = length (ae_units ae)
    /\ (k < length (ae_units ae) -> exists e, ae_units ae' !! k = Some (Settled e))
    /\ (forall j e, ae_units ae !! j = Some (Settled e) ->
          ae_units ae' !! j = Some (Settled e))
    /\ Forall silent_listener (listeners_of s' "rail.error").
Proof.
  intros Hus Herr. unfold settle_unit.
  destruct (ae_units ae !! k) as [u|] eqn:Hk.
  2:{ exists ae, s. split_and!; try done. intros Hlt.
      apply lookup_ge_None in Hk. lia. }
  pose proof (Forall_lookup_1 _ _ _ _ Hus Hk) as Hu.
  assert (Hins : forall e, (forall e', u <> Settled e') ->
            Forall unit_settles (<[k := Settled e]> (ae_units ae))
            /\ length (<[k := Settled e]> (ae_units ae)) = length (ae_units ae)
            /\ (k < length (ae_units ae) ->
                exists e', <[k := Settled e]> (ae_units ae) !! k = Some (Settled e'))
            /\ (forall j e', ae_units ae !! j = Some (Settled e') ->
                  <[k := Settled e]> (ae_units ae) !! j = Some (Settled e'))).
  { intros e Hne. split_and!.
    - by apply Forall_insert.
    - by rewrite length_insert.
    - intros Hlt. exists e. by apply list_lookup_insert_eq.
    - intros j e' Hj. rewrite list_lookup_insert_ne; [done|].
      intros ->. rewrite Hk in Hj. inversion Hj; subst. by destruct (Hne e'). }
  destruct u as [e|m [v|t|]|t]; simpl in Hu; try done.
  - exists ae, s. split_and!; try done. intros _. by exists e.
  - eexists _, s. split; [done|]. simpl.
    destruct (Hins (Entry m v VNull)) as (? & ? & ? & ?); [done|]. by split_and!.
  - destruct (report_async_returns n m (ae_event ae) (ae_timestamp ae) t s Hu Herr)
      as (msg & s' & -> & Hq).
    eexists _, s'. split; [done|]. simpl.
    destruct (Hins (Entry m VNull msg)) as (? & ? & ? & ?); [done|].
    split_and!; try done. by rewrite (quiet_run_listeners_of s s').
Qed.

(** Once a result has arrived at every unit, in any order, all units are
    settled. *)
Lemma settle_all_settling n : forall schedule ae s,
  Forall unit_settles (ae_units ae) ->
  Forall silent_listener (listeners_of s "rail.error") ->
  exists ae' s',
    settle_all (S (S (S n))) schedule ae s = Ok ae' s'
    /\ length (ae_units ae') = length (ae_units ae)
    /\ (forall j e, ae_units ae !! j = Some (Settled e) ->
          ae_units ae' !! j = Some (Settled e))
    /\ (forall k, k ∈ schedule -> k < length (ae_units ae) ->
          exists e, ae_units ae' !! k = Some (Settled e)).
Proof.
  induction schedule as [|k rest IH]; intros ae s Hus Herr; cbn [settle_all].
  - exists ae, s. split_and!; try done. intros k Hk. by inversion Hk.
  - destruct (settle_unit_settling n k ae s Hus Herr)
      as (ae1 & s1 & -> & Hus1 & Hlen1 & Hk1 & Hkeep1 & Herr1).
    destruct (IH ae1 s1 Hus1 Herr1) as (ae' & s' & -> & Hlen & Hkeep & Hall).
    exists ae', s'. split_and!; [done|congruence| |].
    + intros j e Hj. by apply Hkeep, Hkeep1.
    + intros j [->|Hj]%elem_of_cons Hlt.
      * destruct (Hk1 Hlt) as [e He]. exists e. by apply Hkeep.
      * apply Hall; [done|]. by rewrite Hlen1.
Qed.

(** * Deep Clone Engine: the isolation law *)

(** C1 (the code at the failing input): for the plain-object payload
    [{ hasOwnProperty: 1 }] the call [obj.hasOwnProperty(key)] reaches
    the payload's own property, which is no function: [_deepClone]
    throws a [TypeError], and no clone is produced at any depth of
    recursion. *)
Lemma deepClone_shadowed_throws :
  _deepClone 3 shadowing_heap (VRef 0)
    = Throw not_a_function (shadowing_heap ++ [CObj []])
  /\ ~ (exists fuel p' h', _deepClone fuel shadowing_heap (VRef 0) = Ok p' h').
Proof.
  split; [reflexivity|].
  intros (fuel & p' & h' & H). destruct fuel as [|n]; [done|].
  simpl in H. done.
Qed.

(** X25: the isolation law of [_deepClone].  For every payload [p]
    that is a finite tree of objects, arrays, dates, regular expressions
    and primitives, in which no object has an own property named
    [hasOwnProperty] or [__proto__], the clone exists (the recursion
    goes as deep as the payload), is deeply value-equal to [p], lives
    in cells that did not exist before (so it shares no cell with [p]),
    and overwriting any cell of the clone leaves [p] deeply equal to
    what it was; a primitive, [null] or [undefined] is returned as it
    is, with the heap untouched. *)
Theorem deepClone_isolated (depth fuel : nat) (h : heap) (p : val) :
  plain depth h p = true -> depth <= fuel ->
  exists p' h',
    _deepClone fuel h p = Ok p' h'
    /\ deep_equal h p h' p'
    /\ (forall l, l ∈ reach fuel h' p' -> length h <= l /\ l ∉ reach fuel h p)
    /\ (forall l c, l ∈ reach fuel h' p' -> deep_equal h p (<[l := c]> h') p)
    /\ ((forall l, p <> VRef l) -> p' = p /\ h' = h).
Proof.
  intros Hp Hle. apply (plain_le depth fuel) in Hp; [|done].
  destruct (clone_plain fuel h p Hp) as (p' & h' & Hc & Hg & Hr & Hb).
  destruct (plain_reify fuel h p Hp) as [t Ht].
  exists p', h'. split_and!; [done| | | |].
  - exists fuel, t. split; [done|]. by rewrite Hr.
  - intros l Hl. split; [by apply Hb|].
    intros Hl'. apply (plain_reach_lt fuel h p l Hp) in Hl'.
    apply Hb in Hl. lia.
  - intros l c Hl. exists fuel, t. split; [done|].
    destruct (plain_frame fuel h (<[l := c]> h') p Hp) as [-> _]; [|done].
    intros l' Hl'. rewrite list_lookup_insert_ne by (apply Hb in Hl; lia).
    symmetry. by apply Hg.
  - intros Hprim. destruct fuel as [|n]; [done|].
    destruct p; simpl in Hc; try (by inversion Hc). by destruct (Hprim l).
Qed.

Lemma deepClone_isolated_witness :
  exists p' h',
    _deepClone 4 sample_heap (VRef 0) = Ok p' h'
    /\ deep_equal sample_heap (VRef 0) h' p'
    /\ (forall l, l ∈ reach 4 h' p' ->
          length sample_heap <= l /\ l ∉ reach 4 sample_heap (VRef 0))
    /\ (forall l c, l ∈ reach 4 h' p' ->
          deep_equal sample_heap (VRef 0) (<[l := c]> h') (VRef 0))
    /\ ((forall l, VRef 0 <> VRef l) -> p' = VRef 0 /\ h' = sample_heap).
Proof.
  apply (deepClone_isolated 4 4 sample_heap (VRef 0)); [vm_compute; reflexivity | lia].
Defined.

(** * Diagnostics: history slices *)

(** C10: [getHistory(0)] returns the whole history (so a non-empty one is
    not returned as an empty sequence), because [slice(-0)] is [slice(0)];
    for a positive limit the result is the last [min(limit, length)]
    entries, in emission order. *)
Theorem getHistory_limits (s : Rail) :
  getHistory (Some 0%Z) s = eventHistory s
  /\ (eventHistory s <> [] -> getHistory (Some 0%Z) s <> [])
  /\ (forall limit : Z, (0 < limit)%Z ->
        exists older,
          eventHistory s = older ++ getHistory (Some limit) s
          /\ length (getHistory (Some limit) s)
             = Nat.min (Z.to_nat limit) (length (eventHistory s))).
Proof.
  assert (H0 : getHistory (Some 0%Z) s = eventHistory s).
  { unfold getHistory, getHistory_of, slice. simpl.
    by rewrite Z.min_l by lia. }
  split_and!; [done | by rewrite H0 |].
  intros limit Hpos. unfold getHistory, getHistory_of. simpl.
  replace (- limit)%Z with (- Z.of_nat (Z.to_nat limit))%Z by lia.
  rewrite slice_neg by lia.
  exists (take (length (eventHistory s) - Z.to_nat limit) (eventHistory s)).
  split; [by rewrite take_drop|]. rewrite length_drop. lia.
Qed.

Lemma getHistory_limits_witness :
  let s := push_history "b" VNull 2 (push_history "a" VNull 1
             (new_Rail None None None 0)) in
  (0 < 1)%Z /\
  exists older,
    eventHistory s = older ++ getHistory (Some 1%Z) s
    /\ length (getHistory (Some 1%Z) s) = Nat.min (Z.to_nat 1) (length (eventHistory s)).
Proof.
  intros s. split; [lia|].
  apply (proj2 (proj2 (getHistory_limits s)) 1%Z). lia.
Defined.

(** * Listener Registry: removal by module *)

Section remove_by_module.
Variable moduleName : string.

Lemma store_filtered_arrays event filtered s :
    arrays s `prefix_of` arrays (store_filtered event filtered s).
  Proof.
    unfold store_filtered. case_decide; simpl; [done|]. by apply prefix_app_r.
  Qed.

Lemma store_filtered_wf event filtered s :
    wf_registry s -> wf_registry (store_filtered event filtered s).
  Proof.
    intros Hwf ev a. unfold store_filtered. case_decide; simpl.
    - intros [_ H']%lookup_delete_Some. by eapply Hwf.
    - rewrite length_app. simpl.
      intros [[_ <-]|[_ H']]%lookup_insert_Some; [lia|].
      apply Hwf in H'. lia.
  Qed.

Lemma store_filtered_same event filtered s :
    listeners_of (store_filtered event filtered s) event = filtered.
  Proof.
    unfold listeners_of, store_filtered. case_decide as Hlen; simpl.
    - rewrite lookup_delete_eq. by destruct filtered.
    - rewrite lookup_insert_eq, lookup_app_r, Nat.sub_diag by lia. done.
  Qed.

Lemma store_filtered_other event filtered s ev :
    wf_registry s -> ev <> event ->
    listeners s !! ev = listeners (store_filtered event filtered s) !! ev
    /\ listeners_of (store_filtered event filtered s) ev = listeners_of s ev.
  Proof.
    intros Hwf Hne. unfold listeners_of, store_filtered. case_decide; simpl.
    - by rewrite lookup_delete_ne.
    - rewrite lookup_insert_ne by done. split; [done|].
      destruct (listeners s !! ev) as [a|] eqn:Ha; [|done].
      by rewrite lookup_app_l by (by eapply Hwf).
  Qed.

Lemma remove_fold (s0 : Rail) : forall (todo : list (string * nat)) (s : Rail),
    NoDup todo.*1 -> wf_registry s ->
    arrays s0 `prefix_of` arrays s ->
    (forall ev a, (ev, a) ∈ todo ->
       listeners s !! ev = Some a /\ a < length (arrays s0)) ->
    let s' := foldl (filter_step moduleName) s todo in
    wf_registry s'
    /\ (forall ev, ev ∉ todo.*1 -> listeners_of s' ev = listeners_of s ev)
    /\ (forall ev a, (ev, a) ∈ todo ->
          listeners_of s' ev = filter (fun l => module l <> moduleName) (default [] (arrays s0 !! a))).
  Proof.
    induction todo as [|[event a] rest IH]; intros s Hnd Hwf Hpre Hin; simpl.
    - split_and!; [done|done|]. intros ev a' H'. by inversion H'.
    - apply NoDup_cons in Hnd as [Hnotin Hnd].
      destruct (Hin event a (list_elem_of_here _ _)) as [Hev Ha].
      set (s1 := store_filtered event (filter (fun l => module l <> moduleName) (default [] (arrays s !! a))) s).
      assert (Hread : arrays s !! a = arrays s0 !! a).
      { destruct (lookup_lt_is_Some_2 (arrays s0) a Ha) as [ls Hls].
        rewrite Hls. by eapply prefix_lookup_Some. }
      destruct (IH s1) as (Hwf' & Hout & Hins); try done.
      + by apply store_filtered_wf.
      + etrans; [done|]. apply store_filtered_arrays.
      + intros ev a' H'. assert (ev <> event).
        { intros ->. apply Hnotin. by apply (list_elem_of_fmap_2 fst _ (event, a')). }
        destruct (Hin ev a' (list_elem_of_further _ _ _ H')) as [Hl Hlt].
        split; [|done].
        destruct (store_filtered_other event
                    (filter (fun l => module l <> moduleName) (default [] (arrays s !! a))) s ev Hwf)
          as [Heq _]; [done|].
        unfold s1. by rewrite <- Heq.
      + split_and!; [done| |].
        * intros ev [Hne Hnin]%not_elem_of_cons. simpl in Hne.
          rewrite (Hout ev Hnin). by apply store_filtered_other.
        * intros ev a' [Heq|H']%elem_of_cons.
          -- inversion Heq; subst ev a'. rewrite (Hout event Hnotin).
             unfold s1. by rewrite store_filtered_same, Hread.
          -- by apply Hins.
  Qed.

  (** The loop of [detach] keeps, for every event and in their order,
      exactly the records of other modules. *)
Lemma remove_module_listeners_filter s event :
    wf_registry s ->
    listeners_of (remove_module_listeners moduleName s) event
      = filter (fun l => module l <> moduleName) (listeners_of s event).
  Proof.
    intros Hwf.
    destruct (remove_fold s (map_to_list (listeners s)) s) as (_ & Hout & Hins).
    - apply NoDup_fst_map_to_list.
    - done.
    - done.
    - intros ev a H'%elem_of_map_to_list. split; [done|by eapply Hwf].
    - unfold remove_module_listeners.
      change (foldl _ s (map_to_list (listeners s)))
        with (foldl (filter_step moduleName) s (map_to_list (listeners s))).
      unfold listeners_of at 2.
      destruct (listeners s !! event) as [a|] eqn:Ha.
      + apply (Hins event a). by apply elem_of_map_to_list.
      + rewrite Hout; [by unfold listeners_of; rewrite Ha|].
        intros [[ev a] [-> H'%elem_of_map_to_list]]%list_elem_of_fmap.
        simpl in Ha. congruence.
  Qed.
End remove_by_module.

Lemma remove_module_listeners_modules m s :
  modules (remove_module_listeners m s) = modules s.
Proof.
  unfold remove_module_listeners.
  generalize (map_to_list (listeners s)). intros todo. revert s.
  induction todo as [|[ev a] rest IH]; intros s; simpl; [done|].
  rewrite IH. unfold store_filtered. by case_decide.
Qed.

(** * Module Lifecycle: what [detach] removes *)



(** * Module Lifecycle: a [connect] that throws *)

(** Whatever [connect] throws, [attach] fails, and the only thing it undoes
    is the entry of the module table: the registry stays as [connect]
    left it. *)
Lemma attach_connect_throws fuel nm connect disconnect s t s2 :
  nm <> "" -> modules s !! nm = None ->
  call fuel connect VUndef
    (with_modules (<[nm := ModuleObj (Some nm) (Some connect) disconnect]>
                     (modules s)) s) = Throw t s2 ->
  exists t',
    attach fuel (ModuleObj (Some nm) (Some connect) disconnect) s
      = Throw t' (with_modules (delete nm (modules s2)) s2)
    /\ (forall msg, t = TError msg ->
          t' = TError ("Failed to connect module '" +:+ nm +:+ "': " +:+ msg)).
Proof.
  intros Hnm Hfree Hcall. unfold attach, attach_.
  destruct (decide (nm = "")); [done|].
  destruct (decide (is_Some (modules s !! nm))) as [[? Hs]|_]; [congruence|].
  rewrite Hcall. destruct t as [msg| |]; simpl; eexists; (split; [done|]).
  - intros ? [= ->]. done.
  - done.
  - done.
Qed.

(** C4 (the code at the failing input): attaching [bad_module] fails with
    the message of the underlying error and the module is absent from
    [getModules()], but the listener its [connect] registered before
    throwing is still in the registry, and the next [emit('x')] calls
    it. *)
Theorem attach_failed_connect_leaves_listener :
  exists s',
    attach 2 bad_module (new_Rail None None None 0)
      = Throw (TError "Failed to connect module 'bad': Connection failed") s'
    /\ getModules s' = []
    /\ (exists l, listeners_of s' "x" = [l] /\ module l = "bad")
    /\ exists s'', emit 2 "x" VNull s' = Ok 1 s''.
Proof.
  eexists. split; [vm_compute; reflexivity|].
  split; [vm_compute; reflexivity|].
  split; [eexists; split; vm_compute; reflexivity|].
  eexists. vm_compute. reflexivity.
Qed.

(** * Diagnostics: [waitFor] *)

(** When the event is emitted first, the promise is fulfilled with the
    payload the callback received, the timer is cleared and the listener
    is gone. *)
Lemma waitFor_emission_deregisters :
  exists s',
    emit 2 "ready" (VNum 7) (after_waitFor "ready" (Some 1000%Z)) = Ok 1 s'
    /\ promises s' !! 0 = Some (PFulfilled (VNum 7))
    /\ timers s' !! 0 = Some None
    /\ listeners_of s' "ready" = [].
Proof. eexists. split_and!; vm_compute; reflexivity. Qed.

(** C7 (the code at the failing input): [waitFor('never', 50)] with no
    emission before the timer expires.  The promise is rejected with the
    timeout error, but the listener [waitFor] registered, of module
    [wait-for], is still in the registry after the promise has settled. *)
Theorem waitFor_timeout_leaves_listener :
  let s1 := after_waitFor "never" (Some 50%Z) in
  let s2 := fire_timer 0 s1 in
  promises s1 !! 0 = Some PPending
  /\ promises s2 !! 0
       = Some (PRejected (TError "Timeout waiting for event 'never'"))
  /\ exists l, listeners_of s2 "never" = [l] /\ module l = "wait-for"
               /\ callback l = WaitForCb 0 0 "never" (lid l).
Proof.
  split; [vm_compute; reflexivity|].
  split; [vm_compute; reflexivity|].
  eexists. split_and!; vm_compute; reflexivity.
Qed.

(** * Emission Engine: isolation of failures *)

(** C2 (the code at the failing input): two listeners are registered
    for [job] and the first one throws [null].  Reading [error.message]
    in the [catch] block raises a [TypeError], which leaves [forEach]
    and [emit]: the exception reaches the caller of [emit], the second
    listener never has its turn, and no [rail.error] event is
    emitted. *)
Lemma emit_null_throw_escapes :
  lid <$> listeners_of null_thrower_bus "job" = [1; 2]
  /\ exists s', emit 3 "job" (VNum 0) null_thrower_bus
                  = Throw message_type_error s'
       /\ t_listener <$> turns s' = [1]
       /\ h_event <$> eventHistory s' = ["job"].
Proof. split; [reflexivity|]. eexists. split_and!; vm_compute; reflexivity. Qed.


Lemma one_failure_bus_leaf :
  Forall leaf_listener (listeners_of one_failure_bus "job")
  /\ Forall silent_listener (listeners_of one_failure_bus "rail.error").
Proof.
  assert (Hj : listeners_of one_failure_bus "job"
               = [Listener (throws (TError "boom")) "first" 1;
                  Listener returns "second" 2]) by (vm_compute; reflexivity).
  assert (He : listeners_of one_failure_bus "rail.error"
               = [Listener returns "monitor" 3]) by (vm_compute; reflexivity).
  rewrite Hj, He. split; repeat constructor; by eexists _, _, _.
Qed.


(** * Emission Engine: the snapshot *)

Lemma settled_listeners event ts s' snapshot log :
  Forall2 (turn_settled event ts s') snapshot log ->
  t_listener <$> log = lid <$> snapshot.
Proof.
  induction 1 as [|l c snapshot log [Hl _] _ IH]; [done|].
  rewrite !fmap_cons. by rewrite Hl, IH.
Qed.

Lemma settled_called event ts s' snapshot log :
  Forall2 (turn_settled event ts s') snapshot log ->
  Forall called_or_clone_failed log.
Proof. induction 1 as [|l c snapshot log (_ & Hc & _) _ IH]; by constructor. Qed.

(** C5 (the code at the failing inputs).  Two listeners are registered
    for [job].  When the first one throws [null], [emit] is cut short by
    the [TypeError] of its [catch] block and the second listener, a
    member of the snapshot, is never called.  And when the payload is
    [{ hasOwnProperty: 1 }], cloning it fails in every turn: [emit]
    returns 0 and neither listener was called. *)
Lemma emit_skips_snapshot_listeners :
  (lid <$> listeners_of null_then_seven_bus "job" = [1; 2]
   /\ exists s', emit 3 "job" (VNum 0) null_then_seven_bus
                   = Throw message_type_error s'
        /\ (fun c => (t_listener c, t_arg c)) <$> turns s'
           = [(1, Some (VNum 0))])
  /\ (lid <$> listeners_of shadowed_payload_bus "job" = [1; 2]
      /\ exists s', emit 5 "job" (VRef 0) shadowed_payload_bus = Ok 0 s'
           /\ (fun c => (t_listener c, t_arg c)) <$> turns s'
              = [(1, None); (2, None)]).
Proof.
  split; (split; [reflexivity|]); eexists; split; vm_compute; reflexivity.
Qed.



(** * Emission Engine: the forced clone of the error payload *)

(** C6 (the code at the failing input): a listener of [job] throws an
    error and the first of two [rail.error] listeners calls
    [setClone(false)].  The forced flag is read again for every
    listener, so the second [rail.error] listener is handed the error
    payload itself, the object kept in the history, not a clone. *)
Lemma error_payload_shared_after_setClone :
  exists s', emit 5 "job" (VNum 0) flag_switching_bus = Ok 0 s'
    /\ (h_event <$> eventHistory s') = ["job"; "rail.error"]
    /\ (h_data <$> eventHistory s') !! 1 = Some (VRef 0)
    /\ (fun c => (t_listener c, t_arg c)) <$> turns_of 1 (turns s')
       = [(2, Some (VRef 1)); (3, Some (VRef 0))].
Proof. eexists. split_and!; vm_compute; reflexivity. Qed.

Section forced_clone.
Variable n : nat.
Variables (m event : string) (msg : val) (ts : Z) (e : nat).
Hypothesis Hprim : forall l, msg <> VRef l.

  (** With the flag on, the turn of a [rail.error] listener gets a clone. *)
Lemma dispatch_error_turn em ts' l acc s :
    clone s = true ->
    objects s !! e = Some (error_data m event msg ts) ->
    S em <= emissions s ->
    match dispatch (emit (S (S n))) (call (S (S n))) (S (S n)) em "rail.error"
            (VRef e) ts' l acc s with
    | Ok _ s' | Throw _ s' =>
        evolves s s'
        /\ exists new own,
             turns s' = turns s ++ new /\ turns_of em new = [own]
             /\ t_listener own = lid l
             /\ fresh_arg e own
    | Fuel => True
    end.
  Proof.
    intros Hc He Hem.
    pose proof (dispatch_turn (S (S n)) em "rail.error" (VRef e) ts' l acc s Hem) as Hd.
    assert (Harg : exists v, passed_arg (clone_or_pass (S (S n)) (VRef e) s)
                             = Some (VRef v) /\ e < v).
    { unfold clone_or_pass. rewrite Hc.
      destruct (deepClone_error_data n (objects s) e m event msg ts He Hprim)
        as (h' & -> & _).
      exists (length (objects s)). split; [done|]. by eapply lookup_lt_Some. }
    destruct Harg as (v & Hv & Hlt).
    destruct (dispatch _ _ _ em "rail.error" (VRef e) ts' l acc s) as [k s'|t s'|];
      [| |done].
    - destruct Hd as (Hev & _ & new & own & Hn & Ho & Hl & Ha & _).
      split; [done|]. exists new, own. split_and!; try done.
      exists v. split; [congruence|done].
    - destruct Hd as (Hev & new & own & Hn & Ho & Hl & Ha & _).
      split; [done|]. exists new, own. split_and!; try done.
      exists v. split; [congruence|done].
  Qed.

Lemma dispatch_all_evolves k em ev data ts' snapshot acc s :
    post evolves s
      (dispatch_all (dispatch (emit k) (call k) k em ev data ts') snapshot acc s).
  Proof.
    apply (dispatch_all_respects evolves_respects (fun _ => True)); try done.
    intros l0 acc0 s0 _. apply dispatch_evolves.
  Qed.

  (** The first listener of the error emission always gets a clone. *)
Lemma error_emission_first l rest s :
    clone s = true ->
    objects s !! e = Some (error_data m event msg ts) ->
    listeners_of s "rail.error" = l :: rest ->
    match emit (S (S (S n))) "rail.error" (VRef e) s with
    | Ok _ s' | Throw _ s' =>
        exists new c more,
          turns s' = turns s ++ new /\ turns_of (emissions s) new = c :: more
          /\ t_listener c = lid l /\ fresh_arg e c
    | Fuel => True
    end.
  Proof.
    intros Hc He Hl. rewrite emit_is_over_copy.
    unfold emit_over_copy, emit_started, default_data. rewrite Hl.
    set (s1 := with_emissions _ _). cbn [dispatch_all].
    pose proof (dispatch_error_turn (emissions s) (now s) l 0 s1 Hc He
                  ltac:(simpl; lia)) as Hd.
    destruct (dispatch _ _ _ (emissions s) "rail.error" (VRef e) (now s) l 0 s1)
      as [acc1 s2|t s2|]; [| |done].
    - destruct Hd as (_ & new1 & own & Hn1 & Ho & Hlid & Hfresh).
      pose proof (dispatch_all_evolves (S (S n)) (emissions s) "rail.error"
                    (VRef e) (now s) rest acc1 s2) as Hrest.
      destruct (dispatch_all _ rest acc1 s2) as [k s'|t s'|]; [| |done];
        destruct Hrest as (_ & _ & _ & [new2 Hn2] & _);
        exists (new1 ++ new2), own, (turns_of (emissions s) new2);
        (split_and!; [by rewrite Hn2, Hn1, app_assoc
                     |by rewrite turns_of_app, Ho|done|done]).
    - destruct Hd as (_ & new1 & own & Hn1 & Ho & Hlid & Hfresh).
      by exists new1, own, [].
  Qed.

  (** When the [rail.error] listeners just return, every one of them gets
      a clone. *)
Lemma dispatch_all_silent_fresh em ts' : forall snapshot acc s,
    Forall silent_listener snapshot ->
    clone s = true ->
    objects s !! e = Some (error_data m event msg ts) ->
    S em <= emissions s ->
    exists k s' new,
      dispatch_all
        (dispatch (emit (S (S n))) (call (S (S n))) (S (S n)) em "rail.error"
           (VRef e) ts') snapshot acc s = Ok k s'
      /\ turns s' = turns s ++ new
      /\ t_listener <$> turns_of em new = lid <$> snapshot
      /\ Forall (fresh_arg e) (turns_of em new).
  Proof.
    induction snapshot as [|l rest IH]; intros acc s Hall Hc He Hem;
      cbn [dispatch_all].
    - exists acc, s, []. rewrite app_nil_r. by split_and!.
    - apply Forall_cons in Hall as [Hl Hrest].
      pose proof (dispatch_error_turn em ts' l acc s Hc He Hem) as Hd.
      destruct (dispatch_silent n m event msg ts e Hprim em ts' l acc s Hl He)
        as (s1 & Heq & Hq1 & Hc1).
      rewrite Heq in *.
      destruct Hd as (Hev1 & new1 & own & Hn1 & Ho & Hlid & Hfresh).
      destruct (IH (S acc) s1 Hrest) as (k & s' & new2 & -> & Hn2 & Hl2 & Hf2).
      + congruence.
      + destruct Hq1 as (_ & _ & Hg). by eapply grows_lookup.
      + destruct Hev1 as (_ & _ & _ & _ & Hle). lia.
      + exists k, s', (new1 ++ new2). rewrite turns_of_app, Ho.
        split_and!; [done|by rewrite Hn2, Hn1, app_assoc| |].
        * rewrite fmap_app, Hl2. simpl. by rewrite Hlid.
        * by constructor.
  Qed.
End forced_clone.



(** * Emission Engine: asynchronous handlers under [emit] *)

(** C8, as stated, fails: [emit] drops the promise the asynchronous
    handler returns.  The handler counts as handled, its later rejection
    stays unhandled, no [rail.error] event is emitted and the [rail.error]
    listener is never called. *)
Lemma emit_drops_rejection :
  exists s', emit 3 "job" (VNum 0) late_rejection_bus = Ok 1 s'
    /\ h_event <$> eventHistory s' = ["job"]
    /\ t_listener <$> turns s' = [1]
    /\ unhandled s' = [TError "late"].
Proof. eexists. split_and!; vm_compute; reflexivity. Qed.

(** C8 (amended): an asynchronous handler is called by [emit] and not
    awaited.  Whatever its body does, even if it throws, the turn never
    enters the [catch] block: the handler is counted as handled as soon
    as the call has returned its promise, and [emit] does nothing more
    than drop that promise, so that after the turn the history is as the
    handler's body left it (no [rail.error] event for it) and a
    rejection of the promise is left unhandled. *)
Theorem emit_does_not_await (n em : nat) (event : string) (data : val)
    (ts : Z) (l : listener) (acc : nat) (s : Rail) (body : cmd) (ret : retval)
    (arg : val) (s1 : Rail) :
  callback l = Fn true body ret ->
  clone_or_pass (S n) data s = Ok arg s1 ->
  (forall t s',
     dispatch (emit (S n)) (call (S n)) (S n) em event data ts l acc s
       <> Throw t s')
  /\ (forall acc' s',
        dispatch (emit (S n)) (call (S n)) (S n) em event data ts l acc s
          = Ok acc' s' ->
        acc' = S acc
        /\ exists s2 rejected,
             ((exec (emit n) (call n) body arg s1 = Ok () s2
               /\ rejected = rejection (promised ret))
              \/ (exists t, exec (emit n) (call n) body arg s1 = Throw t s2
                            /\ rejected = [t]))
             /\ eventHistory s' = eventHistory s2
             /\ unhandled s' = unhandled s2 ++ rejected
             /\ turns s' = turns s2 ++ [Turn em (lid l) (Some arg) None]).
Proof.
  intros Hcb Hclone. unfold dispatch. rewrite Hclone, Hcb.
  cbn [call call_body].
  destruct (exec (emit n) (call n) body arg s1) as [[] s2|t s2|] eqn:He.
  - split; [done|]. intros acc' s' [= <- <-]. split; [done|].
    exists s2, (rejection (promised ret)). split; [by left|].
    destruct ret as [v|[v|t|]]; simpl; by rewrite ?app_nil_r.
  - split; [done|]. intros acc' s' [= <- <-]. split; [done|].
    exists s2, [t]. split; [right; by exists t|]. done.
  - done.
Qed.

Lemma emit_does_not_await_witness :
  let l := Listener (Fn true (CThrow (TError "sync part")) (RVal VUndef)) "lazy" 1 in
  let s := new_Rail None None (Some false) 0 in
  callback l = Fn true (CThrow (TError "sync part")) (RVal VUndef)
  /\ clone_or_pass 1 VNull s = Ok VNull s
  /\ forall t s',
       dispatch (emit 1) (call 1) 1 0 "job" VNull 0 l 0 s <> Throw t s'.
Proof.
  intros l s. split; [reflexivity|]. split; [reflexivity|].
  apply (emit_does_not_await 0 0 "job" VNull 0 l 0 s
           (CThrow (TError "sync part")) (RVal VUndef) VNull s);
    reflexivity.
Defined.

(** * Emission Engine: the results of [emitAsync] *)

(** C3 (the code at the failing input): two listeners are registered
    for [job]; the first throws [null], the second returns 7.  The
    [catch] block of the first one's asynchronous function throws, its
    promise rejects and [Promise.all] rejects at once with that
    [TypeError], while the unit of the second listener is still waiting
    for its result; whatever arrives later, no sequence of entries is
    ever delivered. *)
Lemma emitAsync_null_rejects_at_once :
  exists ae s', emitAsync 3 "job" (VNum 0) null_then_seven_bus = Ok ae s'
    /\ ae_promise ae = AllRejected message_type_error
    /\ ae_units ae !! 1 = Some (Awaiting "second" (Resolves (VNum 7)))
    /\ forall schedule,
         match settle_all 3 schedule ae s' with
         | Ok ae' _ => ae_promise ae' = AllRejected message_type_error
         | _ => True
         end.
Proof.
  eexists _, _. split; [vm_compute; reflexivity|].
  split; [reflexivity|]. split; [reflexivity|].
  intros schedule.
  match goal with |- match settle_all 3 schedule ?a ?s with _ => _ end =>
    generalize s; assert (Hp : ae_promise a = AllRejected message_type_error)
      by reflexivity; revert Hp; generalize a end.
  induction schedule as [|k rest IH]; intros ae Hp s; simpl; [done|].
  assert (Hstep : match settle_unit 3 k ae s with
                  | Ok ae' _ => ae_promise ae' = AllRejected message_type_error
                  | _ => True
                  end).
  { unfold settle_unit. destruct (ae_units ae !! k) as [[e|m [v|t|]|t]|]; try done.
    - simpl. by rewrite Hp.
    - destruct (report_async _ _ _ _ _ _); try done. simpl. by rewrite Hp. }
  destruct (settle_unit 3 k ae s) as [ae1 s1| |]; try done. by apply IH.
Qed.

Lemma settled_entries snapshot units results :
  Forall2 unit_of snapshot units -> all_settled units = Some results ->
  Forall2 entry_of snapshot results.
Proof.
  intros H. revert results.
  induction H as [|l u snapshot units Hu _ IH]; intros results Ha; simpl in Ha.
  - inversion Ha. constructor.
  - destruct u as [e| |]; try done.
    destruct (all_settled units) as [rs|]; [|done]. inversion Ha; subst.
    constructor; [done|]. by apply IH.
Qed.

(** X27: the results of [emitAsync], in a run that stays within the
    call stack.  [emitAsync] never throws.  A handler whose call
    returns leaves a unit that waits for what it returned.  Whatever
    the order in which the awaited results arrive, the emission in
    flight keeps one unit per listener of the snapshot, in registration
    order, under its listener's module name; a result that resolves
    with [v] settles its unit as [{ module, result: v, error: null }],
    a rejection that has a message as [{ module, result: null, error:
    message }]; the promise is fulfilled only once every unit is
    settled, with one entry per listener in registration order, each
    under its listener's module name and with a null result or a null
    error, and it is rejected only by the [TypeError] of a [catch]
    block that met a thrown [null] or [undefined].  With no listeners
    the promise is fulfilled with the empty sequence and [emit] returns
    0.  And when every listener returns or throws something with a
    message, every promise returned settles, the [rail.error] listeners
    return and the payload is finite, then once a result has arrived at
    every unit the promise is fulfilled. *)
Theorem emitAsync_results (event : string) (data : val) (s : Rail) :
  (forall fuel t s', emitAsync fuel event data s <> Throw t s')
  /\ (forall n em ts l units s0 arg s1 r s2,
        clone_or_pass n data s0 = Ok arg s1 ->
        call n (callback l) arg s1 = Ok r s2 ->
        start_unit (emit n) (call n) n em event data ts l units s0
          = Ok (units ++ [Awaiting (module l) (promised r)])
              (log_turn em l (Some arg) None s2))
  /\ (forall fuel ae s1, emitAsync fuel event data s = Ok ae s1 ->
        forall fuel' schedule ae' s',
          settle_all fuel' schedule ae s1 = Ok ae' s' ->
          tracks (listeners_of s event) ae'
          /\ (forall results, ae_promise ae' = AllFulfilled results ->
                all_settled (ae_units ae') = Some results
                /\ Forall2 entry_of (listeners_of s event) results)
          /\ (forall t, ae_promise ae' = AllRejected t -> t = message_type_error))
  /\ (forall fuel k ae s0 ae' s' m,
        settle_unit fuel k ae s0 = Ok ae' s' ->
        (forall v, ae_units ae !! k = Some (Awaiting m (Resolves v)) ->
           ae_units ae' !! k = Some (Settled (Entry m v VNull)))
        /\ (forall t, ae_units ae !! k = Some (Awaiting m (Rejects t)) ->
              (exists msg, message_of t = Some msg
                 /\ ae_units ae' !! k = Some (Settled (Entry m VNull msg)))
              \/ ae_units ae' !! k = Some (Broken message_type_error)))
  /\ (listeners_of s event = [] ->
      forall n, exists s1,
        emitAsync (S n) event data s
          = Ok (AsyncEmission event (now s) [] (AllFulfilled [])) s1
        /\ emit (S n) event data s = Ok 0 s1)
  /\ (forall depth fuel schedule,
        finite_payload depth s data -> depth + 4 <= fuel ->
        Forall settling_listener (listeners_of s event) ->
        Forall silent_listener (listeners_of s "rail.error") ->
        (forall k, k < length (listeners_of s event) -> k ∈ schedule) ->
        exists ae s1 ae' s' results,
          emitAsync fuel event data s = Ok ae s1
          /\ settle_all fuel schedule ae s1 = Ok ae' s'
          /\ ae_promise ae' = AllFulfilled results
          /\ Forall2 entry_of (listeners_of s event) results).
Proof.
  split_and!.
  - intros fuel t s' He. pose proof (emitAsync_tracks fuel event data s) as Ht.
    by rewrite He in Ht.
  - intros n em ts l units s0 arg s1 r s2 Hc Hr. unfold start_unit.
    by rewrite Hc, Hr.
  - intros fuel ae s1 He fuel' schedule ae' s' Hs.
    pose proof (emitAsync_tracks fuel event data s) as Ht. rewrite He in Ht.
    destruct Ht as [Ht _].
    pose proof (settle_all_tracks fuel' (listeners_of s event) schedule ae s1 Ht)
      as Ht'.
    rewrite Hs in Ht'. split; [done|]. destruct Ht' as [Hunits Hp].
    unfold promise_follows in Hp. split.
    + intros results Hr. rewrite Hr in Hp. split; [done|].
      by eapply settled_entries.
    + intros t Hr. rewrite Hr in Hp.
      apply list_elem_of_lookup in Hp as [k Hk].
      destruct (Forall2_lookup_r _ _ _ _ _ Hunits Hk) as (l & _ & Hu). done.
  - intros fuel k ae s0 ae' s' m Hs. unfold settle_unit in Hs. split.
    + intros v Hk. rewrite Hk in Hs. inversion Hs; subst. simpl.
      apply list_lookup_insert_eq. by eapply lookup_lt_Some.
    + intros t Hk. rewrite Hk in Hs.
      pose proof (report_async_unit fuel (Listener (Fn false CSkip (RVal VUndef)) m 0)
                    (ae_event ae) (ae_timestamp ae) t s0) as Hr.
      simpl in Hr.
      destruct (report_async _ m _ _ t s0) as [u s2|? ?|]; [| |done]; [|done].
      inversion Hs; subst. simpl.
      rewrite list_lookup_insert_eq by (by eapply lookup_lt_Some).
      destruct Hr as [Hu Hkind]. destruct u as [e|? ?|t']; [| done |].
      * left. destruct Hkind as (msg & Hm & ->). by exists msg.
      * right. simpl in Hu. by subst.
  - intros Hnone n. exists (emit_started event data s).2.
    split; [|by apply emit_no_listeners].
    unfold emitAsync.
    destruct (emit_started_fields event data s) as (Hl & Ha & _).
    unfold emit_started in *.
    destruct (default_data data s) as [data' s0]. cbn [fst snd] in *. cbv zeta.
    set (s1 := with_emissions _ _) in *.
    unfold listeners_of in Hnone. rewrite Hl, Ha.
    destruct (listeners s !! event) as [a|]; [|done].
    rewrite Hnone. done.
  - intros depth fuel schedule Hfin Hle Hall Herr Hcover.
    destruct fuel as [|[|[|[|fuel]]]]; try lia.
    destruct (emitAsync_settling depth fuel event data s Hfin ltac:(lia) Hall Herr)
      as (ae & s1 & He & Hus & Herr1).
    pose proof (emitAsync_tracks (S (S (S (S fuel)))) event data s) as Ht.
    rewrite He in Ht. destruct Ht as [Ht _].
    destruct (settle_all_settling (S fuel) schedule ae s1 Hus Herr1)
      as (ae' & s' & Hs & Hlen & _ & Hdone).
    pose proof (settle_all_tracks (S (S (S (S fuel)))) (listeners_of s event)
                  schedule ae s1 Ht) as Ht'.
    rewrite Hs in Ht'. destruct Ht' as [Hunits Hp].
    assert (Hlen0 : length (listeners_of s event) = length (ae_units ae)).
    { destruct Ht as [Hu0 _]. by eapply Forall2_length. }
    assert (Hall' : Forall (fun u => exists e, u = Settled e) (ae_units ae')).
    { apply Forall_lookup. intros k u Hk.
      assert (Hlt : k < length (ae_units ae)).
      { rewrite <- Hlen. by eapply lookup_lt_Some. }
      destruct (Hdone k (Hcover k ltac:(lia)) Hlt) as [e He'].
      exists e. congruence. }
    destruct (all_settled_Forall _ Hall') as [results Hres].
    exists ae, s1, ae', s', results. split_and!; [done|done| |].
    + unfold promise_follows in Hp.
      destruct (ae_promise ae') as [|rs|t].
      * destruct Hp as [Hp _]. congruence.
      * congruence.
      * apply list_elem_of_lookup in Hp as [k Hk].
        destruct (Forall_lookup_1 _ _ _ _ Hall' Hk) as [e He']. done.
    + by eapply settled_entries.
Qed.

Lemma emitAsync_results_witness :
  exists ae s1 ae' s',
    emitAsync 5 "job" (VNum 0) three_units_bus = Ok ae s1
    /\ settle_all 5 [2; 0; 1] ae s1 = Ok ae' s'
    /\ ae_promise ae'
       = AllFulfilled [Entry "slow" (VNum 1) VNull;
                       Entry "bad" VNull (VStr "no");
                       Entry "sync" (VNum 3) VNull]
    /\ tracks (listeners_of three_units_bus "job") ae'.
Proof.
  eexists _, _, _, _. split; [vm_compute; reflexivity|].
  split; [vm_compute; reflexivity|]. split; [reflexivity|].
  destruct (emitAsync_results "job" (VNum 0) three_units_bus) as (_ & _ & Htr & _).
  refine (proj1 (Htr 5 _ _ _ 5 [2; 0; 1] _ _ _)).
  - vm_compute; reflexivity.
  - vm_compute; reflexivity.
Defined.

(** * Listener Registry: [on] and [off] *)

Lemma listeners_of_Some s event a :
  listeners s !! event = Some a ->
  listeners_of s event = default [] (arrays s !! a).
Proof. intros H. unfold listeners_of. by rewrite H. Qed.

Lemma listeners_of_None s event :
  listeners s !! event = None -> listeners_of s event = [].
Proof. intros H. unfold listeners_of. by rewrite H. Qed.

(** The registry after [on], field by field. *)
Lemma on_fields event cb m s :
  wf_registry s ->
  exists s',
    on event (Some cb) m s = Ok (S (listenerIdCounter s)) s'
    /\ listenerIdCounter s' = S (listenerIdCounter s)
    /\ match listeners s !! event with
       | Some a =>
           listeners s' = listeners s
           /\ arrays s' = <[a := listeners_of s event ++ [new_listener cb m s]]> (arrays s)
       | None =>
           listeners s' = <[event := length (arrays s)]> (listeners s)
           /\ arrays s' = arrays s ++ [[new_listener cb m s]]
       end
    /\ name s' = name s /\ debug s' = debug s /\ clone s' = clone s
    /\ modules s' = modules s /\ eventHistory s' = eventHistory s
    /\ objects s' = objects s /\ now s' = now s /\ timers s' = timers s
    /\ promises s' = promises s /\ unhandled s' = unhandled s
    /\ emissions s' = emissions s /\ turns s' = turns s.
Proof.
  intros Hwf. unfold on, listeners_of, new_listener.
  destruct (listeners s !! event) as [a|] eqn:Ha.
  - destruct (lookup_lt_is_Some_2 (arrays s) a (Hwf _ _ Ha)) as [ls Hls].
    rewrite Hls. eexists. split; [done|]. simpl. by split_and!.
  - simpl. rewrite lookup_app_r, Nat.sub_diag by lia. simpl.
    eexists. split; [done|]. simpl. split_and!; try done.
    rewrite insert_app_r_alt, Nat.sub_diag by lia. done.
Qed.

(** What [on] does to the listener lists. *)
Lemma on_listeners_of event cb m s s' id :
  wf_registry s ->
  (forall e1 e2 a,
     listeners s !! e1 = Some a -> listeners s !! e2 = Some a -> e1 = e2) ->
  on event (Some cb) m s = Ok id s' ->
  id = S (listenerIdCounter s)
  /\ listenerIdCounter s' = S (listenerIdCounter s)
  /\ is_Some (listeners s' !! event)
  /\ listeners_of s' event = listeners_of s event ++ [new_listener cb m s]
  /\ (forall ev, ev <> event ->
        listeners s' !! ev = listeners s !! ev
        /\ listeners_of s' ev = listeners_of s ev).
Proof.
  intros Hwf Hd Hon.
  destruct (on_fields event cb m s Hwf) as (s1 & Hon1 & Hc & Hreg & _).
  rewrite Hon in Hon1. injection Hon1 as -> ->.
  split; [done|]. split; [done|].
  destruct (listeners s !! event) as [a|] eqn:Ha; destruct Hreg as [Hl Harr].
  - pose proof (Hwf _ _ Ha) as Hlt. split_and!.
    + rewrite Hl, Ha. by eexists.
    + unfold listeners_of at 1. rewrite Hl, Ha, Harr.
      by rewrite list_lookup_insert_eq by done.
    + intros ev Hne. rewrite Hl. split; [done|].
      unfold listeners_of. rewrite Hl, Harr.
      destruct (listeners s !! ev) as [b|] eqn:Hb; [|done].
      rewrite list_lookup_insert_ne; [done|].
      intros ->. apply Hne. by eapply Hd.
  - split_and!.
    + rewrite Hl, lookup_insert_eq. by eexists.
    + unfold listeners_of at 1. rewrite Hl, lookup_insert_eq, Harr.
      rewrite lookup_app_r, Nat.sub_diag by lia. simpl.
      by rewrite (listeners_of_None s event Ha).
    + intros ev Hne. rewrite Hl, lookup_insert_ne by done. split; [done|].
      unfold listeners_of. rewrite Hl, lookup_insert_ne, Harr by done.
      destruct (listeners s !! ev) as [b|] eqn:Hb; [|done].
      by rewrite lookup_app_l by (by eapply Hwf).
Qed.

Lemma NoDup_lid_filter (P : listener -> Prop) `{!forall l, Decision (P l)} ls :
  NoDup (lid <$> ls) -> NoDup (lid <$> filter P ls).
Proof.
  induction ls as [|l ls IH]; simpl; [done|].
  intros [Hnotin Hnd]%NoDup_cons. rewrite filter_cons.
  case_decide; [|by apply IH]. simpl. apply NoDup_cons. split; [|by apply IH].
  intros [l' [Heq [_ Hin]%list_elem_of_filter]]%list_elem_of_fmap.
  apply Hnotin. apply list_elem_of_fmap. by exists l'.
Qed.

Lemma on_ok event cb m s s' id :
  registry_ok s -> on event (Some cb) m s = Ok id s' -> registry_ok s'.
Proof.
  intros [Hwf Hd Hne Hnd Hap Hiss] Hon.
  destruct (on_listeners_of event cb m s s' id Hwf Hd Hon)
    as (-> & Hc & Hsome & Hev & Hoth).
  destruct (on_fields event cb m s Hwf) as (s1 & Hon1 & _ & Hreg & _).
  rewrite Hon in Hon1. injection Hon1 as <-.
  assert (Hnew : forall ev l, l ∈ listeners_of s' ev ->
            (l ∈ listeners_of s ev /\ lid l <= listenerIdCounter s)
            \/ (ev = event /\ l = new_listener cb m s)).
  { intros ev l Hl. destruct (decide (ev = event)) as [->|Hn].
    - rewrite Hev in Hl. apply elem_of_app in Hl as [Hl|Hl%list_elem_of_singleton].
      + left. split; [done|]. by eapply Hiss.
      + by right.
    - rewrite (proj2 (Hoth ev Hn)) in Hl. left. split; [done|]. by eapply Hiss. }
  split.
  - intros ev a Ha.
    destruct (listeners s !! event) as [b|] eqn:Hb; destruct Hreg as [Hl Harr];
      rewrite Hl in Ha; rewrite Harr.
    + rewrite length_insert. by eapply Hwf.
    + rewrite length_app. simpl.
      apply lookup_insert_Some in Ha as [[_ <-]|[_ Ha]]; [lia|].
      apply Hwf in Ha. lia.
  - intros e1 e2 a H1 H2.
    destruct (listeners s !! event) as [b|] eqn:Hb; destruct Hreg as [Hl Harr];
      rewrite Hl in H1, H2.
    + by eapply Hd.
    + apply lookup_insert_Some in H1 as [[<- <-]|[Hn1 H1]];
        apply lookup_insert_Some in H2 as [[<- Heq]|[Hn2 H2]]; try done.
      * apply Hwf in H2. lia.
      * apply Hwf in H1. lia.
      * by eapply Hd.
  - intros ev a Ha. destruct (decide (ev = event)) as [->|Hn].
    + rewrite Hev. by destruct (listeners_of s event).
    + destruct (Hoth ev Hn) as [Hk ->]. rewrite Hk in Ha. by eapply Hne.
  - intros ev. destruct (decide (ev = event)) as [->|Hn].
    + rewrite Hev, fmap_app. apply NoDup_app. split_and!; [done| |].
      * intros x [l [-> Hl]]%list_elem_of_fmap Hx.
        unfold new_listener in Hx. simpl in Hx.
        apply list_elem_of_singleton in Hx. apply Hiss in Hl. lia.
      * simpl. apply NoDup_singleton.
    + by rewrite (proj2 (Hoth ev Hn)).
  - intros e1 e2 l1 l2 H1 H2 Heq.
    destruct (Hnew _ _ H1) as [[H1' Hb1]|[-> ->]];
      destruct (Hnew _ _ H2) as [[H2' Hb2]|[-> ->]]; try done.
    + by eapply Hap.
    + unfold new_listener in Heq. simpl in Heq. lia.
    + unfold new_listener in Heq. simpl in Heq. lia.
  - intros ev l Hl. rewrite Hc.
    destruct (Hnew _ _ Hl) as [[_ Hb]|[_ ->]]; unfold new_listener; simpl; lia.
Qed.

Lemma store_filtered_key event filtered s :
  listeners (store_filtered event filtered s) !! event
    = if decide (length filtered = 0) then None else Some (length (arrays s)).
Proof.
  unfold store_filtered. case_decide; simpl.
  - by rewrite lookup_delete_eq.
  - by rewrite lookup_insert_eq.
Qed.

Lemma store_filtered_counter event filtered s :
  listenerIdCounter (store_filtered event filtered s) = listenerIdCounter s.
Proof. unfold store_filtered. by case_decide. Qed.

(** Filtering the array of one event, as [off] and [detach] do, keeps
    the registry in order. *)
Lemma filter_event_ok (P : listener -> Prop) `{!forall l, Decision (P l)}
    event s :
  registry_ok s ->
  registry_ok (store_filtered event (filter P (listeners_of s event)) s).
Proof.
  intros [Hwf Hd Hne Hnd Hap Hiss].
  set (filtered := filter P (listeners_of s event)).
  set (s' := store_filtered event filtered s).
  assert (Hsame : listeners_of s' event = filtered) by apply store_filtered_same.
  assert (Hoth : forall ev, ev <> event ->
            listeners s !! ev = listeners s' !! ev
            /\ listeners_of s' ev = listeners_of s ev).
  { intros ev Hn. by apply store_filtered_other. }
  assert (Hkey := store_filtered_key event filtered s). fold s' in Hkey.
  assert (Hin : forall ev l, l ∈ listeners_of s' ev -> l ∈ listeners_of s ev).
  { intros ev l Hl. destruct (decide (ev = event)) as [->|Hn].
    - rewrite Hsame in Hl. by apply list_elem_of_filter in Hl as [_ Hl].
    - by rewrite (proj2 (Hoth ev Hn)) in Hl. }
  split.
  - by apply store_filtered_wf.
  - intros e1 e2 a H1 H2.
    destruct (decide (e1 = event)) as [->|Hn1];
      destruct (decide (e2 = event)) as [->|Hn2]; [done| | |].
    + rewrite Hkey in H1. case_decide; [done|]. injection H1 as <-.
      rewrite <- (proj1 (Hoth e2 Hn2)) in H2. apply Hwf in H2. lia.
    + rewrite Hkey in H2. case_decide; [done|]. injection H2 as <-.
      rewrite <- (proj1 (Hoth e1 Hn1)) in H1. apply Hwf in H1. lia.
    + rewrite <- (proj1 (Hoth e1 Hn1)) in H1.
      rewrite <- (proj1 (Hoth e2 Hn2)) in H2. by eapply Hd.
  - intros ev a Ha. destruct (decide (ev = event)) as [->|Hn].
    + rewrite Hkey in Ha. case_decide as Hlen; [done|]. rewrite Hsame.
      intros Hnil. by rewrite Hnil in Hlen.
    + destruct (Hoth ev Hn) as [Hk ->]. rewrite <- Hk in Ha. by eapply Hne.
  - intros ev. destruct (decide (ev = event)) as [->|Hn].
    + rewrite Hsame. by apply NoDup_lid_filter.
    + by rewrite (proj2 (Hoth ev Hn)).
  - intros e1 e2 l1 l2 H1%Hin H2%Hin. by apply Hap.
  - intros ev l Hl%Hin. unfold s'. rewrite store_filtered_counter. by eapply Hiss.
Qed.

Lemma off_filter event listenerId s :
  off event listenerId s
    = match listeners s !! event with
      | None => (false, s)
      | Some _ =>
          (true, store_filtered event
                   (filter (fun l => lid l <> listenerId) (listeners_of s event)) s)
      end.
Proof.
  unfold off. destruct (listeners s !! event) as [a|] eqn:Ha; [|done].
  by rewrite (listeners_of_Some s event a Ha).
Qed.

Lemma off_ok event listenerId s :
  registry_ok s -> registry_ok (off event listenerId s).2.
Proof.
  intros Hok. rewrite off_filter. destruct (listeners s !! event); [|done].
  simpl. by apply filter_event_ok.
Qed.

Lemma remove_module_listeners_ok m s :
  registry_ok s -> registry_ok (remove_module_listeners m s).
Proof.
  unfold remove_module_listeners.
  change (foldl _ s (map_to_list (listeners s)))
    with (foldl (filter_step m) s (map_to_list (listeners s))).
  assert (Hgen : forall todo s0,
            NoDup todo.*1 -> registry_ok s0 ->
            (forall ev a, (ev, a) ∈ todo -> listeners s0 !! ev = Some a) ->
            registry_ok (foldl (filter_step m) s0 todo)).
  { induction todo as [|[event a] rest IH]; intros s0 Hnd Hok Hin; simpl; [done|].
    apply NoDup_cons in Hnd as [Hnotin Hnd].
    pose proof (Hin event a (list_elem_of_here _ _)) as Ha.
    rewrite <- (listeners_of_Some s0 event a Ha).
    apply IH; [done|by apply filter_event_ok|].
    intros ev a' H'. assert (ev <> event).
    { intros ->. apply Hnotin. by apply (list_elem_of_fmap_2 fst _ (event, a')). }
    destruct (store_filtered_other event
                (filter (fun l => module l <> m) (listeners_of s0 event)) s0 ev)
      as [<- _]; [by destruct Hok|done|].
    apply Hin. by apply list_elem_of_further. }
  intros Hok. apply Hgen; [apply NoDup_fst_map_to_list|done|].
  intros ev a H'. by apply elem_of_map_to_list.
Qed.

Lemma new_Rail_ok o_name o_debug o_clone time :
  registry_ok (new_Rail o_name o_debug o_clone time).
Proof.
  split; unfold listeners_of; simpl; try done.
  - intros ev. rewrite lookup_empty. simpl. apply NoDup_nil_2.
  - intros e1 e2 l1 l2. rewrite lookup_empty. by intros H%elem_of_nil.
  - intros ev l. rewrite lookup_empty. by intros H%elem_of_nil.
Qed.

Lemma listeners_of_frame s s' event :
  listeners s' = listeners s -> arrays s' = arrays s ->
  listeners_of s' event = listeners_of s event.
Proof. intros Hl Ha. unfold listeners_of. by rewrite Hl, Ha. Qed.

Lemma registry_ok_frame s s' :
  listeners s' = listeners s -> arrays s' = arrays s ->
  listenerIdCounter s' = listenerIdCounter s ->
  registry_ok s -> registry_ok s'.
Proof.
  intros Hl Ha Hc [Hwf Hd Hne Hnd Hap Hiss].
  assert (Hof : forall ev, listeners_of s' ev = listeners_of s ev).
  { intros ev. by apply listeners_of_frame. }
  split.
  - intros ev a. rewrite Hl, Ha. apply Hwf.
  - intros e1 e2 a. rewrite Hl. apply Hd.
  - intros ev a. rewrite Hl, Hof. apply Hne.
  - intros ev. rewrite Hof. apply Hnd.
  - intros e1 e2 l1 l2. rewrite !Hof. apply Hap.
  - intros ev l. rewrite Hof, Hc. apply Hiss.
Qed.

Lemma registered_ok regs : registry_ok (registered regs).
Proof.
  unfold registered. generalize (new_Rail_ok None None None 1000).
  generalize (new_Rail None None None 1000). intros s Hok. revert s Hok.
  induction regs as [|[[event cb] m] rest IH]; intros s Hok; [done|].
  cbn [foldl]. apply IH.
  destruct (on event (Some cb) m s) as [id s'| |] eqn:Hon; try done.
  exact (on_ok _ _ _ _ _ _ Hok Hon).
Qed.

(** The listeners of a bus built by registrations are those
    registered. *)
Lemma registered_listeners regs ev l :
  l ∈ listeners_of (registered regs) ev ->
  exists cb m, (ev, cb, m) ∈ regs
    /\ callback l = cb /\ module l = default "anonymous" m.
Proof.
  unfold registered.
  assert (Hgen : forall s, registry_ok s ->
            l ∈ listeners_of
                  (foldl (fun s '(event, cb, m) =>
                            match on event (Some cb) m s with
                            | Ok _ s' => s'
                            | _ => s
                            end) s regs) ev ->
            l ∈ listeners_of s ev
            \/ exists cb m, (ev, cb, m) ∈ regs
                 /\ callback l = cb /\ module l = default "anonymous" m).
  { induction regs as [|[[event cb] m] rest IH]; intros s Hok Hl; [by left|].
    cbn [foldl] in Hl.
    destruct (on event (Some cb) m s) as [id s'| |] eqn:Hon.
    - destruct (on_listeners_of event cb m s s' id (ok_wf s Hok)
                  (ok_distinct s Hok) Hon) as (_ & _ & _ & Hev & Hoth).
      destruct (IH s' (on_ok _ _ _ _ _ _ Hok Hon) Hl)
        as [Hin|(cb' & m' & Hin & Hc & Hm)].
      + destruct (decide (ev = event)) as [->|Hn].
        * rewrite Hev in Hin.
          apply elem_of_app in Hin as [Hin|Hin]; [by left|].
          apply list_elem_of_singleton in Hin as ->.
          right. exists cb, m. split; [apply list_elem_of_here|done].
        * left. by rewrite <- (proj2 (Hoth ev Hn)).
      + right. exists cb', m'. split; [by apply list_elem_of_further|done].
    - unfold on in Hon. by destruct (listeners s !! event).
    - unfold on in Hon. by destruct (listeners s !! event). }
  intros Hl. destruct (Hgen _ (new_Rail_ok None None None 1000) Hl) as [Hin|H];
    [|done].
  unfold listeners_of in Hin. simpl in Hin. rewrite lookup_empty in Hin.
  by apply elem_of_nil in Hin.
Qed.

Lemma filter_all {A} (P : A -> Prop) `{!forall x, Decision (P x)} (l : list A) :
  Forall P l -> filter P l = l.
Proof.
  induction 1 as [|x l Hx _ IH]; [done|].
  rewrite filter_cons. case_decide; [|done]. by rewrite IH.
Qed.

Lemma filter_none {A} (P : A -> Prop) `{!forall x, Decision (P x)} (l : list A) :
  Forall (fun x => ~ P x) l -> filter P l = [].
Proof.
  induction 1 as [|x l Hx _ IH]; [done|].
  rewrite filter_cons. by case_decide.
Qed.

(** An id occurs at most once in a list whose ids are distinct. *)
Lemma filter_lid_length listenerId ls :
  NoDup (lid <$> ls) ->
  length ls <= S (length (filter (fun l => lid l <> listenerId) ls)).
Proof.
  induction ls as [|l ls IH]; simpl; [lia|].
  intros [Hnotin Hnd]%NoDup_cons. rewrite filter_cons. case_decide as Hl; simpl.
  - specialize (IH Hnd). lia.
  - rewrite filter_all; [lia|]. apply Forall_forall. intros l' Hl' Heq.
    apply Hnotin. apply list_elem_of_fmap. exists l'. split; [|done].
    destruct (decide (lid l = listenerId)); [congruence|done].
Qed.

Lemma registered_iff s event :
  registry_ok s -> listeners s !! event = None <-> listeners_of s event = [].
Proof.
  intros Hok. split; [apply listeners_of_None|].
  intros Hnil. destruct (listeners s !! event) as [a|] eqn:Ha; [|done].
  by destruct (ok_nonempty s Hok event a Ha).
Qed.

(** The module names [getEvents] finds for an event. *)
Lemma names_lookup s event :
  event_names s !! event
    = match listeners s !! event with
      | Some _ => Some (module <$> listeners_of s event)
      | None => None
      end.
Proof.
  unfold event_names, listeners_of. rewrite lookup_fmap.
  by destruct (listeners s !! event).
Qed.

Lemma getEvents_ext s s' :
  registry_ok s -> registry_ok s' ->
  (forall ev, listeners_of s' ev = listeners_of s ev) ->
  getEvents s' = getEvents s.
Proof.
  intros Hok Hok' Hof. unfold getEvents.
  assert (Hnames : event_names s' = event_names s).
  { apply map_eq. intros ev. rewrite !names_lookup, Hof.
    destruct (listeners s' !! ev) as [b|] eqn:Hb;
      destruct (listeners s !! ev) as [b'|] eqn:Hb'; try done.
    - apply (registered_iff s ev Hok) in Hb'. rewrite <- Hof in Hb'.
      by apply (registered_iff s' ev Hok') in Hb'; rewrite Hb' in Hb.
    - apply (registered_iff s' ev Hok') in Hb. rewrite Hof in Hb.
      by apply (registered_iff s ev Hok) in Hb; rewrite Hb in Hb'. }
  by rewrite Hnames.
Qed.

Lemma getEvents_lookup s event :
  event <> "__proto__" ->
  ev_props (getEvents s) !! event
    = match listeners s !! event with
      | Some _ => Some (module <$> listeners_of s event)
      | None => None
      end.
Proof.
  intros Hne. unfold getEvents. cbn [ev_props].
  rewrite lookup_delete_ne by done. apply names_lookup.
Qed.

Lemma getEvents_proto s :
  ev_props (getEvents s) !! "__proto__" = None
  /\ ev_proto (getEvents s)
     = match listeners s !! "__proto__" with
       | Some _ => Some (module <$> listeners_of s "__proto__")
       | None => None
       end.
Proof.
  unfold getEvents. cbn [ev_props ev_proto]. split.
  - apply lookup_delete_eq.
  - apply names_lookup.
Qed.

(** X1: [on] with something that is no function throws and leaves the
    bus as it is.  With a function it returns the next id (the counter
    plus one, an id no listener has), puts the new record at the end of
    the event's list, under the module name given or [anonymous], leaves
    the lists of the other events, the modules and the history alone, and
    keeps the registry in order. *)
Theorem on_registers (event : string) (m : option string) (s : Rail) :
  registry_ok s ->
  on event None m s = Throw (TError "Callback must be a function") s
  /\ forall cb, exists s',
       on event (Some cb) m s = Ok (S (listenerIdCounter s)) s'
       /\ listeners_of s' event
          = listeners_of s event
            ++ [Listener cb (default "anonymous" m) (S (listenerIdCounter s))]
       /\ (forall ev, ev <> event -> listeners_of s' ev = listeners_of s ev)
       /\ (forall ev l, l ∈ listeners_of s ev -> lid l <> S (listenerIdCounter s))
       /\ modules s' = modules s /\ eventHistory s' = eventHistory s
       /\ registry_ok s'.
Proof.
  intros Hok. split; [done|]. intros cb.
  destruct (on_fields event cb m s (ok_wf s Hok))
    as (s' & Hon & _ & _ & _ & _ & _ & Hm & Hh & _).
  destruct (on_listeners_of event cb m s s' _ (ok_wf s Hok) (ok_distinct s Hok) Hon)
    as (_ & _ & _ & Hev & Hoth).
  exists s'. split_and!; try done.
  - intros ev Hn. by apply Hoth.
  - intros ev l Hl%(ok_issued s Hok). lia.
  - by eapply on_ok.
Qed.

Lemma on_registers_witness :
  registry_ok sample_bus
  /\ exists s',
       on "login" (Some returns) (Some "log") sample_bus = Ok 4 s'
       /\ listeners_of s' "login"
          = listeners_of sample_bus "login" ++ [Listener returns "log" 4].
Proof.
  split; [apply registered_ok|].
  destruct (proj2 (on_registers "login" (Some "log") sample_bus
                     (registered_ok _)) returns)
    as (s' & Hon & Hev & _).
  exists s'. split; [exact Hon|exact Hev].
Defined.

(** X2: [off(event, listenerId)] returns [false], and does nothing,
    exactly when the event has no listeners.  Otherwise it returns
    [true], whether or not a listener of the event has that id: it
    keeps, in their order, the listeners of the event whose id differs,
    which removes at most one, and leaves the other events alone. *)
Theorem off_removes (event : string) (listenerId : nat) (s : Rail) :
  registry_ok s ->
  (listeners_of s event = [] -> off event listenerId s = (false, s))
  /\ (listeners_of s event <> [] ->
      exists s',
        off event listenerId s = (true, s')
        /\ listeners_of s' event
           = filter (fun l => lid l <> listenerId) (listeners_of s event)
        /\ (forall ev, ev <> event -> listeners_of s' ev = listeners_of s ev)
        /\ length (listeners_of s event) <= S (length (listeners_of s' event))
        /\ ((forall l, l ∈ listeners_of s event -> lid l <> listenerId) ->
            listeners_of s' event = listeners_of s event)
        /\ registry_ok s').
Proof.
  intros Hok. rewrite off_filter. split.
  - intros Hnil%(registered_iff s event Hok). by rewrite Hnil.
  - intros Hne. destruct (listeners s !! event) as [a|] eqn:Ha.
    2:{ by apply (registered_iff s event Hok) in Ha. }
    eexists. split; [done|].
    assert (Hsame := store_filtered_same event
              (filter (fun l => lid l <> listenerId) (listeners_of s event)) s).
    split_and!.
    + done.
    + intros ev Hn. by apply store_filtered_other; [apply Hok|].
    + rewrite Hsame. apply filter_lid_length. apply Hok.
    + intros Hall. rewrite Hsame. apply filter_all. by apply Forall_forall.
    + by apply filter_event_ok.
Qed.

Lemma off_removes_witness :
  registry_ok sample_bus
  /\ listeners_of sample_bus "login" <> []
  /\ exists s',
       off "login" 77 sample_bus = (true, s')
       /\ listeners_of s' "login" = listeners_of sample_bus "login".
Proof.
  assert (Hne : listeners_of sample_bus "login" <> []) by (vm_compute; discriminate).
  split; [apply registered_ok|]. split; [exact Hne|].
  destruct (proj2 (off_removes "login" 77 sample_bus (registered_ok _)) Hne)
    as (s' & Hoff & _ & _ & _ & Hall & _).
  exists s'. split; [exact Hoff|]. apply Hall.
  intros l Hl. vm_compute in Hl.
  apply elem_of_cons in Hl as [->|Hl]; [simpl; lia|].
  apply elem_of_cons in Hl as [->|Hl]; [simpl; lia|].
  by apply elem_of_nil in Hl.
Defined.

(** X3: the unsubscribe function [on] returns undoes the registration:
    after [on] and then [off] with the id [on] gave, every event has the
    listeners it had before and [getEvents] reports what it reported
    before.  Only the counter of ids has moved on: the id is not issued
    again. *)
Theorem on_off_round_trip (event : string) (cb : handler) (m : option string)
    (s s1 : Rail) (id : nat) :
  registry_ok s ->
  on event (Some cb) m s = Ok id s1 ->
  exists s2,
    off event id s1 = (true, s2)
    /\ (forall ev, listeners_of s2 ev = listeners_of s ev)
    /\ getEvents s2 = getEvents s
    /\ listenerIdCounter s2 = S (listenerIdCounter s)
    /\ registry_ok s2.
Proof.
  intros Hok Hon.
  destruct (on_listeners_of event cb m s s1 id (ok_wf s Hok) (ok_distinct s Hok) Hon)
    as (-> & Hc & [a Ha] & Hev & Hoth).
  pose proof (on_ok _ _ _ _ _ _ Hok Hon) as Hok1.
  rewrite off_filter, Ha.
  set (filtered := filter _ (listeners_of s1 event)).
  assert (Hfil : filtered = listeners_of s event).
  { unfold filtered. rewrite Hev, filter_app, filter_all.
    - rewrite filter_cons. unfold new_listener. simpl.
      case_decide; [done|]. by rewrite app_nil_r.
    - apply Forall_forall. intros l Hl%(ok_issued s Hok). lia. }
  set (s2 := store_filtered event filtered s1).
  assert (Hof : forall ev, listeners_of s2 ev = listeners_of s ev).
  { intros ev. destruct (decide (ev = event)) as [->|Hn].
    - unfold s2. by rewrite store_filtered_same.
    - unfold s2.
      destruct (store_filtered_other event filtered s1 ev (ok_wf s1 Hok1) Hn)
        as [_ ->]. by apply Hoth. }
  assert (Hok2 : registry_ok s2) by (by apply filter_event_ok).
  exists s2. split_and!; [done|done| | |done].
  - by apply getEvents_ext.
  - unfold s2. by rewrite store_filtered_counter.
Qed.

Lemma on_off_round_trip_witness :
  registry_ok sample_bus
  /\ exists s1 s2,
       on "logout" (Some returns) None sample_bus = Ok 4 s1
       /\ off "logout" 4 s1 = (true, s2)
       /\ getEvents s2 = getEvents sample_bus.
Proof.
  split; [apply registered_ok|].
  destruct (on "logout" (Some returns) None sample_bus) as [id s1| |] eqn:Hon;
    [|by vm_compute in Hon..].
  assert (id = 4) as -> by (vm_compute in Hon; congruence).
  destruct (on_off_round_trip "logout" returns None sample_bus s1 4
              (registered_ok _) Hon) as (s2 & Hoff & _ & Hev & _).
  exists s1, s2. split; [reflexivity|]. split; [exact Hoff|exact Hev].
Defined.

(** * The engine touches the registry only through [on], [off] and the
      loop of [detach]

    [Inv] is a property of the registry: of the fields [listeners],
    [arrays] and [listenerIdCounter].  If [on], [off] and the loop of
    [detach] keep it, so does every piece of the engine, whatever the
    callbacks do, whether the piece returns or throws. *)
Section keeps.
Variable Inv : Rail -> Prop.

Hypothesis Inv_frame : forall s s',
    listeners s' = listeners s -> arrays s' = arrays s ->
    listenerIdCounter s' = listenerIdCounter s -> Inv s -> Inv s'.
Hypothesis Inv_on : forall event cb m s, Inv s -> leaves Inv (on event cb m s).
Hypothesis Inv_off : forall event listenerId s,
    Inv s -> Inv (off event listenerId s).2.
Hypothesis Inv_remove : forall m s, Inv s -> Inv (remove_module_listeners m s).

Ltac framed :=
    match goal with
    | H : Inv ?x |- Inv _ => apply (Inv_frame x); [reflexivity..|exact H]
    end.

Lemma clone_or_pass_keeps fuel data s :
    Inv s -> leaves Inv (clone_or_pass fuel data s).
  Proof.
    intros HI. unfold clone_or_pass. destruct (clone s); [|done].
    destruct (_deepClone fuel (objects s) data); simpl; try done; framed.
  Qed.

Lemma note_discarded_keeps r s : Inv s -> Inv (note_discarded r s).
  Proof. intros HI. destruct r as [v|[v|t|]]; simpl; try done. framed. Qed.

Lemma forEach_keeps {A} (f : listener -> A -> Rail -> result Rail A) a :
    (forall l acc s, Inv s -> leaves Inv (f l acc s)) ->
    forall todo k acc s, Inv s -> leaves Inv (forEach f a k todo acc s).
  Proof.
    intros Hf. induction todo as [|todo IH]; intros k acc s Hs; simpl; [done|].
    destruct (arrays s !! a ≫= (.!! k)) as [l|]; [|by apply IH].
    specialize (Hf l acc s Hs). destruct (f l acc s) as [acc' s'| |]; try done.
    by apply IH.
  Qed.

Lemma emit_started_keeps event data s :
    Inv s -> Inv (emit_started event data s).2.
  Proof.
    intros HI. unfold emit_started, default_data.
    destruct data; simpl; framed.
  Qed.

  Section bodies.
Variable emit_ : string -> val -> Rail -> result Rail nat.
Variable call_ : handler -> val -> Rail -> result Rail retval.
Variable fuel : nat.
Hypothesis emit_keeps_ : forall event data s,
      Inv s -> leaves Inv (emit_ event data s).
Hypothesis call_keeps_ : forall h arg s,
      Inv s -> leaves Inv (call_ h arg s).

Lemma report_keeps m event ts t s :
      Inv s -> leaves Inv (report emit_ m event ts t s).
    Proof.
      intros HI. unfold report. destruct (message_of t) as [msg|]; simpl; [|done].
      set (s1 := with_clone true _).
      assert (H1 : Inv s1) by (unfold s1; framed).
      specialize (emit_keeps_ "rail.error" (VRef (length (objects s))) s1 H1).
      destruct (emit_ "rail.error" _ s1) as [k s'|t' s'|]; simpl in *; try done.
      framed.
    Qed.

Lemma dispatch_keeps em event data ts l count s :
      Inv s -> leaves Inv (dispatch emit_ call_ fuel em event data ts l count s).
    Proof.
      intros HI. unfold dispatch.
      pose proof (clone_or_pass_keeps fuel data s HI) as Hc.
      destruct (clone_or_pass fuel data s) as [arg s1|t s1|]; simpl in *; [| |done].
      - pose proof (call_keeps_ (callback l) arg s1 Hc) as Hcall.
        destruct (call_ (callback l) arg s1) as [r s2|t s2|]; simpl in *; [| |done].
        + pose proof (note_discarded_keeps r s2 Hcall). unfold log_turn. framed.
        + assert (H2 : Inv (log_turn em l (Some arg) (Some t) s2))
            by (unfold log_turn; framed).
          pose proof (report_keeps (module l) event ts t _ H2) as Hr.
          by destruct (report emit_ (module l) event ts t _).
      - assert (H1 : Inv (log_turn em l None (Some t) s1))
          by (unfold log_turn; framed).
        pose proof (report_keeps (module l) event ts t _ H1) as Hr.
        by destruct (report emit_ (module l) event ts t _).
    Qed.

Lemma emit_body_keeps event data s :
      Inv s -> leaves Inv (emit_body emit_ call_ fuel event data s).
    Proof.
      intros HI. unfold emit_body.
      pose proof (emit_started_keeps event data s HI) as Hs.
      unfold emit_started in Hs.
      destruct (default_data data s) as [data' s1]. cbn [fst snd] in *. cbv zeta.
      set (s2 := with_emissions _ _) in *.
      destruct (listeners s2 !! event) as [a|]; [|done].
      apply forEach_keeps; [|done]. intros l acc s' Hs'. by apply dispatch_keeps.
    Qed.

Lemma report_async_keeps m event ts t s :
      Inv s -> leaves Inv (report_async emit_ m event ts t s).
    Proof.
      intros HI. unfold report_async.
      pose proof (report_keeps m event ts t s HI) as Hr.
      by destruct (report emit_ m event ts t s).
    Qed.

Lemma start_unit_keeps em event data ts l units s :
      Inv s ->
      leaves Inv (start_unit emit_ call_ fuel em event data ts l units s).
    Proof.
      intros HI. unfold start_unit.
      pose proof (clone_or_pass_keeps fuel data s HI) as Hc.
      destruct (clone_or_pass fuel data s) as [arg s1|t s1|]; simpl in *; [| |done].
      - pose proof (call_keeps_ (callback l) arg s1 Hc) as Hcall.
        destruct (call_ (callback l) arg s1) as [r s2|t s2|]; simpl in *; [| |done].
        + unfold log_turn. framed.
        + assert (H2 : Inv (log_turn em l (Some arg) (Some t) s2))
            by (unfold log_turn; framed).
          pose proof (report_async_keeps (module l) event ts t _ H2) as Hr.
          by destruct (report_async emit_ (module l) event ts t _).
      - assert (H1 : Inv (log_turn em l None (Some t) s1))
          by (unfold log_turn; framed).
        pose proof (report_async_keeps (module l) event ts t _ H1) as Hr.
        by destruct (report_async emit_ (module l) event ts t _).
    Qed.

Lemma announce_keeps event (cellv : cell) s :
      Inv s ->
      leaves Inv (emit_ event (VRef (length (objects s)))
                    (with_objects (objects s ++ [cellv]) s)).
    Proof. intros HI. apply emit_keeps_. framed. Qed.

Lemma attach_keeps m s : Inv s -> leaves Inv (attach_ emit_ call_ m s).
    Proof.
      intros HI. unfold attach_.
      destruct m as [|[nm|] connect disconnect]; simpl; try done.
      destruct (decide (nm = "")); simpl; [done|].
      destruct (decide (is_Some (modules s !! nm))); simpl; [done|].
      set (s1 := with_modules _ s).
      assert (HI1 : Inv s1) by (unfold s1; framed).
      destruct connect as [h|].
      - pose proof (call_keeps_ h VUndef s1 HI1) as Hc.
        destruct (call_ h VUndef s1) as [r s2|t s2|]; simpl in *; [| |done].
        + pose proof (note_discarded_keeps r s2 Hc) as Hn.
          pose proof (announce_keeps "rail.module.attached"
                        (CObj [("moduleName", VStr nm)]) _ Hn) as Ha.
          unfold alloc. cbv beta iota zeta.
          by destruct (emit_ "rail.module.attached" _ _).
        + assert (H3 : Inv (with_modules (delete nm (modules s2)) s2)) by framed.
          by destruct (message_of t).
      - pose proof (announce_keeps "rail.module.attached"
                      (CObj [("moduleName", VStr nm)]) _ HI1) as Ha.
        unfold alloc. cbv beta iota zeta.
        by destruct (emit_ "rail.module.attached" _ _).
    Qed.

Lemma detach_keeps m s : Inv s -> leaves Inv (detach_ emit_ call_ m s).
    Proof.
      intros HI. unfold detach_. destruct (modules s !! m) as [mo|]; [|done].
      set (s1 := remove_module_listeners m s).
      assert (HI1 : Inv s1) by (by apply Inv_remove).
      assert (Hfin : forall s2, Inv s2 ->
                leaves Inv
                  (let s3 := with_modules (delete m (modules s2)) s2 in
                   let '(l, h) := alloc (objects s3) (CObj [("moduleName", VStr m)]) in
                   match emit_ "rail.module.detached" (VRef l) (with_objects h s3) with
                   | Ok _ s' => Ok true s'
                   | Throw t s' => Throw t s'
                   | Fuel => Fuel
                   end)).
      { intros s2 HI2. cbv zeta. unfold alloc. cbv beta iota zeta.
        set (s3 := with_modules _ s2).
        assert (H3 : Inv s3) by (unfold s3; framed).
        pose proof (announce_keeps "rail.module.detached"
                      (CObj [("moduleName", VStr m)]) s3 H3) as Ha.
        by destruct (emit_ "rail.module.detached" _ _). }
      destruct mo as [|nm connect [h|]]; try (by apply Hfin).
      pose proof (call_keeps_ h VUndef s1 HI1) as Hc.
      destruct (call_ h VUndef s1) as [r s2|t s2|]; simpl in Hc; [| |done].
      - apply Hfin. by apply note_discarded_keeps.
      - by apply Hfin.
    Qed.

Lemma exec_keeps c : forall data s,
      Inv s -> leaves Inv (exec emit_ call_ c data s).
    Proof.
      induction c as [|c1 IH1 c2 IH2|t|c1 IH1 c2 IH2|k v|event cb moduleName
                      |event listenerId|event p|m|m|enabled];
        intros data s HI; simpl.
      - done.
      - specialize (IH1 data s HI).
        destruct (exec emit_ call_ c1 data s) as [? s1|? s1|]; simpl in *; try done.
        by apply IH2.
      - done.
      - specialize (IH1 data s HI).
        destruct (exec emit_ call_ c1 data s) as [? s1|? s1|]; simpl in *; try done.
        by apply IH2.
      - destruct data; simpl; try done. framed.
      - pose proof (Inv_on event cb moduleName s HI) as Ho.
        by destruct (on event cb moduleName s).
      - by apply Inv_off.
      - assert (Hp : Inv (eval_payload p data s).2).
        { destruct p; simpl; try done. framed. }
        destruct (eval_payload p data s) as [d s1]. simpl in Hp.
        pose proof (emit_keeps_ event d s1 Hp) as He.
        by destruct (emit_ event d s1).
      - by apply attach_keeps.
      - pose proof (detach_keeps m s HI) as Hd.
        by destruct (detach_ emit_ call_ m s).
      - framed.
    Qed.

Lemma call_body_keeps h arg s :
      Inv s -> leaves Inv (call_body emit_ call_ h arg s).
    Proof.
      intros HI. destruct h as [async body ret|tid p event listenerId]; simpl.
      - pose proof (exec_keeps body arg s HI) as He.
        destruct (exec emit_ call_ body arg s); simpl in *; try done.
        by destruct async.
      - set (s1 := clearTimeout tid s).
        assert (H1 : Inv s1) by (unfold s1, clearTimeout; framed).
        pose proof (Inv_off event listenerId s1 H1) as H2.
        unfold settle_promise.
        destruct (promises _ !! p) as [[| |]|]; try done. framed.
    Qed.
  End bodies.

Lemma engine_keeps fuel :
    (forall event data s, Inv s -> leaves Inv (emit fuel event data s))
    /\ (forall h arg s, Inv s -> leaves Inv (call fuel h arg s)).
  Proof.
    induction fuel as [|n [IHe IHc]]; [done|].
    split.
    - intros event data s HI. by apply emit_body_keeps.
    - intros h arg s HI. by apply call_body_keeps.
  Qed.

Lemma emitAsync_keeps fuel event data s :
    Inv s -> leaves Inv (emitAsync fuel event data s).
  Proof.
    intros HI. destruct fuel as [|n]; [done|]. unfold emitAsync.
    pose proof (emit_started_keeps event data s HI) as Hs.
    unfold emit_started in Hs.
    destruct (default_data data s) as [data' s1]. cbn [fst snd] in *. cbv zeta.
    set (s2 := with_emissions _ _) in *.
    destruct (listeners s2 !! event) as [a|]; [|done].
    pose proof (forEach_keeps
                  (start_unit (emit n) (call n) n (emissions s1) event data' (now s)) a)
      as Hloop.
    specialize (Hloop (fun l acc s' Hs' =>
                  start_unit_keeps (emit n) (call n) n
                    (proj1 (engine_keeps n)) (proj2 (engine_keeps n))
                    _ _ _ _ l acc s' Hs')).
    specialize (Hloop (length (default [] (arrays s2 !! a))) 0 [] s2 Hs).
    by destruct (forEach _ a 0 _ [] s2).
  Qed.

Lemma settle_unit_keeps fuel k ae s :
    Inv s -> leaves Inv (settle_unit fuel k ae s).
  Proof.
    intros HI. unfold settle_unit.
    destruct (ae_units ae !! k) as [[e|m [v|t|]|t]|]; try done.
    pose proof (report_async_keeps (emit fuel) (proj1 (engine_keeps fuel))
                  m (ae_event ae) (ae_timestamp ae) t s HI) as Hr.
    by destruct (report_async _ _ _ _ _ _).
  Qed.

Lemma settle_all_keeps fuel schedule : forall ae s,
    Inv s -> leaves Inv (settle_all fuel schedule ae s).
  Proof.
    induction schedule as [|k rest IH]; intros ae s HI; simpl; [done|].
    pose proof (settle_unit_keeps fuel k ae s HI) as Hu.
    destruct (settle_unit fuel k ae s) as [ae' s'| |]; try done. by apply IH.
  Qed.

Lemma waitFor_keeps event timeout s : Inv s -> leaves Inv (waitFor event timeout s).
  Proof.
    intros HI. unfold waitFor.
    set (s1 := with_timers _ _).
    assert (H1 : Inv s1) by (unfold s1; framed).
    pose proof (Inv_on event
                  (Some (WaitForCb (length (timers (with_promises (promises s ++ [PPending]) s)))
                           (length (promises s)) event (S (listenerIdCounter s1))))
                  (Some "wait-for") s1 H1) as Ho.
    by destruct (on event _ (Some "wait-for") s1).
  Qed.

Lemma fire_timer_keeps tid s : Inv s -> Inv (fire_timer tid s).
  Proof.
    intros HI. unfold fire_timer.
    destruct (timers s !! tid) as [[tm|]|]; try done.
    unfold settle_promise. destruct (promises _ !! _) as [[| |]|]; framed.
  Qed.
End keeps.

Lemma on_leaves_ok event cb m s :
  registry_ok s -> leaves registry_ok (on event cb m s).
Proof.
  intros Hok. destruct cb as [cb|]; [|done].
  destruct (on event (Some cb) m s) as [id s'| |] eqn:Hon; simpl; try done.
  - by eapply on_ok.
  - unfold on in Hon. by destruct (listeners s !! event).
Qed.

Lemma registry_ok_engine fuel :
  (forall event data s, registry_ok s -> leaves registry_ok (emit fuel event data s))
  /\ (forall h arg s, registry_ok s -> leaves registry_ok (call fuel h arg s)).
Proof.
  apply engine_keeps.
  - intros s s'. apply registry_ok_frame.
  - apply on_leaves_ok.
  - apply off_ok.
  - apply remove_module_listeners_ok.
Qed.

Ltac kept :=
  first [ done
        | apply registry_ok_frame
        | apply on_leaves_ok
        | apply off_ok
        | apply remove_module_listeners_ok
        | apply registry_ok_engine ].

(** X4: the registry of a new bus is in order, and every method keeps it
    so, whatever the callbacks do and whether the method returns or
    throws: at all times every event of the registry has at least one
    listener, the ids of all the listeners are pairwise distinct, and
    none is greater than the counter. *)
Theorem registry_stays_ok (s : Rail) :
  (forall o_name o_debug o_clone time,
     registry_ok (new_Rail o_name o_debug o_clone time))
  /\ (registry_ok s ->
     (forall fuel event data, leaves registry_ok (emit fuel event data s))
     /\ (forall fuel event data, leaves registry_ok (emitAsync fuel event data s))
     /\ (forall fuel schedule ae, leaves registry_ok (settle_all fuel schedule ae s))
     /\ (forall fuel m, leaves registry_ok (attach fuel m s))
     /\ (forall fuel m, leaves registry_ok (detach fuel m s))
     /\ (forall event cb m, leaves registry_ok (on event cb m s))
     /\ (forall event listenerId, registry_ok (off event listenerId s).2)
     /\ (forall event timeout, leaves registry_ok (waitFor event timeout s))
     /\ (forall tid, registry_ok (fire_timer tid s))
     /\ registry_ok (clearHistory s)
     /\ (forall enabled, registry_ok (setClone enabled s))
     /\ (forall enabled, registry_ok (setDebug enabled s))).
Proof.
  split; [intros; apply new_Rail_ok|]. intros Hok.
  assert (Hf : forall s s', listeners s' = listeners s -> arrays s' = arrays s ->
            listenerIdCounter s' = listenerIdCounter s ->
            registry_ok s -> registry_ok s')
    by (intros ? ?; apply registry_ok_frame).
  split_and!.
  - intros fuel event data. by apply registry_ok_engine.
  - intros fuel event data. apply emitAsync_keeps; kept.
  - intros fuel schedule ae. apply settle_all_keeps; kept.
  - intros fuel m. unfold attach. apply attach_keeps; kept.
  - intros fuel m. unfold detach. apply detach_keeps; kept.
  - intros event cb m. by apply on_leaves_ok.
  - intros event listenerId. by apply off_ok.
  - intros event timeout. apply waitFor_keeps; kept.
  - intros tid. apply fire_timer_keeps; kept.
  - by apply (Hf s).
  - intros enabled. by apply (Hf s).
  - intros enabled. by apply (Hf s).
Qed.

Lemma registry_stays_ok_witness :
  registry_ok sample_bus
  /\ exists n s', emit 3 "login" (VNum 0) sample_bus = Ok n s' /\ registry_ok s'.
Proof.
  split; [apply registered_ok|].
  pose proof (proj1 (proj2 (registry_stays_ok sample_bus) (registered_ok _))
                3 "login" (VNum 0)) as Hk.
  destruct (emit 3 "login" (VNum 0) sample_bus) as [n s'|t s'|] eqn:He;
    [|by vm_compute in He..].
  exists n, s'. split; [reflexivity|exact Hk].
Defined.

(** X5: [getEvents] lists exactly the events that have a listener at
    the moment, each with the module names of its listeners in
    registration order: an event whose last listener was removed is not
    listed, and no event is listed with an empty array.  The one event
    it cannot list is the one named [__proto__]: its names are not
    stored as a property, they become the prototype of the object
    returned. *)
Theorem getEvents_lists_listeners (s : Rail) (event : string) :
  registry_ok s ->
  (event <> "__proto__" ->
   ev_props (getEvents s) !! event
     = (if decide (listeners_of s event = []) then None
        else Some (module <$> listeners_of s event)))
  /\ ev_props (getEvents s) !! event <> Some []
  /\ ev_props (getEvents s) !! "__proto__" = None
  /\ ev_proto (getEvents s)
     = (if decide (listeners_of s "__proto__" = []) then None
        else Some (module <$> listeners_of s "__proto__")).
Proof.
  intros Hok.
  assert (Hnames : forall ev,
            match listeners s !! ev with
            | Some _ => Some (module <$> listeners_of s ev)
            | None => None
            end
            = (if decide (listeners_of s ev = []) then None
               else Some (module <$> listeners_of s ev))
            /\ match listeners s !! ev with
               | Some _ => Some (module <$> listeners_of s ev)
               | None => None
               end <> Some []).
  { intros ev. destruct (listeners s !! ev) as [a|] eqn:Ha.
    - pose proof (ok_nonempty s Hok ev a Ha) as Hne.
      case_decide; [done|]. split; [done|].
      intros [=Hnil]. by destruct (listeners_of s ev).
    - rewrite (listeners_of_None s ev Ha). by case_decide. }
  destruct (getEvents_proto s) as [Hown Hproto].
  split_and!.
  - intros Hne. rewrite getEvents_lookup by done. apply Hnames.
  - destruct (decide (event = "__proto__")) as [->|Hne].
    + by rewrite Hown.
    + rewrite getEvents_lookup by done. apply Hnames.
  - done.
  - rewrite Hproto. apply Hnames.
Qed.

Lemma getEvents_lists_listeners_witness :
  registry_ok sample_bus
  /\ ev_props (getEvents sample_bus) !! "login" = Some ["auth"; "anonymous"]
  /\ ev_props (getEvents sample_bus) !! "signup" = None
  /\ ev_proto (getEvents (registered [("__proto__", returns, Some "m")]))
     = Some ["m"].
Proof.
  split; [apply registered_ok|].
  split; [|split].
  - rewrite (proj1 (getEvents_lists_listeners sample_bus "login" (registered_ok _)))
      by discriminate.
    vm_compute. reflexivity.
  - rewrite (proj1 (getEvents_lists_listeners sample_bus "signup" (registered_ok _)))
      by discriminate.
    vm_compute. reflexivity.
  - rewrite (proj2 (proj2 (proj2 (getEvents_lists_listeners
                (registered [("__proto__", returns, Some "m")]) "__proto__"
                (registered_ok _))))).
    vm_compute. reflexivity.
Defined.

(** * Module Lifecycle: what [attach] and [detach] throw *)

(** X6: everything [attach] can throw in a run that stays within the
    call stack.  A module that is no object, has no name (or an empty
    one) or whose name is taken is refused with its own message, before
    anything is changed.  When [connect] throws something that has a
    message, [attach] throws [Failed to connect module ...] with that
    message, and the state is the one [connect] left, with the module
    taken out of the table again.  Anything else is the [TypeError]
    raised by reading [error.message] of a thrown [null] or
    [undefined], in [attach] itself or in the emission of
    [rail.module.attached]. *)
Theorem attach_throws (fuel : nat) (m : modarg) (s : Rail) (t : thrown)
    (s' : Rail) :
  attach fuel m s = Throw t s' ->
  (m = NotAnObject /\ t = TError "Module must be an object" /\ s' = s)
  \/ (exists connect disconnect,
        (m = ModuleObj None connect disconnect
         \/ m = ModuleObj (Some "") connect disconnect)
        /\ t = TError "Module must have a name property" /\ s' = s)
  \/ (exists nm connect disconnect,
        m = ModuleObj (Some nm) connect disconnect
        /\ is_Some (modules s !! nm)
        /\ t = TError ("Module '" +:+ nm +:+ "' is already attached")
        /\ s' = s)
  \/ (exists nm connect disconnect t0 msg s2,
        m = ModuleObj (Some nm) (Some connect) disconnect
        /\ call fuel connect VUndef
             (with_modules (<[nm := m]> (modules s)) s) = Throw t0 s2
        /\ message_of t0 = Some msg
        /\ t = TError ("Failed to connect module '" +:+ nm +:+ "': "
                         +:+ message_text msg)
        /\ s' = with_modules (delete nm (modules s2)) s2
        /\ modules s' !! nm = None)
  \/ t = message_type_error.
Proof.
  unfold attach, attach_. destruct m as [|[nm|] connect disconnect]; cbv beta iota.
  - intros [= <- <-]. by left.
  - destruct (decide (nm = "")) as [->|Hnm].
    { intros [= <- <-]. right. left. exists connect, disconnect.
      by split_and!; [right|..]. }
    destruct (decide (is_Some (modules s !! nm))) as [Hin|Hfree].
    { intros [= <- <-]. right. right. left. exists nm, connect, disconnect.
      by split_and!. }
    set (s1 := with_modules _ s).
    assert (Hann : forall s2,
              (let '(l, h) := alloc (objects s2) (CObj [("moduleName", VStr nm)]) in
               match emit fuel "rail.module.attached" (VRef l) (with_objects h s2) with
               | Ok _ s3 => Ok () s3
               | Throw t3 s3 => Throw t3 s3
               | Fuel => Fuel
               end) = Throw t s' -> t = message_type_error).
    { intros s2. unfold alloc. cbv beta iota zeta.
      destruct (emit fuel "rail.module.attached" _ _) as [k s3|t3 s3|] eqn:He;
        intros [= <- <-]. by apply emit_throw in He as [-> _]. }
    destruct connect as [h|].
    + destruct (call fuel h VUndef s1) as [r s2|t2 s2|] eqn:Hc; [| |done].
      * intros H%Hann. by do 4 right.
      * destruct (message_of t2) as [msg|] eqn:Hm; intros [= <- <-].
        -- right. right. right. left. exists nm, h, disconnect, t2, msg, s2.
           split_and!; try done. simpl. by rewrite lookup_delete_eq.
        -- by do 4 right.
    + intros H%Hann. by do 4 right.
  - intros [= <- <-]. right. left. exists connect, disconnect. by split_and!; [left|..].
Qed.

Lemma attach_throws_witness :
  exists s',
    attach 2 bad_module (new_Rail None None None 0)
      = Throw (TError "Failed to connect module 'bad': Connection failed") s'
    /\ modules s' !! "bad" = None.
Proof.
  eexists. split; [vm_compute; reflexivity|].
  destruct (attach_throws 2 bad_module (new_Rail None None None 0) _ _
              ltac:(vm_compute; reflexivity))
    as [(H & _)|[(c & d & [H|H] & _)|[(nm & c & d & _ & [x H] & _)
       |[(nm & c & d & t0 & msg & s2 & [= <- <- <-] & _ & _ & _ & _ & H)|H]]]];
    try discriminate.
  exact H.
Defined.

(** X7: [detach] of a module that is not attached returns [false] and
    changes nothing; of an attached module it never returns [false].
    Whatever the [disconnect] callback throws is swallowed: in a run
    that stays within the call stack, the only thing [detach] can throw
    is the [TypeError] raised by reading [error.message] of a thrown
    [null] or [undefined], and then a listener called since the loop
    over the listeners has thrown one. *)
Theorem detach_outcomes (fuel : nat) (m : string) (s : Rail) :
  (modules s !! m = None -> detach fuel m s = Ok false s)
  /\ (is_Some (modules s !! m) -> forall s', detach fuel m s <> Ok false s')
  /\ (forall t s', detach fuel m s = Throw t s' ->
        t = message_type_error
        /\ exists c, added (remove_module_listeners m s) s' c
                     /\ t_threw c = Some TNullish).
Proof.
  unfold detach, detach_.
  assert (Hfin : forall s2 (r : result Rail bool),
            r = (let s3 := with_modules (delete m (modules s2)) s2 in
                 let '(l, h) := alloc (objects s3) (CObj [("moduleName", VStr m)]) in
                 match emit fuel "rail.module.detached" (VRef l) (with_objects h s3) with
                 | Ok _ s' => Ok true s'
                 | Throw t s' => Throw t s'
                 | Fuel => Fuel
                 end) ->
            (forall s', r <> Ok false s')
            /\ (forall t s', r = Throw t s' ->
                  t = message_type_error
                  /\ exists c, added s2 s' c /\ t_threw c = Some TNullish)).
  { intros s2 r ->. cbv zeta. unfold alloc. cbv beta iota zeta.
    destruct (emit fuel "rail.module.detached" _ _) as [k s3|t3 s3|] eqn:He;
      (split; [done|]); intros t s' [= <- <-].
    apply emit_throw in He as (-> & c & (new & Hn & Hc) & Ht).
    split; [done|]. exists c. split; [|done]. by exists new. }
  split_and!.
  - by intros ->.
  - intros [mo ->] s'.
    destruct mo as [|nm connect [h|]]; try (by eapply Hfin).
    destruct (call fuel h VUndef _) as [r s2|t s2|]; [| |done]; by eapply Hfin.
  - destruct (modules s !! m) as [mo|]; [|done]. intros t s'.
    destruct mo as [|nm connect [h|]]; try (by eapply Hfin).
    pose proof (call_evolves fuel h VUndef (remove_module_listeners m s)) as Hev.
    destruct (call fuel h VUndef _) as [r s2|t2 s2|]; [| |done]; simpl in Hev.
    + intros Hr. eapply Hfin in Hr as (-> & c & Hc & Ht); [|done].
      split; [done|]. exists c. split; [|done].
      eapply added_before; [|done].
      eapply evolves_trans; [done|]. apply note_discarded_evolves.
    + intros Hr. eapply Hfin in Hr as (-> & c & Hc & Ht); [|done].
      split; [done|]. exists c. split; [|done]. by eapply added_before.
Qed.

Lemma detach_outcomes_witness :
  modules sample_bus !! "auth" = None
  /\ detach 1 "auth" sample_bus = Ok false sample_bus.
Proof.
  assert (H : modules sample_bus !! "auth" = None) by (vm_compute; reflexivity).
  split; [exact H|]. apply (proj1 (detach_outcomes 1 "auth" sample_bus) H).
Defined.

(** * Diagnostics: the history *)

Lemma emit_started_recorded event data s s' :
  evolves (emit_started event data s).2 s' -> recorded event data s s'.
Proof.
  intros (_ & [later Hh] & _).
  exists (HistoryEntry event (payload_of data s) (now s)
            match payload_of data s with
            | VRef l => objects (emit_started event data s).2 !! l
            | _ => None
            end), later.
  split; [|done]. rewrite Hh. unfold emit_started, default_data, payload_of.
  destruct data; simpl; by rewrite <- app_assoc.
Qed.

Lemma emit_recorded fuel event data s :
  leaves (recorded event data s) (emit fuel event data s).
Proof.
  rewrite emit_is_over_copy. destruct fuel as [|n]; [done|].
  unfold emit_over_copy.
  pose proof (emit_started_recorded event data s) as Hrec.
  destruct (emit_started event data s) as [data' s1]. simpl in Hrec.
  pose proof (dispatch_all_respects evolves_respects (fun _ => True)
                (dispatch (emit n) (call n) n (emissions s) event data' (now s))
                (fun _ _ _ _ => I)
                (fun l acc s _ => dispatch_evolves n _ _ _ _ l acc s)
                (listeners_of s event) 0 s1 I) as He.
  destruct (dispatch_all _ _ 0 s1) as [k s'|t s'|]; simpl in *; try done;
    by apply Hrec.
Qed.

Lemma emitAsync_recorded fuel event data s :
  leaves (recorded event data s) (emitAsync fuel event data s).
Proof.
  destruct fuel as [|n]; [done|]. unfold emitAsync.
  pose proof (emit_started_recorded event data s) as Hrec.
  unfold emit_started in Hrec.
  destruct (default_data data s) as [data' s0]. cbn [fst snd] in *.
  cbv zeta. set (s1 := with_emissions _ _) in *.
  assert (Hloop : post evolves s1
            (dispatch_all (start_unit (emit n) (call n) n (emissions s0) event
                             data' (now s)) (listeners_of s1 event) [] s1)).
  { apply (dispatch_all_respects evolves_respects (fun _ => True)); try done.
    intros l acc s2 _. apply start_unit_evolves. }
  unfold listeners_of in Hloop.
  destruct (listeners s1 !! event) as [a|].
  - destruct (arrays s1 !! a) as [ls|] eqn:Hls; simpl in *.
    + rewrite (forEach_over_copy _ a ls) with (rest := ls);
        [|intros; apply start_unit_evolves|exists []; by rewrite app_nil_r|done].
      destruct (dispatch_all _ ls [] s1) as [us s'|? ?|]; simpl in *; try done;
        by apply Hrec.
    + apply Hrec. apply evolves_refl.
  - simpl. apply Hrec. apply evolves_refl.
Qed.

Lemma emit_started_payload event data s :
  (emit_started event data s).1 = payload_of data s.
Proof. unfold emit_started, default_data, payload_of. by destruct data. Qed.

(** X8: [emit] appends one entry for itself to the history before any
    listener runs: the loop over the listeners starts from a state
    whose history is the old one and that entry, which holds the event,
    the time of the call and the payload itself (not a clone; a new
    empty object when there was no payload).  With no listeners that
    is all [emit] does, and it returns 0.  And as long as no callback
    calls [clearHistory] (the callbacks of the model cannot), the entry
    is still there when [emit] or [emitAsync] returns or throws, what
    the listeners emitted comes after it, and nothing that was in the
    history before is dropped or reordered. *)
Theorem emit_records_history (fuel : nat) (event : string) (data : val)
    (s : Rail) :
  (exists entry,
     eventHistory (emit_started event data s).2 = eventHistory s ++ [entry]
     /\ h_event entry = event /\ h_data entry = payload_of data s
     /\ h_timestamp entry = now s
     /\ emit (S fuel) event data s
        = dispatch_all
            (dispatch (emit fuel) (call fuel) fuel (emissions s) event
               (payload_of data s) (now s))
            (listeners_of s event) 0 (emit_started event data s).2)
  /\ leaves (recorded event data s) (emit fuel event data s)
  /\ leaves (recorded event data s) (emitAsync fuel event data s)
  /\ (listeners_of s event = [] ->
      exists s', emit (S fuel) event data s = Ok 0 s'
        /\ exists entry, eventHistory s' = eventHistory s ++ [entry]
             /\ h_event entry = event /\ h_data entry = payload_of data s).
Proof.
  split.
  { destruct (emit_started_recorded event data s (emit_started event data s).2
                (evolves_refl _)) as (entry & later & Hh & He & Hd & Ht).
    assert (later = []) as ->.
    { unfold emit_started, default_data in Hh.
      destruct data; simpl in Hh; apply app_inv_head in Hh; by injection Hh. }
    exists entry. split_and!; try done.
    rewrite emit_is_over_copy. unfold emit_over_copy.
    rewrite <- (emit_started_payload event data s).
    by destruct (emit_started event data s). }
  split; [apply emit_recorded|]. split; [apply emitAsync_recorded|].
  intros Hnil. rewrite emit_no_listeners by done. eexists. split; [done|].
  destruct (emit_started_recorded event data s (emit_started event data s).2
              (evolves_refl _)) as (entry & later & Hh & He & Hd & _).
  assert (later = []) as ->.
  { unfold emit_started, default_data in Hh.
    destruct data; simpl in Hh; apply app_inv_head in Hh; by injection Hh. }
  by exists entry.
Qed.

Lemma emit_records_history_witness :
  listeners_of sample_bus "signup" = []
  /\ exists s', emit 1 "signup" VUndef sample_bus = Ok 0 s'
       /\ exists entry, eventHistory s' = eventHistory sample_bus ++ [entry]
            /\ h_event entry = "signup"
            /\ h_data entry = payload_of VUndef sample_bus.
Proof.
  assert (H : listeners_of sample_bus "signup" = []) by (vm_compute; reflexivity).
  split; [exact H|].
  apply (proj2 (proj2 (proj2 (emit_records_history 0 "signup" VUndef sample_bus))) H).
Defined.

(** X9: [getHistory] always returns the end of the history, in emission
    order.  Without a limit it is [getHistory(10)].  A negative limit
    does not limit: [getHistory(-n)] skips the [n] oldest entries and
    returns all the others.  After [clearHistory] every call returns the
    empty array. *)
Theorem getHistory_edges (limit : option Z) (s : Rail) :
  (exists older, eventHistory s = older ++ getHistory limit s)
  /\ getHistory None s = getHistory (Some 10%Z) s
  /\ (forall n : nat,
        getHistory (Some (- Z.of_nat n)%Z) s = drop n (eventHistory s))
  /\ getHistory limit (clearHistory s) = [].
Proof.
  split_and!.
  - unfold getHistory, getHistory_of, slice.
    eexists. symmetry. apply take_drop.
  - done.
  - intros n. unfold getHistory, getHistory_of, slice.
    change (default 10%Z (Some (- Z.of_nat n)%Z)) with (- Z.of_nat n)%Z.
    rewrite Z.opp_involutive.
    destruct (Z.ltb_spec (Z.of_nat n) 0) as [Hlt|Hge]; [lia|].
    destruct (decide (n <= length (eventHistory s))) as [Hle|Hgt].
    + by rewrite Z.min_l, Nat2Z.id by lia.
    + rewrite Z.min_r, Nat2Z.id by lia.
      by rewrite !drop_ge by lia.
  - unfold getHistory, getHistory_of, slice, clearHistory. simpl.
    by rewrite drop_nil.
Qed.

(** * Diagnostics: [waitFor] *)

(** X10: on every bus, [waitFor(event, timeout)] makes a pending
    promise, sets a timer (of 5000 ms when no timeout is given) and
    registers, last in the list of the event and under the module name
    [wait-for], a callback that knows its own listener id.  When the
    timer expires first, the promise is rejected with [Timeout waiting
    for event ...]; the registry is not touched, so the listener is
    still there; and the timer does nothing when it is fired again. *)
Theorem waitFor_registers (event : string) (timeout : option Z) (s : Rail) :
  registry_ok s ->
  let p := length (promises s) in
  let tid := length (timers s) in
  let id := S (listenerIdCounter s) in
  exists s1,
    waitFor event timeout s = Ok p s1
    /\ promises s1 = promises s ++ [PPending]
    /\ timers s1 = timers s ++ [Some (Timer p event (default 5000%Z timeout))]
    /\ listeners_of s1 event
       = listeners_of s event ++ [Listener (WaitForCb tid p event id) "wait-for" id]
    /\ (forall ev, ev <> event -> listeners_of s1 ev = listeners_of s ev)
    /\ let s2 := fire_timer tid s1 in
       promises s2
         = promises s
           ++ [PRejected (TError ("Timeout waiting for event '" +:+ event +:+ "'"))]
       /\ (forall ev, listeners_of s2 ev = listeners_of s1 ev)
       /\ fire_timer tid s2 = s2.
Proof.
  intros Hok p tid id. unfold waitFor.
  set (s0 := with_timers _ (with_promises _ s)).
  assert (Hok0 : registry_ok s0) by (by apply (registry_ok_frame s)).
  destruct (on_fields event (WaitForCb tid p event id) (Some "wait-for") s0
              (ok_wf s0 Hok0))
    as (s1 & Hon & _ & _ & _ & _ & _ & _ & _ & _ & _ & Htm & Hpr & _).
  destruct (on_listeners_of event _ (Some "wait-for") s0 s1 _
              (ok_wf s0 Hok0) (ok_distinct s0 Hok0) Hon)
    as (_ & _ & _ & Hev & Hoth).
  change (S (listenerIdCounter s0)) with id.
  change (length (timers (with_promises (promises s ++ [PPending]) s))) with tid.
  fold p. rewrite Hon. exists s1.
  assert (Hof0 : forall ev, listeners_of s0 ev = listeners_of s ev)
    by (intros ev; by apply listeners_of_frame).
  assert (Ht : timers s1 !! tid
               = Some (Some (Timer p event (default 5000%Z timeout)))).
  { rewrite Htm. unfold s0. simpl. by rewrite lookup_app_r, Nat.sub_diag by done. }
  assert (Hp : promises s1 !! p = Some PPending).
  { rewrite Hpr. unfold s0. simpl. by rewrite lookup_app_r, Nat.sub_diag by done. }
  assert (Hs2 : fire_timer tid s1
                = with_promises
                    (<[p := PRejected (TError ("Timeout waiting for event '"
                                                 +:+ event +:+ "'"))]>
                       (promises s1))
                    (with_timers (<[tid := None]> (timers s1)) s1)).
  { unfold fire_timer. rewrite Ht. unfold settle_promise. simpl. by rewrite Hp. }
  split_and!; try done.
  - intros ev Hn. by rewrite (proj2 (Hoth ev Hn)), Hof0.
  - rewrite Hs2. simpl. rewrite Hpr. unfold s0. simpl.
    by rewrite insert_app_r_alt, Nat.sub_diag by done.
  - intros ev. rewrite Hs2. by apply listeners_of_frame.
  - rewrite Hs2. unfold fire_timer. simpl. rewrite list_lookup_insert_eq; [done|].
    rewrite Htm. unfold s0. simpl. rewrite length_app. simpl. unfold tid. lia.
Qed.

Lemma waitFor_registers_witness :
  registry_ok sample_bus
  /\ exists s1,
       waitFor "login" None sample_bus = Ok 0 s1
       /\ listeners_of s1 "login"
          = listeners_of sample_bus "login"
            ++ [Listener (WaitForCb 0 0 "login" 4) "wait-for" 4]
       /\ listeners_of (fire_timer 0 s1) "login" = listeners_of s1 "login".
Proof.
  split; [apply registered_ok|].
  destruct (waitFor_registers "login" None sample_bus (registered_ok _))
    as (s1 & Hw & _ & _ & Hev & _ & _ & Hstay & _).
  exists s1. split; [exact Hw|]. split; [exact Hev|]. apply Hstay.
Defined.

(** X11: the callback [waitFor] registers, whenever it is called: it
    clears its timer, removes its own listener and no other, and
    fulfils the promise with the argument it was called with.  A promise
    the timer has already rejected stays rejected; and after the
    callback has run, the timer does nothing when it expires. *)
Theorem waitFor_callback (n tid p : nat) (event : string) (id : nat)
    (arg : val) (s : Rail) :
  registry_ok s ->
  exists s',
    call (S n) (WaitForCb tid p event id) arg s = Ok (RVal VUndef) s'
    /\ listeners_of s' event = filter (fun l => lid l <> id) (listeners_of s event)
    /\ (forall ev, ev <> event -> listeners_of s' ev = listeners_of s ev)
    /\ timers s' = <[tid := None]> (timers s)
    /\ promises s'
       = match promises s !! p with
         | Some PPending => <[p := PFulfilled arg]> (promises s)
         | _ => promises s
         end
    /\ fire_timer tid s' = s'.
Proof.
  intros Hok. simpl. eexists. split; [done|].
  set (s1 := clearTimeout tid s).
  assert (Hok1 : registry_ok s1) by (by apply (registry_ok_frame s)).
  assert (Hof1 : forall ev, listeners_of s1 ev = listeners_of s ev)
    by (intros ev; by apply listeners_of_frame).
  set (s2 := (off event id s1).2).
  assert (H2 : listeners_of s2 event
               = filter (fun l => lid l <> id) (listeners_of s event)
               /\ (forall ev, ev <> event -> listeners_of s2 ev = listeners_of s ev)
               /\ timers s2 = <[tid := None]> (timers s)
               /\ promises s2 = promises s).
  { unfold s2. rewrite off_filter.
    destruct (listeners s1 !! event) as [a|] eqn:Ha; simpl.
    - split_and!.
      + by rewrite store_filtered_same, Hof1.
      + intros ev Hn. rewrite <- Hof1. by apply store_filtered_other; [apply Hok1|].
      + unfold store_filtered. by case_decide.
      + unfold store_filtered. by case_decide.
    - split_and!; try done.
      rewrite Hof1 in *. rewrite <- (Hof1 event).
      by rewrite (listeners_of_None s1 event Ha). }
  destruct H2 as (Hev & Hoth & Htm & Hpr).
  assert (Hfr : forall o, listeners (settle_promise p o s2) = listeners s2
                  /\ arrays (settle_promise p o s2) = arrays s2
                  /\ timers (settle_promise p o s2) = timers s2).
  { intros o. unfold settle_promise. by destruct (promises s2 !! p) as [[| |]|]. }
  destruct (Hfr (PFulfilled arg)) as (Hl & Ha & Ht).
  split_and!.
  - rewrite <- Hev. by apply listeners_of_frame.
  - intros ev Hn. rewrite <- (Hoth ev Hn). by apply listeners_of_frame.
  - by rewrite Ht.
  - unfold settle_promise. rewrite Hpr.
    destruct (promises s !! p) as [[| |]|]; simpl; by rewrite ?Hpr.
  - unfold fire_timer. rewrite Ht, Htm.
    destruct (decide (tid < length (timers s))) as [Hlt|Hge].
    + by rewrite list_lookup_insert_eq by done.
    + by rewrite lookup_ge_None_2 by (rewrite length_insert; lia).
Qed.

Lemma waitFor_callback_witness :
  registry_ok (after_waitFor "ready" None)
  /\ exists s',
       call 1 (WaitForCb 0 0 "ready" 1) (VNum 7) (after_waitFor "ready" None)
         = Ok (RVal VUndef) s'
       /\ listeners_of s' "ready" = []
       /\ promises s' = [PFulfilled (VNum 7)]
       /\ fire_timer 0 s' = s'.
Proof.
  assert (Hok : registry_ok (after_waitFor "ready" None)).
  { assert (Hk : leaves registry_ok
                    (waitFor "ready" None (new_Rail None None None 0))).
    { apply waitFor_keeps;
        [intros ? ?; apply registry_ok_frame|apply on_leaves_ok|apply new_Rail_ok]. }
    unfold after_waitFor.
    destruct (waitFor "ready" None (new_Rail None None None 0));
      [exact Hk|apply new_Rail_ok..]. }
  split; [exact Hok|].
  destruct (waitFor_callback 0 0 0 "ready" 1 (VNum 7) _ Hok)
    as (s' & Hc & Hev & _ & _ & Hpr & Hfire).
  exists s'. split; [exact Hc|]. split; [rewrite Hev; vm_compute; reflexivity|].
  split; [rewrite Hpr; vm_compute; reflexivity|exact Hfire].
Defined.

(** * Deep Clone Engine: when it throws *)

Lemma existsb_ext_in {A} (f g : A -> bool) (xs : list A) :
  (forall x, x ∈ xs -> f x = g x) -> existsb f xs = existsb g xs.
Proof.
  induction xs as [|x rest IH]; intros Hext; simpl; [done|].
  rewrite (Hext x) by apply list_elem_of_here.
  rewrite IH; [done|]. intros y Hy. apply Hext. by apply list_elem_of_further.
Qed.

Lemma shadowing_agree depth : forall h1 h2 v,
  (forall l, l ∈ reach depth h1 v -> h1 !! l = h2 !! l) ->
  shadowing depth h1 v = shadowing depth h2 v.
Proof.
  induction depth as [|n IH]; intros h1 h2 v Hag; [done|].
  destruct v as [| | | | |l]; simpl in *; try done.
  assert (Hl : h1 !! l = h2 !! l) by (apply Hag; apply list_elem_of_here).
  rewrite <- Hl. destruct (h1 !! l) as [[t|items|s f li|props]|] eqn:Hc; try done.
  - apply existsb_ext_in. intros x Hx. apply IH. intros l' Hl'. apply Hag.
    apply list_elem_of_further. by eapply elem_of_concat_map.
  - f_equal. apply existsb_ext_in. intros x Hx. apply IH. intros l' Hl'.
    apply Hag. apply list_elem_of_further. by eapply elem_of_concat_map.
Qed.

Lemma shadowing_grows depth h h' v :
  is_Some (reify depth h v) -> grows h h' ->
  shadowing depth h' v = shadowing depth h v.
Proof.
  intros Hs [_ Hg]. symmetry. apply shadowing_agree.
  intros l Hl. symmetry. apply Hg. by eapply reify_reach_lt.
Qed.

Section clone_outcome.
Variable n : nat.
Hypothesis IH : forall h v, is_Some (reify n h v) ->
    match _deepClone n h v with
    | Ok _ h' => shadowing n h v = false /\ grows h h'
    | Throw t h' => shadowing n h v = true /\ t = not_a_function /\ grows h h'
    | Fuel => False
    end.

Lemma clone_items_outcome h0 : forall items h,
    grows h0 h ->
    (forall x, x ∈ items -> is_Some (reify n h0 x)) ->
    match clone_items (_deepClone n) h items with
    | Ok _ h' => existsb (shadowing n h0) items = false /\ grows h h'
    | Throw t h' =>
        existsb (shadowing n h0) items = true /\ t = not_a_function
        /\ grows h h'
    | Fuel => False
    end.
  Proof.
    induction items as [|x rest IHr]; intros h Hg Hall; simpl.
    { split; [done|apply grows_refl]. }
    pose proof (Hall x (list_elem_of_here _ _)) as Hx0.
    assert (Hx : is_Some (reify n h x)) by (by rewrite (reify_grows n h0 h x)).
    specialize (IH h x Hx). rewrite (shadowing_grows n h0 h x Hx0 Hg) in IH.
    destruct (_deepClone n h x) as [x' h1|t h1|]; [| |done].
    - destruct IH as [-> Hg1]. simpl.
      specialize (IHr h1 (grows_trans _ _ _ Hg Hg1)
                    (fun y Hy => Hall y (list_elem_of_further _ _ _ Hy))).
      destruct (clone_items (_deepClone n) h1 rest) as [r h2|t h2|]; [| |done].
      + destruct IHr as [-> Hg2]. split; [done|]. by eapply grows_trans.
      + destruct IHr as (-> & -> & Hg2). split_and!; [done|done|].
        by eapply grows_trans.
    - destruct IH as (-> & -> & Hg1). by split_and!.
  Qed.

Lemma clone_props_outcome h0 shadowed cloned : forall todo h,
    length h0 <= cloned -> grows h0 h ->
    (forall x, x ∈ todo.*2 -> is_Some (reify n h0 x)) ->
    match clone_props (_deepClone n) shadowed cloned h todo with
    | Ok _ h' =>
        (shadowed = false \/ todo = [])
        /\ existsb (shadowing n h0) todo.*2 = false /\ grows h0 h'
    | Throw t h' =>
        ((shadowed = true /\ todo <> [])
         \/ existsb (shadowing n h0) todo.*2 = true)
        /\ t = not_a_function /\ grows h0 h'
    | Fuel => False
    end.
  Proof.
    induction todo as [|[k x] rest IHr]; intros h Hc Hg Hall; simpl.
    { split_and!; [by right|done|done]. }
    destruct shadowed.
    { split_and!; [by left|done|done]. }
    pose proof (Hall x (list_elem_of_here _ _)) as Hx0.
    assert (Hx : is_Some (reify n h x)) by (by rewrite (reify_grows n h0 h x)).
    specialize (IH h x Hx). rewrite (shadowing_grows n h0 h x Hx0 Hg) in IH.
    destruct (_deepClone n h x) as [x' h1|t h1|]; [| |done].
    - destruct IH as [-> Hg1]. simpl.
      specialize (IHr (set_prop h1 cloned k x') Hc).
      destruct (clone_props _ false cloned _ rest) as [r h2|t h2|].
      + destruct IHr as (_ & He & Hg2).
        * apply set_prop_grows; [done|]. by eapply grows_trans.
        * intros y Hy. apply Hall. by apply list_elem_of_further.
        * split_and!; [by left|exact He|exact Hg2].
      + destruct IHr as ([[? _]|He] & -> & Hg2); try done.
        * apply set_prop_grows; [done|]. by eapply grows_trans.
        * intros y Hy. apply Hall. by apply list_elem_of_further.
        * split_and!; [right; exact He|done|exact Hg2].
      + apply IHr.
        * apply set_prop_grows; [done|]. by eapply grows_trans.
        * intros y Hy. apply Hall. by apply list_elem_of_further.
    - destruct IH as (-> & -> & Hg1). split_and!; [by right|done|].
      by eapply grows_trans.
  Qed.
End clone_outcome.

Lemma has_key_nonempty k props : has_key k props = true -> props <> [].
Proof. by destruct props. Qed.

Lemma deepClone_ends_how depth : forall h v,
  is_Some (reify depth h v) ->
  match _deepClone depth h v with
  | Ok _ h' => shadowing depth h v = false /\ grows h h'
  | Throw t h' => shadowing depth h v = true /\ t = not_a_function /\ grows h h'
  | Fuel => False
  end.
Proof.
  induction depth as [|n IH]; intros h v [t Ht]; [done|].
  destruct v as [| | | | |l]; simpl in *; try (split; [done|apply grows_refl]).
  destruct (h !! l) as [[tm|items|sr f li|props]|] eqn:Hc; [| | | |done].
  - split; [done|]. apply (grows_alloc h (CDate tm)).
  - destruct (reify_items (reify n h) items) as [ts|] eqn:Hr; [|done].
    pose proof (clone_items_outcome n IH h items h (grows_refl h)
                  (fun x Hx => reify_items_Some _ _ _ x Hr Hx)) as Hi.
    destruct (clone_items (_deepClone n) h items) as [items' h1|t' h1|]; try done.
    destruct Hi as [-> Hg]. split; [done|].
    eapply grows_trans; [done|]. apply (grows_alloc h1 (CArr items')).
  - split; [done|]. apply (grows_alloc h (CRegExp sr f 0)).
  - destruct (reify_props (reify n h) props) as [ts|] eqn:Hr; [|done].
    pose proof (clone_props_outcome n IH h (has_key "hasOwnProperty" props)
                  (length h) props (h ++ [CObj []]) ltac:(lia)
                  (grows_alloc h (CObj []))
                  (fun x Hx => reify_props_Some _ _ _ x Hr Hx)) as Hi.
    destruct (clone_props _ _ _ _ props) as [r h1|t' h1|]; [| |done].
    + destruct Hi as ([->| ->] & He & Hg); [by rewrite He|done].
    + destruct Hi as ([[-> _]|He] & -> & Hg); [done|].
      split_and!; [|done|done]. rewrite He. apply orb_true_r.
Qed.

(** X12: on every finite payload [_deepClone] ends, and never writes to
    a cell that existed before the call.  It returns when no object of
    the payload has an own property named [hasOwnProperty]; otherwise it
    throws the [TypeError] of calling that property, and nothing
    else. *)
Theorem deepClone_outcome (fuel : nat) (h : heap) (v : val) :
  is_Some (reify fuel h v) ->
  (shadowing fuel h v = false ->
     exists v' h', _deepClone fuel h v = Ok v' h' /\ grows h h')
  /\ (shadowing fuel h v = true ->
      exists h', _deepClone fuel h v = Throw not_a_function h' /\ grows h h').
Proof.
  intros Hfin. pose proof (deepClone_ends_how fuel h v Hfin) as H.
  destruct (_deepClone fuel h v) as [v' h'|t h'|]; [| |done].
  - destruct H as [Hs Hg]. split; [by eexists _, _|]. congruence.
  - destruct H as (Hs & -> & Hg). split; [congruence|]. by eexists.
Qed.

Lemma deepClone_outcome_witness :
  is_Some (reify 4 sample_heap (VRef 0))
  /\ shadowing 4 sample_heap (VRef 0) = false
  /\ exists v' h', _deepClone 4 sample_heap (VRef 0) = Ok v' h'
                   /\ grows sample_heap h'.
Proof.
  assert (Hfin : is_Some (reify 4 sample_heap (VRef 0))) by (vm_compute; by eexists).
  assert (Hs : shadowing 4 sample_heap (VRef 0) = false) by (vm_compute; reflexivity).
  split; [exact Hfin|]. split; [exact Hs|].
  apply (proj1 (deepClone_outcome 4 sample_heap (VRef 0) Hfin) Hs).
Defined.

(** * Emission Engine: listeners that write to their argument *)

(** The clone of an object is a new cell. *)
Lemma deepClone_root fuel h v v' h' :
  is_Some (reify fuel h v) ->
  _deepClone fuel h v = Ok v' h' ->
  match v with
  | VRef _ => exists l', v' = VRef l' /\ length h <= l'
  | _ => v' = v
  end.
Proof.
  destruct fuel as [|n]; [done|]. intros [t Ht] Hc.
  destruct v as [| | | | |l]; simpl in Hc; try by injection Hc as <- <-.
  simpl in Ht.
  destruct (h !! l) as [[tm|items|sr f li|props]|] eqn:Hl; [| | | |done].
  - injection Hc as <- <-. by eexists.
  - destruct (reify_items (reify n h) items) as [ts|] eqn:Hr; [|done].
    pose proof (clone_items_ends n (deepClone_ends n) h items h (grows_refl h)
                  (fun x Hx => reify_items_Some _ _ _ x Hr Hx)) as Hi.
    destruct (clone_items (_deepClone n) h items) as [items' h1|t' h1|]; try done.
    injection Hc as <- <-. eexists. split; [done|]. by destruct Hi.
  - injection Hc as <- <-. by eexists.
  - destruct (clone_props _ _ _ _ props) as [r h1|t' h1|]; try done.
    injection Hc as <- <-. by eexists.
Qed.

Lemma exec_mutator emit_ call_ c data : forall s,
  mutator c = true ->
  exists s',
    (exec emit_ call_ c data s = Ok () s'
     \/ exists t, t <> TNullish /\ exec emit_ call_ c data s = Throw t s')
    /\ listeners s' = listeners s /\ arrays s' = arrays s
    /\ clone s' = clone s /\ turns s' = turns s
    /\ emissions s' = emissions s
    /\ forall h0, (forall l, data = VRef l -> length h0 <= l) ->
         grows h0 (objects s) -> grows h0 (objects s').
Proof.
  induction c; intros s Hm; simpl in *; try done.
  - exists s. split_and!; try done. by left.
  - apply andb_prop in Hm as [H1 H2].
    destruct (IHc1 s H1) as (s1 & [->|(t & Ht & ->)] & Hl1 & Ha1 & Hc1 & Ht1 & He1 & Hg1).
    + destruct (IHc2 s1 H2) as (s2 & Hr & Hl2 & Ha2 & Hc2 & Ht2 & He2 & Hg2).
      exists s2. split_and!; try congruence. intros h0 Hd Hg. by apply Hg2, Hg1.
    + exists s1. split_and!; try done. right. by exists t.
  - exists s. split_and!; try done. right. exists t. split; [|done].
    by apply negb_true_iff, bool_decide_eq_false in Hm.
  - destruct data as [| | | | |l]; try (exists s; split_and!; try done; by left).
    eexists. split; [by left|]. split_and!; try done.
    intros h0 Hd Hg. simpl. apply set_prop_grows; [by apply Hd|done].
Qed.

Lemma call_mutator n l arg s :
  mutator_listener l ->
  exists s',
    ((exists r, call (S n) (callback l) arg s = Ok r s')
     \/ exists t, t <> TNullish /\ call (S n) (callback l) arg s = Throw t s')
    /\ listeners s' = listeners s /\ arrays s' = arrays s
    /\ clone s' = clone s
    /\ forall h0, (forall l, arg = VRef l -> length h0 <= l) ->
         grows h0 (objects s) -> grows h0 (objects s').
Proof.
  intros (async & body & ret & -> & Hm). simpl.
  destruct (exec_mutator (emit n) (call n) body arg s Hm)
    as (s' & [->|(t & Ht & ->)] & Hl & Ha & Hc & _ & _ & Hg).
  - exists s'. split_and!; try done. left. by eexists.
  - exists s'. split_and!; try done.
    destruct async; [left; by eexists|right; by exists t].
Qed.

Section writing_emission.
Variable n : nat.
Variables (event : string) (data : val) (ts : Z) (em : nat).
  (** The heap when the emission started. *)
Variable h0 : heap.

Lemma dispatch_mutator l acc s :
    mutator_listener l ->
    Forall silent_listener (listeners_of s "rail.error") ->
    (clone s = true -> is_Some (reify (S (S (S n))) h0 data) /\ grows h0 (objects s)) ->
    exists acc' s',
      dispatch (emit (S (S (S n)))) (call (S (S (S n)))) (S (S (S n))) em event data ts l acc s = Ok acc' s'
      /\ listeners s' = listeners s /\ arrays s' = arrays s
      /\ clone s' = clone s
      /\ (clone s = true -> grows h0 (objects s')).
  Proof.
    intros Hl Herr Hon. unfold dispatch.
    assert (Hreport : forall t arg s1,
              t <> TNullish ->
              listeners s1 = listeners s -> arrays s1 = arrays s ->
              clone s1 = clone s ->
              (clone s = true -> grows h0 (objects s1)) ->
              exists s3,
                report (emit (S (S (S n)))) (module l) event ts t
                  (log_turn em l arg (Some t) s1) = Ok
                    match message_of t with Some m => m | None => VUndef end s3
                /\ listeners s3 = listeners s /\ arrays s3 = arrays s
                /\ clone s3 = clone s
                /\ (clone s = true -> grows h0 (objects s3))).
    { intros t arg s1 Ht Hl1 Ha1 Hc1 Hg1.
      destruct (report_returns n (module l) event ts t
                  (log_turn em l arg (Some t) s1) Ht)
        as (msg & s3 & Hr & (Hl3 & Ha3 & Hg3) & Hc3).
      { unfold listeners_of in *. simpl. by rewrite Hl1, Ha1. }
      assert (message_of t = Some msg) as ->.
      { unfold report in Hr. destruct (message_of t) as [msg'|]; [|done].
        unfold alloc in Hr. cbv beta iota zeta in Hr.
        destruct (emit (S (S (S n))) "rail.error" _ _); by inversion Hr. }
      exists s3. split; [done|]. simpl in *. split_and!; try congruence.
      intros Hon'. eapply grows_trans; [by apply Hg1|done]. }
    unfold clone_or_pass. destruct (clone s) eqn:Hc.
    - destruct (Hon eq_refl) as [Hfin Hg].
      assert (Hfin' : is_Some (reify (S (S (S n))) (objects s) data))
        by (by rewrite (reify_grows (S (S (S n))) h0)).
      pose proof (deepClone_ends (S (S (S n))) _ _ Hfin') as He.
      pose proof (deepClone_throw (S (S (S n))) (objects s) data) as Ht.
      pose proof (deepClone_root (S (S (S n))) (objects s) data) as Hroot.
      destruct (_deepClone (S (S (S n))) (objects s) data) as [v h'|t h'|]; [| |done].
      + specialize (Hroot v h' Hfin' eq_refl).
        destruct (call_mutator (S (S n)) l v (with_objects h' s) Hl)
          as (s2 & Hex & Hl2 & Ha2 & Hc2 & Hg2).
        assert (Hg2' : grows h0 (objects s2)).
        { apply Hg2; [|by eapply grows_trans].
          intros l' ->. destruct data; try done.
          destruct Hroot as (l'' & [= ->] & Hle). destruct Hg as [Hlen _]. lia. }
        destruct Hex as [[r ->]|(t & Htn & ->)].
        * eexists _, _. split; [done|].
          destruct r as [|[| |]]; simpl in *; split_and!; first [done|congruence].
        * destruct (Hreport t (Some v) s2 Htn) as (s3 & -> & H3); try done.
          -- by rewrite Hc2.
          -- by eexists _, _.
      + rewrite (Ht t h' eq_refl).
        destruct (Hreport not_a_function None (with_objects h' s)) as (s3 & -> & H3);
          try done.
        * intros _. by eapply grows_trans.
        * by eexists _, _.
    - destruct (call_mutator (S (S n)) l data s Hl)
        as (s2 & Hex & Hl2 & Ha2 & Hc2 & _).
      destruct Hex as [[r ->]|(t & Htn & ->)].
      + eexists _, _. split; [done|].
        destruct r as [|[| |]]; simpl in *; split_and!; first [done|congruence].
      + destruct (Hreport t (Some data) s2 Htn) as (s3 & -> & H3); try done.
        * congruence.
        * by eexists _, _.
  Qed.

Lemma dispatch_all_mutator : forall snapshot acc s,
    Forall mutator_listener snapshot ->
    Forall silent_listener (listeners_of s "rail.error") ->
    (clone s = true -> is_Some (reify (S (S (S n))) h0 data) /\ grows h0 (objects s)) ->
    S em <= emissions s ->
    exists k s' new,
      dispatch_all (dispatch (emit (S (S (S n)))) (call (S (S (S n)))) (S (S (S n))) em event data ts) snapshot acc s
        = Ok k s'
      /\ listeners s' = listeners s /\ arrays s' = arrays s
      /\ clone s' = clone s
      /\ (clone s = true -> grows h0 (objects s'))
      /\ turns s' = turns s ++ new
      /\ t_listener <$> turns_of em new = lid <$> snapshot
      /\ (clone s = false ->
          Forall (fun c => t_arg c = Some data) (turns_of em new)).
  Proof.
    induction snapshot as [|l rest IH]; intros acc s Hall Herr Hon Hem;
      cbn [dispatch_all].
    - exists acc, s, []. rewrite app_nil_r. split_and!; try done.
      intros Hc. by destruct (Hon Hc).
    - apply Forall_cons in Hall as [Hl Hrest].
      pose proof (dispatch_turn (S (S (S n))) em event data ts l acc s Hem) as Hd.
      destruct (dispatch_mutator l acc s Hl Herr Hon)
        as (acc1 & s1 & Heq & Hl1 & Ha1 & Hc1 & Hg1).
      rewrite Heq in *.
      destruct Hd as (Hev1 & Hem1 & new1 & own & Hn1 & Ho & Hlid & Harg & _).
      destruct (IH acc1 s1 Hrest)
        as (k & s' & new2 & -> & Hl2 & Ha2 & Hc2 & Hg2 & Hn2 & Hids & Hargs).
      + unfold listeners_of in *. by rewrite Hl1, Ha1.
      + rewrite Hc1. intros Hc. split; [by destruct (Hon Hc)|by apply Hg1].
      + done.
      + exists k, s', (new1 ++ new2). rewrite turns_of_app, Ho.
        split_and!; try congruence.
        * intros Hc. apply Hg2. congruence.
        * by rewrite Hn2, Hn1, app_assoc.
        * rewrite fmap_app, Hids. simpl. by rewrite Hlid.
        * intros Hc. constructor; [|apply Hargs; congruence].
          rewrite Harg. unfold clone_or_pass. by rewrite Hc.
  Qed.
End writing_emission.

Lemma emit_mutators n event data s :
  Forall mutator_listener (listeners_of s event) ->
  Forall silent_listener (listeners_of s "rail.error") ->
  (clone s = true ->
   is_Some (reify (S (S (S n))) (objects (emit_started event data s).2)
              (payload_of data s))) ->
  exists k s' new,
    emit (S (S (S (S n)))) event data s = Ok k s'
    /\ listeners s' = listeners s /\ arrays s' = arrays s
    /\ clone s' = clone s
    /\ (clone s = true -> grows (objects s) (objects s'))
    /\ turns s' = turns s ++ new
    /\ t_listener <$> turns_of (emissions s) new = lid <$> listeners_of s event
    /\ (clone s = false ->
        Forall (fun c => t_arg c = Some (payload_of data s))
          (turns_of (emissions s) new)).
Proof.
  intros Hall Herr Hfin. rewrite emit_is_over_copy. unfold emit_over_copy.
  destruct (emit_started_fields event data s)
    as (Hl & Ha & _ & Hc & Ht & _ & Hem & _).
  assert (Hd : (emit_started event data s).1 = payload_of data s).
  { unfold emit_started, default_data, payload_of. by destruct data. }
  assert (Hg : grows (objects s) (objects (emit_started event data s).2)).
  { unfold emit_started, default_data. destruct data; simpl; try apply grows_refl.
    apply (grows_alloc (objects s) (CObj [])). }
  destruct (emit_started event data s) as [data' s1]. cbn [fst snd] in *.
  subst data'.
  destruct (dispatch_all_mutator n event (payload_of data s) (now s) (emissions s)
              (objects s1) (listeners_of s event) 0 s1 Hall)
    as (k & s' & new & -> & Hl' & Ha' & Hc' & Hg' & Hn & Hids & Hargs).
  - unfold listeners_of in *. by rewrite Hl, Ha.
  - rewrite Hc. intros Hon. split; [by apply Hfin|apply grows_refl].
  - lia.
  - exists k, s', new. split_and!; try congruence.
    + intros Hon. eapply grows_trans; [done|]. apply Hg'. congruence.
    + intros Hoff. apply Hargs. congruence.
Qed.

Lemma writing_bus_listeners cloning :
  Forall mutator_listener (listeners_of (with_payload (writing_bus cloning)) "job")
  /\ Forall silent_listener
       (listeners_of (with_payload (writing_bus cloning)) "rail.error").
Proof.
  assert (Hj : listeners_of (with_payload (writing_bus cloning)) "job"
               = [Listener sets_and_returns "first" 1;
                  Listener sets_and_throws "second" 2])
    by (destruct cloning; vm_compute; reflexivity).
  assert (He : listeners_of (with_payload (writing_bus cloning)) "rail.error"
               = [Listener returns "monitor" 3])
    by (destruct cloning; vm_compute; reflexivity).
  rewrite Hj, He. split; repeat constructor; by eexists _, _, _.
Qed.

(** X13: with cloning on, what the listeners write stays in their own
    clones.  When the listeners of the event only set properties of the
    object they are given and return, or throw something that has a
    message,
    the [rail.error] listeners return and the payload is finite, [emit]
    returns, and no cell that existed when it was called has changed:
    the payload, and the history entry that refers to it, read as they
    did before. *)
Theorem emit_isolates_payload (depth fuel : nat) (event : string) (data : val)
    (s : Rail) :
  clone s = true ->
  finite_payload depth s data -> depth + 4 <= fuel ->
  Forall mutator_listener (listeners_of s event) ->
  Forall silent_listener (listeners_of s "rail.error") ->
  exists k s',
    emit fuel event data s = Ok k s'
    /\ grows (objects s) (objects s')
    /\ (forall d v, is_Some (reify d (objects s) v) ->
          reify d (objects s') v = reify d (objects s) v)
    /\ clone s' = true.
Proof.
  intros Hon Hfin Hle Hall Herr.
  destruct fuel as [|[|[|[|n]]]]; try lia.
  destruct (emit_mutators n event data s Hall Herr)
    as (k & s' & new & He & _ & _ & Hc & Hg & _).
  - intros _. destruct (decide (data = VUndef)) as [->|Hne].
    + simpl. by rewrite lookup_app_r, Nat.sub_diag by lia.
    + destruct Hfin as [->|Hfin]; [done|].
      eapply (reify_le depth); [lia|].
      unfold emit_started, default_data, payload_of. by destruct data.
  - exists k, s'. split_and!; [done|by apply Hg| |congruence].
    intros d v Hv. apply reify_grows; [done|by apply Hg].
Qed.

Lemma emit_isolates_payload_witness :
  let s := with_payload (writing_bus true) in
  clone s = true
  /\ exists k s',
       emit 6 "job" (VRef 0) s = Ok k s'
       /\ grows (objects s) (objects s')
       /\ reify 2 (objects s') (VRef 0) = Some (TObj [("seen", TPrim (VNum 0))]).
Proof.
  intros s. split; [reflexivity|].
  destruct (emit_isolates_payload 2 6 "job" (VRef 0) s) as (k & s' & He & Hg & Hr & _).
  - reflexivity.
  - right. vm_compute. by eexists.
  - lia.
  - apply writing_bus_listeners.
  - apply writing_bus_listeners.
  - exists k, s'. split; [exact He|]. split; [exact Hg|].
    rewrite Hr; [reflexivity|]. vm_compute. by eexists.
Defined.



(** * Module Lifecycle: a module that comes and goes *)

(** What a [connect] that only registers listeners does. *)
Lemma exec_registering emit_ call_ nm c data : forall s,
  registering nm c = true -> registry_ok s ->
  exists s',
    exec emit_ call_ c data s = Ok () s'
    /\ registry_ok s' /\ modules s' = modules s /\ objects s' = objects s
    /\ (forall ev, exists news,
          listeners_of s' ev = listeners_of s ev ++ news
          /\ Forall (fun l => module l = nm) news
          /\ (ev = "rail.module.attached" \/ ev = "rail.module.detached" ->
              news = [])).
Proof.
  induction c as [|c1 IH1 c2 IH2|t|c1 IH1 c2 IH2|k v|event cb moduleName
                  |event listenerId|event p|m|m|enabled];
    intros s Hr Hok; simpl in *; try done.
  - exists s. split_and!; try done. intros ev. exists []. by rewrite app_nil_r.
  - apply andb_prop in Hr as [H1 H2].
    destruct (IH1 s H1 Hok) as (s1 & -> & Hok1 & Hm1 & Ho1 & Hl1).
    destruct (IH2 s1 H2 Hok1) as (s2 & -> & Hok2 & Hm2 & Ho2 & Hl2).
    exists s2. split_and!; try congruence. intros ev.
    destruct (Hl1 ev) as (n1 & He1 & F1 & E1).
    destruct (Hl2 ev) as (n2 & He2 & F2 & E2).
    exists (n1 ++ n2). split_and!.
    + by rewrite He2, He1, app_assoc.
    + by apply Forall_app.
    + intros Hev. by rewrite (E1 Hev), (E2 Hev).
  - destruct cb as [cb|]; [|done]. destruct moduleName as [m|]; [|done].
    apply andb_prop in Hr as [Hr Hd]. apply andb_prop in Hr as [Hm Ha].
    apply bool_decide_eq_true in Hm as ->.
    apply negb_true_iff, bool_decide_eq_false in Ha, Hd.
    destruct (on_fields event cb (Some nm) s (ok_wf s Hok))
      as (s' & Hon & _ & _ & _ & _ & _ & Hmod & _ & Hobj & _).
    destruct (on_listeners_of event cb (Some nm) s s' _ (ok_wf s Hok)
                (ok_distinct s Hok) Hon) as (_ & _ & _ & Hev & Hoth).
    rewrite Hon. exists s'. split_and!; try done; [by eapply on_ok|].
    intros ev. destruct (decide (ev = event)) as [->|Hn].
    + eexists. split; [done|]. split; [by repeat constructor|].
      intros [?|?]; congruence.
    + exists []. rewrite app_nil_r. split; [by apply Hoth|]. by split.
Qed.

Lemma emit_started_listeners_of event data s ev :
  listeners_of (emit_started event data s).2 ev = listeners_of s ev.
Proof.
  destruct (emit_started_fields event data s) as (Hl & Ha & _).
  by apply listeners_of_frame.
Qed.

Lemma emit_started_ok event data s :
  registry_ok s -> registry_ok (emit_started event data s).2.
Proof.
  destruct (emit_started_fields event data s) as (Hl & Ha & _).
  apply registry_ok_frame; try done.
  unfold emit_started, default_data. by destruct data.
Qed.

Lemma getModules_elem s nm : nm ∈ getModules s <-> is_Some (modules s !! nm).
Proof.
  unfold getModules. rewrite list_elem_of_fmap. split.
  - intros [[k m] [-> Hin%elem_of_map_to_list]]. by eexists.
  - intros [m Hm]. exists (nm, m). split; [done|]. by apply elem_of_map_to_list.
Qed.

(** X15: a module can be swapped out without a trace in the registry.
    Take a module with a name, not attached yet, whose [connect], an
    ordinary or an asynchronous function, only registers listeners
    under the module's own name (on events other than
    [rail.module.attached] and [rail.module.detached]), and whose
    [disconnect], if it has one, does nothing to the bus (it returns,
    or throws something that has a message); let no listener carry
    that name before and nothing listen to [rail.module.attached] and
    [rail.module.detached].  Then [attach] returns with the module
    in the table and its listeners last in their lists, and a [detach]
    after it returns [true] and leaves every event with the listeners
    it had before the [attach], the module table and [getEvents] as
    they were. *)
Theorem attach_detach_round_trip (n : nat) (nm : string) (async : bool)
    (body : cmd) (ret : retval) (disconnect : option handler) (s : Rail) :
  registry_ok s -> nm <> "" -> modules s !! nm = None ->
  (forall ev l, l ∈ listeners_of s ev -> module l <> nm) ->
  listeners_of s "rail.module.attached" = [] ->
  listeners_of s "rail.module.detached" = [] ->
  registering nm body = true ->
  (forall h, disconnect = Some h ->
     exists a b r, h = Fn a b r /\ leaf b = true) ->
  let m := ModuleObj (Some nm) (Some (Fn async body ret)) disconnect in
  exists s1 s2,
    attach (S (S n)) m s = Ok () s1
    /\ modules s1 = <[nm := m]> (modules s)
    /\ (nm ∈ getModules s1)
    /\ (forall ev, exists news,
          listeners_of s1 ev = listeners_of s ev ++ news
          /\ Forall (fun l => module l = nm) news)
    /\ detach (S (S n)) nm s1 = Ok true s2
    /\ (forall ev, listeners_of s2 ev = listeners_of s ev)
    /\ modules s2 = modules s
    /\ (nm ∉ getModules s2)
    /\ getEvents s2 = getEvents s.
Proof.
  intros Hok Hnm Hfree Hnone Hatt Hdet Hreg Hdis m.
  unfold attach, attach_. subst m.
  destruct (decide (nm = "")) as [|_]; [done|].
  destruct (decide (is_Some (modules s !! nm))) as [[? Hs]|_]; [congruence|].
  set (m := ModuleObj (Some nm) (Some (Fn async body ret)) disconnect).
  set (s0 := with_modules (<[nm := m]> (modules s)) s).
  assert (Hok0 : registry_ok s0) by (by apply (registry_ok_frame s)).
  destruct (exec_registering (emit (S n)) (call (S n)) nm body VUndef s0 Hreg Hok0)
    as (sc & Hex & Hokc & Hmc & Hoc & Hlc).
  change (call (S (S n)) (Fn async body ret) VUndef s0)
    with (call_body (emit (S n)) (call (S n)) (Fn async body ret) VUndef s0).
  unfold call_body. rewrite Hex.
  set (r := if async then _ else ret).
  set (sd := note_discarded r sc).
  assert (Hokd : registry_ok sd).
  { apply (registry_ok_frame sc); try done; by destruct r as [|[| |]]. }
  assert (Hofd : forall ev, listeners_of sd ev = listeners_of sc ev).
  { intros ev. apply listeners_of_frame; by destruct r as [|[| |]]. }
  assert (Hmd : modules sd = <[nm := m]> (modules s)).
  { transitivity (modules sc); [by destruct r as [|[| |]]|done]. }
  unfold alloc. cbv beta iota zeta.
  set (sa := with_objects _ sd).
  assert (Hnews : forall ev, exists news,
            listeners_of sa ev = listeners_of s ev ++ news
            /\ Forall (fun l => module l = nm) news
            /\ (ev = "rail.module.attached" \/ ev = "rail.module.detached" ->
                news = [])).
  { intros ev. destruct (Hlc ev) as (news & He & F & E). exists news.
    split; [|done].
    transitivity (listeners_of sc ev).
    { rewrite <- Hofd. by apply listeners_of_frame. }
    rewrite He. reflexivity. }
  assert (Hoka : registry_ok sa) by (by apply (registry_ok_frame sd)).
  rewrite emit_no_listeners.
  2:{ destruct (Hnews "rail.module.attached") as (news & He & _ & E).
      rewrite He, Hatt, E; [done|by left]. }
  set (s1 := (emit_started "rail.module.attached" _ sa).2).
  assert (Hok1 : registry_ok s1) by (by apply emit_started_ok).
  assert (Hof1 : forall ev, listeners_of s1 ev = listeners_of sa ev)
    by (intros ev; apply emit_started_listeners_of).
  assert (Hm1 : modules s1 = <[nm := m]> (modules s)).
  { destruct (emit_started_fields "rail.module.attached"
                (VRef (length (objects sd))) sa) as (_ & _ & Hms & _).
    unfold s1. by rewrite Hms. }
  set (sr := remove_module_listeners nm s1).
  assert (Hokr : registry_ok sr) by (by apply remove_module_listeners_ok).
  assert (Hofr : forall ev, listeners_of sr ev = listeners_of s ev).
  { intros ev. unfold sr.
    rewrite remove_module_listeners_filter by apply Hok1.
    rewrite Hof1. destruct (Hnews ev) as (news & -> & F & _).
    rewrite filter_app, filter_all, filter_none.
    - by rewrite app_nil_r.
    - eapply Forall_impl; [done|]. intros l Hl. simpl in *. by intros H'.
    - apply Forall_forall. intros l Hl. by eapply Hnone. }
  assert (Hmr : modules sr = <[nm := m]> (modules s)).
  { unfold sr. by rewrite remove_module_listeners_modules. }
  (* what [detach] does once [disconnect] is through *)
  assert (Hfin : forall sx,
            listeners sx = listeners sr -> arrays sx = arrays sr ->
            listenerIdCounter sx = listenerIdCounter sr ->
            modules sx = modules sr ->
            exists s2,
              (let s3 := with_modules (delete nm (modules sx)) sx in
               let '(l, h) := alloc (objects s3) (CObj [("moduleName", VStr nm)]) in
               match emit (S (S n)) "rail.module.detached" (VRef l)
                       (with_objects h s3) with
               | Ok _ s' => Ok true s'
               | Throw t s' => Throw t s'
               | Fuel => Fuel
               end) = Ok true s2
              /\ (forall ev, listeners_of s2 ev = listeners_of s ev)
              /\ modules s2 = modules s
              /\ (nm ∉ getModules s2)
              /\ getEvents s2 = getEvents s).
  { intros sx Hlx Hax Hcx Hmx. cbv zeta. unfold alloc. cbv beta iota zeta.
    set (sm := with_modules _ sx). set (sb := with_objects _ sm).
    assert (Hofb : forall ev, listeners_of sb ev = listeners_of s ev).
    { intros ev. rewrite <- Hofr. by apply listeners_of_frame. }
    assert (Hokb : registry_ok sb) by (by apply (registry_ok_frame sr)).
    rewrite emit_no_listeners by (by rewrite Hofb).
    set (s2 := (emit_started "rail.module.detached"
                  (VRef (length (objects sm))) sb).2).
    assert (Hof2 : forall ev, listeners_of s2 ev = listeners_of s ev).
    { intros ev. unfold s2. by rewrite emit_started_listeners_of. }
    assert (Hm2 : modules s2 = delete nm (<[nm := m]> (modules s))).
    { destruct (emit_started_fields "rail.module.detached"
                  (VRef (length (objects sm))) sb) as (_ & _ & Hms & _).
      unfold s2. rewrite Hms. simpl. by rewrite Hmx, Hmr. }
    exists s2. split_and!; [done|exact Hof2| | |].
    - rewrite Hm2. by apply delete_insert_id.
    - rewrite getModules_elem, Hm2, lookup_delete_eq. by intros [? ?].
    - apply getEvents_ext; [done|by apply emit_started_ok|done]. }
  assert (Hdetach : exists s2,
            detach (S (S n)) nm s1 = Ok true s2
            /\ (forall ev, listeners_of s2 ev = listeners_of s ev)
            /\ modules s2 = modules s
            /\ (nm ∉ getModules s2)
            /\ getEvents s2 = getEvents s).
  { unfold detach, detach_. rewrite Hm1, lookup_insert_eq. unfold m at 1.
    fold sr. destruct disconnect as [h|]; [|by apply Hfin].
    destruct (Hdis h eq_refl) as (a & b & r' & -> & Hleaf).
    change (call (S (S n)) (Fn a b r') VUndef sr)
      with (call_body (emit (S n)) (call (S n)) (Fn a b r') VUndef sr).
    unfold call_body.
    destruct (exec_leaf (emit (S n)) (call (S n)) b VUndef sr Hleaf)
      as [->|(t & _ & ->)].
    - apply Hfin; by destruct a, r' as [|[| |]].
    - destruct a; apply Hfin; done. }
  destruct Hdetach as (s2 & Hd & Hof2 & Hm2 & Hg2 & He2).
  exists s1, s2. destruct (decide (nm = "")) as [|_]; [done|].
  split; [done|]. split; [done|].
  split; [apply getModules_elem; rewrite Hm1, lookup_insert_eq; by eexists|].
  split; [|done].
  intros ev. destruct (Hnews ev) as (news & He & F & _).
  exists news. by rewrite Hof1.
Qed.

Lemma attach_detach_round_trip_witness :
  registry_ok sample_bus
  /\ exists s1 s2,
       attach 2 cache_module sample_bus = Ok () s1
       /\ detach 2 "cache" s1 = Ok true s2
       /\ getEvents s2 = getEvents sample_bus.
Proof.
  split; [apply registered_ok|].
  destruct (attach_detach_round_trip 0 "cache" false
              (CSeq (COn "get" (Some returns) (Some "cache"))
                    (COn "login" (Some returns) (Some "cache")))
              (RVal VUndef) None sample_bus)
    as (s1 & s2 & Ha & _ & _ & _ & Hd & _ & _ & _ & Hg).
  - apply registered_ok.
  - discriminate.
  - vm_compute. reflexivity.
  - intros ev l Hl. apply registered_listeners in Hl as (cb & m & Hin & _ & ->).
    repeat (apply elem_of_cons in Hin as [[= -> -> ->]|Hin]; [discriminate|]).
    by apply elem_of_nil in Hin.
  - vm_compute. reflexivity.
  - vm_compute. reflexivity.
  - reflexivity.
  - intros h [=].
  - exists s1, s2. split; [exact Ha|]. split; [exact Hd|exact Hg].
Defined.

(** * Diagnostics: [getStats] *)

Lemma totalListeners_names s :
  st_totalListeners (getStats s) = names_listed (event_names s).
Proof.
  unfold getStats, names_listed, event_names. simpl.
  rewrite map_to_list_fmap.
  induction (map_to_list (listeners s)) as [|[ev a] rest IH]; [done|].
  simpl. rewrite Nat.add_comm. f_equal; [by rewrite length_map|exact IH].
Qed.

Lemma names_listed_insert (events : gmap string (list string)) k v :
  names_listed (<[k := v]> events) + length (default [] (events !! k))
    = names_listed events + length v.
Proof.
  unfold names_listed. destruct (events !! k) as [v0|] eqn:Hk; simpl.
  - rewrite <- (insert_delete_eq events), <- (map_to_list_delete events k v0 Hk).
    rewrite map_to_list_insert by apply lookup_delete_eq. simpl. lia.
  - rewrite map_to_list_insert by done. simpl. lia.
Qed.

Lemma names_listed_delete (events : gmap string (list string)) k :
  names_listed events
    = names_listed (delete k events) + from_option length 0 (events !! k).
Proof.
  destruct (events !! k) as [v|] eqn:Hk; simpl.
  - pose proof (names_listed_insert (delete k events) k v) as H.
    rewrite lookup_delete_eq, insert_delete_eq, insert_id in H by done.
    simpl in H. lia.
  - rewrite delete_id by done. lia.
Qed.

Lemma names_on event cb m s s' id :
  registry_ok s -> on event (Some cb) m s = Ok id s' ->
  event_names s'
    = <[event := (module <$> listeners_of s event) ++ [default "anonymous" m]]>
        (event_names s).
Proof.
  intros Hok Hon.
  destruct (on_listeners_of event cb m s s' id (ok_wf s Hok) (ok_distinct s Hok) Hon)
    as (_ & _ & [a Ha] & Hev & Hoth).
  apply map_eq. intros ev. rewrite names_lookup.
  destruct (decide (ev = event)) as [->|Hn].
  - rewrite lookup_insert_eq, Ha, Hev, fmap_app. done.
  - rewrite lookup_insert_ne, names_lookup by done.
    destruct (Hoth ev Hn) as [-> ->]. done.
Qed.

(** X16: the figures of [getStats] are those of the other diagnostics,
    but for the event named [__proto__], which [getStats] counts and
    [getEvents] cannot list: [events] is the number of events
    [getEvents] lists, and one more if its prototype was replaced;
    [totalListeners] is the number of module names it lists, and those
    of that prototype; [modules] is the length of [getModules()], and
    [eventsEmitted] the length of the history, so [clearHistory] sets
    it back to 0.  A registration adds exactly one to [totalListeners],
    and one to [events] when the event had no listener. *)
Theorem getStats_counts (s : Rail) :
  st_events (getStats s)
    = size (ev_props (getEvents s))
      + from_option (fun _ => 1) 0 (ev_proto (getEvents s))
  /\ st_totalListeners (getStats s)
     = names_listed (ev_props (getEvents s))
       + from_option length 0 (ev_proto (getEvents s))
  /\ st_modules (getStats s) = length (getModules s)
  /\ st_eventsEmitted (getStats s) = length (eventHistory s)
  /\ st_eventsEmitted (getStats (clearHistory s)) = 0
  /\ (registry_ok s ->
      forall event cb m id s',
        on event (Some cb) m s = Ok id s' ->
        st_totalListeners (getStats s') = S (st_totalListeners (getStats s))
        /\ st_events (getStats s')
           = st_events (getStats s)
             + (if decide (listeners_of s event = []) then 1 else 0)).
Proof.
  split_and!.
  - unfold getStats, getEvents. cbn [st_events ev_props ev_proto].
    rewrite <- (map_size_fmap (fun a => map module (default [] (arrays s !! a)))).
    fold (event_names s). rewrite map_size_delete.
    destruct (event_names s !! "__proto__") as [v|] eqn:Hp; simpl; [|lia].
    assert (size (event_names s) <> 0); [|lia].
    intros Hz%map_size_empty_inv. by rewrite Hz, lookup_empty in Hp.
  - rewrite totalListeners_names. apply names_listed_delete.
  - unfold getStats, getModules. simpl.
    by rewrite length_fmap, length_map_to_list.
  - done.
  - done.
  - intros Hok event cb m id s' Hon. split.
    + rewrite !totalListeners_names, (names_on event cb m s s' id Hok Hon).
      pose proof (names_listed_insert (event_names s) event
                    ((module <$> listeners_of s event) ++ [default "anonymous" m]))
        as Hsum.
      rewrite names_lookup in Hsum.
      destruct (listeners s !! event) as [a|] eqn:Ha; simpl in Hsum.
      * rewrite length_app in Hsum. simpl in Hsum. lia.
      * rewrite (listeners_of_None s event Ha) in *. simpl in Hsum. simpl. lia.
    + destruct (on_fields event cb m s (ok_wf s Hok)) as (s1 & Hon1 & _ & Hreg & _).
      rewrite Hon in Hon1. injection Hon1 as _ <-.
      unfold getStats. simpl.
      destruct (listeners s !! event) as [a|] eqn:Ha; destruct Hreg as [-> _].
      * pose proof (ok_nonempty s Hok event a Ha). case_decide; [done|lia].
      * rewrite (listeners_of_None s event Ha). case_decide; [|done].
        rewrite map_size_insert_None by done. lia.
Qed.

Lemma getStats_counts_witness :
  registry_ok sample_bus
  /\ exists s',
       on "login" (Some returns) None sample_bus = Ok 4 s'
       /\ st_totalListeners (getStats s') = 4
       /\ st_events (getStats s') = 2.
Proof.
  split; [apply registered_ok|].
  destruct (on "login" (Some returns) None sample_bus) as [id s'| |] eqn:Hon;
    [|by vm_compute in Hon..].
  assert (id = 4) as -> by (vm_compute in Hon; congruence).
  destruct (proj2 (proj2 (proj2 (proj2 (proj2 (getStats_counts sample_bus)))))
              (registered_ok _) "login" returns None 4 s' Hon) as [Ht He].
  exists s'. split; [reflexivity|].
  split; [rewrite Ht|rewrite He]; vm_compute; reflexivity.
Defined.

(** * Emission Engine: an error listener that throws *)

Lemma exec_leaf_throws emit_ call_ c data s :
  leaf c = true -> silent c = false ->
  exists t, t <> TNullish /\ exec emit_ call_ c data s = Throw t s.
Proof.
  induction c; simpl; intros Hl Hs; try done.
  - apply andb_prop in Hl as [H1 H2].
    destruct (silent c1) eqn:Hs1.
    + rewrite (exec_silent _ _ c1 data s Hs1). by apply IHc2.
    + destruct (IHc1 H1 eq_refl) as (t & Ht & ->). by exists t.
  - exists t. split; [|done].
    by apply negb_true_iff, bool_decide_eq_false in Hl.
Qed.

Lemma call_thrower n l arg s :
  thrower l ->
  exists t, t <> TNullish /\ call (S n) (callback l) arg s = Throw t s.
Proof.
  intros (body & ret & -> & Hl & Hs). simpl.
  destruct (exec_leaf_throws (emit n) (call n) body arg s Hl Hs) as (t & Ht & ->).
  by exists t.
Qed.

Lemma report_fuel emit_ m event ts t s :
  (forall data s', listeners s' = listeners s -> arrays s' = arrays s ->
     emit_ "rail.error" data s' = Fuel) ->
  t <> TNullish ->
  report emit_ m event ts t s = Fuel.
Proof.
  intros He Ht. unfold report.
  destruct (message_of t) as [msg|] eqn:Hm; [|by destruct t].
  unfold alloc. cbv beta iota zeta. by rewrite He.
Qed.

Section no_end.
Variable n : nat.
Variable s0 : Rail.
Hypothesis IH : forall data s,
    listeners s = listeners s0 -> arrays s = arrays s0 ->
    emit n "rail.error" data s = Fuel.

Lemma dispatch_thrower em event data ts l acc s :
    thrower l -> listeners s = listeners s0 -> arrays s = arrays s0 ->
    dispatch (emit n) (call n) n em event data ts l acc s = Fuel.
  Proof.
    intros Hl Hls Has. unfold dispatch.
    assert (Hrep : forall t arg s1,
              t <> TNullish -> listeners s1 = listeners s0 ->
              arrays s1 = arrays s0 ->
              report (emit n) (module l) event ts t
                (log_turn em l arg (Some t) s1) = Fuel).
    { intros t arg s1 Ht Hl1 Ha1. apply report_fuel; [|done].
      intros d s' Hl' Ha'. apply IH; simpl in *; congruence. }
    pose proof (deepClone_throw n (objects s) data) as Hthrow.
    unfold clone_or_pass. destruct (clone s).
    - destruct (_deepClone n (objects s) data) as [v h'|t h'|]; [| |done].
      + destruct n as [|k]; [done|].
        destruct (call_thrower k l v (with_objects h' s) Hl) as (t & Ht & ->).
        by rewrite Hrep.
      + rewrite (Hthrow t h' eq_refl). by rewrite Hrep.
    - destruct n as [|k]; [done|].
      destruct (call_thrower k l data s Hl) as (t & Ht & ->).
      by rewrite Hrep.
  Qed.

Lemma dispatch_leaf_or_fuel em event data ts l acc s :
    leaf_listener l -> listeners s = listeners s0 -> arrays s = arrays s0 ->
    dispatch (emit n) (call n) n em event data ts l acc s = Fuel
    \/ exists acc' s',
         dispatch (emit n) (call n) n em event data ts l acc s = Ok acc' s'
         /\ listeners s' = listeners s0 /\ arrays s' = arrays s0.
  Proof.
    intros Hl Hls Has. unfold dispatch.
    assert (Hrep : forall t arg s1,
              t <> TNullish -> listeners s1 = listeners s0 ->
              arrays s1 = arrays s0 ->
              report (emit n) (module l) event ts t
                (log_turn em l arg (Some t) s1) = Fuel).
    { intros t arg s1 Ht Hl1 Ha1. apply report_fuel; [|done].
      intros d s' Hl' Ha'. apply IH; simpl in *; congruence. }
    pose proof (deepClone_throw n (objects s) data) as Hthrow.
    assert (Hcall : forall arg s1,
              listeners s1 = listeners s0 -> arrays s1 = arrays s0 ->
              match call n (callback l) arg s1 with
              | Ok r s2 =>
                  Ok (S acc) (log_turn em l (Some arg) None (note_discarded r s2))
              | Throw t s2 =>
                  match report (emit n) (module l) event ts t
                          (log_turn em l (Some arg) (Some t) s2) with
                  | Ok _ s3 => Ok acc s3
                  | Throw t' s3 => Throw t' s3
                  | Fuel => Fuel
                  end
              | Fuel => Fuel
              end = Fuel
              \/ exists acc' s',
                   match call n (callback l) arg s1 with
                   | Ok r s2 =>
                       Ok (S acc)
                         (log_turn em l (Some arg) None (note_discarded r s2))
                   | Throw t s2 =>
                       match report (emit n) (module l) event ts t
                               (log_turn em l (Some arg) (Some t) s2) with
                       | Ok _ s3 => Ok acc s3
                       | Throw t' s3 => Throw t' s3
                       | Fuel => Fuel
                       end
                   | Fuel => Fuel
                   end = Ok acc' s'
                   /\ listeners s' = listeners s0 /\ arrays s' = arrays s0).
    { intros arg s1 Hl1 Ha1. destruct n as [|k]; [by left|].
      destruct (call_leaf k l arg s1 Hl) as [[r ->]|(t & Ht & ->)].
      - right. eexists _, _. split; [done|].
        destruct r as [|[| |]]; by simpl.
      - left. by rewrite Hrep. }
    unfold clone_or_pass. destruct (clone s).
    - destruct (_deepClone n (objects s) data) as [v h'|t h'|]; [| |by left].
      + by apply Hcall.
      + left. rewrite (Hthrow t h' eq_refl). by rewrite Hrep.
    - by apply Hcall.
  Qed.

Lemma dispatch_all_fuel em event data ts : forall snapshot acc s,
    Forall leaf_listener snapshot -> Exists thrower snapshot ->
    listeners s = listeners s0 -> arrays s = arrays s0 ->
    dispatch_all (dispatch (emit n) (call n) n em event data ts) snapshot acc s
      = Fuel.
  Proof.
    induction snapshot as [|l rest IHs]; intros acc s Hall Hex Hls Has;
      [by apply Exists_nil in Hex|].
    cbn [dispatch_all].
    apply Forall_cons in Hall as [Hl Hrest].
    apply Exists_cons in Hex as [Hthr|Hex].
    - by rewrite dispatch_thrower.
    - destruct (dispatch_leaf_or_fuel em event data ts l acc s Hl Hls Has)
        as [->|(acc' & s' & -> & Hl' & Ha')]; [done|].
      by apply IHs.
  Qed.
End no_end.

Lemma error_emission_no_end fuel : forall s0 data s,
  Forall leaf_listener (listeners_of s0 "rail.error") ->
  Exists thrower (listeners_of s0 "rail.error") ->
  listeners s = listeners s0 -> arrays s = arrays s0 ->
  emit fuel "rail.error" data s = Fuel.
Proof.
  induction fuel as [|n IH]; intros s0 data s Hall Hex Hls Has; [done|].
  rewrite emit_is_over_copy. unfold emit_over_copy.
  destruct (emit_started_fields "rail.error" data s) as (Hl & Ha & _).
  assert (Hof : listeners_of s "rail.error" = listeners_of s0 "rail.error")
    by (by apply listeners_of_frame).
  rewrite Hof.
  destruct (emit_started "rail.error" data s) as [data' s1]. cbn [fst snd] in *.
  apply (dispatch_all_fuel n s0); try done; try congruence.
  intros d s' Hl' Ha'. by apply (IH s0).
Qed.

(** X17: an error listener that throws makes the engine call itself
    without end.  When the [rail.error] listeners are ordinary
    functions that return or throw something with a message, and one of
    them throws every time, then as soon as a callback has thrown, the
    [catch] block emits [rail.error], whose emission reaches that
    listener, whose failure is caught by a [catch] block that emits
    [rail.error] again: no depth of nesting gives a result (a
    JavaScript engine nests the calls until its stack is exhausted),
    neither for the [catch] block nor for an emission whose first
    listener throws. *)
Theorem throwing_error_listener_never_ends (fuel : nat) (s : Rail) :
  Forall leaf_listener (listeners_of s "rail.error") ->
  Exists thrower (listeners_of s "rail.error") ->
  (forall m event ts t, t <> TNullish ->
     report (emit fuel) m event ts t s = Fuel)
  /\ (forall event data l rest,
        listeners_of s event = l :: rest -> thrower l ->
        emit fuel event data s = Fuel).
Proof.
  intros Hall Hex. split.
  - intros m event ts t Ht. apply report_fuel; [|done].
    intros data s' Hl Ha. by apply (error_emission_no_end fuel s).
  - intros event data l rest Hl Hthr. destruct fuel as [|n]; [done|].
    rewrite emit_is_over_copy. unfold emit_over_copy. rewrite Hl.
    destruct (emit_started_fields event data s) as (Hls & Ha & _).
    destruct (emit_started event data s) as [data' s1]. cbn [fst snd] in *.
    cbn [dispatch_all]. rewrite (dispatch_thrower n s); try done.
    intros d s' Hl' Ha'. by apply (error_emission_no_end n s).
Qed.

Lemma throwing_error_listener_never_ends_witness :
  Forall leaf_listener (listeners_of failing_monitor_bus "rail.error")
  /\ Exists thrower (listeners_of failing_monitor_bus "rail.error")
  /\ emit 1000 "job" VNull failing_monitor_bus = Fuel.
Proof.
  assert (He : listeners_of failing_monitor_bus "rail.error"
               = [Listener (throws (TError "monitor down")) "monitor" 2])
    by (vm_compute; reflexivity).
  assert (Hj : listeners_of failing_monitor_bus "job"
               = [Listener (throws (TError "boom")) "worker" 1])
    by (vm_compute; reflexivity).
  assert (Hall : Forall leaf_listener (listeners_of failing_monitor_bus "rail.error")).
  { rewrite He. repeat constructor. by eexists _, _, _. }
  assert (Hex : Exists thrower (listeners_of failing_monitor_bus "rail.error")).
  { rewrite He. apply Exists_cons_hd. by eexists _, _. }
  split; [exact Hall|]. split; [exact Hex|].
  apply (proj2 (throwing_error_listener_never_ends 1000 failing_monitor_bus
                  Hall Hex) "job" VNull _ _ Hj).
  by eexists _, _.
Defined.

(** * Module Lifecycle: a [connect] that is an asynchronous function *)

(** X19: [attach] does not wait for [connect].  Take a module with a
    name, not attached yet; let its [connect] be an asynchronous
    function that does nothing to the bus and fails, throwing something
    that has a message, and let nothing listen to
    [rail.module.attached].  Then the call [module.connect(this)] just
    returns a promise, which [attach] drops: nothing is rolled back,
    [attach] announces the module (one more history entry) and
    returns, the module stays in the table, no listener list has
    changed, and the rejection is left unhandled. *)
Theorem attach_does_not_await_connect (n : nat) (nm : string) (body : cmd)
    (ret : retval) (disconnect : option handler) (s : Rail) :
  nm <> "" -> modules s !! nm = None ->
  listeners_of s "rail.module.attached" = [] ->
  leaf body = true -> silent body = false ->
  let m := ModuleObj (Some nm) (Some (Fn true body ret)) disconnect in
  exists t s',
    attach (S (S n)) m s = Ok () s'
    /\ modules s' = <[nm := m]> (modules s)
    /\ unhandled s' = unhandled s ++ [t]
    /\ (exists entry, eventHistory s' = eventHistory s ++ [entry]
          /\ h_event entry = "rail.module.attached")
    /\ forall ev, listeners_of s' ev = listeners_of s ev.
Proof.
  intros Hnm Hfree Hnone Hl Hs m. unfold attach, attach_. subst m.
  destruct (decide (nm = "")) as [|_]; [done|].
  destruct (decide (is_Some (modules s !! nm))) as [[? Hin]|_]; [congruence|].
  set (m := ModuleObj (Some nm) (Some (Fn true body ret)) disconnect).
  set (s0 := with_modules (<[nm := m]> (modules s)) s).
  change (call (S (S n)) (Fn true body ret) VUndef s0)
    with (call_body (emit (S n)) (call (S n)) (Fn true body ret) VUndef s0).
  unfold call_body.
  destruct (exec_leaf_throws (emit (S n)) (call (S n)) body VUndef s0 Hl Hs)
    as (t & Ht & ->).
  unfold alloc. cbv beta iota zeta.
  rewrite emit_no_listeners by done.
  destruct (decide (nm = "")) as [|_]; [done|].
  set (sa := with_objects _ _).
  destruct (emit_started_fields "rail.module.attached"
              (VRef (length (objects (note_discarded (RPromise (Rejects t)) s0)))) sa)
    as (Hls & Ha & Hm & _ & _ & Hu & _ & entry & Hh & He & _).
  exists t. eexists. split; [done|]. split_and!.
  - by rewrite Hm.
  - by rewrite Hu.
  - exists entry. by rewrite Hh.
  - intros ev. by apply listeners_of_frame.
Qed.

Lemma attach_does_not_await_connect_witness :
  exists t s',
    attach 2 async_failing_module (new_Rail None None None 0) = Ok () s'
    /\ modules s' !! "db" = Some async_failing_module
    /\ unhandled s' = [t].
Proof.
  destruct (attach_does_not_await_connect 0 "db" (CThrow (TError "no database"))
              (RVal VUndef) None (new_Rail None None None 0))
    as (t & s' & Ha & Hm & Hu & _); try reflexivity; try discriminate.
  exists t, s'. split; [exact Ha|].
  split; [rewrite Hm; apply lookup_insert_eq|exact Hu].
Defined.

(** * Deep Clone Engine: what a clone costs *)

Lemma length_set_prop h l k v : length (set_prop h l k v) = length h.
Proof.
  unfold set_prop. destruct (h !! l) as [[| | |props]|]; try done.
  case_decide; [done|]. by rewrite length_insert.
Qed.

Section clone_size.
Variable n : nat.
Hypothesis IH : forall h v t v' h',
    reify n h v = Some t -> _deepClone n h v = Ok v' h' ->
    length h' = length h + tree_cells t.

Lemma clone_items_size h0 : forall items h ts items' h',
    grows h0 h ->
    reify_items (reify n h0) items = Some ts ->
    clone_items (_deepClone n) h items = Ok items' h' ->
    length h' = length h + sum_list (map tree_cells ts).
  Proof.
    induction items as [|x rest IHr]; intros h ts items' h' Hg Hr Hc; simpl in *.
    { injection Hr as <-. injection Hc as <- <-. simpl. lia. }
    destruct (reify n h0 x) as [t|] eqn:Hx; [|done].
    destruct (reify_items (reify n h0) rest) as [ts'|] eqn:Hrest; [|done].
    injection Hr as <-.
    assert (Hx' : reify n h x = Some t).
    { rewrite (reify_grows n h0 h x); [done|by rewrite Hx|done]. }
    pose proof (deepClone_ends n h x ltac:(by rewrite Hx')) as He.
    destruct (_deepClone n h x) as [x' h1|t1 h1|] eqn:Hcx; [|done|done].
    destruct (clone_items (_deepClone n) h1 rest) as [r h2|t2 h2|] eqn:Hcr;
      [|done|done].
    injection Hc as <- <-.
    rewrite (IHr h1 ts' r h2 (grows_trans _ _ _ Hg He) eq_refl Hcr).
    rewrite (IH h x t x' h1 Hx' Hcx). simpl. lia.
  Qed.

Lemma clone_props_size h0 cloned : forall todo h ts h',
    length h0 <= cloned -> grows h0 h ->
    reify_props (reify n h0) todo = Some ts ->
    clone_props (_deepClone n) false cloned h todo = Ok () h' ->
    length h' = length h + sum_list (map (fun kt => tree_cells kt.2) ts).
  Proof.
    induction todo as [|[k x] rest IHr]; intros h ts h' Hcl Hg Hr Hc; simpl in *.
    { injection Hr as <-. injection Hc as <-. simpl. lia. }
    destruct (reify n h0 x) as [t|] eqn:Hx; [|done].
    destruct (reify_props (reify n h0) rest) as [ts'|] eqn:Hrest; [|done].
    injection Hr as <-.
    assert (Hx' : reify n h x = Some t).
    { rewrite (reify_grows n h0 h x); [done|by rewrite Hx|done]. }
    pose proof (deepClone_ends n h x ltac:(by rewrite Hx')) as He.
    destruct (_deepClone n h x) as [x' h1|t1 h1|] eqn:Hcx; [|done|done].
    rewrite (IHr (set_prop h1 cloned k x') ts' h' Hcl) ; [| |done|done].
    - rewrite length_set_prop, (IH h x t x' h1 Hx' Hcx). simpl. lia.
    - apply set_prop_grows; [done|]. by eapply grows_trans.
  Qed.
End clone_size.

(** X18: a clone is a tree.  [_deepClone] allocates one new cell for
    every object, array, date and regular expression it meets on its
    way through the payload, as often as it meets it: an object the
    payload refers to twice is cloned twice, so the two references of
    the clone no longer point to the same object. *)
Theorem deepClone_unshares (fuel : nat) :
  forall (h : heap) (v : val) (t : tree) (v' : val) (h' : heap),
    reify fuel h v = Some t ->
    _deepClone fuel h v = Ok v' h' ->
    length h' = length h + tree_cells t.
Proof.
  induction fuel as [|n IH]; intros h v t v' h' Hr Hc; [done|].
  destruct v as [| | | | |l]; simpl in *;
    try (injection Hr as <-; injection Hc as <- <-; simpl; lia).
  destruct (h !! l) as [[tm|items|sr f li|props]|] eqn:Hl; [| | | |done].
  - injection Hr as <-. injection Hc as <- <-. rewrite length_app. simpl. lia.
  - destruct (reify_items (reify n h) items) as [ts|] eqn:Hri; [|done].
    injection Hr as <-.
    destruct (clone_items (_deepClone n) h items) as [items' h1|t' h1|] eqn:Hci;
      [|done|done].
    injection Hc as <- <-. rewrite length_app. simpl.
    rewrite (clone_items_size n IH h items h ts items' h1 (grows_refl h) Hri Hci).
    lia.
  - injection Hr as <-. injection Hc as <- <-. rewrite length_app. simpl. lia.
  - destruct (reify_props (reify n h) props) as [ts|] eqn:Hrp; [|done].
    injection Hr as <-.
    destruct (has_key "hasOwnProperty" props) eqn:Hk.
    + destruct props as [|[k x] rest]; [done|]. done.
    + destruct (clone_props _ false (length h) _ props) as [[] h1|t' h1|] eqn:Hcp;
        [|done|done].
      injection Hc as <- <-.
      rewrite (clone_props_size n IH h (length h) props (h ++ [CObj []]) ts h1
                 ltac:(lia) (grows_alloc h (CObj [])) Hrp Hcp).
      rewrite length_app. simpl. lia.
Qed.

Lemma deepClone_unshares_witness :
  exists v' h',
    _deepClone 3 shared_heap (VRef 0) = Ok v' h'
    /\ length h' = length shared_heap + 3
    /\ h' !! 2 = Some (CObj [("a", VRef 3); ("b", VRef 4)]).
Proof.
  eexists _, _. split; [vm_compute; reflexivity|]. split; [|reflexivity].
  eapply (deepClone_unshares 3 shared_heap (VRef 0)
            (TObj [("a", TObj []); ("b", TObj [])])); vm_compute; reflexivity.
Defined.

(** * Emission Engine: the calls [emitAsync] makes *)

(** The turn of one listener in [emitAsync]: its callback is called
    before the asynchronous function suspends. *)
Lemma start_unit_turn n em event data ts l units s :
  S em <= emissions s ->
  match start_unit (emit n) (call n) n em event data ts l units s with
  | Ok units' s' =>
      S em <= emissions s'
      /\ exists new own,
           turns s' = turns s ++ new /\ turns_of em new = [own]
           /\ t_listener own = lid l
           /\ t_arg own = passed_arg (clone_or_pass n data s)
           /\ called_or_clone_failed own
  | Throw _ _ => False
  | Fuel => True
  end.
Proof.
  intros Hem. unfold start_unit.
  pose proof (clone_or_pass_fields n data s) as Hc.
  pose proof (clone_or_pass_throw n data s) as Hct.
  assert (Hcatch : forall arg t0 s1 new1,
            turns s1 = turns s ++ new1 ->
            Forall (fun c => S em <= t_emission c < emissions s1) new1 ->
            S em <= emissions s1 ->
            passed_arg (clone_or_pass n data s) = arg ->
            (arg = None -> t0 = not_a_function) ->
            match
              match report_async (emit n) (module l) event ts t0
                      (log_turn em l arg (Some t0) s1) with
              | Ok u s' => Ok (units ++ [u]) s'
              | Throw t s' => Throw t s'
              | Fuel => Fuel
              end
            with
            | Ok units' s' =>
                S em <= emissions s'
                /\ exists new own,
                     turns s' = turns s ++ new /\ turns_of em new = [own]
                     /\ t_listener own = lid l
                     /\ t_arg own = passed_arg (clone_or_pass n data s)
                     /\ called_or_clone_failed own
            | Throw _ _ => False
            | Fuel => True
            end).
  { intros arg t0 s1 new1 Hn1 F1 Hem1 Harg Hnf. unfold report_async.
    assert (Hcf : called_or_clone_failed (Turn em (lid l) arg (Some t0))).
    { intros Hnone. simpl in *. f_equal. by apply Hnf. }
    set (own := Turn em (lid l) arg (Some t0)).
    pose proof (report_turn n em (module l) event ts t0
                  (log_turn em l arg (Some t0) s1)) as Hr.
    lapply Hr; [clear Hr; intros Hr | unfold log_turn, with_turns; simpl; lia].
    assert (Hown : forall new3,
              Forall (fun c => S em <= t_emission c) new3 ->
              turns_of em (new1 ++ own :: new3) = [own]).
    { intros new3 F3. rewrite turns_of_app, (turns_of_later em _ _ F1). simpl.
      unfold turns_of. rewrite filter_cons_True by done. f_equal.
      apply filter_none. eapply Forall_impl; [done|].
      intros c Hc' Heq. simpl in *. lia. }
    destruct (report _ _ _ _ t0 _) as [msg s3|t' s3|]; [| |done].
    - destruct Hr as (_ & _ & (He3 & new3 & Hn3 & F3) & _).
      simpl in He3. split; [lia|].
      exists (new1 ++ own :: new3), own. split_and!; try done.
      + rewrite Hn3. simpl. by rewrite Hn1, <- !app_assoc.
      + apply Hown. eapply Forall_impl; [done|]. intros c Hc'. simpl in *. lia.
    - destruct Hr as (_ & (He3 & new3 & Hn3 & F3)).
      simpl in He3. split; [lia|].
      exists (new1 ++ own :: new3), own. split_and!; try done.
      + rewrite Hn3. simpl. by rewrite Hn1, <- !app_assoc.
      + apply Hown. eapply Forall_impl; [done|]. intros c Hc'. simpl in *. lia. }
  destruct (clone_or_pass n data s) as [arg s1|t0 s1|]; [| |done].
  - destruct Hc as (Ht1 & He1 & _ & _ & _).
    pose proof (call_respects (turns_from_respects (S em)) n (callback l) arg s1)
      as Hcall.
    specialize (Hcall ltac:(simpl; lia)).
    destruct (call n (callback l) arg s1) as [r s2|t0 s2|]; simpl in Hcall; [| |done].
    + destruct Hcall as (He2 & new1 & Hn1 & F1).
      simpl. split; [lia|].
      exists (new1 ++ [Turn em (lid l) (Some arg) None]),
             (Turn em (lid l) (Some arg) None).
      split_and!; try done.
      * by rewrite Hn1, Ht1, app_assoc.
      * rewrite turns_of_app, (turns_of_later em _ _ F1). simpl.
        unfold turns_of. by rewrite filter_cons_True, filter_nil.
    + destruct Hcall as (He2 & new1 & Hn1 & F1).
      apply (Hcatch (Some arg) t0 s2 new1); try done; [congruence|lia].
  - destruct Hc as (Ht1 & He1 & _ & _ & _).
    apply (Hcatch None t0 s1 []); try done;
      [by rewrite app_nil_r|lia|intros _; by eapply Hct].
Qed.

Lemma start_units_turns n em event data ts : forall snapshot units s,
  S em <= emissions s ->
  match dispatch_all (start_unit (emit n) (call n) n em event data ts)
          snapshot units s with
  | Ok units' s' =>
      exists new,
        turns s' = turns s ++ new
        /\ t_listener <$> turns_of em new = lid <$> snapshot
        /\ Forall called_or_clone_failed (turns_of em new)
  | Throw _ _ => False
  | Fuel => True
  end.
Proof.
  induction snapshot as [|l rest IH]; intros units s Hem; cbn [dispatch_all].
  - exists []. rewrite app_nil_r. split_and!; [done|done|constructor].
  - pose proof (start_unit_turn n em event data ts l units s Hem) as Hd.
    destruct (start_unit _ _ n em event data ts l units s) as [u1 s1|t1 s1|];
      [| |done]; [|done].
    destruct Hd as (Hem1 & new1 & own & Hn1 & Ho1 & Hl1 & _ & Hcf).
    specialize (IH u1 s1 Hem1).
    destruct (dispatch_all _ rest u1 s1) as [us s'|t' s'|]; [| |done]; [|done].
    destruct IH as (new2 & Hn2 & Hids & Hcfs).
    exists (new1 ++ new2). rewrite turns_of_app, Ho1.
    split; [by rewrite Hn2, Hn1, app_assoc|]. split.
    + rewrite fmap_app, Hids. simpl. by rewrite Hl1.
    + by constructor.
Qed.



(** * The two versions of [emit] *)

Lemma with_clone_same s : clone s = true -> with_clone true s = s.
Proof. destruct s; simpl; by intros ->. Qed.

Lemma v1_bus_frame s s' :
  clone s' = clone s -> arrays s' = arrays s -> modules s' = modules s ->
  v1_bus s -> v1_bus s'.
Proof.
  intros Hc Ha Hm [H1 H2 H3].
  split; [by rewrite Hc|by rewrite Ha|by rewrite Hm].
Qed.

Ltac v1_framed :=
  match goal with
  | H : v1_bus ?x |- v1_bus _ => apply (v1_bus_frame x); [reflexivity..|exact H]
  end.

Lemma new_Rail_v1_bus o_name o_debug time : v1_bus (new_Rail_v1 o_name o_debug time).
Proof. split; simpl; [done| |]; intros *; [by rewrite lookup_nil|by rewrite lookup_empty]. Qed.

Lemma listeners_of_array_v1 s a l :
  v1_bus s -> l ∈ default [] (arrays s !! a) -> v1_handler (callback l) = true.
Proof.
  intros Hs Hin. destruct (arrays s !! a) as [ls|] eqn:Ha; simpl in Hin.
  - by eapply v1_callbacks.
  - by apply not_elem_of_nil in Hin.
Qed.

Lemma store_filtered_v1 event filtered s :
  v1_bus s -> (forall l, l ∈ filtered -> v1_handler (callback l) = true) ->
  v1_bus (store_filtered event filtered s).
Proof.
  intros Hs Hf. unfold store_filtered. destruct (decide _); [v1_framed|].
  destruct Hs as [H1 H2 H3]. split; simpl; try done.
  intros a ls l [Hl|[_ Hl]]%lookup_app_Some Hin; [by eapply H2|].
  apply list_lookup_singleton_Some in Hl as [_ <-]. by apply Hf.
Qed.

Lemma off_v1 event listenerId s : v1_bus s -> v1_bus (off event listenerId s).2.
Proof.
  intros Hs. unfold off. destruct (listeners s !! event) as [a|]; [|done].
  apply store_filtered_v1; [done|].
  intros l [_ Hin]%list_elem_of_filter. by eapply listeners_of_array_v1.
Qed.

Lemma remove_module_listeners_v1 m s :
  v1_bus s -> v1_bus (remove_module_listeners m s).
Proof.
  unfold remove_module_listeners. generalize (map_to_list (listeners s)).
  intros evs. revert s. induction evs as [|[event a] evs IH]; intros s Hs; [done|].
  cbn [foldl]. apply IH. apply store_filtered_v1; [done|].
  intros l [_ Hin]%list_elem_of_filter. by eapply listeners_of_array_v1.
Qed.

Lemma on_v1 event cb m s :
  v1_bus s -> from_option v1_handler true cb = true ->
  leaves v1_bus (on event cb m s).
Proof.
  intros Hs Hcb. destruct cb as [cb|]; [|done]. simpl in Hcb. unfold on.
  destruct Hs as [H1 H2 H3].
  destruct (listeners s !! event) as [a|] eqn:Hl; cbv beta iota zeta.
  - simpl. destruct (arrays s !! a) as [ls|] eqn:Ha; simpl;
      (split; simpl; [done| |done]); [|done].
    intros a' ls' l [(<- & <- & _)|[_ Hold]]%list_lookup_insert_Some Hin;
      [|by eapply H2].
    apply elem_of_app in Hin as [Hin|Hin]; [by eapply H2|].
    by apply list_elem_of_singleton in Hin as ->.
  - simpl. rewrite list_lookup_middle by done.
    split; simpl; [done| |done].
    intros a' ls' l [(<- & <- & _)|[_ Hold]]%list_lookup_insert_Some Hin.
    + by apply list_elem_of_singleton in Hin as ->.
    + apply lookup_app_Some in Hold as [Hold|[_ Hold]]; [by eapply H2|].
      apply list_lookup_singleton_Some in Hold as [_ <-].
      by apply not_elem_of_nil in Hin.
Qed.

Lemma registered_v1 regs :
  Forall (fun r => v1_handler r.1.2 = true) regs -> v1_bus (registered regs).
Proof.
  unfold registered.
  assert (H0 : v1_bus (new_Rail None None None 1000))
    by apply (new_Rail_v1_bus None None 1000).
  revert H0. generalize (new_Rail None None None 1000).
  induction regs as [|[[event cb] m] regs IH]; intros s Hs Hall; [done|].
  apply Forall_cons in Hall as [Hcb Hall]. cbn [foldl]. apply IH; [|done].
  pose proof (on_v1 event (Some cb) m s Hs Hcb) as Ho.
  by destruct (on event (Some cb) m s).
Qed.

Lemma note_discarded_v1 r s : v1_bus s -> v1_bus (note_discarded r s).
Proof. intros Hs. destruct r as [v|[v|t|]]; simpl; try done. v1_framed. Qed.

Lemma forEach_agrees {A} (f1 f2 : listener -> A -> Rail -> result Rail A) a :
  (forall l acc s, v1_bus s -> v1_handler (callback l) = true ->
     agrees (f1 l acc s) (f2 l acc s)) ->
  forall todo k acc s,
    v1_bus s -> agrees (forEach f1 a k todo acc s) (forEach f2 a k todo acc s).
Proof.
  intros Hf. induction todo as [|todo IH]; intros k acc s Hs; simpl; [done|].
  destruct (arrays s !! a ≫= (.!! k)) as [l|] eqn:Hl; [|by apply IH].
  apply bind_Some in Hl as (ls & Hls & Hk).
  assert (Hcb : v1_handler (callback l) = true).
  { eapply v1_callbacks; [done..|]. by eapply list_elem_of_lookup_2. }
  destruct (Hf l acc s Hs Hcb) as [-> Hok].
  destruct (f2 l acc s) as [acc' s'| |]; simpl in Hok; [by apply IH|done..].
Qed.

Section versions.
Variable emit1 emit2 : string -> val -> Rail -> result Rail nat.
Variable call1 call2 : handler -> val -> Rail -> result Rail retval.
Variable fuel : nat.
Hypothesis emit_agrees_ : forall event data s,
    v1_bus s -> agrees (emit1 event data s) (emit2 event data s).
Hypothesis call_agrees_ : forall h arg s,
    v1_bus s -> v1_handler h = true -> agrees (call1 h arg s) (call2 h arg s).

Lemma report_agrees m event ts t s :
    v1_bus s ->
    agrees (report_v1 emit1 m event ts t s) (report emit2 m event ts t s).
  Proof.
    intros Hs. unfold report_v1, report.
    destruct (message_of t) as [msg|]; [|done].
    unfold alloc. cbv beta iota zeta. rewrite (v1_clone s Hs).
    rewrite with_clone_same by apply Hs.
    set (s1 := with_objects _ s). assert (H1 : v1_bus s1) by (unfold s1; v1_framed).
    destruct (emit_agrees_ "rail.error" (VRef (length (objects s))) s1 H1)
      as [-> Hok].
    destruct (emit2 "rail.error" _ s1) as [k s'|t' s'|]; simpl in Hok; [|done..].
    rewrite with_clone_same by apply Hok. done.
  Qed.

Lemma dispatch_agrees em event data ts l count s :
    v1_bus s -> v1_handler (callback l) = true ->
    agrees (dispatch_v1 emit1 call1 fuel em event data ts l count s)
      (dispatch emit2 call2 fuel em event data ts l count s).
  Proof.
    intros Hs Hl. unfold dispatch_v1, dispatch, clone_always, clone_or_pass.
    rewrite (v1_clone s Hs).
    destruct (_deepClone fuel (objects s) data) as [v h|t h|]; [| |done].
    - set (s1 := with_objects h s).
      assert (H1 : v1_bus s1) by (unfold s1; v1_framed).
      destruct (call_agrees_ (callback l) v s1 H1 Hl) as [-> Hc].
      destruct (call2 (callback l) v s1) as [r s2|t s2|]; simpl in Hc; [| |done].
      + split; [done|]. simpl. pose proof (note_discarded_v1 r s2 Hc).
        unfold log_turn. v1_framed.
      + assert (H2 : v1_bus (log_turn em l (Some v) (Some t) s2))
          by (unfold log_turn; v1_framed).
        destruct (report_agrees (module l) event ts t _ H2) as [-> Hr].
        by destruct (report emit2 (module l) event ts t _).
    - assert (H1 : v1_bus (log_turn em l None (Some t) (with_objects h s)))
        by (unfold log_turn; v1_framed).
      destruct (report_agrees (module l) event ts t _ H1) as [-> Hr].
      by destruct (report emit2 (module l) event ts t _).
  Qed.

Lemma emit_body_agrees event data s :
    v1_bus s ->
    agrees (emit_body_v1 emit1 call1 fuel event data s)
      (emit_body emit2 call2 fuel event data s).
  Proof.
    intros Hs. unfold emit_body_v1, emit_body.
    assert (Hd : v1_bus (default_data data s).2).
    { unfold default_data. destruct data; simpl; try done. v1_framed. }
    destruct (default_data data s) as [data' s1]. cbn [snd] in Hd. cbv zeta.
    set (s2 := with_emissions _ _).
    assert (H2 : v1_bus s2) by (unfold s2, push_history; v1_framed).
    destruct (listeners s2 !! event) as [a|]; [|done].
    apply forEach_agrees; [|done]. intros l acc s' Hs' Hl.
    by apply dispatch_agrees.
  Qed.

Lemma announce_agrees event (c : cell) s :
    v1_bus s ->
    agrees (emit1 event (VRef (length (objects s)))
              (with_objects (objects s ++ [c]) s))
      (emit2 event (VRef (length (objects s)))
         (with_objects (objects s ++ [c]) s)).
  Proof. intros Hs. apply emit_agrees_. v1_framed. Qed.

Lemma attach_agrees m s :
    v1_bus s -> v1_modarg m = true ->
    agrees (attach_ emit1 call1 m s) (attach_ emit2 call2 m s).
  Proof.
    intros Hs Hm. unfold attach_.
    destruct m as [|[nm|] connect disconnect]; try done.
    destruct (decide (nm = "")); [done|].
    destruct (decide (is_Some (modules s !! nm))); [done|].
    cbv zeta. set (s1 := with_modules _ s).
    assert (H1 : v1_bus s1).
    { destruct Hs as [Hc Ha Hmo]. split; simpl; [done..|].
      intros nm' m' [[_ <-]|[_ Hold]]%lookup_insert_Some; [done|by eapply Hmo]. }
    simpl in Hm. apply andb_true_iff in Hm as [Hconnect _].
    destruct connect as [h|].
    - simpl in Hconnect.
      destruct (call_agrees_ h VUndef s1 H1 Hconnect) as [-> Hc].
      destruct (call2 h VUndef s1) as [r s2|t s2|]; simpl in Hc; [| |done].
      + pose proof (note_discarded_v1 r s2 Hc) as Hn.
        unfold alloc. cbv beta iota zeta.
        destruct (announce_agrees "rail.module.attached"
                    (CObj [("moduleName", VStr nm)]) _ Hn) as [-> Ha].
        by destruct (emit2 "rail.module.attached" _ _).
      + assert (H3 : v1_bus (with_modules (delete nm (modules s2)) s2)).
        { destruct Hc as [Hc Ha Hmo]. split; simpl; [done..|].
          intros nm' m' [_ Hold]%lookup_delete_Some. by eapply Hmo. }
        by destruct (message_of t).
    - unfold alloc. cbv beta iota zeta.
      destruct (announce_agrees "rail.module.attached"
                  (CObj [("moduleName", VStr nm)]) _ H1) as [-> Ha].
      by destruct (emit2 "rail.module.attached" _ _).
  Qed.

Lemma detach_agrees m s :
    v1_bus s -> agrees (detach_ emit1 call1 m s) (detach_ emit2 call2 m s).
  Proof.
    intros Hs. unfold detach_.
    destruct (modules s !! m) as [mo|] eqn:Hmo; [|done].
    pose proof (v1_modules s Hs m mo Hmo) as Hfree.
    set (s1 := remove_module_listeners m s).
    assert (H1 : v1_bus s1) by (by apply remove_module_listeners_v1).
    assert (Hfin : forall s2, v1_bus s2 ->
              agrees
                (let s3 := with_modules (delete m (modules s2)) s2 in
                 let '(l, h) := alloc (objects s3) (CObj [("moduleName", VStr m)]) in
                 match emit1 "rail.module.detached" (VRef l) (with_objects h s3) with
                 | Ok _ s' => Ok true s'
                 | Throw t s' => Throw t s'
                 | Fuel => Fuel
                 end)
                (let s3 := with_modules (delete m (modules s2)) s2 in
                 let '(l, h) := alloc (objects s3) (CObj [("moduleName", VStr m)]) in
                 match emit2 "rail.module.detached" (VRef l) (with_objects h s3) with
                 | Ok _ s' => Ok true s'
                 | Throw t s' => Throw t s'
                 | Fuel => Fuel
                 end)).
    { intros s2 H2. cbv zeta. unfold alloc. cbv beta iota zeta.
      set (s3 := with_modules _ s2).
      assert (H3 : v1_bus s3).
      { destruct H2 as [Hc Ha Hm]. split; simpl; [done..|].
        intros nm' m' [_ Hold]%lookup_delete_Some. by eapply Hm. }
      destruct (announce_agrees "rail.module.detached"
                  (CObj [("moduleName", VStr m)]) s3 H3) as [-> Ha].
      by destruct (emit2 "rail.module.detached" _ _). }
    destruct mo as [|nm connect [h|]]; try (by apply Hfin).
    simpl in Hfree. apply andb_true_iff in Hfree as [_ Hdis]. simpl in Hdis.
    destruct (call_agrees_ h VUndef s1 H1 Hdis) as [-> Hc].
    destruct (call2 h VUndef s1) as [r s2|t s2|]; simpl in Hc; [| |done].
    - apply Hfin. by apply note_discarded_v1.
    - by apply Hfin.
  Qed.

Lemma exec_agrees c : forall data s,
    v1_bus s -> v1_cmd c = true ->
    agrees (exec emit1 call1 c data s) (exec emit2 call2 c data s).
  Proof.
    induction c as [|c1 IH1 c2 IH2|t|c1 IH1 c2 IH2|k v|event cb moduleName
                    |event listenerId|event p|m|m|enabled];
      intros data s Hs Hc; simpl.
    - done.
    - simpl in Hc. apply andb_true_iff in Hc as [Hc1 Hc2].
      destruct (IH1 data s Hs Hc1) as [-> H1].
      destruct (exec emit2 call2 c1 data s) as [? s1|? s1|]; simpl in H1; try done.
      by apply IH2.
    - done.
    - simpl in Hc. apply andb_true_iff in Hc as [Hc1 Hc2].
      destruct (IH1 data s Hs Hc1) as [-> H1].
      destruct (exec emit2 call2 c1 data s) as [? s1|? s1|]; simpl in H1; try done.
      by apply IH2.
    - split; [done|]. destruct data; simpl; try done. v1_framed.
    - split; [done|]. pose proof (on_v1 event cb moduleName s Hs Hc) as Ho.
      by destruct (on event cb moduleName s).
    - split; [done|]. by apply off_v1.
    - assert (Hp : v1_bus (eval_payload p data s).2).
      { destruct p; simpl; try done. v1_framed. }
      destruct (eval_payload p data s) as [d s1]. simpl in Hp.
      destruct (emit_agrees_ event d s1 Hp) as [-> He].
      by destruct (emit2 event d s1).
    - by apply attach_agrees.
    - destruct (detach_agrees m s Hs) as [-> Hd].
      by destruct (detach_ emit2 call2 m s).
    - done.
  Qed.

Lemma call_body_agrees h arg s :
    v1_bus s -> v1_handler h = true ->
    agrees (call_body emit1 call1 h arg s) (call_body emit2 call2 h arg s).
  Proof.
    intros Hs Hh. destruct h as [async body ret|tid p event listenerId]; simpl.
    - destruct (exec_agrees body arg s Hs Hh) as [-> He].
      destruct (exec emit2 call2 body arg s); simpl in He; try done.
      by destruct async.
    - split; [done|]. simpl.
      set (s1 := clearTimeout tid s).
      assert (H1 : v1_bus s1) by (unfold s1, clearTimeout; v1_framed).
      pose proof (off_v1 event listenerId s1 H1) as H2.
      unfold settle_promise.
      destruct (promises _ !! p) as [[| |]|]; try done. v1_framed.
  Qed.
End versions.

Lemma engine_agrees fuel :
  (forall event data s,
     v1_bus s -> agrees (emit_v1 fuel event data s) (emit fuel event data s))
  /\ (forall h arg s,
        v1_bus s -> v1_handler h = true ->
        agrees (call_v1 fuel h arg s) (call fuel h arg s)).
Proof.
  induction fuel as [|n [IHe IHc]]; [done|].
  split.
  - intros event data s Hs. by apply emit_body_agrees.
  - intros h arg s Hs Hh. by apply call_body_agrees.
Qed.

(** X21.  For a program written for [src/rail.js] (cloning on, no call
    of [setClone] in any callback or module), [emit] of the later
    version does what [emit] of [src/rail.js] does: the two return the
    same count or throw the same error and leave the same state, in
    which the bus is again such a program's. *)
Theorem emit_same_as_rail_js (fuel : nat) (event : string) (data : val) (s : Rail) :
  v1_bus s ->
  emit_v1 fuel event data s = emit fuel event data s
  /\ leaves v1_bus (emit fuel event data s).
Proof. intros Hs. by apply engine_agrees. Qed.

Lemma emit_same_as_rail_js_witness :
  v1_bus one_failure_bus
  /\ emit_v1 5 "job" VUndef one_failure_bus = emit 5 "job" VUndef one_failure_bus
  /\ exists s', emit 5 "job" VUndef one_failure_bus = Ok 1 s'.
Proof.
  assert (H : v1_bus one_failure_bus).
  { apply registered_v1. repeat constructor. }
  split; [exact H|]. split.
  - exact (proj1 (emit_same_as_rail_js 5 "job" VUndef one_failure_bus H)).
  - eexists. vm_compute. reflexivity.
Defined.

(** X22.  A bus made by the constructor of [src/rail.js] is the one the
    later constructor makes when no [clone] option is given.  From
    there, [attach] and [detach] of the two versions end the same way
    and leave the same state; these and [on] with a callback that
    never calls [setClone], and [off], keep the bus a program of the
    earlier version. *)
Theorem program_for_rail_js (fuel : nat) (s : Rail) :
  (forall o_name o_debug time,
     new_Rail_v1 o_name o_debug time = new_Rail o_name o_debug None time
     /\ v1_bus (new_Rail_v1 o_name o_debug time))
  /\ (v1_bus s ->
      (forall m, v1_modarg m = true ->
         attach_v1 fuel m s = attach fuel m s /\ leaves v1_bus (attach fuel m s))
      /\ (forall nm,
            detach_v1 fuel nm s = detach fuel nm s
            /\ leaves v1_bus (detach fuel nm s))
      /\ (forall event cb m,
            from_option v1_handler true cb = true ->
            leaves v1_bus (on event cb m s))
      /\ (forall event listenerId, v1_bus (off event listenerId s).2)).
Proof.
  split.
  - intros. split; [done|apply new_Rail_v1_bus].
  - intros Hs. destruct (engine_agrees fuel) as [He Hc]. split_and!.
    + intros m Hm. by apply attach_agrees.
    + intros nm. by apply detach_agrees.
    + intros event cb m Hcb. by apply on_v1.
    + intros event listenerId. by apply off_v1.
Qed.

Lemma program_for_rail_js_witness :
  v1_bus one_failure_bus
  /\ attach_v1 5 (ModuleObj (Some "m") (Some returns) None) one_failure_bus
     = attach 5 (ModuleObj (Some "m") (Some returns) None) one_failure_bus.
Proof.
  assert (H : v1_bus one_failure_bus).
  { apply registered_v1. repeat constructor. }
  split; [exact H|].
  exact (proj1 (proj1 (proj2 (program_for_rail_js 5 one_failure_bus) H)
                  (ModuleObj (Some "m") (Some returns) None) eq_refl)).
Defined.

(** * Module Lifecycle: what [detach] removes *)

(** ** A property of the callback of every listener *)

Lemma listeners_all_frame P s s' :
  listeners s' = listeners s -> arrays s' = arrays s ->
  listeners_all P s -> listeners_all P s'.
Proof.
  intros Hl Ha H ev l. rewrite (listeners_of_frame s s') by done. apply H.
Qed.

Lemma remove_module_listeners_all P m s :
  wf_registry s -> listeners_all P s ->
  listeners_all P (remove_module_listeners m s).
Proof.
  intros Hwf H ev l. rewrite remove_module_listeners_filter by done.
  intros [_ Hin]%list_elem_of_filter. by eapply H.
Qed.

Lemma remove_module_listeners_counter m s :
  listenerIdCounter (remove_module_listeners m s) = listenerIdCounter s.
Proof.
  unfold remove_module_listeners. generalize (map_to_list (listeners s)).
  intros evs. revert s. induction evs as [|[event a] evs IH]; intros s; [done|].
  cbn [foldl]. rewrite IH. apply store_filtered_counter.
Qed.

Lemma on_listeners_all P event cb m s :
  registry_ok s -> listeners_all P s -> from_option P true cb = true ->
  leaves (listeners_all P) (on event cb m s).
Proof.
  intros Hok H Hcb. destruct cb as [cb|]; [|done]. simpl in Hcb.
  destruct (on event (Some cb) m s) as [id s'|t s'|] eqn:Hon; simpl; [| |done].
  - destruct (on_listeners_of event cb m s s' id (ok_wf s Hok)
                (ok_distinct s Hok) Hon) as (_ & _ & _ & Hev & Hoth).
    intros ev l. destruct (decide (ev = event)) as [->|Hne].
    + rewrite Hev. intros [Hin|Hin]%elem_of_app; [by eapply H|].
      by apply list_elem_of_singleton in Hin as ->.
    + destruct (Hoth ev Hne) as [_ ->]. apply H.
  - unfold on in Hon. by destruct (listeners s !! event).
Qed.

Lemma registered_listeners_all P regs :
  Forall (fun r => P r.1.2 = true) regs -> listeners_all P (registered regs).
Proof.
  intros Hall ev l Hl.
  apply registered_listeners in Hl as (cb & m & Hin & -> & _).
  by apply (proj1 (Forall_forall _ _) Hall) in Hin.
Qed.

(** [on] keeps every event at the array it has. *)
Lemma on_listeners_subseteq event cb m s id s' :
  wf_registry s -> on event (Some cb) m s = Ok id s' ->
  listeners s ⊆ listeners s'.
Proof.
  intros Hwf Hon.
  destruct (on_fields event cb m s Hwf) as (s1 & Hon1 & _ & Hreg & _).
  rewrite Hon in Hon1. injection Hon1 as _ <-.
  destruct (listeners s !! event) as [a|] eqn:Ha.
  - by destruct Hreg as [-> _].
  - destruct Hreg as [-> _]. by apply insert_subseteq.
Qed.

(** ** The records that were there stay, when no callback removes one *)

Section old_records.
Variable N : nat.
Variable L : string -> list listener.

Lemma old_kept_frame B s s' :
    listeners s' = listeners s -> arrays s' = arrays s ->
    listenerIdCounter s' = listenerIdCounter s ->
    old_kept N L B s -> old_kept N L B s'.
  Proof.
    intros Hl Ha Hc (Hok & HN & Hcb & HB & HL). split_and!.
    - by apply (registry_ok_frame s).
    - lia.
    - by apply (listeners_all_frame _ s).
    - by rewrite Hl.
    - intros ev. rewrite (listeners_of_frame s s') by done. apply HL.
  Qed.

Lemma old_kept_fewer B B' s :
    B ⊆ B' -> old_kept N L B' s -> old_kept N L B s.
  Proof.
    intros Hsub (Hok & HN & Hcb & HB & HL). split_and!; try done.
    by transitivity B'.
  Qed.

Lemma leaves_old_kept_fewer {A} B B' (r : result Rail A) :
    B ⊆ B' -> leaves (old_kept N L B') r -> leaves (old_kept N L B) r.
  Proof. intros Hsub. destruct r; simpl; try done; by apply old_kept_fewer. Qed.

Ltac kept_framed :=
    match goal with
    | H : old_kept N L ?B ?x |- old_kept N L ?B _ =>
        apply (old_kept_frame B x); [reflexivity..|exact H]
    end.

Lemma old_kept_on B event cb m s :
    old_kept N L B s -> from_option adding_handler true cb = true ->
    leaves (old_kept N L B) (on event cb m s).
  Proof.
    intros (Hok & HN & Hcb & HB & HL) Hadd.
    destruct cb as [cb|]; [|by split_and!].
    pose proof (on_listeners_all adding_handler event (Some cb) m s Hok Hcb Hadd)
      as Hcb'.
    destruct (on event (Some cb) m s) as [id s'|t s'|] eqn:Hon; simpl in *;
      [| |done].
    - pose proof (on_listeners_subseteq event cb m s id s' (ok_wf s Hok) Hon)
        as Hsub.
      destruct (on_listeners_of event cb m s s' id (ok_wf s Hok)
                  (ok_distinct s Hok) Hon) as (-> & Hc & _ & Hev & Hoth).
      split_and!; [by eapply on_ok|lia|done|by transitivity (listeners s)|].
      intros ev. destruct (decide (ev = event)) as [->|Hne].
      + rewrite Hev. unfold issued_by.
        rewrite filter_app, filter_cons_False, filter_nil, app_nil_r
          by (unfold new_listener; simpl; lia).
        apply HL.
      + destruct (Hoth ev Hne) as [_ ->]. apply HL.
    - unfold on in Hon. by destruct (listeners s !! event).
  Qed.

Lemma old_kept_note_discarded B r s :
    old_kept N L B s -> old_kept N L B (note_discarded r s).
  Proof. intros Hs. destruct r as [v|[v|t|]]; simpl; try done. kept_framed. Qed.

  (** The loop over the array of an event that keeps its array. *)
Lemma forEach_old_kept {A} B (f : listener -> A -> Rail -> result Rail A)
      event a :
    B !! event = Some a ->
    (forall l acc s, old_kept N L B s -> adding_handler (callback l) = true ->
       leaves (old_kept N L B) (f l acc s)) ->
    forall todo k acc s,
      old_kept N L B s -> leaves (old_kept N L B) (forEach f a k todo acc s).
  Proof.
    intros HBa Hf. induction todo as [|todo IH]; intros k acc s Hs; simpl; [done|].
    destruct (arrays s !! a ≫= (.!! k)) as [l|] eqn:Hl; [|by apply IH].
    apply bind_Some in Hl as (ls & Hls & Hk).
    assert (Hcb : adding_handler (callback l) = true).
    { destruct Hs as (_ & _ & Hcb & HB & _).
      apply (Hcb event). unfold listeners_of.
      rewrite (lookup_weaken _ _ _ _ HBa HB), Hls. simpl.
      by eapply list_elem_of_lookup_2. }
    specialize (Hf l acc s Hs Hcb).
    destruct (f l acc s) as [acc' s'| |]; simpl in Hf; [by apply IH|done..].
  Qed.

  Section bodies.
Variable emit_ : string -> val -> Rail -> result Rail nat.
Variable call_ : handler -> val -> Rail -> result Rail retval.
Variable fuel : nat.
Hypothesis emit_kept_ : forall B event data s,
      old_kept N L B s -> leaves (old_kept N L B) (emit_ event data s).
Hypothesis call_kept_ : forall B h arg s,
      old_kept N L B s -> adding_handler h = true ->
      leaves (old_kept N L B) (call_ h arg s).

Lemma report_old_kept B m event ts t s :
      old_kept N L B s -> leaves (old_kept N L B) (report emit_ m event ts t s).
    Proof.
      intros Hs. unfold report. destruct (message_of t) as [msg|]; simpl; [|done].
      set (s1 := with_clone true _).
      assert (H1 : old_kept N L B s1) by (unfold s1; kept_framed).
      pose proof (emit_kept_ B "rail.error" (VRef (length (objects s))) s1 H1)
        as He.
      destruct (emit_ "rail.error" _ s1) as [k s'|t' s'|]; simpl in *; try done.
      kept_framed.
    Qed.

Lemma clone_or_pass_old_kept B data s :
      old_kept N L B s -> leaves (old_kept N L B) (clone_or_pass fuel data s).
    Proof.
      intros Hs. unfold clone_or_pass. destruct (clone s); [|done].
      destruct (_deepClone fuel (objects s) data); simpl; try done; kept_framed.
    Qed.

Lemma dispatch_old_kept B em event data ts l count s :
      old_kept N L B s -> adding_handler (callback l) = true ->
      leaves (old_kept N L B)
        (dispatch emit_ call_ fuel em event data ts l count s).
    Proof.
      intros Hs Hl. unfold dispatch.
      pose proof (clone_or_pass_old_kept B data s Hs) as Hc.
      destruct (clone_or_pass fuel data s) as [arg s1|t s1|]; simpl in *; [| |done].
      - pose proof (call_kept_ B (callback l) arg s1 Hc Hl) as Hcall.
        destruct (call_ (callback l) arg s1) as [r s2|t s2|]; simpl in *; [| |done].
        + pose proof (old_kept_note_discarded B r s2 Hcall). unfold log_turn.
          kept_framed.
        + assert (H2 : old_kept N L B (log_turn em l (Some arg) (Some t) s2))
            by (unfold log_turn; kept_framed).
          pose proof (report_old_kept B (module l) event ts t _ H2) as Hr.
          by destruct (report emit_ (module l) event ts t _).
      - assert (H1 : old_kept N L B (log_turn em l None (Some t) s1))
          by (unfold log_turn; kept_framed).
        pose proof (report_old_kept B (module l) event ts t _ H1) as Hr.
        by destruct (report emit_ (module l) event ts t _).
    Qed.

Lemma emit_body_old_kept B event data s :
      old_kept N L B s ->
      leaves (old_kept N L B) (emit_body emit_ call_ fuel event data s).
    Proof.
      intros Hs. unfold emit_body.
      assert (Hd : old_kept N L B (default_data data s).2).
      { unfold default_data. destruct data; simpl; try done. kept_framed. }
      destruct (default_data data s) as [data' s1]. cbn [snd] in Hd. cbv zeta.
      set (s2 := with_emissions _ _).
      assert (H2 : old_kept N L B s2) by (unfold s2, push_history; kept_framed).
      destruct (listeners s2 !! event) as [a|] eqn:Ha; [|done].
      apply (leaves_old_kept_fewer B (listeners s2)); [apply H2|].
      apply (forEach_old_kept (listeners s2) _ event a Ha).
      - intros l acc s' Hs' Hl. by apply dispatch_old_kept.
      - destruct H2 as (? & ? & ? & ? & ?). by split_and!.
    Qed.

Lemma announce_old_kept B event (c : cell) s :
      old_kept N L B s ->
      leaves (old_kept N L B)
        (emit_ event (VRef (length (objects s)))
           (with_objects (objects s ++ [c]) s)).
    Proof. intros Hs. apply emit_kept_. kept_framed. Qed.

Lemma attach_old_kept B m s :
      old_kept N L B s -> adding_modarg m = true ->
      leaves (old_kept N L B) (attach_ emit_ call_ m s).
    Proof.
      intros Hs Hm. unfold attach_.
      destruct m as [|[nm|] connect disconnect]; try done.
      destruct (decide (nm = "")); [done|].
      destruct (decide (is_Some (modules s !! nm))); [done|].
      cbv zeta. set (s1 := with_modules _ s).
      assert (H1 : old_kept N L B s1) by (unfold s1; kept_framed).
      simpl in Hm. apply andb_true_iff in Hm as [Hconnect _].
      destruct connect as [h|].
      - simpl in Hconnect.
        pose proof (call_kept_ B h VUndef s1 H1 Hconnect) as Hc.
        destruct (call_ h VUndef s1) as [r s2|t s2|]; simpl in Hc; [| |done].
        + pose proof (old_kept_note_discarded B r s2 Hc) as Hn.
          unfold alloc. cbv beta iota zeta.
          pose proof (announce_old_kept B "rail.module.attached"
                        (CObj [("moduleName", VStr nm)]) _ Hn) as Ha.
          by destruct (emit_ "rail.module.attached" _ _).
        + assert (H3 : old_kept N L B (with_modules (delete nm (modules s2)) s2))
            by kept_framed.
          by destruct (message_of t).
      - unfold alloc. cbv beta iota zeta.
        pose proof (announce_old_kept B "rail.module.attached"
                      (CObj [("moduleName", VStr nm)]) _ H1) as Ha.
        by destruct (emit_ "rail.module.attached" _ _).
    Qed.

Lemma exec_old_kept B c : forall data s,
      old_kept N L B s -> adding c = true ->
      leaves (old_kept N L B) (exec emit_ call_ c data s).
    Proof.
      induction c as [|c1 IH1 c2 IH2|t|c1 IH1 c2 IH2|k v|event cb moduleName
                      |event listenerId|event p|m|m|enabled];
        intros data s Hs Hc; simpl; try done.
      - simpl in Hc. apply andb_true_iff in Hc as [Hc1 Hc2].
        specialize (IH1 data s Hs Hc1).
        destruct (exec emit_ call_ c1 data s) as [? s1|? s1|]; simpl in IH1; try done.
        by apply IH2.
      - simpl in Hc. apply andb_true_iff in Hc as [Hc1 Hc2].
        specialize (IH1 data s Hs Hc1).
        destruct (exec emit_ call_ c1 data s) as [? s1|? s1|]; simpl in IH1; try done.
        by apply IH2.
      - destruct data; simpl; try done. kept_framed.
      - pose proof (old_kept_on B event cb moduleName s Hs Hc) as Ho.
        by destruct (on event cb moduleName s).
      - assert (Hp : old_kept N L B (eval_payload p data s).2).
        { destruct p; simpl; try done. kept_framed. }
        destruct (eval_payload p data s) as [d s1]. simpl in Hp.
        pose proof (emit_kept_ B event d s1 Hp) as He.
        by destruct (emit_ event d s1).
      - by apply attach_old_kept.
      - kept_framed.
    Qed.

Lemma call_body_old_kept B h arg s :
      old_kept N L B s -> adding_handler h = true ->
      leaves (old_kept N L B) (call_body emit_ call_ h arg s).
    Proof.
      intros Hs Hh. destruct h as [async body ret|tid p event listenerId]; [|done].
      simpl. pose proof (exec_old_kept B body arg s Hs Hh) as He.
      destruct (exec emit_ call_ body arg s); simpl in He; try done.
      by destruct async.
    Qed.
  End bodies.

Lemma engine_old_kept fuel :
    (forall B event data s,
       old_kept N L B s -> leaves (old_kept N L B) (emit fuel event data s))
    /\ (forall B h arg s,
          old_kept N L B s -> adding_handler h = true ->
          leaves (old_kept N L B) (call fuel h arg s)).
  Proof.
    induction fuel as [|n [IHe IHc]]; [done|].
    split.
    - intros B event data s Hs. by apply emit_body_old_kept.
    - intros B h arg s Hs Hh. by apply call_body_old_kept.
  Qed.

  (** [detach], once its loop has run. *)
Lemma detach_old_kept B fuel m mo s :
    modules s !! m = Some mo ->
    from_option adding_handler true (disconnect_of mo) = true ->
    old_kept N L B (remove_module_listeners m s) ->
    leaves (old_kept N L B) (detach fuel m s).
  Proof.
    intros Hmo Hdis H1. unfold detach, detach_. rewrite Hmo.
    destruct (engine_old_kept fuel) as [He Hc].
    set (s1 := remove_module_listeners m s) in *.
    assert (Hfin : forall s2, old_kept N L B s2 ->
              leaves (old_kept N L B)
                (let s3 := with_modules (delete m (modules s2)) s2 in
                 let '(l, h) := alloc (objects s3) (CObj [("moduleName", VStr m)]) in
                 match emit fuel "rail.module.detached" (VRef l)
                         (with_objects h s3) with
                 | Ok _ s' => Ok true s'
                 | Throw t s' => Throw t s'
                 | Fuel => Fuel
                 end)).
    { intros s2 H2. cbv zeta. unfold alloc. cbv beta iota zeta.
      set (s3 := with_modules _ s2).
      assert (H3 : old_kept N L B s3) by (unfold s3; kept_framed).
      pose proof (announce_old_kept (emit fuel) He B "rail.module.detached"
                    (CObj [("moduleName", VStr m)]) s3 H3) as Ha.
      by destruct (emit fuel "rail.module.detached" _ _). }
    destruct mo as [|nm connect [h|]]; try (by apply Hfin).
    simpl in Hdis.
    pose proof (Hc B h VUndef s1 H1 Hdis) as Hcall.
    destruct (call fuel h VUndef s1) as [r s2|t s2|]; simpl in Hcall; [| |done].
    - apply Hfin. by apply old_kept_note_discarded.
    - by apply Hfin.
  Qed.
End old_records.

Lemma filter_filter_issued (P : listener -> Prop) `{!forall l, Decision (P l)}
    N ls :
  (forall l, l ∈ ls -> lid l <= N) -> issued_by N (filter P ls) = filter P ls.
Proof.
  intros Hle. apply filter_all. apply Forall_forall.
  intros l [_ Hin]%list_elem_of_filter. by apply Hle.
Qed.

(** After its loop, [detach] works on a registry that holds, of the
    records it was called with, exactly those of the other modules. *)
Lemma remove_module_listeners_old_kept m s :
  registry_ok s -> listeners_all adding_handler s ->
  old_kept (listenerIdCounter s)
    (fun ev => filter (fun l => module l <> m) (listeners_of s ev))
    ∅ (remove_module_listeners m s).
Proof.
  intros Hok Hcb. split_and!.
  - by apply remove_module_listeners_ok.
  - by rewrite remove_module_listeners_counter.
  - apply remove_module_listeners_all; [apply Hok|done].
  - apply map_empty_subseteq.
  - intros ev. rewrite remove_module_listeners_filter by apply Hok.
    apply filter_filter_issued. intros l Hl. by eapply ok_issued.
Qed.

Lemma detach_not_false fuel m s s' :
  is_Some (modules s !! m) -> detach fuel m s <> Ok false s'.
Proof.
  intros [mo Hmo]. unfold detach, detach_. rewrite Hmo.
  assert (Hfin : forall s2,
            (let s3 := with_modules (delete m (modules s2)) s2 in
             let '(l, h) := alloc (objects s3) (CObj [("moduleName", VStr m)]) in
             match emit fuel "rail.module.detached" (VRef l) (with_objects h s3) with
             | Ok _ s' => Ok true s'
             | Throw t s' => Throw t s'
             | Fuel => Fuel
             end) <> Ok false s').
  { intros s2. cbv zeta. unfold alloc. cbv beta iota zeta.
    by destruct (emit fuel "rail.module.detached" _ _). }
  destruct mo as [|nm connect [h|]]; try apply Hfin.
  destruct (call fuel h VUndef _) as [r s2|t s2|]; [| |done]; apply Hfin.
Qed.

(** What [on] calls a listener registered without a module name. *)
Lemma on_unnamed event cb s id s1 :
  wf_registry s -> on event (Some cb) None s = Ok id s1 ->
  exists l, l ∈ listeners_of s1 event /\ lid l = id /\ module l = "anonymous".
Proof.
  intros Hwf Hon. unfold on in Hon.
  destruct (listeners s !! event) as [a|] eqn:Ha.
  - destruct (lookup_lt_is_Some_2 (arrays s) a (Hwf _ _ Ha)) as [ls Hls].
    simpl in Hon. rewrite Hls in Hon. inversion Hon; subst; clear Hon.
    eexists. unfold listeners_of. simpl. rewrite Ha.
    rewrite list_lookup_insert_eq by (by eapply lookup_lt_Some). simpl.
    split; [apply elem_of_app; right; apply list_elem_of_here|done].
  - simpl in Hon. rewrite lookup_app_r, Nat.sub_diag in Hon by lia.
    simpl in Hon. inversion Hon; subst; clear Hon.
    eexists. unfold listeners_of. simpl. rewrite lookup_insert_eq.
    rewrite list_lookup_insert_eq by (rewrite length_app; simpl; lia). simpl.
    split; [apply list_elem_of_here|done].
Qed.

(** [detach] when no code of the caller touches the registry meanwhile. *)
Lemma detach_quiet n m mo s :
  registry_ok s -> modules s !! m = Some mo ->
  (forall h, disconnect_of mo = Some h ->
     exists a b r, h = Fn a b r /\ leaf b = true) ->
  filter (fun l => module l <> m) (listeners_of s "rail.module.detached") = [] ->
  exists s',
    detach (S (S n)) m s = Ok true s'
    /\ modules s' = delete m (modules s)
    /\ forall event,
         listeners_of s' event
           = filter (fun l => module l <> m) (listeners_of s event).
Proof.
  intros Hok Hmo Hdis Hquiet. unfold detach, detach_. rewrite Hmo.
  set (s1 := remove_module_listeners m s).
  assert (Hof1 : forall ev,
            listeners_of s1 ev
              = filter (fun l => module l <> m) (listeners_of s ev)).
  { intros ev. apply remove_module_listeners_filter, Hok. }
  assert (Hfin : forall sx,
            listeners sx = listeners s1 -> arrays sx = arrays s1 ->
            modules sx = modules s1 ->
            exists s',
              (let s3 := with_modules (delete m (modules sx)) sx in
               let '(l, h) := alloc (objects s3) (CObj [("moduleName", VStr m)]) in
               match emit (S (S n)) "rail.module.detached" (VRef l)
                       (with_objects h s3) with
               | Ok _ s' => Ok true s'
               | Throw t s' => Throw t s'
               | Fuel => Fuel
               end) = Ok true s'
              /\ modules s' = delete m (modules s)
              /\ forall event,
                   listeners_of s' event
                     = filter (fun l => module l <> m) (listeners_of s event)).
  { intros sx Hlx Hax Hmx. cbv zeta. unfold alloc. cbv beta iota zeta.
    set (sm := with_modules _ sx). set (sb := with_objects _ sm).
    assert (Hofb : forall ev, listeners_of sb ev = listeners_of s1 ev).
    { intros ev. by apply listeners_of_frame. }
    rewrite emit_no_listeners by (by rewrite Hofb, Hof1).
    eexists. split; [done|].
    destruct (emit_started_fields "rail.module.detached"
                (VRef (length (objects sm))) sb) as (Hls & Has & Hms & _).
    split.
    - rewrite Hms. simpl. rewrite Hmx. unfold s1.
      by rewrite remove_module_listeners_modules.
    - intros event. rewrite <- Hof1, <- Hofb. by apply listeners_of_frame. }
  destruct mo as [|nm connect [h|]]; try (by apply Hfin).
  destruct (Hdis h eq_refl) as (a & b & r & -> & Hleaf).
  change (call (S (S n)) (Fn a b r) VUndef s1)
    with (call_body (emit (S n)) (call (S n)) (Fn a b r) VUndef s1).
  unfold call_body.
  destruct (exec_leaf (emit (S n)) (call (S n)) b VUndef s1 Hleaf)
    as [->|(t & _ & ->)].
  - apply Hfin; by destruct a, r as [|[| |]].
  - destruct a; apply Hfin; done.
Qed.


Lemma reconnecting_bus_ok :
  registry_ok reconnecting_bus
  /\ listeners_all adding_handler reconnecting_bus.
Proof.
  unfold reconnecting_bus. cbv zeta.
  assert (Hall : listeners_all adding_handler
                   (registered [("login", returns, Some "auth");
                                ("login", returns, Some "log");
                                ("login", returns, None)]))
    by (apply registered_listeners_all; by repeat constructor).
  pose proof (registered_ok [("login", returns, Some "auth");
                             ("login", returns, Some "log");
                             ("login", returns, None)]) as Hok.
  revert Hall Hok. generalize (registered [("login", returns, Some "auth");
                                           ("login", returns, Some "log");
                                           ("login", returns, None)]).
  intros s Hall Hok. split.
  - by apply (registry_ok_frame s).
  - by apply (listeners_all_frame _ s).
Qed.


(** What [disconnect] registers under the module's own name is not
    removed: the loop over the listeners has run by then.  After
    [detach('auth')] a record of module [auth] is in the registry. *)
Lemma detach_leaves_what_disconnect_registers :
  exists s' l,
    detach 2 "auth" reconnecting_bus = Ok true s'
    /\ l ∈ listeners_of s' "login" /\ module l = "auth".
Proof.
  destruct (detach 2 "auth" reconnecting_bus) as [b s'| |] eqn:Hd;
    [|by vm_compute in Hd..].
  assert (b = true) as -> by (vm_compute in Hd; congruence).
  exists s', (Listener returns "auth" 4).
  split; [reflexivity|]. split; [|reflexivity].
  assert (Hl : listeners_of s' "login"
               = [Listener returns "log" 2; Listener returns "anonymous" 3;
                  Listener returns "auth" 4]).
  { vm_compute in Hd. injection Hd as <-. reflexivity. }
  rewrite Hl. do 2 apply list_elem_of_further. apply list_elem_of_here.
Qed.

(** And what [disconnect] removes is gone: a callback that calls [off]
    takes away a record of another module while [detach] runs. *)
Lemma detach_disconnect_can_remove_others :
  module <$> listeners_of unsubscribing_bus "login" = ["auth"; "log"; "anonymous"]
  /\ exists s',
       detach 2 "auth" unsubscribing_bus = Ok true s'
       /\ module <$> listeners_of s' "login" = ["anonymous"].
Proof.
  split; [reflexivity|].
  destruct (detach 2 "auth" unsubscribing_bus) as [b s'| |] eqn:Hd;
    [|by vm_compute in Hd..].
  assert (b = true) as -> by (vm_compute in Hd; congruence).
  exists s'. split; [reflexivity|].
  vm_compute in Hd. injection Hd as <-. reflexivity.
Qed.
